(* ===== verification/_CoqProject ===== *)
-Q . S2P
Prelude.v
Strconv.v
Float64.v
GoErrors.v
Metrics.v
MemStorage.v
MemLock.v
Json.v
MemFile.v
GoRetry.v
Retrier.v
StoreSpec.v
Http.v
Handlers.v
Codec.v
Pem.v
SignWriter.v
CryptAndSign.v
Keygen.v
Chi.v
ChiSpec.v
Routes.v
Middleware.v
Netip.v
Server.v
StoreSim.v
Agent.v
EndToEnd.v
Grpc.v
AgentRun.v
Delivery.v
Polls.v
Fleet.v
PgDB.v
PgServer.v
PgConcurrent.v
PgReaders.v
PgProgress.v
Config.v
Sources.v
ServerRun.v
ServerExit.v
Mains.v
StaticLint.v
