(* ===== verification/Prelude.v ===== *)
(** * Verification of the monitoring server and agent

    The program collects metrics on one machine (the agent) and keeps them on another (the server).
    Gauges are binary64 numbers, counters are int64 sums of deltas.  This library models both
    programs as Rocq functions and transition systems, translated from the Go sources under [src/],
    and proves what they promise to each other and to their users.

    ** The program and its files

    - [internal/metrictypes], [internal/models], [internal/customerrors]: the types of a metric, its
      JSON form and the error values.  [Metrics], [GoErrors].
    - [internal/storage/storage.go]: the interface [StoreMetrics] (class of that name in [Metrics])
      and the store in memory.  [MemStorage] has each method as a function of the two maps;
      [MemLock] takes the methods apart into accesses under the mutex, for any number of
      goroutines; [MemFile] has [SaveToFile] and [ReadFromFile].
    - [internal/storage/pgdb.go]: the store in Postgres.  [PgDB] has each statement and method;
      [PgConcurrent] the transactions of several connections at a time, [PgProgress] whether they can wait for
      each other for ever, [PgReaders] what readers see meanwhile; [PgServer] that the store keeps
      the contract of the handlers, and what lost answers of the database do.
    - [vendor/.../go-retry], [internal/retrier]: the retry loop, its backoffs, and the wrappers
      around storage methods.  [GoRetry], [Retrier].
    - [internal/server/server.go]: the seven handlers in [Handlers]; the routes, registered with
      go-chi, in [Routes]; every route with its middlewares and the subnet gate in [Server]; [Run],
      saving, restoring, shutting down and crashing in [ServerRun] and [ServerExit].
      What the handlers need from a store is the class [AbstractStore] of [StoreSpec]; [StoreSim] compares
      a server on any such store with one on the two maps, request by request.
    - [vendor/.../go-chi/chi]: [Chi] is its radix tree (insertion and search) and its [Mux]; [ChiSpec]
      says what a search finds, as a search through the list of the tree's patterns.
    - [internal/compression], [internal/logging]: [Middleware].
    - [internal/cryptandsign]: the goroutines of the response writer that signs are in
      [SignWriter]; signatures and the encryption by parts in [CryptAndSign].  [keygen/main.go], which
      makes the key files: [Keygen].
    - [internal/agent/agent.go]: collecting, encoding and sending in [Agent]; the main loop [Run]
      with its workers and pollers in [AgentRun].
    - [internal/agentwithgrpc], [internal/server/server_grpc.go]: [Grpc].
    - [cmd/server], [cmd/agent] and the [config.go] files: [Config] and [Mains]; which source of a setting
      wins: [Sources].  [cmd/staticlint]:
      [StaticLint].
    - What these use of Go's standard library: [Strconv] (integers), [Float64] (parsing and printing
      of binary64), [Json] (encoding/json), [Http] (requests and response writers), [Codec] (hex,
      Base64, SHA-256, HMAC), [Pem] (encoding/pem), [Netip] (addresses and prefixes).

    An agent polls into its [SysMon] structures, builds a list of [Metrics] ([report]), encodes it,
    optionally encrypts and signs it, and posts it to [/updates/] (or calls [SendMetrics] over gRPC)
    with retries.  At the server the request passes the subnet gate, the log, compression, the
    signature check and decryption before the handler, which calls the store through the retrier.
    [EndToEnd] puts the two sides together, [Delivery] over a network that loses requests and answers,
    with HTTP or gRPC, and [Polls] with the agent's whole loop on one side.  [Fleet] has any number of
    agents, of either transport, and other clients with one server.

    ** How code is modelled

    A Go function becomes a function of the same name.  Effects are explicit: an operation on a
    store of states [S] has type [op S A = world S → outcome (A * world S)], where a [world] is the
    state of the store with the clock, and an [outcome] (below) tells a return from a panic,
    [log.Fatal], a goroutine that waits forever and spent fuel.  A handler takes a request and a
    world and gives the sequence of calls it makes on the [http.ResponseWriter]; a middleware that
    wraps the writer is a function on such sequences, and [respond] is what net/http sends for one.
    An [int64] is a [Z] with its wrap-around written out ([wrap64]); a [float64] is its sign,
    significand and exponent; a Go map is a [gmap]; a Go string is the [string] of its bytes.
    Concurrent code is an inductive step relation: [MemLock.step], [SignWriter.sw_step],
    [AgentRun.step], [ServerRun.step], [PgConcurrent.pool_step] with [PgReaders.reader_run]; [Fleet.fstep] composes the agents' with
    their server.

    Loops that are not structural take fuel, and theorems give the amount that suffices: digits of a
    number ([show_digits], one unit per digit, the length of its binary form is enough), JSON texts
    and escapes (the length of the text), [by_part] ([parts_fuel], one more than the length of the
    message), the eight groups of an IPv6 address ([ipv6_loop], 17 units: each turn takes a group or
    ends), PEM texts (the length of the text, [decode_loop_fuel]), the search in the radix tree (its height,
    [FindRoute_spec]) and insertion into it (the length of the pattern; [route_tree] is computed), retry loops ([Do], [DoM]: one more than the retries left, [retrier_contract]).

    ** Interfaces

    What belongs to code outside the repository, or is promised by one part to another, is a class:
    [Backoff] (go-retry's interface), [StoreMetrics] and its contract [AbstractStore] (in the
    states and for the writes it covers a store refines the two maps, or fails with an error that is not
    one of the sentinels; instances for the store in memory, which covers everything, and for Postgres, where it
    covers names that have one type each and a database that loses no answer and sorts bytewise, [Steady]),
    [Gzip] with [GzipLaws] (compress/gzip), [RSA] with [KeyPair] (crypto/rsa and the key files), [KeyTools]
    with [KeyToolsLaws] (making, marshalling and writing keys), [Router.Regexp] (package regexp in go-chi),
    [Network] with [Connected], [Reliable] or [Lossy] (resty and the network between the two programs, alone or
    with others on it; [Site] is the server's place in what the network can change), [ConnectedCall],
    [ReliableCall] and [LossyCall] (the same for gRPC), [Postgres] with [ForeignErrors] and [PostgresLaws] (the database
    server and the driver; an error says nothing about whether the statement took effect).  [Delivers] is what one call of the agent's [Send] promises to the loop around it,
    [Contract] what an agent's exchanges with the server promise to the fleet, [ReportsOk] what the store
    promises about reports, [Configured] what a program promises about its
    settings.  The witnesses instantiate
    them with concrete functions.

    ** What the theorems show

    - The whole way: [EndToEnd.report_delivered] (a report sent by an agent with matching settings
      is stored by the server and answered with 200), [Agent.report_stored] (what is stored under
      each name), [at_least_once_delivery], [acknowledged_polls_arrive] and [grpc_polls_arrive] (what has arrived
      when requests and answers can get lost), [Grpc.grpc_report_effect] and [Grpc.grpc_send_attempts];
      [store_refines_memory] (the server on any store against the server on the maps).
    - Many agents: [fleet_polls_arrive] (what the server has counted for each, an invariant of every
      interleaving) and [send_is_fleet_path] (the code's [Send], with everything that goes on around it, takes
      one of the transition system's paths).
    - Storage: [history_determines_reads], [write_then_read], [batch_is_single_writes] and
      [all_metrics_text] for the sequential methods, [store_linearizable] for concurrent callers, [restore_save]
      and [read_file_outcomes] for the file (a name that is not valid UTF-8 comes back altered, and a line of 64 KiB
      stops the reading), [restart_after_crash] for a process that dies at any moment and
      [clean_exit_keeps_metrics] for one that ends by itself, both as long as no two saves overlap, and
      [clean_exit_can_lose_metrics] for what happens otherwise, [pg_refines_maps], [pg_batch_atomic] and
      [pg_retried_writes] for Postgres, whose answers can get lost, [concurrent_counter], [first_increments_race],
      [concurrent_gauge], [concurrent_page] and [reports_never_deadlock] for its connections.
    - Retrying: [retrier_contract] (number of attempts, who is retried, what the caller gets),
      [retrier_persistent_failure], [retrier_value], [fibonacci_waits].
    - The server's answers: [update_url_effect], [update_batch_effect], [update_json_effect],
      [get_url_reply], [get_json_reply], [get_all_page] give each handler on each branch, for any store that
      keeps its contract; [http_counter_accumulates], [http_gauge_roundtrip] and
      [http_batch_roundtrip] are what a client sees; [chi_routing] and [update_route] are the routing and
      [subnet_gate] the access control.  [server_shutdown] and [run_exit_code] are the end of [Run].
    - Between client and handler: [encrypted_channel], [keygen_channel], [sign_check_gate],
      [signed_reply_all_schedules] and [write_without_header_blocks] (all interleavings of the
      writer's goroutines), [gzip_transparent], [log_matches_reply].
    - The agent's loop: [poll_accounting], [sent_is_last_report], [agent_shutdown].
    - Settings and tools: [setting_source], [main_ends_after_signal], [keygen_failure],
      [combineAllAnalyzers_spec], [osexit_reports].

    ** What is not modelled

    Listening on sockets, TLS, the connection to Postgres and its pool, the delivery of signals and the
    profiling server are calls of libraries; what the shutdown of the listeners waits for is in
    [ServerRun].  Generated code ([proto], [mocks]) is represented by the messages it is generated from.
    Closing the database ([CloseDB]) is a call of the driver.  Writing to a file that could be opened is
    taken to succeed.  In [Polls] the server has no other client; in [Delivery] and [Fleet] it has, and
    a handler is one step.  That is how the store in memory behaves ([store_linearizable]; the handler
    of a batch calls it once); with Postgres, handlers whose transactions overlap can lose increments
    ([concurrent_counter]), which a fleet's paths do not show.  In [PgConcurrent] every connection has a list of batches
    to write, any list; a batch that was rolled back and is retried is there once more.  Of go-chi, sub-routers and the functions
    that list routes are left out: the program does not use them.

    ** This file

    The outcomes, 64-bit wrap-around, sums, strings, and the shared tactics and hints. *)

From stdpp Require Export base gmap strings list numbers sorting.
From Stdlib Require Export Ascii Lia ZArith.

#[global] Set Default Goal Selector "!".

(** ** Results of Go code

    A Go function that returns normally yields [Ret]; a run-time panic
    (nil dereference, index out of range, explicit [panic]) yields [Panic];
    [log.Fatal], which ends the process, yields [Fatal]; [os.Exit] with a code, as package flag
    calls it, yields [Exited]; a goroutine that waits forever yields [Blocked].  [NoFuel] is the
    value of a loop whose fuel was too small; every loop of the development
    comes with a theorem that its own fuel never leads there. *)
Inductive outcome (A : Type) : Type :=
| Ret (a : A)
| Panic (why : string)
| Fatal (why : string)
| Exited (code : Z) (why : string)
| Blocked (why : string)
| NoFuel.
Arguments Ret {A} a.
Arguments Panic {A} why.
Arguments Fatal {A} why.
Arguments Exited {A} code why.
Arguments Blocked {A} why.
Arguments NoFuel {A}.

#[export] Instance outcome_ret : MRet outcome := λ A a, Ret a.
#[export] Instance outcome_bind : MBind outcome := λ A B f m,
  match m with
  | Ret a => f a
  | Panic s => Panic s
  | Fatal s => Fatal s
  | Exited code s => Exited code s
  | Blocked s => Blocked s
  | NoFuel => NoFuel
  end.
#[export] Instance outcome_fmap : FMap outcome := λ A B f m,
  match m with
  | Ret a => Ret (f a)
  | Panic s => Panic s
  | Fatal s => Fatal s
  | Exited code s => Exited code s
  | Blocked s => Blocked s
  | NoFuel => NoFuel
  end.

Lemma outcome_bind_Ret {A B} (m : outcome A) (f : A → outcome B) b :
  m ≫= f = Ret b ↔ ∃ a, m = Ret a ∧ f a = Ret b.
Proof. destruct m; cbn; (split; [|by intros (? & [= ->] & ?)]); eauto; done. Qed.

(** ** Hint databases and tactics *)

Create HintDb gomon.
Create Rewrite HintDb gomon.
Create Rewrite HintDb str.

(** Split the tests of a translated body: [decide], [bool_decide] and
    [match] on what is not a variable already known. *)
Ltac case_tests :=
  repeat first
    [ case_decide; simplify_eq/=
    | case_bool_decide; simplify_eq/=
    | case_match; simplify_eq/= ].

(** ** Machine integers

    Go's [int64] arithmetic wraps around; [wrap64] is the two's-complement
    reading of an integer modulo [2^64]. *)
Section Int64.
Open Scope Z_scope.

Definition min_int64 : Z := - 2 ^ 63.
Definition max_int64 : Z := 2 ^ 63 - 1.
Definition max_uint64 : Z := 2 ^ 64 - 1.

Definition is_int64 (z : Z) : Prop := min_int64 ≤ z ≤ max_int64.
#[global] Instance is_int64_dec z : Decision (is_int64 z).
Proof. unfold is_int64. apply _. Defined.

Definition wrap64 (z : Z) : Z := (z + 2 ^ 63) `mod` 2 ^ 64 - 2 ^ 63.

Lemma wrap64_range z : is_int64 (wrap64 z).
Proof.
  unfold is_int64, wrap64, min_int64, max_int64.
  pose proof (Z.mod_pos_bound (z + 2 ^ 63) (2 ^ 64)). lia.
Qed.

Lemma wrap64_id z : is_int64 z → wrap64 z = z.
Proof.
  unfold is_int64, wrap64, min_int64, max_int64. intros ?.
  rewrite Z.mod_small; lia.
Qed.

Lemma wrap64_mod z : ∃ k, wrap64 z = z + k * 2 ^ 64.
Proof.
  unfold wrap64. exists (- ((z + 2 ^ 63) `div` 2 ^ 64)).
  rewrite Z.mod_eq by lia. lia.
Qed.

Lemma wrap64_plus_mult z k : wrap64 (z + k * 2 ^ 64) = wrap64 z.
Proof.
  unfold wrap64. replace (z + k * 2 ^ 64 + 2 ^ 63) with (z + 2 ^ 63 + k * 2 ^ 64) by lia.
  by rewrite Z.mod_add by lia.
Qed.

Lemma wrap64_add_l a b : wrap64 (wrap64 a + b) = wrap64 (a + b).
Proof.
  destruct (wrap64_mod a) as [k ->].
  replace (a + k * 2 ^ 64 + b) with (a + b + k * 2 ^ 64) by lia.
  apply wrap64_plus_mult.
Qed.

Lemma wrap64_add_r a b : wrap64 (a + wrap64 b) = wrap64 (a + b).
Proof. by rewrite Z.add_comm, wrap64_add_l, Z.add_comm. Qed.

Lemma wrap64_wrap64 a : wrap64 (wrap64 a) = wrap64 a.
Proof. apply wrap64_id, wrap64_range. Qed.
(** *** Sums *)

Definition sum (l : list Z) : Z := foldr Z.add 0 l.

Lemma sum_app (l1 l2 : list Z) : sum (l1 ++ l2) = sum l1 + sum l2.
Proof. unfold sum. induction l1 as [|x l1 IH]; simpl; [done|]. rewrite IH. lia. Qed.

Lemma sum_insert (l : list Z) (i : nat) x y : l !! i = Some x → sum (<[i := y]> l) = sum l - x + y.
Proof.
  unfold sum. revert i. induction l as [|z l IH]; intros [|i] Hi; simplify_eq/=; [lia|]. rewrite (IH i Hi). lia.
Qed.
End Int64.

#[export] Hint Resolve wrap64_range : gomon.
#[export] Hint Rewrite wrap64_add_l wrap64_add_r wrap64_wrap64 : gomon.

(** ** Strings

    A Go [string] or [[]byte] is a [string] of 8-bit characters. *)
Section Strings.
(** Byte-wise order of Go strings. *)
Definition string_le (a b : string) : Prop := String.leb a b = true.
#[global] Instance string_le_dec : RelDecision string_le.
Proof. intros a b. unfold string_le. apply _. Defined.
#[global] Instance string_le_total : Total string_le.
Proof. intros a b. apply String.leb_total. Qed.
#[global] Instance string_le_antisymm : AntiSymm (=) string_le.
Proof. intros a b. apply String.leb_antisym. Qed.

Lemma string_le_cons c d a b :
  string_le (String c a) (String d b) ↔
  (Ascii.N_of_ascii c < Ascii.N_of_ascii d)%N ∨ (c = d ∧ string_le a b).
Proof.
  unfold string_le, String.leb; simpl. unfold Ascii.compare.
  destruct (N.compare_spec (Ascii.N_of_ascii c) (Ascii.N_of_ascii d)) as [He|Hl|Hg].
  - assert (c = d) as ->.
    { rewrite <- (Ascii.ascii_N_embedding c), <- (Ascii.ascii_N_embedding d). by rewrite He. }
    split; [by right|]. intros [?|[_ ?]]; [lia|done].
  - split; [by left|done].
  - split; [done|]. intros [?|[-> _]]; lia.
Qed.

#[global] Instance string_le_trans : Transitive string_le.
Proof.
  intros a. induction a as [|c a IH]; intros b d; [by destruct d|].
  destruct b as [|c' b]; [done|].
  destruct d as [|c'' d]; [done|]. rewrite !string_le_cons.
  intros [?|[-> ?]] [?|[-> ?]]; eauto with lia.
Qed.

(** [strings.HasPrefix], [strings.Contains] and [strings.Split] on a
    one-byte separator (the only kind of separator the program uses). *)
Definition HasPrefix (s prefix : string) : bool := String.prefix prefix s.

Fixpoint Contains (s sub : string) : bool :=
  HasPrefix s sub || match s with "" => false | String _ s' => Contains s' sub end.

Fixpoint Split (s : string) (sep : Ascii.ascii) : list string :=
  match s with
  | "" => [""]
  | String c s' =>
      match Split s' sep with
      | [] => [String c ""] (* not reached: Split_not_nil *)
      | w :: ws => if decide (c = sep) then "" :: w :: ws else String c w :: ws
      end
  end.

Lemma Split_not_nil s sep : Split s sep ≠ [].
Proof. destruct s; simpl; [done|]. repeat case_match; by try case_decide. Qed.

(** [sort.Strings]. *)
Definition sort_strings (l : list string) : list string := merge_sort string_le l.

Lemma sort_strings_perm l l' : l ≡ₚ l' → sort_strings l = sort_strings l'.
Proof.
  intros Hl. apply (Sorted_unique string_le).
  - apply Sorted_merge_sort, _.
  - apply Sorted_merge_sort, _.
  - unfold sort_strings. by rewrite !merge_sort_Permutation.
Qed.

Lemma sort_strings_Permutation l : sort_strings l ≡ₚ l.
Proof. apply merge_sort_Permutation. Qed.

Lemma sort_strings_Sorted l : Sorted string_le (sort_strings l).
Proof. apply Sorted_merge_sort, _. Qed.
End Strings.

(** The characters that Rocq string literals make awkward. *)
Definition nl : Ascii.ascii := "010"%char.
Definition cr : Ascii.ascii := "013"%char.
Definition dquote : Ascii.ascii := "034"%char.
Definition nl_str : string := String nl "".

(** [jq s] is [s] with every single quote turned into a double quote: readable JSON
    literals for the concrete examples. *)
Fixpoint jq (s : string) : string :=
  match s with
  | "" => ""
  | String c s' => String (if decide (c = "'"%char) then dquote else c) (jq s')
  end.

Lemma str_app_cons c (a b : string) : String c a +:+ b = String c (a +:+ b).
Proof. reflexivity. Qed.

Lemma str_app_nil_l (a : string) : "" +:+ a = a.
Proof. reflexivity. Qed.

Lemma str_app_nil_r (a : string) : a +:+ "" = a.
Proof. induction a as [|c a IH]; [done|]. rewrite str_app_cons. by rewrite IH. Qed.

Lemma str_app_assoc (a b c : string) : (a +:+ b) +:+ c = a +:+ (b +:+ c).
Proof. induction a as [|x a IH]; [done|]. rewrite !str_app_cons. by rewrite IH. Qed.

Lemma length_str_app a b : String.length (a +:+ b) = (String.length a + String.length b)%nat.
Proof. induction a as [|c a IH]; [done|]. rewrite str_app_cons. simpl. by rewrite IH. Qed.

#[export] Hint Rewrite str_app_cons str_app_nil_l str_app_nil_r str_app_assoc length_str_app : str.

(** ** Strings with a property of every character *)

Fixpoint str_all (P : Ascii.ascii → Prop) (s : string) : Prop :=
  match s with "" => True | String c s => P c ∧ str_all P s end.

Lemma str_all_app P a b : str_all P (a +:+ b) ↔ str_all P a ∧ str_all P b.
Proof. induction a as [|c a IH]; [rewrite str_app_nil_l; simpl; tauto|]. rewrite str_app_cons. simpl. tauto. Qed.

Lemma str_all_impl (P Q : Ascii.ascii → Prop) s : (∀ c, P c → Q c) → str_all P s → str_all Q s.
Proof. intros HPQ. induction s; simpl; naive_solver. Qed.
