(* ===== verification/Strconv.v ===== *)
(** * Decimal numerals of Go's standard library

    The integer part of package [strconv] as the program uses it:
    [FormatInt]/[%d]/[%v] of integers ([show_int]), [ParseInt(s, 10, 64)]
    and [Atoi] ([ParseInt], [Atoi]), [ParseBool], and the digit-string
    lemmas that the float and JSON files share. *)

From S2P Require Import Prelude.

Open Scope Z_scope.

(** ** Digits *)

Definition digit_char (d : Z) : ascii := ascii_of_N (Z.to_N (48 + d)).

Definition digit_val (c : ascii) : option Z :=
  let n := Z.of_N (N_of_ascii c) in
  if decide (48 ≤ n ≤ 57) then Some (n - 48) else None.

Definition is_digit (c : ascii) : bool := bool_decide (is_Some (digit_val c)).

Fixpoint all_digits (s : string) : bool :=
  match s with
  | "" => true
  | String c s' => is_digit c && all_digits s'
  end.

(** Value of a digit string read after the prefix value [a]; a character that
    is not a digit counts as 0 and never occurs where this is used. *)
Fixpoint digits_val (a : Z) (s : string) : Z :=
  match s with
  | "" => a
  | String c s' => digits_val (a * 10 + default 0 (digit_val c)) s'
  end.

Lemma digit_val_char d : 0 ≤ d < 10 → digit_val (digit_char d) = Some d.
Proof.
  intros ?. unfold digit_val, digit_char.
  rewrite N_ascii_embedding by lia. rewrite decide_True by lia. f_equal. lia.
Qed.

Lemma is_digit_char d : 0 ≤ d < 10 → is_digit (digit_char d) = true.
Proof. intros ?. unfold is_digit. by rewrite digit_val_char. Qed.

Lemma digit_val_range c d : digit_val c = Some d → 0 ≤ d < 10.
Proof. unfold digit_val. case_decide; [|done]. intros [= <-]. lia. Qed.

#[export] Hint Resolve digit_val_char is_digit_char digit_val_range : gomon.

Lemma all_digits_app a b : all_digits (a +:+ b) = all_digits a && all_digits b.
Proof. induction a as [|c a IH]; simpl; [done|]. by rewrite IH, andb_assoc. Qed.

Lemma digits_val_app n a b : digits_val n (a +:+ b) = digits_val (digits_val n a) b.
Proof. revert n. induction a as [|c a IH]; intros n; simpl; [done|]. apply IH. Qed.

Lemma digits_val_nonneg n s : 0 ≤ n → 0 ≤ digits_val n s.
Proof.
  revert n. induction s as [|c s IH]; intros n Hn; simpl; [done|].
  apply IH. destruct (digit_val c) as [d|] eqn:Hd; simpl; [|lia].
  apply digit_val_range in Hd. lia.
Qed.

(** ** Printing *)

Fixpoint show_digits (fuel : nat) (n : Z) (acc : string) : string :=
  match fuel with
  | O => acc
  | S fuel =>
      let acc := String (digit_char (n `mod` 10)) acc in
      if decide (n < 10) then acc else show_digits fuel (n `div` 10) acc
  end.

(** Number of digits is at most the number of bits. *)
Definition show_nonneg (n : Z) : string := show_digits (S (Z.to_nat (Z.log2 n))) n "".

Definition show_int (n : Z) : string :=
  if decide (n < 0) then String "-" (show_nonneg (- n)) else show_nonneg n.

Lemma log2_div10 n : 10 ≤ n → Z.log2 (n `div` 10) < Z.log2 n.
Proof.
  intros ?. apply Z.lt_le_trans with (Z.log2 (n `div` 10) + 1); [lia|].
  assert (0 < n `div` 10) by (apply Z.div_str_pos; lia).
  replace (Z.log2 (n `div` 10) + 1) with (Z.log2 (2 * (n `div` 10)))
    by (rewrite Z.log2_double; lia).
  apply Z.log2_le_mono. pose proof (Z.mul_div_le n 10). lia.
Qed.

Lemma digits_val_show fuel n acc :
  0 ≤ n → (Z.to_nat (Z.log2 n) < fuel)%nat →
  digits_val 0 (show_digits fuel n acc) = digits_val n acc.
Proof.
  revert n acc. induction fuel as [|fuel IH]; intros n acc Hn Hf; [lia|]. simpl.
  assert (0 ≤ n `mod` 10 < 10) by (apply Z.mod_pos_bound; lia).
  case_decide.
  - simpl. rewrite digit_val_char by done. simpl.
    by rewrite Z.mod_small by lia.
  - pose proof (log2_div10 n). pose proof (Z.log2_nonneg (n `div` 10)).
    rewrite IH; [|apply Z.div_pos; lia|lia].
    simpl. rewrite digit_val_char by done. simpl. f_equal.
    pose proof (Z.div_mod n 10). lia.
Qed.

Lemma all_digits_show fuel n acc :
  all_digits (show_digits fuel n acc) = all_digits acc.
Proof.
  revert n acc. induction fuel as [|fuel IH]; intros n acc; simpl; [done|].
  assert (0 ≤ n `mod` 10 < 10) by (apply Z.mod_pos_bound; lia).
  case_decide; [|rewrite IH]; simpl; by rewrite is_digit_char.
Qed.

Lemma show_digits_cons fuel n acc :
  ∃ c s, show_digits (S fuel) n acc = String c s ∧ is_digit c = true.
Proof.
  revert n acc. induction fuel as [|fuel IH]; intros n acc.
  - exists (digit_char (n `mod` 10)), acc. split; [simpl; by case_decide|].
    apply is_digit_char, Z.mod_pos_bound. lia.
  - remember (S fuel) as f eqn:Hf. simpl. case_decide.
    + eexists _, _. split; [done|]. apply is_digit_char, Z.mod_pos_bound. lia.
    + subst f. apply IH.
Qed.

Lemma show_nonneg_val n : 0 ≤ n → digits_val 0 (show_nonneg n) = n.
Proof. intros ?. unfold show_nonneg. rewrite digits_val_show by lia. done. Qed.

Lemma show_nonneg_digits n : all_digits (show_nonneg n) = true.
Proof. apply all_digits_show. Qed.

Lemma show_nonneg_cons n :
  ∃ c s, show_nonneg n = String c s ∧ is_digit c = true ∧ all_digits s = true.
Proof.
  destruct (show_digits_cons (Z.to_nat (Z.log2 n)) n "") as (c & s & Heq & Hc).
  exists c, s. split; [done|]. split; [done|].
  pose proof (show_nonneg_digits n) as Hd. unfold show_nonneg in Hd. rewrite Heq in Hd.
  simpl in Hd. by apply andb_true_iff in Hd as [_ ?].
Qed.

(** No leading zero. *)
Lemma show_digits_lead fuel n acc :
  0 < n → ∃ c s, show_digits (S fuel) n acc = String c s ∧ c ≠ "0"%char ∨ (fuel < Z.to_nat (Z.log2 n))%nat.
Proof.
  revert n acc. induction fuel as [|fuel IH]; intros n acc Hn.
  - destruct (decide (n < 10)) as [Hlt|].
    + exists (digit_char (n `mod` 10)), acc. left. split.
      * simpl. by rewrite decide_True.
      * rewrite Z.mod_small by lia. intros Heq. pose proof (digit_val_char n ltac:(lia)) as Hd.
        rewrite Heq in Hd. injection Hd as <-. lia.
    + exists "0"%char, "". right. pose proof (log2_div10 n). pose proof (Z.log2_nonneg (n `div` 10)). lia.
  - remember (S fuel) as f eqn:Hf. simpl. case_decide as Hlt.
    + exists (digit_char (n `mod` 10)), acc. left. split; [done|].
      rewrite Z.mod_small by lia. intros Heq. pose proof (digit_val_char n ltac:(lia)) as Hd.
      rewrite Heq in Hd. injection Hd as <-. lia.
    + subst f. destruct (IH (n `div` 10) (String (digit_char (n `mod` 10)) acc)) as (c & s & H).
      { apply Z.div_str_pos. lia. }
      exists c, s. destruct H as [?|?]; [by left|right].
      pose proof (log2_div10 n). pose proof (Z.log2_nonneg (n `div` 10)). lia.
Qed.

Lemma show_nonneg_lead n :
  0 < n → ∃ c s, show_nonneg n = String c s ∧ c ≠ "0"%char ∧ is_digit c = true ∧ all_digits s = true.
Proof.
  intros Hn. destruct (show_digits_lead (Z.to_nat (Z.log2 n)) n "" Hn) as (c & s & [[Heq Hc]|?]); [|lia].
  destruct (show_nonneg_cons n) as (c' & s' & Heq' & ? & ?).
  unfold show_nonneg in *. rewrite Heq in Heq'. simplify_eq. by exists c', s'.
Qed.

Lemma show_nonneg_0 : show_nonneg 0 = "0".
Proof. reflexivity. Qed.

(** ** Parsing *)

(** An unsigned digit string: at least one digit, nothing else. *)
Definition parse_digits (s : string) : option Z :=
  if decide (s = "") then None
  else if all_digits s then Some (digits_val 0 s) else None.

(** [strconv.ParseInt(s, 10, 64)]; [None] is any error (syntax or range). *)
Definition ParseInt (s : string) : option Z :=
  let '(neg, body) :=
    match s with
    | String c s' =>
        if decide (c = "-"%char) then (true, s')
        else if decide (c = "+"%char) then (false, s') else (false, s)
    | "" => (false, "")
    end in
  n ← parse_digits body;
  let z := if (neg : bool) then - n else n in
  if decide (is_int64 z) then Some z else None.

(** [strconv.Atoi]: [int] is 64 bits wide on the supported platforms. *)
Definition Atoi (s : string) : option Z := ParseInt s.

(** [strconv.ParseBool]. *)
Definition ParseBool (s : string) : option bool :=
  if bool_decide (s ∈ ["1"; "t"; "T"; "TRUE"; "true"; "True"]) then Some true
  else if bool_decide (s ∈ ["0"; "f"; "F"; "FALSE"; "false"; "False"]) then Some false
  else None.

Lemma parse_show_nonneg n : 0 ≤ n → parse_digits (show_nonneg n) = Some n.
Proof.
  intros ?. unfold parse_digits.
  destruct (show_nonneg_cons n) as (c & s & Heq & _ & _).
  rewrite decide_False by (by rewrite Heq).
  by rewrite show_nonneg_digits, show_nonneg_val.
Qed.

Lemma ParseInt_show n : is_int64 n → ParseInt (show_int n) = Some n.
Proof.
  intros Hn. unfold ParseInt, show_int. case_decide.
  - simpl. rewrite parse_show_nonneg by lia. simpl.
    rewrite Z.opp_involutive. by rewrite decide_True.
  - destruct (show_nonneg_cons n) as (c & s & Heq & Hc & _). rewrite Heq.
    cbv beta iota.
    rewrite (decide_False (P:=c = "-"%char)) by (intros ->; vm_compute in Hc; done).
    rewrite (decide_False (P:=c = "+"%char)) by (intros ->; vm_compute in Hc; done).
    rewrite <- Heq.
    rewrite parse_show_nonneg by lia. simpl. by rewrite decide_True.
Qed.

Lemma ParseInt_range s n : ParseInt s = Some n → is_int64 n.
Proof.
  unfold ParseInt. destruct (match s with "" => _ | _ => _ end) as [neg body].
  destruct (parse_digits body) as [k|]; simpl; [|done].
  case_decide; [|done]. by intros [= <-].
Qed.

#[export] Hint Resolve ParseInt_range : gomon.
#[export] Hint Rewrite ParseInt_show using done : gomon.

Example ParseInt_ex1 : ParseInt "-17" = Some (-17). Proof. reflexivity. Qed.
Example ParseInt_ex2 : ParseInt "9223372036854775808" = None. Proof. vm_compute. reflexivity. Qed.
Example ParseInt_ex3 : ParseInt "-9223372036854775808" = Some min_int64.
Proof. vm_compute. reflexivity. Qed.
Example ParseInt_ex4 : ParseInt "1.5" = None ∧ ParseInt "" = None ∧ ParseInt "+" = None ∧ ParseInt "+07" = Some 7.
Proof. repeat split; vm_compute; reflexivity. Qed.
