(* ===== verification/Float64.v ===== *)
(** * Binary64 numbers: rounding, parsing and printing

    Go's [float64] as sign, integer significand and exponent, with the
    correctly rounded conversion from a quotient of integers
    ([round_quot]), [strconv.ParseFloat(s, 64)] ([ParseFloat]), the shortest
    decimal of [strconv.FormatFloat(f, _, -1, 64)] ([shortest]), the ['g']
    layout that [%v] uses ([show_float]) and the layout of [encoding/json]
    ([json_float]).  The two layouts parse back to the number they print
    ([ParseFloat_show_float], [ParseFloat_json_float]). *)

From S2P Require Import Prelude Strconv.

Open Scope Z_scope.

(** All NaN payloads are one value, as for every operation of the program. *)
Inductive float64 : Type :=
| FNaN
| FInf (neg : bool)
| FFin (neg : bool) (m e : Z).  (* (-1)^neg * m * 2^e *)

#[export] Instance float64_eq_dec : EqDecision float64.
Proof. solve_decision. Defined.

Definition emin : Z := -1074.
Definition emax : Z := 971.

(** The significand has 53 bits, except below the normal range. *)
Definition canonical (f : float64) : Prop :=
  match f with
  | FFin _ m e => 0 ≤ m < 2 ^ 53 ∧ emin ≤ e ≤ emax ∧ (e = emin ∨ 2 ^ 52 ≤ m)
  | _ => True
  end.
#[export] Instance canonical_dec f : Decision (canonical f).
Proof. destruct f; simpl; apply _. Defined.

Definition is_finite (f : float64) : bool :=
  match f with FFin _ _ _ => true | _ => false end.

Definition fzero : float64 := FFin false 0 emin.

(** ** Rounding a quotient to the nearest, ties to even *)

Definition round_half_even (n d : Z) : Z :=
  let q := n `div` d in
  let r := n `mod` d in
  if decide (2 * r < d) then q
  else if decide (d < 2 * r) then q + 1
  else if Z.even q then q else q + 1.

(** [p / (q * 2^e)] as a quotient of integers. *)
Definition scale_num (e p : Z) : Z := p * 2 ^ Z.max 0 (- e).
Definition scale_den (e q : Z) : Z := q * 2 ^ Z.max 0 e.

(** The [k] with [2^k <= p/q < 2^(k+1)]. *)
Definition quot_log2 (p q : Z) : Z :=
  let k := Z.log2 p - Z.log2 q in
  if decide (scale_num k p < scale_den k q) then k - 1 else k.

Definition quot_exp (p q : Z) : Z := Z.max emin (quot_log2 p q - 52).

Definition round_quot (neg : bool) (p q : Z) : float64 :=
  let e := quot_exp p q in
  let m := round_half_even (scale_num e p) (scale_den e q) in
  let '(m, e) := if decide (m = 2 ^ 53) then (2 ^ 52, e + 1) else (m, e) in
  if decide (emax < e) then FInf neg else FFin neg m e.

(** [m * 10^k]. *)
Definition round_dec (neg : bool) (m k : Z) : float64 :=
  if decide (m = 0) then FFin neg 0 emin
  else if decide (0 ≤ k) then round_quot neg (m * 10 ^ k) 1
  else round_quot neg m (10 ^ (- k)).

(** [float64(n)] of an unsigned machine integer. *)
Definition float_of_Z (n : Z) : float64 :=
  if decide (n = 0) then fzero
  else if decide (0 < n) then round_quot false n 1 else round_quot true (- n) 1.

(** *** A canonical number is its own rounding *)

Lemma round_half_even_exact m d : 0 < d → round_half_even (m * d) d = m.
Proof.
  intros ?. unfold round_half_even.
  rewrite Z.div_mul, Z.mod_mul by lia. by rewrite decide_True by lia.
Qed.

Lemma pow2_pos k : 0 < 2 ^ Z.max 0 k.
Proof. apply Z.pow_pos_nonneg; lia. Qed.

(** Moving to a common exponent: both scalings are [p * 2^b] and
    [q * 2^(e+b)] up to a common factor. *)
Lemma scale_common e b :
  0 ≤ b → 0 ≤ e + b →
  ∃ c, 0 < c ∧ (∀ p, p * 2 ^ b = scale_num e p * c) ∧
       (∀ q, q * 2 ^ (e + b) = scale_den e q * c).
Proof.
  intros ??. exists (2 ^ (b - Z.max 0 (- e))). split; [apply Z.pow_pos_nonneg; lia|].
  unfold scale_num, scale_den. split.
  - intros p. rewrite <- Z.mul_assoc, <- Z.pow_add_r by lia. do 2 f_equal. lia.
  - intros q. rewrite <- Z.mul_assoc, <- Z.pow_add_r by lia. do 2 f_equal. lia.
Qed.

(** [k] is the binary logarithm of [p/q]. *)
Definition is_quot_log2 (p q k : Z) : Prop :=
  scale_den k q ≤ scale_num k p ∧ scale_num (k + 1) p < scale_den (k + 1) q.

Lemma is_quot_log2_common p q k b :
  0 ≤ b → 0 ≤ k + b → is_quot_log2 p q k →
  q * 2 ^ (k + b) ≤ p * 2 ^ b < q * 2 ^ (k + 1 + b).
Proof.
  intros ?? [H1 H2].
  destruct (scale_common k b) as (c & Hc & Hp & Hq); [lia..|].
  destruct (scale_common (k + 1) b) as (c' & Hc' & Hp' & Hq'); [lia..|].
  split.
  - rewrite Hp, Hq. by apply Z.mul_le_mono_pos_r.
  - rewrite Hp', Hq'. by apply Z.mul_lt_mono_pos_r.
Qed.

Lemma is_quot_log2_unique p q k k' :
  0 < q → is_quot_log2 p q k → is_quot_log2 p q k' → k = k'.
Proof.
  intros Hq H1 H2. set (b := Z.abs k + Z.abs k' + 1).
  apply (is_quot_log2_common _ _ _ b) in H1; [|lia..].
  apply (is_quot_log2_common _ _ _ b) in H2; [|lia..].
  destruct (Z.lt_trichotomy k k') as [Hlt|[?|Hlt]]; [|done|]; exfalso.
  - assert (2 ^ (k + 1 + b) ≤ 2 ^ (k' + b)) by (apply Z.pow_le_mono_r; lia). nia.
  - assert (2 ^ (k' + 1 + b) ≤ 2 ^ (k + b)) by (apply Z.pow_le_mono_r; lia). nia.
Qed.

Lemma quot_log2_spec p q : 0 < p → 0 < q → is_quot_log2 p q (quot_log2 p q).
Proof.
  intros Hp Hq. unfold quot_log2, is_quot_log2.
  set (k := Z.log2 p - Z.log2 q).
  pose proof (Z.log2_spec p Hp) as [Hp1 Hp2]. pose proof (Z.log2_spec q Hq) as [Hq1 Hq2].
  pose proof (Z.log2_nonneg p). pose proof (Z.log2_nonneg q).
  rewrite <- Z.add_1_r in Hp2, Hq2.
  (* everything at the common exponent b = log2 q + 1 *)
  set (b := Z.log2 q + 1).
  destruct (scale_common k b) as (c & Hc & Hn & Hd); [lia..|].
  destruct (scale_common (k + 1) b) as (c1 & Hc1 & Hn1 & Hd1); [lia..|].
  destruct (scale_common (k - 1) b) as (c0 & Hc0 & Hn0 & Hd0); [lia..|].
  assert (Hup : p * 2 ^ b < q * 2 ^ (k + 1 + b)).
  { apply Z.lt_le_trans with (2 ^ (Z.log2 p + 1) * 2 ^ b).
    - apply Z.mul_lt_mono_pos_r; [apply Z.pow_pos_nonneg; lia|done].
    - rewrite <- Z.pow_add_r by lia.
      apply Z.le_trans with (2 ^ Z.log2 q * 2 ^ (k + 1 + b)).
      + rewrite <- Z.pow_add_r by lia. apply Z.pow_le_mono_r; lia.
      + apply Z.mul_le_mono_nonneg_r; [|done]. apply Z.pow_nonneg; lia. }
  assert (Hlow : q * 2 ^ (k - 1 + b) ≤ p * 2 ^ b).
  { apply Z.le_trans with (2 ^ (Z.log2 q + 1) * 2 ^ (k - 1 + b)).
    - apply Z.mul_le_mono_nonneg_r; [apply Z.pow_nonneg; lia|lia].
    - rewrite <- Z.pow_add_r by lia.
      apply Z.le_trans with (2 ^ Z.log2 p * 2 ^ b).
      + rewrite <- Z.pow_add_r by lia. apply Z.pow_le_mono_r; lia.
      + apply Z.mul_le_mono_nonneg_r; [|done]. apply Z.pow_nonneg; lia. }
  rewrite Hn1, Hd1 in Hup. apply Z.mul_lt_mono_pos_r in Hup; [|done].
  rewrite Hn0, Hd0 in Hlow. apply Z.mul_le_mono_pos_r in Hlow; [|done].
  case_decide; [|split; [lia|done]].
  replace (k - 1 + 1) with k by lia. done.
Qed.

(** The quotient [p/q] is exactly [m * 2^e]. *)
Definition quot_is (p q m e : Z) : Prop := scale_num e p = m * scale_den e q.

Lemma quot_is_log2 p q m e :
  0 < m → 0 < q → quot_is p q m e → is_quot_log2 p q (Z.log2 m + e).
Proof.
  intros Hm Hq Heq. unfold quot_is in Heq.
  pose proof (Z.log2_spec m Hm) as [H1 H2]. rewrite <- Z.add_1_r in H2.
  pose proof (Z.log2_nonneg m).
  set (b := Z.abs e + 1).
  destruct (scale_common e b) as (c & Hc & Hn & Hd); [lia..|].
  assert (Hpm : p * 2 ^ b = m * (q * 2 ^ (e + b))) by (rewrite Hn, Hd, Heq; lia).
  assert (0 < q * 2 ^ (e + b)).
  { apply Z.mul_pos_pos; [done|]. apply Z.pow_pos_nonneg; lia. }
  destruct (scale_common (Z.log2 m + e) b) as (c1 & Hc1 & Hn1 & Hd1); [lia..|].
  destruct (scale_common (Z.log2 m + e + 1) b) as (c2 & Hc2 & Hn2 & Hd2); [lia..|].
  split.
  - apply (Z.mul_le_mono_pos_r _ _ c1); [done|]. rewrite <- Hn1, <- Hd1, Hpm.
    replace (Z.log2 m + e + b) with (Z.log2 m + (e + b)) by lia.
    rewrite Z.pow_add_r by lia.
    replace (q * (2 ^ Z.log2 m * 2 ^ (e + b)))
      with (2 ^ Z.log2 m * (q * 2 ^ (e + b))) by ring.
    by apply Z.mul_le_mono_pos_r.
  - apply (Z.mul_lt_mono_pos_r c2); [done|]. rewrite <- Hn2, <- Hd2, Hpm.
    replace (Z.log2 m + e + 1 + b) with (Z.log2 m + 1 + (e + b)) by lia.
    rewrite (Z.pow_add_r 2 (Z.log2 m + 1)) by lia.
    replace (q * (2 ^ (Z.log2 m + 1) * 2 ^ (e + b)))
      with (2 ^ (Z.log2 m + 1) * (q * 2 ^ (e + b))) by ring.
    by apply Z.mul_lt_mono_pos_r.
Qed.

Lemma scale_den_pos e q : 0 < q → 0 < scale_den e q.
Proof. intros ?. apply Z.mul_pos_pos; [done|apply pow2_pos]. Qed.

Lemma round_quot_exact neg p q m e :
  0 < m → 0 < p → 0 < q → canonical (FFin neg m e) → quot_is p q m e →
  round_quot neg p q = FFin neg m e.
Proof.
  intros Hm Hp Hq (Hm2 & He & Hcan) Heq.
  assert (Hk : quot_log2 p q = Z.log2 m + e).
  { apply (is_quot_log2_unique p q); [done|by apply quot_log2_spec|by apply quot_is_log2]. }
  assert (Hlog : Z.log2 m < 53) by (apply Z.log2_lt_pow2; lia).
  assert (He' : quot_exp p q = e).
  { unfold quot_exp. rewrite Hk. destruct Hcan as [->|Hn]; [unfold emin in *; lia|].
    assert (52 ≤ Z.log2 m) by (apply Z.log2_le_pow2; lia). unfold emin in *. lia. }
  unfold round_quot. rewrite He', Heq, round_half_even_exact by by apply scale_den_pos.
  rewrite decide_False by lia. by rewrite decide_False by (unfold emax in *; lia).
Qed.

(** *** Rounding yields canonical numbers *)

Lemma round_half_even_bounds n d a b :
  0 < d → a * d ≤ n ≤ b * d → a ≤ round_half_even n d ≤ b.
Proof.
  intros Hd [Ha Hb]. unfold round_half_even.
  pose proof (Z.div_mod n d ltac:(lia)). pose proof (Z.mod_pos_bound n d Hd).
  assert (a ≤ n `div` d) by (apply Z.div_le_lower_bound; lia).
  destruct (decide (n = b * d)) as [->|].
  - rewrite Z.div_mul, Z.mod_mul in * by lia. rewrite decide_True by lia. lia.
  - assert (n `div` d < b) by (apply Z.div_lt_upper_bound; lia).
    repeat case_decide; try case_match; lia.
Qed.

Lemma quot_scaled_bounds p q :
  0 < p → 0 < q →
  let e := quot_exp p q in
  scale_num e p ≤ 2 ^ 53 * scale_den e q ∧
  (e = emin ∨ 2 ^ 52 * scale_den e q ≤ scale_num e p).
Proof.
  intros Hp Hq e. set (k := quot_log2 p q). set (b := Z.abs k + Z.abs e + 100).
  pose proof (is_quot_log2_common p q k b ltac:(lia) ltac:(lia) (quot_log2_spec p q Hp Hq)) as [Hlo Hhi].
  destruct (scale_common e b) as (c & Hc & Hn & Hd); [lia..|].
  assert (He : e = Z.max emin (k - 52)) by done.
  split.
  - apply (Z.mul_le_mono_pos_r _ _ c); [done|]. rewrite <- Z.mul_assoc, <- Hn, <- Hd.
    apply Z.le_trans with (q * 2 ^ (k + 1 + b)); [lia|].
    replace (2 ^ 53 * (q * 2 ^ (e + b))) with (q * (2 ^ 53 * 2 ^ (e + b))) by ring.
    rewrite <- Z.pow_add_r by lia. apply Z.mul_le_mono_nonneg_l; [lia|].
    apply Z.pow_le_mono_r; lia.
  - destruct (decide (e = emin)) as [?|Hne]; [by left|right].
    apply (Z.mul_le_mono_pos_r _ _ c); [done|]. rewrite <- Z.mul_assoc, <- Hn, <- Hd.
    replace (2 ^ 52 * (q * 2 ^ (e + b))) with (q * (2 ^ 52 * 2 ^ (e + b))) by ring.
    rewrite <- Z.pow_add_r by lia. by replace (52 + (e + b)) with (k + b) by lia.
Qed.

Lemma scale_num_nonneg e p : 0 ≤ p → 0 ≤ scale_num e p.
Proof. intros ?. unfold scale_num. apply Z.mul_nonneg_nonneg; [done|apply Z.pow_nonneg; lia]. Qed.

Lemma round_quot_canonical neg p q : 0 < p → 0 < q → canonical (round_quot neg p q).
Proof.
  intros Hp Hq. destruct (quot_scaled_bounds p q Hp Hq) as [Hhi Hlo].
  unfold round_quot. set (e := quot_exp p q) in *.
  assert (emin ≤ e) by (unfold e, quot_exp; lia).
  pose proof (scale_den_pos e q Hq). pose proof (scale_num_nonneg e p ltac:(lia)).
  set (m := round_half_even _ _).
  assert (0 ≤ m ≤ 2 ^ 53) by (apply round_half_even_bounds; [done|lia]).
  assert (e = emin ∨ 2 ^ 52 ≤ m) as Hm.
  { destruct Hlo as [?|?]; [by left|right]. apply (round_half_even_bounds _ _ _ (2 ^ 53)); [done|lia]. }
  case_decide; case_decide; simpl; [done| |done|]; unfold emin in *; lia.
Qed.

Lemma round_dec_canonical neg m k : 0 ≤ m → canonical (round_dec neg m k).
Proof.
  intros ?. unfold round_dec. case_decide; [by simpl; unfold emin, emax; lia|].
  assert (∀ j, 0 ≤ j → 0 < 10 ^ j) as Hpow by (intros; apply Z.pow_pos_nonneg; lia).
  case_decide.
  - pose proof (Hpow k ltac:(lia)). apply round_quot_canonical; lia.
  - pose proof (Hpow (- k) ltac:(lia)). apply round_quot_canonical; lia.
Qed.

Lemma float_of_Z_canonical n : canonical (float_of_Z n).
Proof.
  unfold float_of_Z. repeat case_decide; [by simpl; unfold emin, emax; lia|by apply round_quot_canonical|].
  apply round_quot_canonical; lia.
Qed.

(** ** Parsing *)

Definition lower (c : ascii) : ascii :=
  let n := N_of_ascii c in
  if decide (65 ≤ n ≤ 90)%N then ascii_of_N (n + 32) else c.

Fixpoint lower_str (s : string) : string :=
  match s with "" => "" | String c s' => String (lower c) (lower_str s') end.

(** [special] of strconv: infinities and NaN in any case. *)
Definition special (s : string) : option float64 :=
  let l := lower_str s in
  if bool_decide (l ∈ ["inf"; "+inf"; "infinity"; "+infinity"]) then Some (FInf false)
  else if bool_decide (l ∈ ["-inf"; "-infinity"]) then Some (FInf true)
  else if bool_decide (l = "nan") then Some FNaN
  else None.

Definition take_sign (s : string) : bool * string :=
  match s with
  | String c s' =>
      if decide (c = "-"%char) then (true, s')
      else if decide (c = "+"%char) then (false, s') else (false, s)
  | "" => (false, "")
  end.

Definition strip_hex (s : string) : bool * string :=
  match s with
  | String c (String x s') =>
      if decide (c = "0"%char ∧ lower x = "x"%char) then (true, s') else (false, s)
  | _ => (false, s)
  end.

Definition hex_val (c : ascii) : option Z :=
  match digit_val c with
  | Some d => Some d
  | None =>
      let n := Z.of_N (N_of_ascii (lower c)) in
      if decide (97 ≤ n ≤ 102) then Some (n - 87) else None
  end.

(** The significand loop of [readFloat]: value, number of digits after the
    point, whether a digit was seen, and what is left. *)
Fixpoint scan_mant (hex : bool) (s : string) (mant frac : Z) (dot seen : bool) :
    Z * Z * bool * string :=
  match s with
  | "" => (mant, frac, seen, "")
  | String c s' =>
      if decide (c = "_"%char) then scan_mant hex s' mant frac dot seen
      else if decide (c = "."%char) then
        if dot then (mant, frac, seen, s) else scan_mant hex s' mant frac true seen
      else match (if hex then hex_val c else digit_val c) with
           | Some d =>
               scan_mant hex s' (mant * (if hex then 16 else 10) + d)
                 (if dot then frac + 1 else frac) dot true
           | None => (mant, frac, seen, s)
           end
  end.

Fixpoint exp_digits (s : string) (e : Z) : Z * string :=
  match s with
  | "" => (e, "")
  | String c s' =>
      if decide (c = "_"%char) then exp_digits s' e
      else match digit_val c with
           | Some d => exp_digits s' (if decide (e < 10000) then e * 10 + d else e)
           | None => (e, s)
           end
  end.

Definition scan_exp (hex : bool) (s : string) : option Z :=
  match s with
  | "" => if hex then None else Some 0
  | String c s' =>
      if decide (lower c = (if hex then "p" else "e")%char) then
        let '(neg, t) := take_sign s' in
        match t with
        | "" => None
        | String d _ =>
            if is_digit d then
              let '(x, rest) := exp_digits t 0 in
              if decide (rest = "") then Some (if (neg : bool) then - x else x) else None
            else None
        end
      else None
  end.

Fixpoint has_underscore (s : string) : bool :=
  match s with
  | "" => false
  | String c s' => bool_decide (c = "_"%char) || has_underscore s'
  end.

(** [underscoreOK]: every underscore sits between digits (a base prefix
    counts as a digit); [saw] is the class of the previous character. *)
Fixpoint underscore_loop (hex : bool) (s : string) (saw : ascii) : bool :=
  match s with
  | "" => bool_decide (saw ≠ "_"%char)
  | String c s' =>
      if is_digit c || (hex && bool_decide (is_Some (hex_val c))) then underscore_loop hex s' "0"
      else if decide (c = "_"%char) then
        if decide (saw = "0"%char) then underscore_loop hex s' "_" else false
      else if decide (saw = "_"%char) then false else underscore_loop hex s' "!"
  end.

Definition underscore_ok (s : string) : bool :=
  let s1 := (take_sign s).2 in
  match s1 with
  | String z (String b s2) =>
      if decide (z = "0"%char ∧ lower b ∈ ["b"; "o"; "x"]%char)
      then underscore_loop (bool_decide (lower b = "x"%char)) s2 "0"
      else underscore_loop false s1 "^"
  | _ => underscore_loop false s1 "^"
  end.

(** [m * 2^k]. *)
Definition round_bin (neg : bool) (m k : Z) : float64 :=
  if decide (m = 0) then FFin neg 0 emin
  else round_quot neg (m * 2 ^ Z.max 0 k) (2 ^ Z.max 0 (- k)).

(** [strconv.ParseFloat(s, 64)]; [None] is any error, overflow included. *)
Definition ParseFloat (s : string) : option float64 :=
  match special s with
  | Some f => Some f
  | None =>
      let '(neg, s1) := take_sign s in
      let '(hex, s2) := strip_hex s1 in
      let '(mant, frac, seen, s3) := scan_mant hex s2 0 0 false false in
      if (seen : bool) then
        match scan_exp hex s3 with
        | None => None
        | Some x =>
            if has_underscore s && negb (underscore_ok s) then None
            else
              let f := if (hex : bool) then round_bin neg mant (x - 4 * frac)
                       else round_dec neg mant (x - frac) in
              if is_finite f then Some f else None
        end
      else None
  end.

Example ParseFloat_ex1 : ParseFloat "0.1" = Some (FFin false 7205759403792794 (-56)).
Proof. vm_compute. reflexivity. Qed.
Example ParseFloat_ex2 : ParseFloat "1e400" = None ∧ ParseFloat "abc" = None ∧ ParseFloat "" = None
  ∧ ParseFloat "." = None ∧ ParseFloat "-.5e1" = ParseFloat "-5" ∧ ParseFloat "-Inf" = Some (FInf true)
  ∧ ParseFloat "+nan" = None ∧ ParseFloat "0x1p-2" = ParseFloat "0.25" ∧ ParseFloat "0x1" = None
  ∧ ParseFloat "1_0" = ParseFloat "10" ∧ ParseFloat "1__0" = None ∧ ParseFloat "1e-400" = Some fzero.
Proof. vm_compute. done. Qed.
Example ParseFloat_ex3 : ParseFloat "4.9406564584124654e-324" = Some (FFin false 1 emin)
  ∧ ParseFloat "1.7976931348623157e308" = Some (FFin false (2 ^ 53 - 1) emax)
  ∧ ParseFloat "1.7976931348623159e308" = None ∧ ParseFloat "9007199254740993" = ParseFloat "9007199254740992".
Proof. vm_compute. done. Qed.

(** ** Shortest decimal *)

Fixpoint strip_zeros (fuel : nat) (d k : Z) : Z * Z :=
  match fuel with
  | O => (d, k)
  | S fuel => if decide (d `mod` 10 = 0) then strip_zeros fuel (d `div` 10) (k + 1) else (d, k)
  end.

Definition num_digits (n : Z) : Z := Z.of_nat (String.length (show_nonneg n)).

(** The [dp] with [10^(dp-1) <= p/q < 10^dp]. *)
Definition decimal_point (p q : Z) : Z :=
  let k := num_digits p - num_digits q in
  if decide (q * 10 ^ Z.max 0 k ≤ p * 10 ^ Z.max 0 (- k)) then k + 1 else k.

(** Does the decimal [d * 10^k] read back as [f], with a decimal exponent of
    at most four digits? *)
Definition small_exp (dk : Z * Z) : Prop := Z.abs (num_digits dk.1 + dk.2 - 1) < 10000.
#[export] Instance small_exp_dec dk : Decision (small_exp dk).
Proof. unfold small_exp. apply _. Defined.
Definition reads_back (f : float64) (neg : bool) (dk : Z * Z) : bool :=
  bool_decide (0 < dk.1 ∧ small_exp dk ∧ round_dec neg dk.1 dk.2 = f).

(** The [n]-digit decimals around [m * 2^e] that read back as it, closest first. *)
Definition shortest_at (neg : bool) (m e : Z) (n : Z) : option (Z * Z) :=
  let p := m * 2 ^ Z.max 0 e in
  let q := 2 ^ Z.max 0 (- e) in
  let k := decimal_point p q - n in
  let num := p * 10 ^ Z.max 0 (- k) in
  let den := q * 10 ^ Z.max 0 k in
  let lo := strip_zeros 17 (num `div` den) k in
  let hi := strip_zeros 17 (num `div` den + 1) k in
  let f := FFin neg m e in
  let near_lo := bool_decide (2 * (num `mod` den) ≤ den) in
  if near_lo && reads_back f neg lo then Some lo
  else if reads_back f neg hi then Some hi
  else if reads_back f neg lo then Some lo
  else None.

(** All digits of [m * 2^e]: a finite decimal expansion always exists. *)
Definition exact_decimal (m e : Z) : Z * Z :=
  if decide (0 ≤ e) then (m * 2 ^ e, 0) else (m * 5 ^ (- e), e).

Fixpoint first_some {A} (f : Z → option A) (l : list Z) : option A :=
  match l with
  | [] => None
  | n :: l => match f n with Some a => Some a | None => first_some f l end
  end.

Definition shortest (neg : bool) (m e : Z) : Z * Z :=
  default (exact_decimal m e) (first_some (shortest_at neg m e) (seqZ 1 17)).

Lemma first_some_Some {A} (f : Z → option A) l a :
  first_some f l = Some a → ∃ n, f n = Some a.
Proof. induction l as [|n l IH]; simpl; [done|]. case_match; naive_solver. Qed.

Lemma shortest_at_reads neg m e n dk :
  shortest_at neg m e n = Some dk → reads_back (FFin neg m e) neg dk = true.
Proof.
  unfold shortest_at.
  set (hi := strip_zeros _ (_ + 1) _). set (lo := strip_zeros _ _ _).
  destruct (reads_back _ neg lo) eqn:Hlo, (reads_back _ neg hi) eqn:Hhi;
    rewrite ?andb_true_r, ?andb_false_r; repeat case_match; intros [= <-]; done.
Qed.

Lemma length_show_digits fuel n acc :
  (String.length (show_digits fuel n acc) ≤ fuel + String.length acc)%nat.
Proof.
  revert n acc. induction fuel as [|fuel IH]; intros n acc; simpl; [lia|].
  case_decide; simpl; [lia|]. etrans; [apply IH|]. simpl. lia.
Qed.

Lemma num_digits_bound n b : 0 < n → n < 2 ^ b → 1 ≤ num_digits n ≤ b.
Proof.
  intros Hn Hb. unfold num_digits. split.
  - destruct (show_nonneg_cons n) as (c & s & -> & _). simpl String.length. lia.
  - unfold show_nonneg. pose proof (length_show_digits (S (Z.to_nat (Z.log2 n))) n "") as H.
    simpl (String.length "") in H.
    destruct (decide (0 ≤ b)); [|rewrite Z.pow_neg_r in Hb by lia; lia].
    pose proof (Z.log2_nonneg n). assert (Z.log2 n < b) by (apply Z.log2_lt_pow2; lia). lia.
Qed.

Lemma exact_decimal_small_exp neg m e :
  0 < m → canonical (FFin neg m e) → small_exp (exact_decimal m e).
Proof.
  intros Hm (Hm2 & He & _). unfold small_exp, exact_decimal, emin, emax in *.
  case_decide; simpl.
  - assert (0 < 2 ^ e) by (apply Z.pow_pos_nonneg; lia).
    pose proof (num_digits_bound (m * 2 ^ e) (53 + e)) as Hd.
    rewrite Z.pow_add_r in Hd by lia. specialize (Hd ltac:(lia) ltac:(nia)). lia.
  - assert (0 < 5 ^ (- e)) by (apply Z.pow_pos_nonneg; lia).
    assert (5 ^ (- e) ≤ 8 ^ (- e)) by (apply Z.pow_le_mono_l; lia).
    pose proof (num_digits_bound (m * 5 ^ (- e)) (53 + 3 * (- e))) as Hd.
    rewrite Z.pow_add_r, Z.pow_mul_r in Hd by lia. change (2 ^ 3) with 8 in Hd.
    specialize (Hd ltac:(lia) ltac:(nia)). lia.
Qed.

Lemma exact_decimal_round neg m e :
  0 < m → canonical (FFin neg m e) →
  0 < (exact_decimal m e).1 ∧
  round_dec neg (exact_decimal m e).1 (exact_decimal m e).2 = FFin neg m e.
Proof.
  intros Hm Hcan. unfold exact_decimal, round_dec. case_decide as He; simpl.
  - assert (0 < 2 ^ e) by (apply Z.pow_pos_nonneg; lia).
    assert (0 < m * 2 ^ e) by lia.
    split; [done|]. rewrite decide_False by lia.
    apply round_quot_exact; [done|lia|lia|done|].
    unfold quot_is, scale_num, scale_den. rewrite Z.max_l, Z.max_r by lia.
    simpl Z.pow. lia.
  - assert (0 < 5 ^ (- e)) by (apply Z.pow_pos_nonneg; lia).
    assert (0 < 10 ^ (- e)) by (apply Z.pow_pos_nonneg; lia).
    assert (0 < m * 5 ^ (- e)) by lia.
    split; [done|]. rewrite decide_False by lia. rewrite decide_False by lia.
    apply round_quot_exact; [done|lia|lia|done|].
    unfold quot_is, scale_num, scale_den. rewrite Z.max_r, Z.max_l by lia.
    replace 10 with (5 * 2) by done. rewrite Z.pow_mul_l. simpl (2 ^ 0). lia.
Qed.

Lemma shortest_round neg m e :
  0 < m → canonical (FFin neg m e) →
  0 < (shortest neg m e).1 ∧ small_exp (shortest neg m e) ∧
  round_dec neg (shortest neg m e).1 (shortest neg m e).2 = FFin neg m e.
Proof.
  intros Hm Hcan. unfold shortest.
  destruct (first_some _ _) as [dk|] eqn:Hf; simpl.
  - apply first_some_Some in Hf as [n Hn]. apply shortest_at_reads in Hn.
    by apply bool_decide_eq_true in Hn.
  - destruct (exact_decimal_round neg m e Hm Hcan).
    split_and!; [done|by eapply exact_decimal_small_exp|done].
Qed.

(** ** Layouts *)

Fixpoint str_take (n : nat) (s : string) : string :=
  match n, s with S n, String c s' => String c (str_take n s') | _, _ => "" end.
Fixpoint str_drop (n : nat) (s : string) : string :=
  match n, s with S n, String _ s' => str_drop n s' | _, _ => s end.
Fixpoint zeros (n : nat) : string :=
  match n with O => "" | S n => String "0" (zeros n) end.

(** [%f] with the digits [ds] and the decimal point after [dp] of them. *)
Definition layout_f (ds : string) (dp : Z) : string :=
  let nd := Z.of_nat (String.length ds) in
  if decide (dp ≤ 0) then "0." +:+ zeros (Z.to_nat (- dp)) +:+ ds
  else if decide (dp < nd) then str_take (Z.to_nat dp) ds +:+ "." +:+ str_drop (Z.to_nat dp) ds
  else ds +:+ zeros (Z.to_nat (dp - nd)).

(** [%e]; [pad] asks for two exponent digits at least. *)
Definition layout_e (pad : bool) (ds : string) (dp : Z) : string :=
  let x := dp - 1 in
  let ex := show_nonneg (Z.abs x) in
  str_take 1 ds +:+
  (if decide (str_drop 1 ds = "") then "" else "." +:+ str_drop 1 ds) +:+
  (if decide (x < 0) then "e-" else "e+") +:+
  (if (pad && bool_decide (Z.abs x < 10)) then "0" +:+ ex else ex).

Definition sign_str (neg : bool) : string := if neg then "-" else "".

(** [%v] of a [float64]: ['g'] layout, shortest digits. *)
Definition show_float (f : float64) : string :=
  match f with
  | FNaN => "NaN"
  | FInf neg => if neg then "-Inf" else "+Inf"
  | FFin neg m e =>
      if decide (m = 0) then sign_str neg +:+ "0"
      else
        let '(d, k) := shortest neg m e in
        let ds := show_nonneg d in
        let dp := Z.of_nat (String.length ds) + k in
        sign_str neg +:+
        (if decide (dp - 1 < -4 ∨ 6 ≤ dp - 1)
         then layout_e true ds dp else layout_f ds dp)
  end.

(** Order of canonical positive numbers. *)
Definition fpos_lt (m1 e1 m2 e2 : Z) : Prop := e1 < e2 ∨ (e1 = e2 ∧ m1 < m2).
#[export] Instance fpos_lt_dec m1 e1 m2 e2 : Decision (fpos_lt m1 e1 m2 e2).
Proof. unfold fpos_lt. apply _. Defined.

(** [floatEncoder] of [encoding/json]: [None] is the unsupported-value error
    of NaN and infinities.  The bounds are the constants 1e-6 and 1e21. *)
Definition json_float (f : float64) : option string :=
  match f with
  | FFin neg m e =>
      Some (if decide (m = 0) then sign_str neg +:+ "0"
            else
              let '(d, k) := shortest neg m e in
              let ds := show_nonneg d in
              let dp := Z.of_nat (String.length ds) + k in
              sign_str neg +:+
              (if decide (fpos_lt m e 4722366482869645 (-72)
                          ∨ ¬ fpos_lt m e 7629394531250000 17)
               then layout_e false ds dp else layout_f ds dp))
  | _ => None
  end.

Example json_float_bounds :
  ParseFloat "1e-6" = Some (FFin false 4722366482869645 (-72)) ∧
  ParseFloat "1e21" = Some (FFin false 7629394531250000 17).
Proof. vm_compute. done. Qed.
Example show_float_ex :
  show_float <$> omap ParseFloat ["0.1"; "1e6"; "123456"; "5e-324"; "123456789.5"; "0.00001"; "-0"]
  = ["0.1"; "1e+06"; "123456"; "5e-324"; "1.234567895e+08"; "1e-05"; "-0"].
Proof. vm_compute. reflexivity. Qed.
Example json_float_ex :
  omap json_float (omap ParseFloat ["1e21"; "1e20"; "1e-7"; "0.000001"; "123.25e-2"; "NaN"])
  = ["1e+21"; "100000000000000000000"; "1e-7"; "0.000001"; "1.2325"].
Proof. vm_compute. reflexivity. Qed.

(** ** The layouts parse back *)

(** The characters that select the special forms of [ParseFloat]. *)
Definition plain_char (c : ascii) : bool :=
  negb (bool_decide (c = "_"%char)) && negb (bool_decide (lower c ∈ ["n"; "x"]%char)).

Fixpoint plain (s : string) : bool :=
  match s with "" => true | String c s' => plain_char c && plain s' end.

Lemma plain_app a b : plain (a +:+ b) = plain a && plain b.
Proof. induction a as [|c a IH]; simpl; [done|]. by rewrite IH, andb_assoc. Qed.

Lemma digit_cases (P : ascii → Prop) :
  Forall P ["0"; "1"; "2"; "3"; "4"; "5"; "6"; "7"; "8"; "9"]%char →
  ∀ c, is_digit c = true → P c.
Proof.
  intros HP c Hc. apply (Forall_forall P _) with c in HP; [done|].
  revert Hc. destruct c as [[] [] [] [] [] [] [] []]; vm_compute; intros ?; try discriminate.
  all: repeat constructor.
Qed.

Lemma all_digits_plain s : all_digits s = true → plain s = true.
Proof.
  induction s as [|c s IH]; simpl; [done|]. intros [Hc Hs]%andb_true_iff.
  rewrite IH, andb_true_r by done. revert c Hc. apply digit_cases. by repeat constructor.
Qed.

Lemma zeros_digits n : all_digits (zeros n) = true.
Proof. induction n; done. Qed.

Lemma zeros_val n a : digits_val a (zeros n) = a * 10 ^ Z.of_nat n.
Proof.
  revert a. induction n as [|n IH]; intros a; simpl zeros; simpl digits_val; [lia|].
  rewrite IH, Nat2Z.inj_succ, Z.pow_succ_r by lia. simpl. lia.
Qed.

Fixpoint has_n (s : string) : bool :=
  match s with "" => false | String c s' => bool_decide (c = "n"%char) || has_n s' end.

Lemma plain_lower s : plain s = true → has_n (lower_str s) = false.
Proof.
  induction s as [|c s IH]; simpl; [done|]. intros [Hc Hs]%andb_true_iff.
  rewrite IH, orb_false_r by done. apply bool_decide_eq_false. intros Hn.
  unfold plain_char in Hc. rewrite Hn in Hc. by destruct (bool_decide (c = _)).
Qed.

Lemma plain_special s : plain s = true → special s = None.
Proof.
  intros Hs%plain_lower. unfold special.
  rewrite !bool_decide_eq_false_2; [done|..].
  all: rewrite ?elem_of_list_singleton, ?elem_of_cons, ?elem_of_nil.
  all: intros Heq; destruct_or?; done || (rewrite Heq in Hs; discriminate Hs).
Qed.

Lemma plain_no_underscore s : plain s = true → has_underscore s = false.
Proof.
  induction s as [|c s IH]; simpl; [done|]. intros [Hc Hs]%andb_true_iff.
  rewrite IH, orb_false_r by done. unfold plain_char in Hc. by destruct (bool_decide (c = _)).
Qed.

Lemma plain_strip_hex s : plain s = true → strip_hex s = (false, s).
Proof.
  destruct s as [|c [|x s]]; try done. simpl. rewrite !andb_true_iff. intros (_ & Hx & _).
  case_decide as H; [|done]. destruct H as [_ Hl]. unfold plain_char in Hx. rewrite Hl in Hx.
  by destruct (bool_decide (x = _)).
Qed.

Lemma scan_digits s rest mant frac dot seen :
  all_digits s = true →
  scan_mant false (s +:+ rest) mant frac dot seen =
  scan_mant false rest (digits_val mant s)
    (if dot then frac + Z.of_nat (String.length s) else frac) dot (seen || bool_decide (s ≠ "")).
Proof.
  revert mant frac seen. induction s as [|c s IH]; intros mant frac seen Hs.
  - simpl. rewrite orb_false_r. destruct dot; f_equal; lia.
  - simpl in Hs. apply andb_true_iff in Hs as [Hc Hs].
    assert (∃ d, digit_val c = Some d) as [d Hd] by by apply bool_decide_eq_true in Hc.
    simpl. rewrite Hd. rewrite decide_False, decide_False; first last.
    + intros ->. by vm_compute in Hc.
    + intros ->. by vm_compute in Hc.
    + rewrite IH by done. simpl. rewrite orb_true_r. f_equal. destruct dot; [|done].
      rewrite Nat2Z.inj_succ. lia.
Qed.

Lemma exp_digits_all s e :
  all_digits s = true → 0 ≤ e → digits_val e s < 10000 → exp_digits s e = (digits_val e s, "").
Proof.
  revert e. induction s as [|c s IH]; intros e Hs He Hlt; [done|].
  simpl in Hs. apply andb_true_iff in Hs as [Hc Hs].
  assert (∃ d, digit_val c = Some d) as [d Hd] by by apply bool_decide_eq_true in Hc.
  pose proof (digit_val_range _ _ Hd). simpl in *. rewrite Hd in *. simpl in *.
  rewrite decide_False by (intros ->; by vm_compute in Hc).
  assert (∀ a, 0 ≤ a → a ≤ digits_val a s) as Hge.
  { clear -H. induction s as [|c' s IH]; intros a Ha; simpl; [lia|].
    destruct (digit_val c') as [d'|] eqn:Hd'; simpl.
    - apply digit_val_range in Hd'. pose proof (IH (a * 10 + d') ltac:(lia)). lia.
    - pose proof (IH (a * 10 + 0) ltac:(lia)). lia. }
  pose proof (Hge (e * 10 + d) ltac:(lia)).
  rewrite decide_True by lia. apply IH; [done|lia|done].
Qed.

Lemma ParseFloat_plain neg body c t mant frac rest x :
  body = String c t → is_digit c = true → plain body = true →
  scan_mant false body 0 0 false false = (mant, frac, true, rest) →
  scan_exp false rest = Some x →
  is_finite (round_dec neg mant (x - frac)) = true →
  ParseFloat (sign_str neg +:+ body) = Some (round_dec neg mant (x - frac)).
Proof.
  intros Hb Hc Hp Hm Hx Hf.
  assert (Hps : plain (sign_str neg +:+ body) = true) by (rewrite plain_app, Hp; by destruct neg).
  unfold ParseFloat. rewrite plain_special by done.
  assert (take_sign (sign_str neg +:+ body) = (neg, body)) as ->.
  { destruct neg; [done|]. rewrite Hb. simpl.
    rewrite !decide_False; [done|intros ->; by vm_compute in Hc..]. }
  rewrite plain_strip_hex by done. rewrite Hm, Hx.
  rewrite plain_no_underscore by done. simpl. by rewrite Hf.
Qed.

Lemma str_take_drop n s : str_take n s +:+ str_drop n s = s.
Proof. revert s. induction n as [|n IH]; intros [|c s]; simpl; [done..|]. rewrite str_app_cons. by rewrite IH. Qed.

Lemma length_str_drop n s : String.length (str_drop n s) = (String.length s - n)%nat.
Proof. revert s. induction n as [|n IH]; intros [|c s]; simpl; [done..|]. apply IH. Qed.

Lemma length_0_iff s : String.length s = 0%nat ↔ s = "".
Proof. by destruct s. Qed.

Lemma str_drop_drop i j s : str_drop i (str_drop j s) = str_drop (j + i) s.
Proof. revert s. induction j as [|j IH]; intros [|c s]; simpl; [done..|by destruct i|apply IH]. Qed.

Lemma str_take_all n s : (String.length s ≤ n)%nat → str_take n s = s.
Proof. revert s. induction n as [|n IH]; intros [|c s] Hn; simpl in *; [done|lia|done|]. rewrite IH; [done|lia]. Qed.

Lemma length_str_take n s : String.length (str_take n s) = Nat.min n (String.length s).
Proof. revert s. induction n as [|n IH]; intros [|c s]; simpl; [done..|]. by rewrite IH. Qed.

Lemma str_take_app a b : str_take (String.length a) (a +:+ b) = a.
Proof. induction a as [|c a IH]; [by destruct b|]. rewrite str_app_cons. simpl. by rewrite IH. Qed.

Lemma str_drop_app a b : str_drop (String.length a) (a +:+ b) = b.
Proof. induction a as [|c a IH]; [by destruct b|]. rewrite str_app_cons. simpl. by rewrite IH. Qed.

Lemma length_zeros n : String.length (zeros n) = n.
Proof. induction n; simpl; congruence. Qed.

Lemma all_digits_take_drop n s :
  all_digits s = true → all_digits (str_take n s) = true ∧ all_digits (str_drop n s) = true.
Proof.
  intros Hs. rewrite <- (str_take_drop n s), all_digits_app in Hs. by apply andb_true_iff in Hs.
Qed.

Lemma round_dec_shift neg d k : 0 < d → 0 ≤ k → round_dec neg (d * 10 ^ k) 0 = round_dec neg d k.
Proof.
  intros ??. assert (0 < 10 ^ k) by (apply Z.pow_pos_nonneg; lia). unfold round_dec.
  rewrite decide_False by nia. rewrite decide_True by lia.
  rewrite decide_False by lia. rewrite decide_True by lia. by rewrite Z.pow_0_r, Z.mul_1_r.
Qed.

Section Layout.
Context (neg : bool) (c : ascii) (t : string) (k : Z).
Context (Hc : is_digit c = true) (Ht : all_digits t = true).
Let ds : string := String c t.
Let nd : Z := Z.of_nat (String.length ds).
Context (Hpos : 0 < digits_val 0 ds).
Context (Hfin : is_finite (round_dec neg (digits_val 0 ds) k) = true).

Local Lemma ds_digits : all_digits ds = true.
Proof using Hc Ht. simpl. by rewrite Hc. Qed.

Lemma ParseFloat_layout_f :
  ParseFloat (sign_str neg +:+ layout_f ds (nd + k)) = Some (round_dec neg (digits_val 0 ds) k).
Proof using Hc Ht Hpos Hfin.
  pose proof ds_digits as Hds. unfold layout_f. fold nd. case_decide; [|case_decide].
  - assert (Hz : k = 0 - (0 + Z.of_nat (String.length (zeros (Z.to_nat (- (nd + k))) +:+ ds)))).
    { rewrite length_str_app, length_zeros. fold nd. lia. }
    rewrite Hz in Hfin at 1.
    transitivity (Some (round_dec neg (digits_val 0 ds) (0 - (0 + Z.of_nat (String.length (zeros (Z.to_nat (- (nd + k))) +:+ ds)))))); [|do 2 f_equal; exact (eq_sym Hz)].
    eapply ParseFloat_plain with (rest := ""); [reflexivity|first [exact Hc|vm_compute; reflexivity]| | |done|done].
    + rewrite !plain_app, (all_digits_plain (zeros _)), (all_digits_plain ds)
        by (done || apply zeros_digits). done.
    + transitivity (scan_mant false (zeros (Z.to_nat (- (nd + k))) +:+ ds) 0 0 true true);
        [reflexivity|]. rewrite <- (str_app_nil_r (zeros _ +:+ ds)).
      rewrite scan_digits by by rewrite all_digits_app, zeros_digits, Hds.
      cbn [scan_mant]. rewrite str_app_nil_r. rewrite digits_val_app, zeros_val. done.
  - assert (Hz : k = 0 - (0 + Z.of_nat (String.length (str_drop (Z.to_nat (nd + k)) ds)))).
    { rewrite length_str_drop. lia. }
    rewrite Hz in Hfin at 1.
    transitivity (Some (round_dec neg (digits_val 0 ds) (0 - (0 + Z.of_nat (String.length (str_drop (Z.to_nat (nd + k)) ds)))))); [|do 2 f_equal; exact (eq_sym Hz)].
    destruct (all_digits_take_drop (Z.to_nat (nd + k)) ds Hds) as [Ht1 Ht2].
    destruct (Z.to_nat (nd + k)) as [|n] eqn:Hn; [lia|].
    eapply ParseFloat_plain with (rest := ""); [reflexivity|first [exact Hc|vm_compute; reflexivity]| | |done|done].
    + rewrite !plain_app, (all_digits_plain (str_take _ _)), (all_digits_plain (str_drop _ _))
        by done. done.
    + rewrite scan_digits by done. rewrite str_app_cons, str_app_nil_l.
      rewrite (bool_decide_eq_true_2 (str_take (S n) ds ≠ "")) by done.
      rewrite <- (str_app_nil_r (str_drop _ _)) at 1.
      transitivity (scan_mant false (str_drop (S n) ds +:+ "")
        (digits_val 0 (str_take (S n) ds)) 0 true true); [reflexivity|].
      rewrite scan_digits by done.
      cbn [scan_mant]. rewrite <- digits_val_app, str_take_drop. done.
  - replace (nd + k - nd) with k by lia.
    rewrite <- (round_dec_shift neg (digits_val 0 ds) k) by lia.
    rewrite <- (round_dec_shift neg (digits_val 0 ds) k) in Hfin by lia.
    replace (round_dec neg (digits_val 0 ds * 10 ^ k) 0)
      with (round_dec neg (digits_val 0 ds * 10 ^ k) (0 - 0)) in * by done.
    eapply ParseFloat_plain with (rest := ""); [reflexivity|first [exact Hc|vm_compute; reflexivity]| | |done|done].
    + rewrite plain_app, (all_digits_plain (zeros _)), (all_digits_plain ds)
        by (done || apply zeros_digits). done.
    + rewrite <- (str_app_nil_r (ds +:+ _)).
      rewrite scan_digits by by rewrite all_digits_app, zeros_digits, Hds.
      cbn [scan_mant]. rewrite digits_val_app, zeros_val, Z2Nat.id by lia. done.
Qed.

Lemma scan_exp_layout (x : Z) (pad : bool) :
  Z.abs x < 10000 →
  scan_exp false ((if decide (x < 0) then "e-" else "e+") +:+
    (if (pad && bool_decide (Z.abs x < 10)) then "0" +:+ show_nonneg (Z.abs x)
     else show_nonneg (Z.abs x))) = Some x.
Proof.
  intros Hx.
  assert (Hex : ∃ c' t' : _, (if (pad && bool_decide (Z.abs x < 10)) then "0" +:+ show_nonneg (Z.abs x)
     else show_nonneg (Z.abs x)) = String c' t' ∧ is_digit c' = true ∧
     exp_digits (String c' t') 0 = (Z.abs x, "")).
  { destruct (show_nonneg_cons (Z.abs x)) as (c' & t' & Heq & Hc' & Ht').
    assert (Hv : digits_val 0 (String c' t') = Z.abs x) by (rewrite <- Heq; apply show_nonneg_val; lia).
    assert (He : exp_digits (String c' t') 0 = (Z.abs x, "")).
    { rewrite exp_digits_all; [by rewrite Hv| |lia|by rewrite Hv]. simpl. by rewrite Hc'. }
    rewrite Heq. case_match; [|by eauto].
    eexists _, _. split; [done|]. split; [done|]. by rewrite <- He. }
  destruct Hex as (c' & t' & -> & Hc' & He).
  unfold scan_exp, take_sign.
  case_decide; rewrite !str_app_cons, str_app_nil_l;
    (rewrite decide_True by (vm_compute; reflexivity));
    [rewrite decide_True by done|rewrite decide_False, decide_True by done];
    rewrite Hc', He, decide_True by done; f_equal; lia.
Qed.

Lemma ParseFloat_layout_e pad :
  Z.abs (nd + k - 1) < 10000 →
  ParseFloat (sign_str neg +:+ layout_e pad ds (nd + k)) = Some (round_dec neg (digits_val 0 ds) k).
Proof using Hc Ht Hpos Hfin.
  intros Hx. unfold layout_e.
  pose proof (scan_exp_layout (nd + k - 1) pad Hx) as Hse.
  set (ex := (if decide (nd + k - 1 < 0) then "e-" else "e+") +:+ _) in *.
  assert (Hpe : plain ex = true).
  { assert (plain (show_nonneg (Z.abs (nd + k - 1))) = true) as Hp
      by by apply all_digits_plain, show_nonneg_digits.
    unfold ex. case_decide; case_match; by rewrite ?plain_app, Hp. }
  assert (Hz : k = (nd + k - 1) - (0 + Z.of_nat (String.length t))).
  { unfold nd, ds. simpl String.length. lia. }
  rewrite Hz in Hfin at 1.
  transitivity (Some (round_dec neg (digits_val 0 ds) ((nd + k - 1) - (0 + Z.of_nat (String.length t)))));
    [|do 2 f_equal; exact (eq_sym Hz)].
  simpl (str_take 1 ds). simpl (str_drop 1 ds).
  assert (Hend : ∀ m fr dt, scan_mant false ex m fr dt true = (m, fr, true, ex)).
  { intros m fr dt. unfold ex. by case_decide. }
  apply bool_decide_eq_true in Hc as Hd. destruct Hd as [d Hd].
  assert (Hds : digits_val 0 ds = digits_val d t) by (simpl; by rewrite Hd).
  assert (Hnd1 : c ≠ "_"%char) by (intros ->; by vm_compute in Hc).
  assert (Hnd2 : c ≠ "."%char) by (intros ->; by vm_compute in Hc).
  eapply ParseFloat_plain with (rest := ex); [reflexivity|done| | |done|done].
  - assert (plain (String c "") = true) as Hpc by (apply all_digits_plain; simpl; by rewrite Hc).
    case_decide; rewrite !plain_app, Hpe, Hpc; [done|]. by rewrite (all_digits_plain t).
  - rewrite Hds, str_app_cons, str_app_nil_l. cbn [scan_mant].
    rewrite !decide_False, Hd by done. change (0 * 10 + d) with d.
    case_decide as Hte.
    + rewrite Hte, str_app_nil_l. by rewrite Hend.
    + rewrite !str_app_cons, str_app_nil_l.
      transitivity (scan_mant false (t +:+ ex) d 0 true true); [reflexivity|].
      rewrite scan_digits by done. by rewrite Hend.
Qed.
End Layout.

(** *** Printing and parsing back *)

Lemma ParseFloat_layout neg d k (b pad : bool) :
  0 < d → small_exp (d, k) → is_finite (round_dec neg d k) = true →
  let ds := show_nonneg d in
  let dp := Z.of_nat (String.length ds) + k in
  ParseFloat (sign_str neg +:+ (if b then layout_e pad ds dp else layout_f ds dp))
  = Some (round_dec neg d k).
Proof.
  intros Hd Hx Hfin. cbv zeta.
  unfold small_exp, num_digits in Hx. simpl in Hx.
  pose proof (show_nonneg_val d ltac:(lia)) as Hv.
  destruct (show_nonneg_cons d) as (c & t & Heq & Hc & Ht). rewrite Heq in *.
  rewrite <- Hv in Hfin, Hd. rewrite <- Hv.
  destruct b; [by apply ParseFloat_layout_e|by apply ParseFloat_layout_f].
Qed.

Lemma ParseFloat_zero neg : ParseFloat (sign_str neg +:+ "0") = Some (FFin neg 0 emin).
Proof. destruct neg; vm_compute; reflexivity. Qed.

Lemma canonical_zero neg e : canonical (FFin neg 0 e) → e = emin.
Proof. intros (_ & _ & [?|?]); [done|lia]. Qed.

(** The printed form of the canonical number reads back, whichever layout. *)
Lemma ParseFloat_printed neg m e (b pad : bool) :
  canonical (FFin neg m e) →
  ParseFloat (if decide (m = 0) then sign_str neg +:+ "0"
              else let '(d, k) := shortest neg m e in
                   let ds := show_nonneg d in
                   let dp := Z.of_nat (String.length ds) + k in
                   sign_str neg +:+ (if b then layout_e pad ds dp else layout_f ds dp))
  = Some (FFin neg m e).
Proof.
  intros Hcan. case_decide as Hm.
  - subst m. apply canonical_zero in Hcan as ->. apply ParseFloat_zero.
  - assert (0 < m) as Hpos by (destruct Hcan; lia).
    destruct (shortest_round neg m e Hpos Hcan) as (Hd & Hx & Hr).
    destruct (shortest neg m e) as [d k]; simpl in *.
    rewrite <- Hr. apply ParseFloat_layout; [done|done|by rewrite Hr].
Qed.

Theorem ParseFloat_show_float f : canonical f → ParseFloat (show_float f) = Some f.
Proof.
  destruct f as [|neg|neg m e]; intros Hcan; [vm_compute; done|by destruct neg; vm_compute|].
  pose proof (ParseFloat_printed neg m e true true Hcan) as He.
  pose proof (ParseFloat_printed neg m e false true Hcan) as Hf.
  unfold show_float. case_decide; [done|]. destruct (shortest neg m e) as [d k].
  by case_decide.
Qed.

Theorem ParseFloat_json_float f s : canonical f → json_float f = Some s → ParseFloat s = Some f.
Proof.
  destruct f as [|neg|neg m e]; simpl; [done|done|]. intros Hcan [= <-].
  pose proof (ParseFloat_printed neg m e true false Hcan) as He.
  pose proof (ParseFloat_printed neg m e false false Hcan) as Hf.
  case_decide; [done|]. destruct (shortest neg m e) as [d k]. by case_decide.
Qed.

Lemma round_bin_canonical neg m k : 0 ≤ m → canonical (round_bin neg m k).
Proof.
  intros ?. unfold round_bin. case_decide; [by simpl; unfold emin, emax; lia|].
  pose proof (pow2_pos k). pose proof (pow2_pos (- k)). apply round_quot_canonical; lia.
Qed.

Lemma hex_val_nonneg c d : hex_val c = Some d → 0 ≤ d.
Proof.
  unfold hex_val. destruct (digit_val c) as [d'|] eqn:Hd; [|case_decide; [|done]].
  - intros [= <-]. apply digit_val_range in Hd. lia.
  - intros [= <-]. lia.
Qed.

Lemma scan_mant_nonneg hex s mant frac dot seen :
  0 ≤ mant → 0 ≤ (scan_mant hex s mant frac dot seen).1.1.1.
Proof.
  revert mant frac dot seen. induction s as [|c s IH]; intros mant frac dot seen Hm; simpl; [done|].
  repeat case_decide; [by apply IH|destruct dot; [done|by apply IH]|].
  destruct hex.
  - destruct (hex_val c) as [d|] eqn:Hd; [|done]. apply IH. apply hex_val_nonneg in Hd. lia.
  - destruct (digit_val c) as [d|] eqn:Hd; [|done]. apply IH. apply digit_val_range in Hd. lia.
Qed.

Theorem ParseFloat_canonical s f : ParseFloat s = Some f → canonical f.
Proof.
  unfold ParseFloat. destruct (special s) as [g|] eqn:Hsp.
  - intros [= <-]. unfold special in Hsp. by repeat case_bool_decide; simplify_eq.
  - destruct (take_sign s) as [neg s1]. destruct (strip_hex s1) as [hex s2].
    pose proof (scan_mant_nonneg hex s2 0 0 false false ltac:(lia)) as Hm.
    destruct (scan_mant _ _ _ _ _ _) as [[[mant frac] seen] s3]; simpl in Hm.
    destruct seen; [|done]. destruct (scan_exp hex s3) as [x|]; [|done].
    case_match; [done|]. destruct hex; case_match; intros [= <-];
      [by apply round_bin_canonical|by apply round_dec_canonical].
Qed.

#[export] Hint Resolve ParseFloat_canonical round_dec_canonical float_of_Z_canonical : gomon.

(** The decimal text of an unsigned 64-bit integer reads as its rounding to a float. *)
Lemma float_of_uint_finite n : 0 ≤ n < 2 ^ 64 → is_finite (float_of_Z n) = true.
Proof.
  intros Hn. unfold float_of_Z. case_decide; [done|]. rewrite decide_True by lia.
  unfold round_quot. cbv zeta.
  assert (quot_exp n 1 ≤ 11).
  { unfold quot_exp, quot_log2. cbv zeta. rewrite Z.log2_1, Z.sub_0_r.
    assert (Z.log2 n < 64) by (apply Z.log2_lt_pow2; lia). unfold emin. case_decide; lia. }
  case_decide; (rewrite decide_False by (unfold emax; lia)); done.
Qed.

Lemma ParseFloat_show_nonneg n : 0 ≤ n < 2 ^ 64 → ParseFloat (show_nonneg n) = Some (float_of_Z n).
Proof.
  intros Hn. pose proof (float_of_uint_finite n Hn) as Hf.
  assert (round_dec false n (0 - 0) = float_of_Z n) as Hr.
  { unfold round_dec, float_of_Z, fzero. case_decide; [done|]. rewrite !decide_True by lia.
    by rewrite Z.pow_0_r, Z.mul_1_r. }
  destruct (show_nonneg_cons n) as (c & t & Heq & Hc & Ht).
  pose proof (show_nonneg_digits n) as Hd. pose proof (show_nonneg_val n ltac:(lia)) as Hv.
  rewrite <- Hr. change (show_nonneg n) with (sign_str false +:+ show_nonneg n).
  eapply (ParseFloat_plain false (show_nonneg n) c t n 0 "" 0).
  - done.
  - done.
  - by apply all_digits_plain.
  - rewrite <- (str_app_nil_r (show_nonneg n)), scan_digits by done. rewrite Hv. rewrite Heq. done.
  - done.
  - by rewrite Hr.
Qed.
