(* ===== verification/GoErrors.v ===== *)
(** * Errors

    The [error] values of the program: the sentinels of
    [internal/customerrors/customerrors.go], the errors of the standard library and of
    go-retry that the code inspects, and opaque errors known by their text.
    [errors_Is] and [errors_As_retryable] are [errors.Is] and
    [errors.As(err, *retryableError)]. *)

From S2P Require Import Prelude.

(** Sentinels are distinct pointers, hence distinct constructors. *)
#[warnings="-register-all"]
Inductive goerror : Type :=
| ErrNoVal | ErrBadMetricType | ErrWrongMetricType | ErrWrongMetricValueType
| Canceled | DeadlineExceeded          (* package context *)
| ErrNoRows                            (* package database/sql *)
| ErrServerClosed                      (* package net/http *)
| ErrMsg (msg : string)                (* errors.New, fmt.Errorf without %w *)
| ErrRetryable (err : goerror)         (* go-retry's *retryableError *)
| ErrJoin (errs : list goerror).       (* errors.Join of non-nil errors *)

#[export] Instance goerror_eq_dec : EqDecision goerror.
Proof.
  refine (fix go (a b : goerror) : Decision (a = b) :=
    match a, b with
    | ErrNoVal, ErrNoVal | ErrBadMetricType, ErrBadMetricType
    | ErrWrongMetricType, ErrWrongMetricType
    | ErrWrongMetricValueType, ErrWrongMetricValueType
    | Canceled, Canceled | DeadlineExceeded, DeadlineExceeded
    | ErrNoRows, ErrNoRows | ErrServerClosed, ErrServerClosed => left eq_refl
    | ErrMsg s, ErrMsg t => cast_if (decide (s = t))
    | ErrRetryable e, ErrRetryable f => cast_if (go e f)
    | ErrJoin l, ErrJoin k => cast_if (@list_eq_dec _ go l k)
    | _, _ => right _
    end); clear go; abstract congruence.
Defined.

(** [error.Error()]. *)
Fixpoint error_text (e : goerror) : string :=
  match e with
  | ErrNoVal => "no value"
  | ErrBadMetricType => "bad metric type"
  | ErrWrongMetricType => "wrong metric type"
  | ErrWrongMetricValueType => "wrong metric value type"
  | Canceled => "context canceled"
  | DeadlineExceeded => "context deadline exceeded"
  | ErrNoRows => "sql: no rows in result set"
  | ErrServerClosed => "http: Server closed"
  | ErrMsg msg => msg
  | ErrRetryable e => "retryable: " +:+ error_text e
  | ErrJoin es =>
      (fix go (es : list goerror) : string :=
         match es with
         | [] => ""
         | [e] => error_text e
         | e :: es => error_text e +:+ nl_str +:+ go es
         end) es
  end.

(** The tree walk of [errors.Is] on two non-nil errors. *)
Fixpoint error_is (err target : goerror) : bool :=
  bool_decide (err = target) ||
  match err with
  | ErrRetryable e => error_is e target
  | ErrJoin es => existsb (λ e, error_is e target) es
  | _ => false
  end.

(** [errors.Is]; [None] is the nil error. *)
Definition errors_Is (err target : option goerror) : bool :=
  match err, target with
  | Some e, Some t => error_is e t
  | None, None => true
  | _, _ => false
  end.

(** [errors.As(err, &rerr)] for [rerr *retryableError]: the wrapped error of the
    first retryable error of the chain. *)
Fixpoint errors_As_retryable (err : goerror) : option goerror :=
  match err with
  | ErrRetryable e => Some e
  | ErrJoin es =>
      (fix go (es : list goerror) : option goerror :=
         match es with
         | [] => None
         | e :: es => match errors_As_retryable e with Some r => Some r | None => go es end
         end) es
  | _ => None
  end.

Lemma error_is_refl e : error_is e e = true.
Proof. destruct e; cbn [error_is]; rewrite bool_decide_eq_true_2; done. Qed.
