(* ===== verification/Metrics.v ===== *)
(** * Metric types and the storage interface

    [internal/metrictypes/metrictypes.go], [internal/models/models.go] and the interface
    [StoreMetrics] of [internal/storage/storage.go].  Operations of a store
    run in a [world]: the state of the store and the clock, in nanoseconds,
    that deadlines are compared with. *)

From S2P Require Import Prelude Strconv Float64 GoErrors.

Open Scope Z_scope.

Definition GaugeType : string := "gauge".
Definition CounterType : string := "counter".

(** [type Gauge float64], [type Counter int64]. *)
Abbreviation Gauge := float64.
Abbreviation Counter := Z.

(** The dynamic type of an [interface{}] holding a metric value: a [Gauge], a
    [Counter], nil, or a value of any other type, with the text [%v] prints. *)
Inductive iface : Type :=
| IGauge (g : Gauge)
| ICounter (c : Counter)
| INil
| IOther (type_name text : string).

#[export] Instance iface_eq_dec : EqDecision iface.
Proof. solve_decision. Defined.

(** [fmt.Sprintf("%v", v)]. *)
Definition show_iface (v : iface) : string :=
  match v with
  | IGauge g => show_float g
  | ICounter c => show_int c
  | INil => "<nil>"
  | IOther _ text => text
  end.

(** [models.Metrics]: the two pointers are nil or point to a value. *)
Record Metrics : Type := mkMetrics {
  Delta : option Z;
  Value : option float64;
  ID : string;
  MType : string
}.

#[export] Instance Metrics_eq_dec : EqDecision Metrics.
Proof. solve_decision. Defined.

Definition zero_Metrics : Metrics := mkMetrics None None "" "".

(** Values that fit their Go types. *)
Definition Metrics_ok (m : Metrics) : Prop :=
  (∀ d, Delta m = Some d → is_int64 d) ∧ (∀ v, Value m = Some v → canonical v).

Lemma Metrics_ok_alt m :
  (match Delta m with Some d => is_int64 d | None => True end ∧
   match Value m with Some v => canonical v | None => True end) ↔ Metrics_ok m.
Proof.
  unfold Metrics_ok. split.
  - intros [Hd Hv]. split; [intros d Hx; by rewrite Hx in Hd|intros v Hx; by rewrite Hx in Hv].
  - intros [Hd Hv]. split; [destruct (Delta m)|destruct (Value m)]; auto.
Qed.

#[export] Instance Metrics_ok_dec m : Decision (Metrics_ok m).
Proof.
  assert (Decision (match Delta m with Some d => is_int64 d | None => True end)) as Hd
    by (destruct (Delta m); apply _).
  assert (Decision (match Value m with Some v => canonical v | None => True end)) as Hv
    by (destruct (Value m); apply _).
  refine (cast_if_and Hd Hv); abstract (rewrite <- Metrics_ok_alt; tauto).
Defined.

(** ** World and context *)

Record world (S : Type) : Type := World { now : Z; store : S }.
Arguments World {S} now store.
Arguments now {S} w.
Arguments store {S} w.

Definition set_store {S T} (w : world S) (s : T) : world T := World (now w) s.

(** A context: its deadline and the instant its parent is cancelled, if any. *)
Record context : Type := mkContext { deadline : option Z; cancelled : option Z }.

Definition Background : context := mkContext None None.

Definition min_opt (a b : option Z) : option Z :=
  match a, b with
  | Some x, Some y => Some (Z.min x y)
  | Some x, None => Some x
  | None, b => b
  end.

(** When [Done] is closed. *)
Definition done_at (ctx : context) : option Z := min_opt (deadline ctx) (cancelled ctx).

(** [ctx.Err()] at instant [t]; a cancellation at the deadline itself counts
    as a cancellation. *)
Definition ctx_Err (ctx : context) (t : Z) : option goerror :=
  match cancelled ctx, deadline ctx with
  | Some c, Some d =>
      if decide (c ≤ t ∧ c ≤ d) then Some Canceled
      else if decide (d ≤ t) then Some DeadlineExceeded else None
  | Some c, None => if decide (c ≤ t) then Some Canceled else None
  | None, Some d => if decide (d ≤ t) then Some DeadlineExceeded else None
  | None, None => None
  end.

(** [context.WithTimeout(parent, d)] called at instant [t]. *)
Definition WithTimeout (parent : context) (t d : Z) : context :=
  mkContext (min_opt (deadline parent) (Some (t + d))) (cancelled parent).

Lemma ctx_Err_done ctx t :
  is_Some (ctx_Err ctx t) ↔ ∃ d, done_at ctx = Some d ∧ d ≤ t.
Proof.
  unfold ctx_Err, done_at, min_opt.
  destruct (deadline ctx) as [d|], (cancelled ctx) as [c|]; simpl.
  - transitivity (Z.min d c ≤ t); [|by split; [eauto|intros (? & [= <-] & ?)]].
    repeat case_decide; (split; [intros [? Hx]|intros ?]); by eauto || lia || discriminate Hx.
  - transitivity (d ≤ t); [|by split; [eauto|intros (? & [= <-] & ?)]].
    case_decide; (split; [intros [? Hx]|intros ?]); by eauto || lia || discriminate Hx.
  - transitivity (c ≤ t); [|by split; [eauto|intros (? & [= <-] & ?)]].
    case_decide; (split; [intros [? Hx]|intros ?]); by eauto || lia || discriminate Hx.
  - split; [by intros [??]|by intros (?&?&?)].
Qed.

(** ** The storage interface *)

(** An operation of a store: its results and the world after it. *)
Abbreviation op S A := (world S → A * world S).

Class StoreMetrics (S : Type) : Type := {
  WriteMetric : context → string → string → iface → op S (option goerror);
  WriteBatchMetrics : context → list Metrics → op S (option goerror);
  GetAllMetricsTxt : context → op S (string * option goerror);
  GetMetric : context → string → string → op S (iface * option goerror);
  Ping : context → op S (option goerror)
}.
