(* ===== verification/MemStorage.v ===== *)
(** * The in-memory store

    [MemStorage] of [internal/storage/storage.go]: the two maps, every method
    of the storage interface, and what the methods guarantee.  The file
    methods [SaveToFile] and [ReadFromFile] are in [MemFile.v], the mutex in
    [MemLock.v]. *)

From S2P Require Import Prelude Strconv Float64 GoErrors Metrics.

Open Scope Z_scope.

(** The mutex is not part of this record: every method below is one critical
    section, see [MemLock.v]. *)
Record MemStorage : Type := mkMem {
  gauge : gmap string Gauge;
  counter : gmap string Counter
}.

#[export] Instance MemStorage_eq_dec : EqDecision MemStorage.
Proof. solve_decision. Defined.

Definition NewMemStorage : MemStorage := mkMem ∅ ∅.

(** [m.gauge[name] = g]. *)
Definition set_gauge (name : string) (g : Gauge) (m : MemStorage) : MemStorage :=
  mkMem (<[name := g]> (gauge m)) (counter m).

Definition set_counter (name : string) (c : Counter) (m : MemStorage) : MemStorage :=
  mkMem (gauge m) (<[name := c]> (counter m)).

(** [m.counter[name] += c]: a missing key reads as 0, and [int64] wraps. *)
Definition add_counter (name : string) (c : Counter) (m : MemStorage) : MemStorage :=
  set_counter name (wrap64 (default 0 (counter m !! name) + c)) m.

Definition mem_Ping (m : MemStorage) : option goerror := None.

Definition mem_WriteMetric (mtype name : string) (val : iface) (m : MemStorage) :
    option goerror * MemStorage :=
  if decide (mtype = GaugeType) then
    match val with
    | IGauge metric => (None, set_gauge name metric m)
    | _ => (Some ErrWrongMetricValueType, m)
    end
  else if decide (mtype = CounterType) then
    match val with
    | ICounter metric => (None, add_counter name metric m)
    | _ => (Some ErrWrongMetricValueType, m)
    end
  else (Some ErrWrongMetricType, m).

(** One turn of the loop of [WriteBatchMetrics]. *)
Definition batch_step (m : MemStorage) (v : Metrics) : MemStorage :=
  if decide (MType v = GaugeType) then
    match Value v with
    | None => m
    | Some x => if decide (ID v = "") then m else set_gauge (ID v) x m
    end
  else if decide (MType v = CounterType) then
    match Delta v with
    | None => m
    | Some d => if decide (ID v = "") then m else add_counter (ID v) d m
    end
  else m.

Definition mem_WriteBatchMetrics (metrics : list Metrics) (m : MemStorage) :
    option goerror * MemStorage :=
  (None, foldl batch_step m metrics).

Definition mem_GetMetric (mType name : string) (m : MemStorage) : iface * option goerror :=
  if decide (mType = GaugeType) then
    match gauge m !! name with
    | Some v => (IGauge v, None)
    | None => (INil, Some ErrNoVal)
    end
  else if decide (mType = CounterType) then
    match counter m !! name with
    | Some v => (ICounter v, None)
    | None => (INil, Some ErrNoVal)
    end
  else (INil, Some ErrBadMetricType).

(** [fmt.Sprintf("%v: %v\n", k, v)]. *)
Definition text_line (k v : string) : string := k +:+ ": " +:+ v +:+ nl_str.

Fixpoint concat_str (l : list string) : string :=
  match l with [] => "" | s :: l => s +:+ concat_str l end.

(** The text, with [cks] and [gks] the order in which [range] visits the keys
    of the two maps (Go leaves that order open). *)
Definition mem_GetAllMetricsTxt_in (cks gks : list string) (m : MemStorage) : string :=
  "---Counters---" +:+ nl_str +:+
  concat_str ((λ k, text_line k (show_int (default 0 (counter m !! k)))) <$> sort_strings cks) +:+
  "---Gauge---" +:+ nl_str +:+
  concat_str ((λ k, text_line k (show_float (default fzero (gauge m !! k)))) <$> sort_strings gks).

Definition keys {A} (m : gmap string A) : list string := (map_to_list m).*1.

Definition mem_GetAllMetricsTxt (m : MemStorage) : string * option goerror :=
  (mem_GetAllMetricsTxt_in (keys (counter m)) (keys (gauge m)) m, None).

(** The storage interface: no method looks at the context or takes time. *)
#[export] Instance MemStorage_StoreMetrics : StoreMetrics MemStorage := {
  WriteMetric ctx mtype name val w :=
    let '(e, m) := mem_WriteMetric mtype name val (store w) in (e, set_store w m);
  WriteBatchMetrics ctx metrics w :=
    let '(e, m) := mem_WriteBatchMetrics metrics (store w) in (e, set_store w m);
  GetAllMetricsTxt ctx w := (mem_GetAllMetricsTxt (store w), w);
  GetMetric ctx mType name w := (mem_GetMetric mType name (store w), w);
  Ping ctx w := (mem_Ping (store w), w)
}.

(** ** Lemmas *)

Lemma concat_str_app l1 l2 : concat_str (l1 ++ l2) = concat_str l1 +:+ concat_str l2.
Proof. induction l1 as [|s l1 IH]; [done|]. simpl. by rewrite IH, str_app_assoc. Qed.

Lemma gauge_add_counter n c m : gauge (add_counter n c m) = gauge m.
Proof. done. Qed.
Lemma counter_set_gauge n g m : counter (set_gauge n g m) = counter m.
Proof. done. Qed.

Lemma lookup_add_counter n c m k :
  counter (add_counter n c m) !! k =
  if decide (n = k) then Some (wrap64 (default 0 (counter m !! n) + c)) else counter m !! k.
Proof. unfold add_counter, set_counter; simpl. by rewrite lookup_insert. Qed.

Lemma lookup_set_gauge n g m k :
  gauge (set_gauge n g m) !! k = if decide (n = k) then Some g else gauge m !! k.
Proof. unfold set_gauge; simpl. by rewrite lookup_insert. Qed.

#[export] Hint Rewrite gauge_add_counter counter_set_gauge lookup_add_counter lookup_set_gauge : gomon.

Lemma mem_ext m1 m2 :
  (∀ k, gauge m1 !! k = gauge m2 !! k) → (∀ k, counter m1 !! k = counter m2 !! k) → m1 = m2.
Proof.
  destruct m1, m2; simpl. intros Hg Hc. f_equal; by apply map_eq.
Qed.

(** *** The values stay within their Go types *)

Record mem_ok (m : MemStorage) : Prop := {
  mem_ok_gauge : map_Forall (λ _, canonical) (gauge m);
  mem_ok_counter : map_Forall (λ _, is_int64) (counter m)
}.

#[export] Instance mem_ok_dec m : Decision (mem_ok m).
Proof.
  refine (cast_if (decide (map_Forall (λ _, canonical) (gauge m) ∧
                           map_Forall (λ _, is_int64) (counter m)))).
  - abstract (by destruct_and?; split).
  - abstract (intros [? ?]; tauto).
Defined.

Definition iface_ok (v : iface) : Prop :=
  match v with IGauge g => canonical g | ICounter c => is_int64 c | _ => True end.

Lemma mem_ok_new : mem_ok NewMemStorage.
Proof. split; apply map_Forall_empty. Qed.

Lemma mem_ok_set_gauge n g m : canonical g → mem_ok m → mem_ok (set_gauge n g m).
Proof. intros Hg [? ?]. split; [by apply map_Forall_insert_2|done]. Qed.

Lemma mem_ok_set_counter n c m : is_int64 c → mem_ok m → mem_ok (set_counter n c m).
Proof. intros Hc [? ?]. split; [done|by apply map_Forall_insert_2]. Qed.

Lemma mem_ok_add_counter n c m : mem_ok m → mem_ok (add_counter n c m).
Proof. apply mem_ok_set_counter, wrap64_range. Qed.

#[export] Hint Resolve mem_ok_new mem_ok_set_gauge mem_ok_set_counter mem_ok_add_counter : gomon.

Lemma mem_ok_WriteMetric mtype name val m :
  iface_ok val → mem_ok m → mem_ok (mem_WriteMetric mtype name val m).2.
Proof. intros ??. unfold mem_WriteMetric. repeat case_decide; destruct val; simpl in *; auto with gomon. Qed.

Lemma mem_ok_batch_step m v : Metrics_ok v → mem_ok m → mem_ok (batch_step m v).
Proof.
  intros [? ?] ?. unfold batch_step. repeat first [case_decide|case_match]; eauto with gomon.
Qed.

Lemma mem_ok_batch l m : Forall Metrics_ok l → mem_ok m → mem_ok (foldl batch_step m l).
Proof.
  intros Hl. revert m. induction Hl as [|v l Hv Hl IH]; intros m Hm; simpl; [done|].
  by apply IH, mem_ok_batch_step.
Qed.

(** *** Batches as effects on single keys *)

(** The metrics of a batch that are not skipped. *)
Definition batch_valid (v : Metrics) : bool :=
  bool_decide (ID v ≠ "") &&
  ((bool_decide (MType v = GaugeType) && bool_decide (is_Some (Value v))) ||
   (bool_decide (MType v = CounterType) && bool_decide (is_Some (Delta v)))).

(** What one metric adds to the counter [k], and sets the gauge [k] to. *)
Definition counter_delta (k : string) (v : Metrics) : Z :=
  if decide (batch_valid v = true ∧ MType v = CounterType ∧ ID v = k) then default 0 (Delta v) else 0.

Definition gauge_value (k : string) (v : Metrics) : option float64 :=
  if decide (batch_valid v = true ∧ MType v = GaugeType ∧ ID v = k) then Value v else None.

Definition sum_deltas (k : string) (l : list Metrics) : Z := foldr (λ v a, counter_delta k v + a) 0 l.

Definition touches_counter (k : string) (v : Metrics) : bool :=
  bool_decide (batch_valid v = true ∧ MType v = CounterType ∧ ID v = k).

Definition last_gauge (k : string) (l : list Metrics) : option float64 := last (omap (gauge_value k) l).

Lemma Gauge_ne_Counter : GaugeType ≠ CounterType.
Proof. done. Qed.

(** A batch step either leaves the store alone or is one of the two writes. *)
Lemma batch_step_cases m v :
  (batch_valid v = false ∧ batch_step m v = m) ∨
  (∃ x, batch_valid v = true ∧ MType v = GaugeType ∧ Value v = Some x ∧
        batch_step m v = set_gauge (ID v) x m) ∨
  (∃ d, batch_valid v = true ∧ MType v = CounterType ∧ Delta v = Some d ∧
        batch_step m v = add_counter (ID v) d m).
Proof.
  unfold batch_step, batch_valid. destruct v as [dl vl id ty]; simpl.
  destruct (decide (ty = GaugeType)) as [->|Hg];
    [|destruct (decide (ty = CounterType)) as [->|Hc]].
  - destruct vl as [x|]; [destruct (decide (id = "")) as [->|Hid]|].
    + left. done.
    + right; left. exists x. by rewrite (bool_decide_eq_true_2 _ Hid).
    + left. split; [|done]. by destruct (bool_decide (id ≠ "")).
  - destruct dl as [d|]; [destruct (decide (id = "")) as [->|Hid]|].
    + left. done.
    + right; right. exists d. by rewrite (bool_decide_eq_true_2 _ Hid).
    + left. split; [|done]. by destruct (bool_decide (id ≠ "")).
  - left. split; [|done]. rewrite (bool_decide_eq_false_2 _ Hg), (bool_decide_eq_false_2 _ Hc).
    apply andb_false_r.
Qed.

Lemma batch_step_counter m v k :
  counter (batch_step m v) !! k =
  if touches_counter k v then Some (wrap64 (default 0 (counter m !! k) + counter_delta k v))
  else counter m !! k.
Proof.
  unfold touches_counter, counter_delta.
  destruct (batch_step_cases m v) as [[Hv ->]|[(x & Hv & Ht & _ & ->)|(d & Hv & Ht & Hd & ->)]].
  - rewrite bool_decide_eq_false_2; [done|by rewrite Hv; intros [? _]].
  - rewrite bool_decide_eq_false_2; [done|by rewrite Ht; intros (_ & ? & _)].
  - rewrite lookup_add_counter. case_decide as Hk.
    + subst k. rewrite bool_decide_eq_true_2, decide_True by done. by rewrite Hd.
    + rewrite bool_decide_eq_false_2; [done|by intros (_ & _ & ?)].
Qed.

Lemma batch_step_gauge m v k :
  gauge (batch_step m v) !! k =
  match gauge_value k v with Some x => Some x | None => gauge m !! k end.
Proof.
  unfold gauge_value.
  destruct (batch_step_cases m v) as [[Hv ->]|[(x & Hv & Ht & Hx & ->)|(d & Hv & Ht & Hd & ->)]].
  - rewrite decide_False; [done|by rewrite Hv; intros [? _]].
  - rewrite lookup_set_gauge. case_decide as Hk.
    + rewrite decide_True by done. by rewrite Hx.
    + rewrite decide_False; [done|by intros (_ & _ & ?)].
  - rewrite decide_False; [done|by rewrite Ht; intros (_ & ? & _)].
Qed.

Lemma batch_counter l m k :
  counter (foldl batch_step m l) !! k =
  if existsb (touches_counter k) l then Some (wrap64 (default 0 (counter m !! k) + sum_deltas k l))
  else counter m !! k.
Proof.
  revert m. induction l as [|v l IH]; intros m; simpl; [done|].
  rewrite IH, batch_step_counter. unfold sum_deltas; simpl. fold (sum_deltas k l).
  destruct (touches_counter k v) eqn:Ht; simpl.
  - destruct (existsb (touches_counter k) l) eqn:Hl.
    + by rewrite wrap64_add_l, Z.add_assoc.
    + do 2 f_equal. assert (sum_deltas k l = 0) as ->; [|lia].
      clear -Hl. induction l as [|v l IH]; [done|]. simpl in *.
      apply orb_false_iff in Hl as [Hv Hl]. unfold sum_deltas in *. simpl. rewrite IH by done.
      unfold counter_delta. apply bool_decide_eq_false in Hv. by rewrite decide_False.
  - unfold touches_counter in Ht. apply bool_decide_eq_false in Ht.
    unfold counter_delta. rewrite decide_False by done. done.
Qed.

Lemma batch_gauge l m k :
  gauge (foldl batch_step m l) !! k =
  match last_gauge k l with Some x => Some x | None => gauge m !! k end.
Proof.
  revert m. induction l as [|v l IH]; intros m; simpl; [done|].
  rewrite IH, batch_step_gauge. unfold last_gauge. simpl.
  destruct (gauge_value k v) as [x|]; [|done].
  rewrite last_cons. by destruct (last _).
Qed.

(** *** Reading back *)

Lemma get_gauge name m :
  mem_GetMetric GaugeType name m =
  match gauge m !! name with Some v => (IGauge v, None) | None => (INil, Some ErrNoVal) end.
Proof. done. Qed.

Lemma get_counter name m :
  mem_GetMetric CounterType name m =
  match counter m !! name with Some v => (ICounter v, None) | None => (INil, Some ErrNoVal) end.
Proof. done. Qed.

Lemma get_other mType name m :
  mType ≠ GaugeType → mType ≠ CounterType → mem_GetMetric mType name m = (INil, Some ErrBadMetricType).
Proof. intros ??. unfold mem_GetMetric. by rewrite !decide_False. Qed.

#[export] Hint Rewrite get_gauge get_counter : gomon.

(** What a successful write makes of the value read under its own key. *)
Definition written (mtype name : string) (val : iface) (m : MemStorage) : iface :=
  match val with
  | ICounter c => ICounter (wrap64 (default 0 (counter m !! name) + c))
  | v => v
  end.

(** The dynamic type of the value is the one its metric type asks for. *)
Definition well_typed (mtype : string) (val : iface) : bool :=
  match val with
  | IGauge _ => bool_decide (mtype = GaugeType)
  | ICounter _ => bool_decide (mtype = CounterType)
  | _ => false
  end.

Definition write_error (mtype : string) (val : iface) : option goerror :=
  if well_typed mtype val then None
  else if decide (mtype = GaugeType ∨ mtype = CounterType) then Some ErrWrongMetricValueType
  else Some ErrWrongMetricType.

Lemma mem_WriteMetric_cases mtype name val m :
  (∃ g, mtype = GaugeType ∧ val = IGauge g ∧
        mem_WriteMetric mtype name val m = (None, set_gauge name g m)) ∨
  (∃ c, mtype = CounterType ∧ val = ICounter c ∧
        mem_WriteMetric mtype name val m = (None, add_counter name c m)) ∨
  (well_typed mtype val = false ∧
   mem_WriteMetric mtype name val m = (write_error mtype val, m)).
Proof.
  unfold mem_WriteMetric, write_error.
  destruct (decide (mtype = GaugeType)) as [->|Hg];
    [|destruct (decide (mtype = CounterType)) as [->|Hc]].
  - destruct val; [left; eauto|right; right..]; by split.
  - destruct val as [|c| |]; [right; right|right; left; by exists c|right; right..]; by split.
  - right; right. assert (well_typed mtype val = false) as ->.
    { destruct val; simpl; by rewrite ?bool_decide_eq_false_2. }
    split; [done|]. rewrite decide_False by naive_solver. done.
Qed.

(** A write shows under its own key and nowhere else. *)
Lemma mem_write_read mtype name val m t n :
  let '(e, m') := mem_WriteMetric mtype name val m in
  e = write_error mtype val ∧
  mem_GetMetric t n m' =
    if decide (e = None ∧ t = mtype ∧ n = name) then (written mtype name val m, None)
    else mem_GetMetric t n m.
Proof.
  destruct (mem_WriteMetric_cases mtype name val m)
    as [(g & -> & -> & ->)|[(c & -> & -> & ->)|(Hw & ->)]].
  - split; [done|]. unfold mem_GetMetric. rewrite lookup_set_gauge, counter_set_gauge.
    repeat case_decide; naive_solver.
  - split; [done|]. unfold mem_GetMetric. rewrite lookup_add_counter, gauge_add_counter.
    repeat case_decide; naive_solver.
  - split; [done|]. unfold write_error. rewrite Hw.
    rewrite (decide_False (P := (if decide _ then _ else _) = None ∧ _)); [done|].
    case_decide; by intros [? _].
Qed.

(** *** Histories *)

(** A request to the store: one of the two writing methods. *)
Inductive store_request : Type :=
| ReqWrite (mtype name : string) (val : iface)
| ReqBatch (metrics : list Metrics).

Definition serve (m : MemStorage) (r : store_request) : MemStorage :=
  match r with
  | ReqWrite mtype name val => (mem_WriteMetric mtype name val m).2
  | ReqBatch metrics => (mem_WriteBatchMetrics metrics m).2
  end.

(** The metrics a request carries, as a batch. *)
Definition as_metric (mtype name : string) (val : iface) : Metrics :=
  match val with
  | IGauge g => mkMetrics None (Some g) name mtype
  | ICounter c => mkMetrics (Some c) None name mtype
  | _ => mkMetrics None None name mtype
  end.

Definition as_batch (r : store_request) : list Metrics :=
  match r with
  | ReqWrite mtype name val => [as_metric mtype name val]
  | ReqBatch metrics => metrics
  end.

Definition named (r : store_request) : Prop :=
  match r with ReqWrite _ name _ => name ≠ "" | ReqBatch _ => True end.

Lemma serve_as_batch m r : named r → serve m r = foldl batch_step m (as_batch r).
Proof.
  destruct r as [mtype name val|metrics]; simpl; [|done]. intros Hn.
  unfold batch_step.
  destruct (mem_WriteMetric_cases mtype name val m)
    as [(g & -> & -> & ->)|[(c & -> & -> & ->)|(Hw & ->)]]; simpl.
  - by rewrite decide_False.
  - by rewrite decide_False.
  - destruct val; simpl in *; repeat case_decide; try case_match; simplify_eq;
      by try apply bool_decide_eq_false in Hw.
Qed.

Lemma serve_all_as_batch m rs :
  Forall named rs → foldl serve m rs = foldl batch_step m (rs ≫= as_batch).
Proof.
  intros Hrs. revert m. induction Hrs as [|r rs Hr Hrs IH]; intros m; [done|].
  rewrite bind_cons, foldl_app. simpl. by rewrite IH, serve_as_batch.
Qed.

Lemma serve_ok m r :
  match r with ReqWrite _ _ v => iface_ok v | ReqBatch l => Forall Metrics_ok l end →
  mem_ok m → mem_ok (serve m r).
Proof.
  destruct r; simpl; intros; [by apply mem_ok_WriteMetric|by apply mem_ok_batch].
Qed.

Lemma keys_lookup {A} (m : gmap string A) k : k ∈ keys m ↔ is_Some (m !! k).
Proof.
  unfold keys. rewrite list_elem_of_fmap. split.
  - intros ([k' v] & -> & Hin%elem_of_map_to_list). by exists v.
  - intros [v Hv]. exists (k, v). split; [done|]. by apply elem_of_map_to_list.
Qed.

Lemma keys_NoDup {A} (m : gmap string A) : NoDup (keys m).
Proof. apply NoDup_fst_map_to_list. Qed.

(** ** What the store promises *)

(** A write through the storage interface returns the error its arguments call for (wrong
    metric type, wrong dynamic type of the value) and, when it succeeds, the very next read of the
    same metric returns the written value: the value itself for a gauge, the old value (0 if there
    was none) plus the delta modulo [2^64] for a counter.  Every other read returns what it
    returned before, so a failed write changes nothing a reader sees. *)
Theorem write_then_read (ctx ctx' : context) (mtype name t n : string) (val : iface)
    (w : world MemStorage) :
  let r := WriteMetric ctx mtype name val w in
  r.1 = write_error mtype val ∧
  (GetMetric ctx' t n r.2).1 =
    if decide (r.1 = None ∧ t = mtype ∧ n = name) then (written mtype name val (store w), None)
    else (GetMetric ctx' t n w).1.
Proof.
  cbn. pose proof (mem_write_read mtype name val (store w) t n) as H.
  destruct (mem_WriteMetric mtype name val (store w)) as [e m']. exact H.
Qed.

(** The valid metrics of a batch written one by one with [WriteMetric]. *)
Definition metric_value (v : Metrics) : iface :=
  if decide (MType v = GaugeType) then
    match Value v with Some x => IGauge x | None => INil end
  else match Delta v with Some d => ICounter d | None => INil end.

Definition write_one (m : MemStorage) (v : Metrics) : MemStorage :=
  (mem_WriteMetric (MType v) (ID v) (metric_value v) m).2.

Lemma batch_step_write_one m v :
  batch_step m v = if batch_valid v then write_one m v else m.
Proof.
  destruct (batch_step_cases m v) as [[-> ->]|[(x & -> & Ht & Hx & ->)|(d & -> & Ht & Hd & ->)]];
    [done|..]; unfold write_one, metric_value, mem_WriteMetric; by rewrite Ht, ?Hx, ?Hd.
Qed.

(** A batch never fails, and it has exactly the effect of writing its metrics one after the
    other with [WriteMetric], skipping the ones with an empty name, an unknown type or no value of
    their own type: one bad metric does not break the batch. *)
Theorem batch_is_single_writes (ctx : context) (l : list Metrics) (w : world MemStorage) :
  WriteBatchMetrics ctx l w =
  (None, set_store w (foldl write_one (store w) (filter (λ v, batch_valid v = true) l))).
Proof.
  cbn. f_equal. f_equal. generalize (store w). induction l as [|v l IH]; intros m; [done|].
  rewrite filter_cons. cbn [foldl]. rewrite IH, batch_step_write_one.
  by destruct (batch_valid v).
Qed.

(** [C6] After any sequence of single and batch writes on a new store, whatever their errors, a
    counter reads as the sum modulo [2^64] of every delta that was written to its name, a gauge
    reads as the last value written to its name, and a name nobody wrote to has no value. *)
Theorem history_determines_reads (rs : list store_request) (k : string) (Hrs : Forall named rs) :
  let m := foldl serve NewMemStorage rs in
  let l := rs ≫= as_batch in
  mem_GetMetric CounterType k m =
    (if existsb (touches_counter k) l then (ICounter (wrap64 (sum_deltas k l)), None)
     else (INil, Some ErrNoVal)) ∧
  mem_GetMetric GaugeType k m =
    match last_gauge k l with Some x => (IGauge x, None) | None => (INil, Some ErrNoVal) end.
Proof.
  cbn zeta. rewrite serve_all_as_batch by done. rewrite get_counter, get_gauge, batch_counter, batch_gauge.
  split; [by destruct (existsb _ _)|]. by destruct (last_gauge _ _).
Qed.

Lemma history_determines_reads_witness :
  let rs := [ReqWrite CounterType "PollCount" (ICounter max_int64); ReqWrite "foo" "PollCount" INil;
             ReqBatch [mkMetrics (Some 2) None "PollCount" CounterType; mkMetrics None None "x" GaugeType]] in
  Forall named rs ∧
  mem_GetMetric CounterType "PollCount" (foldl serve NewMemStorage rs) = (ICounter (min_int64 + 1), None).
Proof.
  cbn zeta.
  assert (Forall named
    [ReqWrite CounterType "PollCount" (ICounter max_int64); ReqWrite "foo" "PollCount" INil;
     ReqBatch [mkMetrics (Some 2) None "PollCount" CounterType; mkMetrics None None "x" GaugeType]]) as H
    by by repeat constructor.
  split; [exact H|]. rewrite (proj1 (history_determines_reads _ "PollCount" H)). vm_compute. reflexivity.
Defined.

(** Requests whose values fit their Go types. *)
Definition request_ok (r : store_request) : Prop :=
  match r with ReqWrite _ _ v => iface_ok v | ReqBatch l => Forall Metrics_ok l end.

Lemma serve_all_ok rs m : Forall request_ok rs → mem_ok m → mem_ok (foldl serve m rs).
Proof.
  intros Hrs. revert m. induction Hrs as [|r rs Hr Hrs IH]; intros m Hm; [done|].
  apply IH, serve_ok; done.
Qed.

(** Every line of the text: sorted names, each name of the store once. *)
Definition lines_of (show : string → string) (ks : list string) : string :=
  concat_str ((λ k, text_line k (show k)) <$> ks).

(** The text of [GetAllMetricsTxt] does not depend on the order in which Go's [range] visits
    the two maps, and it is: the heading of the counters, one line for each counter in increasing
    order of names, the heading of the gauges, one line for each gauge in increasing order. *)
Theorem all_metrics_text (m : MemStorage) (cks gks : list string)
    (Hc : cks ≡ₚ keys (counter m)) (Hg : gks ≡ₚ keys (gauge m)) :
  ∃ scs sgs,
    Sorted string_le scs ∧ NoDup scs ∧ (∀ k, k ∈ scs ↔ is_Some (counter m !! k)) ∧
    Sorted string_le sgs ∧ NoDup sgs ∧ (∀ k, k ∈ sgs ↔ is_Some (gauge m !! k)) ∧
    mem_GetAllMetricsTxt_in cks gks m = (mem_GetAllMetricsTxt m).1 ∧
    mem_GetAllMetricsTxt_in cks gks m =
      "---Counters---" +:+ nl_str +:+
      lines_of (λ k, show_int (default 0 (counter m !! k))) scs +:+
      "---Gauge---" +:+ nl_str +:+
      lines_of (λ k, show_float (default fzero (gauge m !! k))) sgs.
Proof.
  exists (sort_strings cks), (sort_strings gks).
  assert (∀ {A} (mm : gmap string A) ks, ks ≡ₚ keys mm →
    Sorted string_le (sort_strings ks) ∧ NoDup (sort_strings ks) ∧
    ∀ k, k ∈ sort_strings ks ↔ is_Some (mm !! k)) as H.
  { intros A mm ks Hks. pose proof (sort_strings_Permutation ks) as Hp.
    rewrite Hks in Hp at 2. split_and!; [apply sort_strings_Sorted|rewrite Hp; apply keys_NoDup|].
    intros k. by rewrite Hp, keys_lookup. }
  destruct (H _ _ _ Hc) as (?&?&?), (H _ _ _ Hg) as (?&?&?).
  split_and!; try done. unfold mem_GetAllMetricsTxt, mem_GetAllMetricsTxt_in. simpl.
  by rewrite (sort_strings_perm _ _ Hc), (sort_strings_perm _ _ Hg).
Qed.

Lemma all_metrics_text_witness :
  let m := mkMem {[ "b" := FInf true ]} {[ "PollCount" := 3; "A" := -7 ]} in
  mem_GetAllMetricsTxt_in ["PollCount"; "A"] ["b"] m = (mem_GetAllMetricsTxt m).1 ∧
  mem_GetAllMetricsTxt_in ["PollCount"; "A"] ["b"] m =
    "---Counters---" +:+ nl_str +:+ "A: -7" +:+ nl_str +:+ "PollCount: 3" +:+ nl_str +:+
    "---Gauge---" +:+ nl_str +:+ "b: -Inf" +:+ nl_str.
Proof.
  cbn zeta. split; [|vm_compute; reflexivity].
  destruct (all_metrics_text (mkMem {[ "b" := FInf true ]} {[ "PollCount" := 3; "A" := -7 ]})
              ["PollCount"; "A"] ["b"]) as (? & ? & _ & _ & _ & _ & _ & _ & H & _); [..|exact H].
  - apply (bool_decide_unpack _). vm_compute. exact I.
  - apply (bool_decide_unpack _). vm_compute. exact I.
Defined.
