(* ===== verification/MemLock.v ===== *)
(** * The mutex of the in-memory store

    The methods of [MemStorage] ([internal/storage/storage.go]) taken apart into their accesses to the maps, between
    [Lock] and [Unlock] or [RLock] and [RUnlock], run by any number of goroutines in any
    interleaving the mutex allows.  They are linearizable: the definitions of [MemStorage.v], one
    indivisible step each, describe every execution. *)

From S2P Require Import Prelude Strconv Float64 GoErrors Metrics MemStorage.

(** ** The accesses of a method *)

(** A turn of the loop of [WriteBatchMetrics], or the assignment of [WriteMetric]. *)
Inductive write_access : Type :=
| AWrite (mtype name : string) (val : iface)
| AStep (v : Metrics).

Definition do_write (m : MemStorage) (a : write_access) : MemStorage :=
  match a with
  | AWrite mtype name val => (mem_WriteMetric mtype name val m).2
  | AStep v => batch_step m v
  end.

Definition accesses (r : store_request) : list write_access :=
  match r with
  | ReqWrite mtype name val => [AWrite mtype name val]
  | ReqBatch metrics => AStep <$> metrics
  end.

(** What [GetAllMetricsTxt] has left to do: append a text, collect and sort the keys of a map, append
    the line of a key. *)
Inductive read_access : Type :=
| RText (s : string)
| RCounterKeys
| RCounter (k : string)
| RGaugeKeys
| RGauge (k : string).

Definition GetAll_accesses : list read_access :=
  [RText ("---Counters---" +:+ nl_str); RCounterKeys; RText ("---Gauge---" +:+ nl_str); RGaugeKeys].

(** ** The mutex and the goroutines *)

(** A goroutine that holds the read lock: in [GetAllMetricsTxt] with the text so far and what it has left to do, or in
    [GetMetric], with the result once it has looked it up. *)
Inductive reader : Type :=
| Listing (s : string) (l : list read_access)
| Getting (mType name : string) (res : option (iface * option goerror)).

(** The store, the writer that holds the lock with what it has left to do, and the readers that hold it. *)
Record shared : Type := mkShared {
  mem : MemStorage;
  writer : option (nat * list write_access);
  readers : gmap nat reader
}.

Inductive event : Type :=
| ELock (i : nat) (r : store_request)
| EWrite (i : nat)
| EUnlock (i : nat)
| ERLock (i : nat)
| ERead (i : nat)
| ERUnlock (i : nat) (text : string)
| ERLockGet (i : nat) (mType name : string)
| EGet (i : nat) (mType name : string) (res : iface * option goerror).

Inductive step : event → shared → shared → Prop :=
| step_lock m i r :
    step (ELock i r) (mkShared m None ∅) (mkShared m (Some (i, accesses r)) ∅)
| step_write m i a l rs :
    step (EWrite i) (mkShared m (Some (i, a :: l)) rs) (mkShared (do_write m a) (Some (i, l)) rs)
| step_unlock m i rs :
    step (EUnlock i) (mkShared m (Some (i, [])) rs) (mkShared m None rs)
| step_rlock m i rs :
    rs !! i = None →
    step (ERLock i) (mkShared m None rs) (mkShared m None (<[i := Listing "" GetAll_accesses]> rs))
| step_read_text m w i s t l rs :
    rs !! i = Some (Listing s (RText t :: l)) →
    step (ERead i) (mkShared m w rs) (mkShared m w (<[i := Listing (s +:+ t) l]> rs))
| step_read_counters m w i s l ck rs :
    rs !! i = Some (Listing s (RCounterKeys :: l)) → ck ≡ₚ keys (counter m) →
    step (ERead i) (mkShared m w rs) (mkShared m w (<[i := Listing s ((RCounter <$> sort_strings ck) ++ l)]> rs))
| step_read_counter m w i s k l rs :
    rs !! i = Some (Listing s (RCounter k :: l)) →
    step (ERead i) (mkShared m w rs)
      (mkShared m w (<[i := Listing (s +:+ text_line k (show_int (default 0%Z (counter m !! k)))) l]> rs))
| step_read_gauges m w i s l gk rs :
    rs !! i = Some (Listing s (RGaugeKeys :: l)) → gk ≡ₚ keys (gauge m) →
    step (ERead i) (mkShared m w rs) (mkShared m w (<[i := Listing s ((RGauge <$> sort_strings gk) ++ l)]> rs))
| step_read_gauge m w i s k l rs :
    rs !! i = Some (Listing s (RGauge k :: l)) →
    step (ERead i) (mkShared m w rs)
      (mkShared m w (<[i := Listing (s +:+ text_line k (show_float (default fzero (gauge m !! k)))) l]> rs))
| step_runlock m w i s rs :
    rs !! i = Some (Listing s []) →
    step (ERUnlock i s) (mkShared m w rs) (mkShared m w (delete i rs))
| step_rlock_get m i mType name rs :
    rs !! i = None →
    step (ERLockGet i mType name) (mkShared m None rs) (mkShared m None (<[i := Getting mType name None]> rs))
| step_read_get m w i mType name rs :
    rs !! i = Some (Getting mType name None) →
    step (ERead i) (mkShared m w rs) (mkShared m w (<[i := Getting mType name (Some (mem_GetMetric mType name m))]> rs))
| step_get m w i mType name res rs :
    rs !! i = Some (Getting mType name (Some res)) →
    step (EGet i mType name res) (mkShared m w rs) (mkShared m w (delete i rs)).

Inductive run (m0 : MemStorage) : list event → shared → Prop :=
| run_start : run m0 [] (mkShared m0 None ∅)
| run_next es e s s' : run m0 es s → step e s s' → run m0 (es ++ [e]) s'.

(** ** The sequential account *)

(** The writes, in the order in which they took the lock. *)
Definition writes (es : list event) : list store_request :=
  omap (λ e, match e with ELock _ r => Some r | _ => None end) es.

(** The store after them, each in one step. *)
Definition sequential (m0 : MemStorage) (es : list event) : MemStorage := foldl serve m0 (writes es).

Lemma sequential_snoc m0 es e :
  sequential m0 (es ++ [e]) = match e with ELock _ r => serve (sequential m0 es) r | _ => sequential m0 es end.
Proof. unfold sequential, writes. rewrite omap_app, foldl_app. by destruct e. Qed.

Lemma do_accesses m r : foldl do_write m (accesses r) = serve m r.
Proof. destruct r as [|metrics]; [done|]. revert m. by induction metrics as [|v metrics IH]; intros m; [|apply (IH (batch_step m v))]. Qed.

(** What an access of [GetAllMetricsTxt] will append, in a store that does not change. *)
Definition appends (m : MemStorage) (a : read_access) : string :=
  match a with
  | RText s => s
  | RCounterKeys => concat_str ((λ k, text_line k (show_int (default 0%Z (counter m !! k)))) <$> sort_strings (keys (counter m)))
  | RCounter k => text_line k (show_int (default 0%Z (counter m !! k)))
  | RGaugeKeys => concat_str ((λ k, text_line k (show_float (default fzero (gauge m !! k)))) <$> sort_strings (keys (gauge m)))
  | RGauge k => text_line k (show_float (default fzero (gauge m !! k)))
  end.

Definition will_read (m : MemStorage) (s : string) (l : list read_access) : string := s +:+ concat_str (appends m <$> l).

(** What a reader has read or will read is right for a store [m]. *)
Definition reader_ok (m : MemStorage) (p : reader) : Prop :=
  match p with
  | Listing s l => will_read m s l = (mem_GetAllMetricsTxt m).1
  | Getting mType name (Some res) => res = mem_GetMetric mType name m
  | Getting _ _ None => True
  end.

Lemma will_read_start m : will_read m "" GetAll_accesses = (mem_GetAllMetricsTxt m).1.
Proof.
  unfold will_read, GetAll_accesses, mem_GetAllMetricsTxt, mem_GetAllMetricsTxt_in. cbn [fst fmap list_fmap concat_str appends].
  by rewrite str_app_nil_l, str_app_nil_r, !str_app_assoc.
Qed.

(** The lock keeps the readers' view fixed, and the writer on its way to the sequential store. *)
Definition lock_ok (s : shared) (m : MemStorage) : Prop :=
  match writer s with
  | None => mem s = m ∧ ∀ i p, readers s !! i = Some p → reader_ok m p
  | Some (_, l) => foldl do_write (mem s) l = m ∧ readers s = ∅
  end.

Lemma concat_appends m l k : concat_str (appends m <$> l ++ k) = concat_str (appends m <$> l) +:+ concat_str (appends m <$> k).
Proof. by rewrite fmap_app, concat_str_app. Qed.

(** A reader that goes on, and one that comes. *)
Lemma lock_ok_read m w rs i p p' m' :
  lock_ok (mkShared m w rs) m' → rs !! i = Some p → (reader_ok m p → reader_ok m p') →
  lock_ok (mkShared m w (<[i := p']> rs)) m'.
Proof.
  unfold lock_ok; cbn [writer mem readers]. destruct w as [[j l]|].
  - intros [_ ->] Hi. by rewrite lookup_empty in Hi.
  - intros [<- Hr] Hi Hp. split; [done|]. intros j q. rewrite lookup_insert. case_decide as Hj; [|apply Hr].
    intros [= <-]. by apply Hp, (Hr i).
Qed.

Lemma lock_ok_come m rs i p m' :
  lock_ok (mkShared m None rs) m' → reader_ok m' p → lock_ok (mkShared m None (<[i := p]> rs)) m'.
Proof.
  unfold lock_ok; cbn [writer mem readers]. intros [<- Hr] Hp. split; [done|]. intros j q. rewrite lookup_insert.
  case_decide as Hj; [by intros [= <-]|apply Hr].
Qed.

Lemma lock_ok_leave m w rs i m' : lock_ok (mkShared m w rs) m' → lock_ok (mkShared m w (delete i rs)) m'.
Proof.
  unfold lock_ok; cbn [writer mem readers]. destruct w as [[j l]|].
  - intros [? ->]. split; [done|]. by rewrite delete_empty.
  - intros [? Hr]. split; [done|]. intros j p [_ Hp]%lookup_delete_Some. by eapply Hr.
Qed.

(** What a goroutine has at the end. *)
Lemma lock_ok_reader m w rs i p m' : lock_ok (mkShared m w rs) m' → rs !! i = Some p → reader_ok m' p.
Proof.
  unfold lock_ok; cbn [writer mem readers]. destruct w as [[j l]|].
  - intros [_ ->] Hi. by rewrite lookup_empty in Hi.
  - intros [_ Hr]. apply Hr.
Qed.

Lemma step_lock_ok m0 es e s s' : step e s s' → lock_ok s (sequential m0 es) → lock_ok s' (sequential m0 (es ++ [e])).
Proof.
  rewrite sequential_snoc. destruct 1; try (by apply lock_ok_leave);
    try (intros Hok; eapply lock_ok_read; [exact Hok|eassumption|]; cbn [reader_ok]; unfold will_read;
         cbn [fmap list_fmap concat_str appends]; rewrite ?str_app_assoc; try done).
  - intros [<- _]. split; [apply do_accesses|done].
  - done.
  - unfold lock_ok; cbn [writer mem readers]. intros [Hw ->]. split; [done|]. intros i' p Hp. by rewrite lookup_empty in Hp.
  - intros Hok. apply lock_ok_come; [done|]. apply will_read_start.
  - rewrite concat_appends, (sort_strings_perm _ _ H0), <- list_fmap_compose. done.
  - rewrite concat_appends, (sort_strings_perm _ _ H0), <- list_fmap_compose. done.
  - intros Hok. by apply lock_ok_come.
Qed.

Lemma run_lock_ok m0 es s : run m0 es s → lock_ok s (sequential m0 es).
Proof.
  induction 1 as [|es e s s' Hrun IH Hstep]; [|by eapply step_lock_ok].
  split; [done|]. intros i p Hp. cbn in Hp. by rewrite lookup_empty in Hp.
Qed.

(** [C7] The store is linearizable: in every interleaving of any number of goroutines, when no writer holds the
    lock the store is the one the requests give one after the other, in the order in which they took
    the lock; and a text that [GetAllMetricsTxt] returns, or a value [GetMetric] returns, is that of
    the store after the requests that took the lock before. *)
Theorem store_linearizable (m0 : MemStorage) (es : list event) (s : shared) (Hrun : run m0 es s) :
  (writer s = None → mem s = sequential m0 es) ∧
  (∀ e es1, es = es1 ++ [e] →
     match e with
     | ERUnlock _ text => text = (mem_GetAllMetricsTxt (sequential m0 es1)).1
     | EGet _ mType name res => res = mem_GetMetric mType name (sequential m0 es1)
     | _ => True
     end).
Proof.
  split.
  - intros Hw. apply run_lock_ok in Hrun. unfold lock_ok in Hrun. rewrite Hw in Hrun. tauto.
  - intros e es1 ->. inversion Hrun as [Hnil|es2 e' s1 s2 Hr Hstep Heq]; [by destruct es1|].
    apply app_inj_tail in Heq as [-> ->]. subst s2. apply run_lock_ok in Hr. destruct Hstep; try done.
    + pose proof (lock_ok_reader _ _ _ _ _ _ Hr H) as Ht. cbn in Ht. unfold will_read in Ht. cbn in Ht.
      by rewrite str_app_nil_r in Ht.
    + exact (lock_ok_reader _ _ _ _ _ _ Hr H).
Qed.

(** A batch and a reader that waits for it. *)
Definition waiting_reader : list event :=
  [ELock 1 (ReqBatch [mkMetrics (Some 1%Z) None "c" "counter"; mkMetrics (Some 2%Z) None "c" "counter"]); EWrite 1; EWrite 1; EUnlock 1;
   ERLockGet 2 CounterType "c"; ERead 2].

Lemma store_linearizable_witness :
  (∃ s, run NewMemStorage (waiting_reader ++ [EGet 2 CounterType "c" (ICounter 3, None)]) s) ∧
  (ICounter 3, None) = mem_GetMetric CounterType "c" (sequential NewMemStorage waiting_reader).
Proof.
  assert (run NewMemStorage (waiting_reader ++ [EGet 2 CounterType "c" (ICounter 3, None)])
    (mkShared (mkMem ∅ {[ "c" := 3%Z ]}) None ∅)) as Hr.
  { pose proof (run_start NewMemStorage) as H.
    eapply run_next in H; [|apply (step_lock _ 1 (ReqBatch [mkMetrics (Some 1%Z) None "c" "counter"; mkMetrics (Some 2%Z) None "c" "counter"]))].
    eapply run_next in H; [|apply step_write].
    eapply run_next in H; [|apply step_write].
    eapply run_next in H; [|apply step_unlock].
    eapply run_next in H; [|apply (step_rlock_get _ 2 CounterType "c"); reflexivity].
    eapply run_next in H; [|apply (step_read_get _ _ 2 CounterType "c"); reflexivity].
    eapply run_next in H; [|apply (step_get _ _ 2 CounterType "c" (ICounter 3, None)); reflexivity].
    vm_compute in H. vm_compute. exact H. }
  split; [by eexists|]. exact (proj2 (store_linearizable _ _ _ Hr) _ waiting_reader eq_refl).
Defined.
