(* ===== verification/Json.v ===== *)
(** * JSON

    What the program uses of [encoding/json]: strings with their escapes and
    the replacement of invalid UTF-8, numbers, the parser of JSON texts, and
    the encoding and decoding of [models.Metrics] and of slices of it.  The
    round-trip theorems [decode_encode_readable] and [decode_encode_Metrics] carry
    the file round trip of the store and the agent-to-server path. *)

From S2P Require Import Prelude Strconv Float64 Metrics.

Open Scope Z_scope.

Definition byte (c : ascii) : Z := Z.of_N (N_of_ascii c).
Definition chr (n : Z) : ascii := ascii_of_N (Z.to_N n).

(** ** UTF-8 *)

Definition in_range (lo hi : Z) (c : ascii) : bool := bool_decide (lo ≤ byte c ≤ hi).
Definition cont (c : ascii) : bool := in_range 128 191 c.

Definition utf8_2 (a b : ascii) : bool := in_range 194 223 a && cont b.
Definition utf8_3 (a b c : ascii) : bool :=
  cont c &&
  ((in_range 224 224 a && in_range 160 191 b) || (in_range 225 236 a && cont b) ||
   (in_range 237 237 a && in_range 128 159 b) || (in_range 238 239 a && cont b)).
Definition utf8_4 (a b c d : ascii) : bool :=
  cont c && cont d &&
  ((in_range 240 240 a && in_range 144 191 b) || (in_range 241 243 a && cont b) ||
   (in_range 244 244 a && in_range 128 143 b)).

(** A multi-byte sequence at the head of the string, as [utf8.DecodeRune]
    accepts it. *)
Definition utf8_take (s : string) : option (string * string) :=
  match s with
  | String a (String b s2) =>
      if utf8_2 a b then Some (String a (String b ""), s2)
      else match s2 with
           | String c s3 =>
               if utf8_3 a b c then Some (String a (String b (String c "")), s3)
               else match s3 with
                    | String d s4 =>
                        if utf8_4 a b c d then Some (String a (String b (String c (String d ""))), s4)
                        else None
                    | "" => None
                    end
           | "" => None
           end
  | _ => None
  end.

(** [utf8.EncodeRune]. *)
Definition utf8_encode (r : Z) : string :=
  let r := if decide (55296 ≤ r ≤ 57343 ∨ 1114111 < r) then 65533 else r in
  if decide (r < 128) then String (chr r) ""
  else if decide (r < 2048) then String (chr (192 + r `div` 64)) (String (chr (128 + r `mod` 64)) "")
  else if decide (r < 65536) then
    String (chr (224 + r `div` 4096)) (String (chr (128 + (r `div` 64) `mod` 64))
      (String (chr (128 + r `mod` 64)) ""))
  else
    String (chr (240 + r `div` 262144)) (String (chr (128 + (r `div` 4096) `mod` 64))
      (String (chr (128 + (r `div` 64) `mod` 64)) (String (chr (128 + r `mod` 64)) ""))).

Definition rune_error : string := utf8_encode 65533.

Fixpoint valid_utf8_fuel (fuel : nat) (s : string) : bool :=
  match fuel, s with
  | _, "" => true
  | O, _ => false
  | S f, String c s' =>
      if decide (byte c < 128) then valid_utf8_fuel f s'
      else match utf8_take s with Some (_, r) => valid_utf8_fuel f r | None => false end
  end.
Definition valid_utf8 (s : string) : bool := valid_utf8_fuel (String.length s) s.

(** What decoding makes of an encoded string: a byte that is not part of a UTF-8 sequence becomes U+FFFD. *)
Fixpoint to_valid_fuel (fuel : nat) (s : string) : string :=
  match fuel, s with
  | S f, String c s' =>
      if decide (byte c < 128) then String c (to_valid_fuel f s')
      else match utf8_take s with
           | Some (q, r) => q +:+ to_valid_fuel f r
           | None => rune_error +:+ to_valid_fuel f s'
           end
  | _, _ => ""
  end.
Definition to_valid (s : string) : string := to_valid_fuel (String.length s) s.

(** ** Strings *)

Definition hex_digit (n : Z) : ascii := if decide (n < 10) then chr (48 + n) else chr (87 + n).

(** [appendString] on one byte below 128, with HTML escaping. *)
Definition escape_ascii (c : ascii) : string :=
  if decide (c = dquote) then String "\" (String dquote "")
  else if decide (c = "\"%char) then "\\"
  else if decide (byte c = 8) then "\b"
  else if decide (byte c = 12) then "\f"
  else if decide (byte c = 10) then "\n"
  else if decide (byte c = 13) then "\r"
  else if decide (byte c = 9) then "\t"
  else if decide (byte c < 32 ∨ c = "<"%char ∨ c = ">"%char ∨ c = "&"%char) then
    "\u00" +:+ String (hex_digit (byte c `div` 16)) (String (hex_digit (byte c `mod` 16)) "")
  else String c "".

Definition escape_rune (q : string) : string :=
  if decide (q = utf8_encode 8232) then "\u2028"
  else if decide (q = utf8_encode 8233) then "\u2029"
  else q.

Fixpoint escape (fuel : nat) (s : string) : string :=
  match fuel, s with
  | S f, String c s' =>
      if decide (byte c < 128) then escape_ascii c +:+ escape f s'
      else match utf8_take s with
           | Some (q, r) => escape_rune q +:+ escape f r
           | None => "\ufffd" +:+ escape f s'
           end
  | _, _ => ""
  end.

Definition encode_string (s : string) : string :=
  String dquote (escape (String.length s) s +:+ String dquote "").

Definition hex4 (a b c d : ascii) : option Z :=
  w ← hex_val a; x ← hex_val b; y ← hex_val c; z ← hex_val d;
  Some (w * 4096 + x * 256 + y * 16 + z).

(** After the backslash: the bytes of the escape and what follows it. *)
Definition unescape (s : string) : option (string * string) :=
  match s with
  | "" => None
  | String c s' =>
      if decide (c = dquote ∨ c = "\"%char ∨ c = "/"%char) then Some (String c "", s')
      else if decide (c = "b"%char) then Some (String (chr 8) "", s')
      else if decide (c = "f"%char) then Some (String (chr 12) "", s')
      else if decide (c = "n"%char) then Some (String nl "", s')
      else if decide (c = "r"%char) then Some (String cr "", s')
      else if decide (c = "t"%char) then Some (String (chr 9) "", s')
      else if decide (c = "u"%char) then
        match s' with
        | String h1 (String h2 (String h3 (String h4 t))) =>
            r ← hex4 h1 h2 h3 h4;
            if decide (55296 ≤ r ≤ 56319) then
              (* a surrogate pair, or an unpaired surrogate *)
              match t with
              | String b (String u (String i1 (String i2 (String i3 (String i4 t'))))) =>
                  if decide (b = "\"%char ∧ u = "u"%char) then
                    match hex4 i1 i2 i3 i4 with
                    | Some r2 =>
                        if decide (56320 ≤ r2 ≤ 57343)
                        then Some (utf8_encode ((r - 55296) * 1024 + (r2 - 56320) + 65536), t')
                        else Some (rune_error, t)
                    | None => Some (rune_error, t)
                    end
                  else Some (rune_error, t)
              | _ => Some (rune_error, t)
              end
            else Some (utf8_encode r, t)
        | _ => None
        end
      else None
  end.

(** The body of a string literal, after the opening quote. *)
Fixpoint unquote (fuel : nat) (s : string) : option (string * string) :=
  match fuel, s with
  | S f, String c s' =>
      if decide (c = dquote) then Some ("", s')
      else if decide (c = "\"%char) then
        '(q, r) ← unescape s'; '(t, rest) ← unquote f r; Some (q +:+ t, rest)
      else if decide (byte c < 32) then None
      else if decide (byte c < 128) then
        '(t, rest) ← unquote f s'; Some (String c t, rest)
      else match utf8_take s with
           | Some (q, r) => '(t, rest) ← unquote f r; Some (q +:+ t, rest)
           | None => '(t, rest) ← unquote f s'; Some (rune_error +:+ t, rest)
           end
  | _, _ => None
  end.

(** No raw newline: a JSON text written by the encoder is one line. *)
Fixpoint no_nl (s : string) : bool :=
  match s with "" => true | String c s' => negb (bool_decide (c = nl)) && no_nl s' end.

Lemma no_nl_app a b : no_nl (a +:+ b) = no_nl a && no_nl b.
Proof. induction a as [|c a IH]; [done|]. rewrite str_app_cons. simpl. by rewrite IH, andb_assoc. Qed.

Lemma no_nl_high c : 128 ≤ byte c → bool_decide (c = nl) = false.
Proof. intros Hc. apply bool_decide_eq_false. intros ->. vm_compute in Hc. by apply Hc. Qed.

Ltac high_bytes :=
  unfold cont, in_range in *;
  repeat match goal with
    | H : context [_ || _ = true] |- _ => setoid_rewrite orb_true_iff in H
    | H : context [_ && _ = true] |- _ => setoid_rewrite andb_true_iff in H
    | H : context [bool_decide _ = true] |- _ => setoid_rewrite bool_decide_eq_true in H
    end.

(** *** A valid string survives *)

Lemma utf8_take_spec s q r :
  utf8_take s = Some (q, r) →
  s = q +:+ r ∧ no_nl q = true ∧
  (∀ r', utf8_take (q +:+ r') = Some (q, r')) ∧
  ∃ c q', q = String c q' ∧ 128 ≤ byte c.
Proof.
  destruct s as [|a [|b s2]]; simpl; [done..|].
  destruct (utf8_2 a b) eqn:H2.
  { intros [= <- <-]. pose proof H2 as H2'. unfold utf8_2 in H2'. high_bytes.
    split_and!; [done|simpl; by rewrite !no_nl_high by lia|intros r'; simpl; by rewrite H2|].
    eexists _, _. split; [done|]. lia. }
  destruct s2 as [|c s3]; [done|]. destruct (utf8_3 a b c) eqn:H3.
  { intros [= <- <-]. pose proof H3 as H3'. unfold utf8_3 in H3'. high_bytes.
    split_and!; [done|simpl; by rewrite !no_nl_high by lia|intros r'; simpl; by rewrite H2, H3|].
    eexists _, _. split; [done|]. lia. }
  destruct s3 as [|d s4]; [done|]. destruct (utf8_4 a b c d) eqn:H4; [|done].
  intros [= <- <-]. pose proof H4 as H4'. unfold utf8_4 in H4'. high_bytes.
  split_and!; [done|simpl; by rewrite !no_nl_high by lia|intros r'; simpl; by rewrite H2, H3, H4|].
  eexists _, _. split; [done|]. lia.
Qed.

Lemma chr_byte c : chr (byte c) = c.
Proof. unfold chr, byte. by rewrite N2Z.id, ascii_N_embedding. Qed.

Lemma byte_eq c n : byte c = n → c = chr n.
Proof. intros <-. by rewrite chr_byte. Qed.

Lemma byte_nonneg c : 0 ≤ byte c.
Proof. unfold byte. lia. Qed.

Lemma hex_val_digit n : 0 ≤ n < 16 → hex_val (hex_digit n) = Some n.
Proof.
  intros ?. assert (n ∈ seqZ 0 16) as Hn by (apply elem_of_seqZ; lia).
  apply (proj1 (Forall_forall (λ n, hex_val (hex_digit n) = Some n) (seqZ 0 16))); [|done].
  by repeat constructor.
Qed.

Lemma escape_ascii_cases c :
  byte c < 128 →
  (escape_ascii c = String c "" ∧ c ≠ dquote ∧ c ≠ "\"%char ∧ 32 ≤ byte c) ∨
  (∃ e, escape_ascii c = String "\" e ∧ ∀ t, unescape (e +:+ t) = Some (String c "", t)).
Proof.
  intros Hc. unfold escape_ascii.
  destruct (decide (c = dquote)) as [->|]; [right; by exists (String dquote "")|].
  destruct (decide (c = "\"%char)) as [->|]; [right; by exists "\"|].
  destruct (decide (byte c = 8)) as [->%byte_eq|]; [right; by exists "b"|].
  destruct (decide (byte c = 12)) as [->%byte_eq|]; [right; by exists "f"|].
  destruct (decide (byte c = 10)) as [->%byte_eq|]; [right; by exists "n"|].
  destruct (decide (byte c = 13)) as [->%byte_eq|]; [right; by exists "r"|].
  destruct (decide (byte c = 9)) as [->%byte_eq|]; [right; by exists "t"|].
  case_decide as Hd; [|left; split_and!; [done..|destruct (decide (32 ≤ byte c)); naive_solver lia]].
  right. eexists. split; [reflexivity|]. intros t. pose proof (byte_nonneg c).
  assert (0 ≤ byte c `div` 16 < 16) by (split; [apply Z.div_pos; lia|apply Z.div_lt_upper_bound; lia]).
  assert (0 ≤ byte c `mod` 16 < 16) by (apply Z.mod_pos_bound; lia).
  rewrite !str_app_cons, str_app_nil_l. unfold unescape.
  repeat (rewrite decide_False by (intros H'; destruct_or?; discriminate)).
  rewrite decide_True by done. unfold hex4.
  rewrite !hex_val_digit by done. change (hex_val "0") with (Some 0). cbn [mbind option_bind].
  replace (0 * 4096 + 0 * 256 + byte c `div` 16 * 16 + byte c `mod` 16) with (byte c)
    by (pose proof (Z.div_mod (byte c) 16); lia).
  rewrite decide_False by lia. unfold utf8_encode. rewrite (decide_False (P := _ ∨ _)) by lia.
  rewrite decide_True by lia. by rewrite chr_byte.
Qed.

Lemma unquote_escaped f e q t :
  unescape (e +:+ t) = Some (q, t) →
  unquote (S f) (String "\" e +:+ t) = '(u, rest) ← unquote f t; Some (q +:+ u, rest).
Proof.
  intros He. rewrite str_app_cons. cbn [unquote]. rewrite decide_False, decide_True by done.
  by rewrite He.
Qed.

Lemma unquote_ascii f c t :
  byte c < 128 →
  unquote (S f) (escape_ascii c +:+ t) = '(u, rest) ← unquote f t; Some (String c u, rest).
Proof.
  intros Hc. destruct (escape_ascii_cases c Hc) as [(-> & ? & ? & ?)|(e & -> & He)].
  - rewrite str_app_cons, str_app_nil_l. cbn [unquote]. rewrite !decide_False by (done || lia).
    by rewrite decide_True.
  - by rewrite (unquote_escaped f e (String c "")).
Qed.

Lemma unquote_rune f q t c q' :
  q = String c q' → 128 ≤ byte c → utf8_take (q +:+ t) = Some (q, t) →
  unquote (S f) (escape_rune q +:+ t) = '(u, rest) ← unquote f t; Some (q +:+ u, rest).
Proof.
  intros Hq Hc Ht. unfold escape_rune. case_decide as Hs; [|case_decide as Hs'].
  - rewrite Hs. by apply (unquote_escaped f "u2028").
  - rewrite Hs'. by apply (unquote_escaped f "u2029").
  - subst q. rewrite str_app_cons in Ht |- *. cbn [unquote].
    rewrite (decide_False (P := c = dquote)) by (intros ->; by apply Hc).
    rewrite (decide_False (P := c = "\"%char)) by (intros ->; by apply Hc).
    rewrite !decide_False by lia. by rewrite Ht.
Qed.

Lemma unquote_invalid f t :
  unquote (S f) ("\ufffd" +:+ t) = '(u, rest) ← unquote f t; Some (rune_error +:+ u, rest).
Proof. by apply (unquote_escaped f "ufffd"). Qed.

Lemma utf8_take_shorter s q r : utf8_take s = Some (q, r) → (String.length r < String.length s)%nat.
Proof. intros (-> & _ & _ & c & q' & -> & _)%utf8_take_spec. rewrite length_str_app. cbn [String.length]. lia. Qed.

Lemma unquote_escape n f s rest :
  (String.length s ≤ n)%nat → (n < f)%nat →
  unquote f (escape n s +:+ String dquote rest) = Some (to_valid_fuel n s, rest).
Proof.
  revert f s. induction n as [|n IH]; intros f s Hv Hf; (destruct f as [|f]; [lia|]).
  - destruct s as [|c s]; [|simpl in Hv; lia]. simpl. reflexivity.
  - destruct s as [|c s]; [simpl; reflexivity|]. cbn [escape to_valid_fuel]. case_decide.
    + rewrite str_app_assoc, unquote_ascii by done. rewrite (IH f) by (simpl in Hv; lia). done.
    + destruct (utf8_take (String c s)) as [[q r]|] eqn:Ht.
      * pose proof (utf8_take_shorter _ _ _ Ht) as Hlt.
        destruct (utf8_take_spec _ _ _ Ht) as (Hs & _ & Hr & c' & q' & Hq & Hc').
        rewrite str_app_assoc, (unquote_rune f q _ c' q') by done.
        rewrite (IH f) by (simpl in *; lia). done.
      * rewrite str_app_assoc, unquote_invalid, (IH f) by (simpl in Hv; lia). done.
Qed.

Lemma to_valid_id s : valid_utf8 s = true → to_valid s = s.
Proof.
  unfold valid_utf8, to_valid. generalize (String.length s). intros n. revert s.
  induction n as [|n IH]; intros [|c s]; cbn [valid_utf8_fuel to_valid_fuel]; intros Hv; [done|done|done|].
  case_decide; [by rewrite IH|]. destruct (utf8_take (String c s)) as [[q r]|] eqn:Ht; [|done].
  rewrite IH by done. by apply utf8_take_spec in Ht as [-> _].
Qed.

(** ** Values *)

#[warnings="-register-all"]
Inductive json : Type :=
| JNull
| JBool (b : bool)
| JNum (lit : string)
| JStr (s : string)
| JArr (l : list json)
| JObj (l : list (string * json)).

Definition is_ws (c : ascii) : bool :=
  bool_decide (c = " "%char ∨ c = chr 9 ∨ c = nl ∨ c = cr).

Fixpoint skip_ws (s : string) : string :=
  match s with
  | String c s' => if is_ws c then skip_ws s' else s
  | "" => ""
  end.

Fixpoint take_digits (s : string) : string * string :=
  match s with
  | String c s' =>
      if is_digit c then let '(d, r) := take_digits s' in (String c d, r) else ("", s)
  | "" => ("", "")
  end.

(** At least one digit. *)
Definition take_digits1 (s : string) : option (string * string) :=
  let '(d, r) := take_digits s in if decide (d = "") then None else Some (d, r).

Definition num_int (s : string) : option (string * string) :=
  match s with
  | String c s' => if decide (c = "0"%char) then Some ("0", s') else take_digits1 s
  | "" => None
  end.

Definition num_frac (s : string) : option (string * string) :=
  match s with
  | String c s' =>
      if decide (c = "."%char) then '(d, r) ← take_digits1 s'; Some (String c d, r)
      else Some ("", s)
  | "" => Some ("", "")
  end.

Definition num_exp (s : string) : option (string * string) :=
  match s with
  | String c s' =>
      if decide (c = "e"%char ∨ c = "E"%char) then
        let '(sg, t) :=
          match s' with
          | String x t => if decide (x = "+"%char ∨ x = "-"%char) then (String x "", t) else ("", s')
          | "" => ("", "")
          end in
        '(d, r) ← take_digits1 t; Some (String c (sg +:+ d), r)
      else Some ("", s)
  | "" => Some ("", "")
  end.

(** A number literal at the head of the string. *)
Definition num_lit (s : string) : option (string * string) :=
  let '(sg, t) :=
    match s with
    | String c t => if decide (c = "-"%char) then ("-", t) else ("", s)
    | "" => ("", "")
    end in
  '(i, t) ← num_int t; '(f, t) ← num_frac t; '(e, t) ← num_exp t;
  Some (sg +:+ i +:+ f +:+ e, t).

Definition take_lit (lit s : string) : option string :=
  if HasPrefix s lit then Some (str_drop (String.length lit) s) else None.

(** Recursive descent; every nested call has less fuel, and the callers give
    the length of the text. *)
Fixpoint parse_value (fuel : nat) (s : string) : option (json * string) :=
  match fuel with
  | O => None
  | S fuel =>
      let s := skip_ws s in
      match s with
      | "" => None
      | String c t =>
          if decide (c = "{"%char) then
            match skip_ws t with
            | String d r =>
                if decide (d = "}"%char) then Some (JObj [], r)
                else '(l, r) ← parse_members fuel t; Some (JObj l, r)
            | "" => None
            end
          else if decide (c = "["%char) then
            match skip_ws t with
            | String d r =>
                if decide (d = "]"%char) then Some (JArr [], r)
                else '(l, r) ← parse_elements fuel t; Some (JArr l, r)
            | "" => None
            end
          else if decide (c = dquote) then
            '(q, r) ← unquote (S (String.length t)) t; Some (JStr q, r)
          else if decide (c = "n"%char) then r ← take_lit "null" s; Some (JNull, r)
          else if decide (c = "t"%char) then r ← take_lit "true" s; Some (JBool true, r)
          else if decide (c = "f"%char) then r ← take_lit "false" s; Some (JBool false, r)
          else '(n, r) ← num_lit s; Some (JNum n, r)
      end
  end
with parse_members (fuel : nat) (s : string) : option (list (string * json) * string) :=
  match fuel with
  | O => None
  | S fuel =>
      match skip_ws s with
      | String q t =>
          if decide (q = dquote) then
            '(k, r) ← unquote (S (String.length t)) t;
            match skip_ws r with
            | String col r =>
                if decide (col = ":"%char) then
                  '(v, r) ← parse_value fuel r;
                  match skip_ws r with
                  | String d r =>
                      if decide (d = "}"%char) then Some ([(k, v)], r)
                      else if decide (d = ","%char) then
                        '(l, r) ← parse_members fuel r; Some ((k, v) :: l, r)
                      else None
                  | "" => None
                  end
                else None
            | "" => None
            end
          else None
      | "" => None
      end
  end
with parse_elements (fuel : nat) (s : string) : option (list json * string) :=
  match fuel with
  | O => None
  | S fuel =>
      '(v, r) ← parse_value fuel s;
      match skip_ws r with
      | String d r =>
          if decide (d = "]"%char) then Some ([v], r)
          else if decide (d = ","%char) then '(l, r) ← parse_elements fuel r; Some (v :: l, r)
          else None
      | "" => None
      end
  end.

(** Arrays and objects inside each other; the scanner refuses more than [maxNestingDepth]. *)
Fixpoint depth (v : json) : Z :=
  match v with
  | JArr l => 1 + foldr (λ v n, Z.max (depth v) n) 0 l
  | JObj l => 1 + foldr (λ kv n, Z.max (depth kv.2) n) 0 l
  | _ => 0
  end.
Definition maxNestingDepth : Z := 10000.

Definition shallow (v : json) : option json := if decide (depth v ≤ maxNestingDepth) then Some v else None.

(** The next value of a stream ([Decoder.Decode]): what follows is not looked at. *)
Definition parse_stream (s : string) : option json :=
  '(v, _) ← parse_value (S (String.length s)) s; shallow v.

(** A complete text ([Unmarshal]). *)
Definition parse_text (s : string) : option json :=
  '(v, r) ← parse_value (S (String.length s)) s;
  if decide (skip_ws r = "") then shallow v else None.

Lemma shallow_small v : depth v ≤ 2 → shallow v = Some v.
Proof. intros Hd. unfold shallow. rewrite decide_True by (unfold maxNestingDepth; lia). done. Qed.

Example parse_text_ex :
  parse_text (jq " { 'a' : [1, -2.5e+3, 'x\u0041\n'] , 'b':null } ")
  = Some (JObj [("a", JArr [JNum "1"; JNum "-2.5e+3"; JStr ("xA" +:+ nl_str)]); ("b", JNull)]) ∧
  parse_text "{} x" = None ∧ parse_stream "{} x" = Some (JObj []) ∧ parse_text "01" = None ∧
  parse_text "" = None ∧ parse_text (jq "{'a':1,}") = None ∧ parse_text "[1 2]" = None.
Proof. vm_compute. done. Qed.

(** ** [models.Metrics] *)

Fixpoint join_comma (l : list string) : string :=
  match l with
  | [] => ""
  | [s] => s
  | s :: l => s +:+ "," +:+ join_comma l
  end.

Lemma join_comma_cons a b l : join_comma (a :: b :: l) = a +:+ "," +:+ join_comma (b :: l).
Proof. reflexivity. Qed.

(** [json.Marshal] of a [Metrics]: the fields in the order of the struct, nil
    pointers omitted; [None] is the error of an unsupported number. *)
Definition encode_Metrics (m : Metrics) : option string :=
  let delta := match Delta m with Some d => [jq "'delta':" +:+ show_int d] | None => [] end in
  value ← match Value m with
          | Some v => s ← json_float v; Some [jq "'value':" +:+ s]
          | None => Some []
          end;
  Some ("{" +:+ join_comma (delta ++ value ++
                            [jq "'id':" +:+ encode_string (ID m);
                             jq "'type':" +:+ encode_string (MType m)]) +:+ "}").

Fixpoint encode_all (l : list Metrics) : option (list string) :=
  match l with
  | [] => Some []
  | m :: l => s ← encode_Metrics m; ss ← encode_all l; Some (s :: ss)
  end.

(** [json.Marshal] of a [[]Metrics]; [None] is the nil slice. *)
Definition encode_slice (l : option (list Metrics)) : option string :=
  match l with
  | None => Some "null"
  | Some l => ss ← encode_all l; Some ("[" +:+ join_comma ss +:+ "]")
  end.

(** [Encoder.Encode] ends its output with a newline. *)
Definition Encode (s : option string) : option string := (λ s, s +:+ nl_str) <$> s.

(** One member of an object decoded into the struct; field names match up to
    case, other members are ignored; [None] is a type error. *)
Definition decode_member (m : Metrics) (kv : string * json) : option Metrics :=
  let '(k, v) := kv in
  let k := lower_str k in
  if decide (k = "delta") then
    match v with
    | JNull => Some (mkMetrics None (Value m) (ID m) (MType m))
    | JNum n => d ← ParseInt n; Some (mkMetrics (Some d) (Value m) (ID m) (MType m))
    | _ => None
    end
  else if decide (k = "value") then
    match v with
    | JNull => Some (mkMetrics (Delta m) None (ID m) (MType m))
    | JNum n => x ← ParseFloat n; Some (mkMetrics (Delta m) (Some x) (ID m) (MType m))
    | _ => None
    end
  else if decide (k = "id") then
    match v with
    | JNull => Some m
    | JStr s => Some (mkMetrics (Delta m) (Value m) s (MType m))
    | _ => None
    end
  else if decide (k = "type") then
    match v with
    | JNull => Some m
    | JStr s => Some (mkMetrics (Delta m) (Value m) (ID m) s)
    | _ => None
    end
  else Some m.

Fixpoint decode_members (m : Metrics) (l : list (string * json)) : option Metrics :=
  match l with
  | [] => Some m
  | kv :: l => m ← decode_member m kv; decode_members m l
  end.

Definition decode_Metrics (v : json) : option Metrics :=
  match v with
  | JObj l => decode_members zero_Metrics l
  | JNull => Some zero_Metrics
  | _ => None
  end.

Fixpoint decode_all (l : list json) : option (list Metrics) :=
  match l with
  | [] => Some []
  | v :: l => m ← decode_Metrics v; ms ← decode_all l; Some (m :: ms)
  end.

(** Decoding into a nil [[]Metrics]. *)
Definition decode_slice (v : json) : option (option (list Metrics)) :=
  match v with
  | JArr l => Some <$> decode_all l
  | JNull => Some None
  | _ => None
  end.

(** [json.Unmarshal] into a [*Metrics]. *)
Definition Unmarshal_Metrics (s : string) : option Metrics := parse_text s ≫= decode_Metrics.

(** [json.NewDecoder(body).Decode] into a [*Metrics] and into a [*[]Metrics]. *)
Definition Decode_Metrics (s : string) : option Metrics := parse_stream s ≫= decode_Metrics.
Definition Decode_slice (s : string) : option (option (list Metrics)) := parse_stream s ≫= decode_slice.

Example decode_ex :
  Decode_slice (jq "[{'type': 'gauge', 'id': 'g', 'value': 0.5}, {'TYPE': 'counter', 'id': 'c', 'delta': 1, 'x': {}}] tail")
  = Some (Some [mkMetrics None (Some (FFin false (2 ^ 52) (-53))) "g" "gauge";
                mkMetrics (Some 1) None "c" "counter"]) ∧
  Decode_Metrics (jq "{'delta': 1.5}") = None ∧ Decode_Metrics "" = None ∧
  Decode_slice "null" = Some None ∧ Decode_slice "{}" = None.
Proof. vm_compute. done. Qed.

Example encode_ex :
  encode_Metrics (mkMetrics (Some (-3)) (Some (FFin false (2 ^ 52) (-53))) "a<b" "counter")
  = Some (jq "{'delta':-3,'value':0.5,'id':'a\u003cb','type':'counter'}") ∧
  encode_Metrics (mkMetrics None (Some FNaN) "a" "gauge") = None.
Proof. vm_compute. done. Qed.

(** *** Decoded values fit their Go types *)

Lemma decode_member_ok m kv m' : Metrics_ok m → decode_member m kv = Some m' → Metrics_ok m'.
Proof.
  intros [Hd Hv]. destruct kv as [k v]. unfold decode_member.
  repeat case_decide; destruct v; intros Hm; simplify_eq/=; try (by split);
    apply bind_Some in Hm as (x & Hx & [= <-]); split; simpl; try done; intros ? [= <-]; eauto with gomon.
Qed.

Lemma decode_Metrics_ok v m : decode_Metrics v = Some m → Metrics_ok m.
Proof.
  assert (Metrics_ok zero_Metrics) as Hz by done.
  destruct v as [| | | | |l]; simpl; [by intros [= <-]|done..|].
  revert Hz. generalize zero_Metrics. induction l as [|kv l IH]; intros m0 Hm0; simpl.
  - by intros [= <-].
  - intros (m1 & Hm1 & Hl)%bind_Some. eapply IH; [|done]. by eapply decode_member_ok.
Qed.

Lemma decode_slice_ok v l : decode_slice v = Some (Some l) → Forall Metrics_ok l.
Proof.
  destruct v as [| | | |vs|]; simpl; [done..| |done]. intros (l' & Hl & [= <-])%fmap_Some.
  revert l Hl. induction vs as [|v vs IH]; intros l; simpl; [by intros [= <-]|].
  intros (m & Hm & (ms & Hms & [= <-])%bind_Some)%bind_Some.
  constructor; [by eapply decode_Metrics_ok|by apply IH].
Qed.

Lemma Unmarshal_Metrics_ok s m : Unmarshal_Metrics s = Some m → Metrics_ok m.
Proof. intros (v & _ & Hm)%bind_Some. by eapply decode_Metrics_ok. Qed.

Lemma Decode_Metrics_ok s m : Decode_Metrics s = Some m → Metrics_ok m.
Proof. intros (v & _ & Hm)%bind_Some. by eapply decode_Metrics_ok. Qed.

Lemma Decode_slice_ok s l : Decode_slice s = Some (Some l) → Forall Metrics_ok l.
Proof. intros (v & _ & Hl)%bind_Some. by eapply decode_slice_ok. Qed.

(** *** Number literals *)

(** What may follow a number inside an object or array, or end the text. *)
Definition num_end (s : string) : bool :=
  match s with
  | "" => true
  | String c _ => negb (is_digit c) && negb (bool_decide (c ∈ ["."; "e"; "E"]%char))
  end.

Definition lit_ok (lit : string) : Prop :=
  ∀ rest, num_end rest = true → num_lit (lit +:+ rest) = Some (lit, rest).

Definition not_digit_head (s : string) : bool :=
  match s with "" => true | String c _ => negb (is_digit c) end.

Lemma num_end_not_digit s : num_end s = true → not_digit_head s = true.
Proof. destruct s; simpl; [done|]. by intros [? _]%andb_true_iff. Qed.

Lemma take_digits_app ds rest :
  all_digits ds = true → not_digit_head rest = true → take_digits (ds +:+ rest) = (ds, rest).
Proof.
  intros Hds Hr. induction ds as [|c ds IH].
  - rewrite str_app_nil_l. destruct rest as [|c r]; [done|]. simpl in *. by destruct (is_digit c).
  - simpl in Hds. apply andb_true_iff in Hds as [Hc Hds].
    rewrite str_app_cons. simpl. by rewrite Hc, IH.
Qed.

Lemma take_digits1_app c ds rest :
  is_digit c = true → all_digits ds = true → not_digit_head rest = true →
  take_digits1 (String c ds +:+ rest) = Some (String c ds, rest).
Proof.
  intros Hc Hds Hr. unfold take_digits1.
  rewrite take_digits_app by (done || by simpl; rewrite Hc). by rewrite decide_False.
Qed.

Lemma num_int_app c ds rest :
  is_digit c = true → c ≠ "0"%char → all_digits ds = true → not_digit_head rest = true →
  num_int (String c ds +:+ rest) = Some (String c ds, rest).
Proof.
  intros Hc Hz Hds Hr. unfold num_int. rewrite str_app_cons, decide_False by done.
  rewrite <- str_app_cons. by apply take_digits1_app.
Qed.

Lemma num_frac_none s : num_end s = true → num_frac s = Some ("", s).
Proof.
  destruct s as [|c s]; [done|]. simpl. intros [_ H]%andb_true_iff.
  rewrite decide_False; [done|]. intros ->. by vm_compute in H.
Qed.

Lemma num_exp_none s : num_end s = true → num_exp s = Some ("", s).
Proof.
  destruct s as [|c s]; [done|]. simpl. intros [_ H]%andb_true_iff.
  rewrite decide_False; [done|]. intros [-> | ->]; by vm_compute in H.
Qed.

(** A literal from its parts. *)
Lemma num_lit_parts neg i f e rest s1 s2 :
  num_int s1 = Some (i, s2) → not (∃ t, s1 = String "-" t) →
  (∃ s3, num_frac s2 = Some (f, s3) ∧ num_exp s3 = Some (e, rest)) →
  num_lit (sign_str neg +:+ s1) = Some (sign_str neg +:+ i +:+ f +:+ e, rest).
Proof.
  intros Hi Hm (s3 & Hf & He). unfold num_lit. destruct neg.
  - unfold sign_str. rewrite str_app_cons, str_app_nil_l, decide_True by done.
    rewrite Hi. simpl. rewrite Hf. simpl. by rewrite He.
  - unfold sign_str. rewrite str_app_nil_l. destruct s1 as [|c s1]; [done|].
    rewrite decide_False by (intros ->; by apply Hm; eauto).
    rewrite Hi. simpl. rewrite Hf. simpl. rewrite He. simpl. by rewrite !str_app_nil_l.
Qed.

Lemma digit_not_minus c s : is_digit c = true → ¬ ∃ t, String c s = String "-" t.
Proof. intros Hc [t [= -> ->]]. by vm_compute in Hc. Qed.

Lemma lit_ok_zero neg : lit_ok (sign_str neg +:+ "0").
Proof.
  intros rest Hr. rewrite str_app_assoc.
  rewrite (num_lit_parts neg "0" "" "" rest _ rest); [by rewrite str_app_nil_r|done| |].
  - by intros [t [=]].
  - exists rest. split; [by apply num_frac_none|by apply num_exp_none].
Qed.

Lemma lit_ok_nat neg n : 0 ≤ n → lit_ok (sign_str neg +:+ show_nonneg n).
Proof.
  intros Hn. destruct (decide (n = 0)) as [->|]; [apply lit_ok_zero|].
  destruct (show_nonneg_lead n) as (c & t & -> & Hz & Hc & Ht); [lia|].
  intros rest Hr. rewrite str_app_assoc.
  rewrite (num_lit_parts neg (String c t) "" "" rest _ rest); [by rewrite !str_app_nil_r| | |].
  - apply num_int_app; [done..|by apply num_end_not_digit].
  - by apply digit_not_minus.
  - exists rest. split; [by apply num_frac_none|by apply num_exp_none].
Qed.

Lemma lit_ok_show_int n : lit_ok (show_int n).
Proof.
  unfold show_int. case_decide.
  - apply (lit_ok_nat true). lia.
  - apply (lit_ok_nat false). lia.
Qed.

Lemma num_frac_digits ds rest :
  all_digits ds = true → ds ≠ "" → not_digit_head rest = true →
  num_frac (String "." (ds +:+ rest)) = Some (String "." ds, rest).
Proof.
  intros Hds Hne Hr. unfold num_frac. rewrite decide_True by done.
  destruct ds as [|c ds]; [done|]. simpl in Hds. apply andb_true_iff in Hds as [Hc Hds].
  by rewrite take_digits1_app.
Qed.

Section LayoutLit.
Context (neg : bool) (c : ascii) (t : string).
Context (Hz : c ≠ "0"%char) (Hc : is_digit c = true) (Ht : all_digits t = true).
Let ds : string := String c t.

Local Lemma lit_ds_digits : all_digits ds = true.
Proof using Hc Ht. simpl. by rewrite Hc. Qed.

Lemma lit_ok_layout_f dp : lit_ok (sign_str neg +:+ layout_f ds dp).
Proof using Hz Hc Ht.
  pose proof lit_ds_digits as Hds. intros rest Hr. pose proof (num_end_not_digit _ Hr) as Hnd.
  rewrite str_app_assoc. unfold layout_f. case_decide; [|case_decide].
  - set (fs := zeros (Z.to_nat (- dp)) +:+ ds).
    assert (all_digits fs = true) as Hfs by (unfold fs; by rewrite all_digits_app, zeros_digits).
    assert (fs ≠ "") as Hfne by (unfold fs; destruct (Z.to_nat _); done).
    rewrite (num_lit_parts neg "0" (String "." fs) "" rest _ (String "." (fs +:+ rest)));
      [by rewrite str_app_nil_r|done|by intros [? [=]]|].
    exists rest. split; [by apply num_frac_digits|by apply num_exp_none].
  - destruct (Z.to_nat dp) as [|n] eqn:Hn; [lia|].
    destruct (all_digits_take_drop (S n) ds Hds) as [Ht1 Ht2].
    set (fs := str_drop (S n) ds) in *.
    assert (fs ≠ "") as Hfne.
    { intros Hf. pose proof (length_str_drop (S n) ds) as Hl. fold fs in Hl. rewrite Hf in Hl.
      simpl (String.length "") in Hl. lia. }
    rewrite (num_lit_parts neg (str_take (S n) ds) (String "." fs) "" rest _ (String "." (fs +:+ rest)));
      [by rewrite str_app_nil_r| | |].
    + rewrite str_app_assoc, str_app_cons, str_app_nil_l. apply num_int_app; [done..| |done].
      unfold ds in Ht1. simpl in Ht1. by apply andb_true_iff in Ht1 as [_ ?].
    + by apply digit_not_minus.
    + exists rest. split; [by apply num_frac_digits|by apply num_exp_none].
  - rewrite (num_lit_parts neg (ds +:+ zeros (Z.to_nat (dp - Z.of_nat (String.length ds)))) "" "" rest _ rest);
      [by rewrite !str_app_nil_r| | |].
    + unfold ds at 1 2. rewrite !str_app_cons. rewrite <- (str_app_cons c (_ +:+ _)).
      apply num_int_app; [done..| |done]. by rewrite all_digits_app, Ht, zeros_digits.
    + by apply digit_not_minus.
    + exists rest. split; [by apply num_frac_none|by apply num_exp_none].
Qed.

Lemma num_exp_digits (minus : bool) n rest :
  not_digit_head rest = true →
  num_exp ((if minus then "e-" else "e+") +:+ show_nonneg n +:+ rest)
  = Some ((if minus then "e-" else "e+") +:+ show_nonneg n, rest).
Proof.
  intros Hr. destruct (show_nonneg_cons n) as (x & u & -> & Hx & Hu).
  destruct minus; rewrite !(str_app_cons "e"), !str_app_cons, !str_app_nil_l;
    unfold num_exp; rewrite !decide_True by naive_solver;
    rewrite <- str_app_cons, take_digits1_app by done; done.
Qed.

Lemma lit_ok_layout_e dp : lit_ok (sign_str neg +:+ layout_e false ds dp).
Proof using Hz Hc Ht.
  intros rest Hr. pose proof (num_end_not_digit _ Hr) as Hnd.
  rewrite str_app_assoc. unfold layout_e. simpl (false && _). cbv iota zeta.
  simpl (str_take 1 ds). simpl (str_drop 1 ds).
  set (ex := show_nonneg (Z.abs (dp - 1))).
  set (em := if decide (dp - 1 < 0) then "e-" else "e+").
  assert (em = if bool_decide (dp - 1 < 0) then "e-" else "e+") as Hem.
  { unfold em. by case_decide; case_bool_decide. }
  assert (∃ q u, em = String q u ∧ is_digit q = false) as (q & u & Hq & Hqd).
  { unfold em. case_decide; by eexists _, _. }
  assert (Hexp : num_exp (em +:+ ex +:+ rest) = Some (em +:+ ex, rest))
    by (rewrite Hem; by apply num_exp_digits).
  destruct (decide (t = "")) as [Hte|Hte].
  - rewrite str_app_nil_l.
    rewrite (num_lit_parts neg (String c "") "" (em +:+ ex) rest _ ((em +:+ ex) +:+ rest)); [done| | |].
    + rewrite str_app_assoc. apply num_int_app; [done..|].
      by rewrite Hq, !str_app_cons; simpl; rewrite Hqd.
    + by apply digit_not_minus.
    + exists ((em +:+ ex) +:+ rest). rewrite str_app_assoc. split; [|done].
      rewrite Hq, str_app_cons. simpl. rewrite decide_False; [done|]. intros ->.
      revert Hq. unfold em. by case_decide.
  - rewrite (num_lit_parts neg (String c "") (String "." t) (em +:+ ex) rest _
             (String "." (t +:+ (em +:+ ex) +:+ rest))); [done| | |].
    + rewrite !str_app_assoc. by apply num_int_app.
    + by apply digit_not_minus.
    + exists ((em +:+ ex) +:+ rest). split; [|by rewrite str_app_assoc].
      apply num_frac_digits; [done..|]. rewrite str_app_assoc, Hq, str_app_cons. simpl. by rewrite Hqd.
Qed.
End LayoutLit.

Lemma lit_ok_json_float f s : canonical f → json_float f = Some s → lit_ok s.
Proof.
  destruct f as [|neg|neg m e]; simpl; [done|done|]. intros Hcan [= <-].
  case_decide as Hm; [apply lit_ok_zero|].
  assert (0 < m) as Hpos by (destruct Hcan; lia).
  destruct (shortest_round neg m e Hpos Hcan) as (Hd & _ & _).
  destruct (shortest neg m e) as [d k]; simpl in Hd.
  destruct (show_nonneg_lead d Hd) as (c & t & -> & Hz & Hc & Ht).
  case_decide; [by apply lit_ok_layout_e|by apply lit_ok_layout_f].
Qed.

(** The first character of a literal. *)
Lemma lit_ok_head lit : lit_ok lit →
  ∃ c s, lit = String c s ∧ (is_digit c = true ∨ c = "-"%char).
Proof.
  intros Hl. pose proof (Hl "" eq_refl) as H. rewrite str_app_nil_r in H.
  destruct lit as [|c s]; [done|]. exists c, s. split; [done|].
  unfold num_lit in H. case_decide as Hm; [by right|left].
  unfold num_int in H. simpl in H. case_decide as H0; [by rewrite H0|].
  unfold take_digits1 in H. simpl in H. destruct (is_digit c); [done|].
  by rewrite decide_True in H.
Qed.

(** *** Rendered values parse back *)

(** The text [vt] is read as the value [v] in front of anything that may
    follow a value. *)
Definition reads (vt : string) (v : json) : Prop :=
  ∀ f rest, num_end rest = true → parse_value (S f) (vt +:+ rest) = Some (v, rest).

Lemma skip_ws_not_ws c s : is_ws c = false → skip_ws (String c s) = String c s.
Proof. intros Hc. simpl. by rewrite Hc. Qed.

Lemma lit_head_facts c :
  is_digit c = true ∨ c = "-"%char →
  is_ws c = false ∧ c ≠ "{"%char ∧ c ≠ "["%char ∧ c ≠ dquote ∧ c ≠ "n"%char ∧ c ≠ "t"%char ∧ c ≠ "f"%char.
Proof.
  intros [Hc| ->]; [|by vm_compute]. revert c Hc. apply digit_cases. by repeat constructor.
Qed.

Lemma reads_lit lit : lit_ok lit → reads lit (JNum lit).
Proof.
  intros Hl f rest Hr. pose proof (Hl rest Hr) as Hn.
  destruct (lit_ok_head lit Hl) as (c & s & -> & Hc).
  destruct (lit_head_facts c Hc) as (Hw & H1 & H2 & H3 & H4 & H5 & H6).
  rewrite str_app_cons in *. cbn [parse_value]. rewrite skip_ws_not_ws by done.
  rewrite !decide_False by done. by rewrite Hn.
Qed.

Lemma length_escape n s : (String.length s ≤ n)%nat → (String.length s ≤ String.length (escape n s))%nat.
Proof.
  revert s. induction n as [|n IH]; intros [|c s]; cbn [escape]; intros Hv; [simpl; lia|simpl in Hv; lia|simpl; lia|].
  case_decide as Hc.
  - rewrite length_str_app. specialize (IH s ltac:(simpl in Hv; lia)).
    destruct (escape_ascii_cases c Hc) as [(-> & _)|(e & -> & _)]; simpl; lia.
  - destruct (utf8_take (String c s)) as [[q r]|] eqn:Ht.
    + pose proof (utf8_take_shorter _ _ _ Ht) as Hlt. specialize (IH r ltac:(simpl in *; lia)).
      destruct (utf8_take_spec _ _ _ Ht) as (-> & _). rewrite !length_str_app.
      assert (String.length q ≤ String.length (escape_rune q))%nat; [|lia].
      unfold escape_rune. repeat case_decide; subst; vm_compute; lia || done.
    + specialize (IH s ltac:(simpl in Hv; lia)). rewrite length_str_app. simpl in *. lia.
Qed.

Lemma reads_string s : reads (encode_string s) (JStr (to_valid s)).
Proof.
  intros f rest _. unfold encode_string. rewrite str_app_cons, str_app_assoc, str_app_cons, str_app_nil_l.
  cbn [parse_value]. rewrite skip_ws_not_ws by done. rewrite !decide_False by done.
  rewrite decide_True by done. rewrite unquote_escape; [done|done|].
  rewrite length_str_app. pose proof (length_escape (String.length s) s). lia.
Qed.

(** A member name that needs no escape. *)
Definition plain_key (k : string) : Prop :=
  valid_utf8 k = true ∧ escape (String.length k) k = k.

Definition member_text (k vt : string) : string := String dquote (k +:+ String dquote (":" +:+ vt)).

Lemma parse_members_step f k r :
  plain_key k →
  parse_members (S f) (String dquote (k +:+ String dquote (String ":" r))) =
  '(v, r) ← parse_value f r;
  match skip_ws r with
  | String d r =>
      if decide (d = "}"%char) then Some ([(k, v)], r)
      else if decide (d = ","%char) then '(l, r) ← parse_members f r; Some ((k, v) :: l, r)
      else None
  | "" => None
  end.
Proof.
  intros [Hk1 Hk2]. cbn [parse_members]. rewrite skip_ws_not_ws, decide_True by done.
  assert (unquote (S (String.length (k +:+ String dquote (String ":" r))))
            (k +:+ String dquote (String ":" r)) = Some (k, String ":" r)) as ->.
  { rewrite <- (to_valid_id k Hk1) at 3. rewrite <- Hk2 at 2. apply unquote_escape; [done|]. rewrite length_str_app. lia. }
  cbn [mbind option_bind]. rewrite skip_ws_not_ws by done. by rewrite decide_True.
Qed.

Lemma parse_members_render (l : list (string * string * json)) f rest :
  l ≠ [] → (length l < f)%nat →
  Forall (λ '(k, vt, v), plain_key k ∧ reads vt v) l →
  parse_members f (join_comma ((λ '(k, vt, _), member_text k vt) <$> l) +:+ String "}" rest)
  = Some ((λ '(k, _, v), (k, v)) <$> l, rest).
Proof.
  revert f. induction l as [|[[k vt] v] l IH]; intros f Hne Hf Hl; [done|].
  destruct f as [|[|f]]; [lia|simpl in Hf; lia|]. apply Forall_cons in Hl as [[Hk Hvt] Hl].
  destruct l as [|kvv l].
  - cbn [fmap list_fmap join_comma]. unfold member_text.
    rewrite str_app_cons, !str_app_assoc, str_app_cons, str_app_assoc, str_app_cons, str_app_nil_l.
    rewrite parse_members_step, Hvt by done. cbn [mbind option_bind].
    by rewrite skip_ws_not_ws, decide_True.
  - cbn [fmap list_fmap] in IH |- *. rewrite join_comma_cons.
    rewrite str_app_assoc. unfold member_text at 1.
    rewrite str_app_cons, !str_app_assoc, str_app_cons, str_app_assoc, !str_app_cons, !str_app_nil_l.
    rewrite parse_members_step, Hvt by done. cbn [mbind option_bind].
    rewrite skip_ws_not_ws, decide_False, decide_True by done.
    rewrite IH; [done..|simpl in *; lia|done].
Qed.

(** The members [encode_Metrics] writes. *)
Definition metric_members (m : Metrics) (vs : option string) : list (string * string * json) :=
  (match Delta m with Some d => [("delta", show_int d, JNum (show_int d))] | None => [] end) ++
  (match vs with Some s => [("value", s, JNum s)] | None => [] end) ++
  [("id", encode_string (ID m), JStr (to_valid (ID m))); ("type", encode_string (MType m), JStr (to_valid (MType m)))].

Definition finite_value (m : Metrics) : bool :=
  match Value m with Some v => is_finite v | None => true end.

Lemma encode_Metrics_members m s :
  encode_Metrics m = Some s →
  ∃ vs, match Value m with
        | Some v => ∃ t, json_float v = Some t ∧ vs = Some t
        | None => vs = None
        end ∧
    s = "{" +:+ join_comma ((λ '(k, vt, _), member_text k vt) <$> metric_members m vs) +:+ "}".
Proof.
  unfold encode_Metrics, metric_members.
  destruct m as [dl [v|] id ty]; simpl.
  - destruct (json_float v) as [t|]; simpl; [|done]. intros [= <-].
    exists (Some t). split; [by exists t|]. by destruct dl.
  - intros [= <-]. exists None. split; [done|]. by destruct dl.
Qed.

Lemma encode_Metrics_Some m : finite_value m = true → is_Some (encode_Metrics m).
Proof.
  unfold encode_Metrics, finite_value.
  destruct (Value m) as [[| |]|]; intros Hf; [done|done|eexists; reflexivity..].
Qed.

Lemma encode_Metrics_None m : finite_value m = false → encode_Metrics m = None.
Proof. unfold encode_Metrics, finite_value. by destruct (Value m) as [[| |]|]. Qed.

Definition names_ok (m : Metrics) : Prop := valid_utf8 (ID m) = true ∧ valid_utf8 (MType m) = true.
#[export] Instance names_ok_dec m : Decision (names_ok m).
Proof. unfold names_ok. apply _. Defined.

(** The metric that is read back. *)
Definition readable (m : Metrics) : Metrics := mkMetrics (Delta m) (Value m) (to_valid (ID m)) (to_valid (MType m)).

Lemma readable_id m : names_ok m → readable m = m.
Proof. intros [Hi Ht]. unfold readable. rewrite !to_valid_id by done. by destruct m. Qed.

Lemma metric_members_ok m vs :
  Metrics_ok m →
  match Value m with Some v => ∃ t, json_float v = Some t ∧ vs = Some t | None => vs = None end →
  Forall (λ '(k, vt, v), plain_key k ∧ reads vt v) (metric_members m vs) ∧
  decode_members zero_Metrics ((λ '(k, _, v), (k, v)) <$> metric_members m vs) = Some (readable m).
Proof.
  intros [Hd Hv] Hvs. unfold metric_members.
  assert (∀ k, k ∈ ["delta"; "value"; "id"; "type"] → plain_key k) as Hkey.
  { apply Forall_forall. by repeat constructor. }
  destruct m as [dl vl id ty]; simpl in *. split.
  - apply Forall_app. split; [|apply Forall_app; split].
    + destruct dl as [d|]; [|done]. apply Forall_singleton. split; [apply Hkey; set_solver|].
      apply reads_lit, lit_ok_show_int.
    + destruct vl as [v|]; [|by subst]. destruct Hvs as (t & Hjs & ->).
      apply Forall_singleton. split; [apply Hkey; set_solver|].
      eapply reads_lit, lit_ok_json_float; [|done]. by apply Hv.
    + repeat constructor; try apply Hkey; try set_solver; by apply reads_string.
  - assert (Hdl : ∀ d, dl = Some d → ParseInt (show_int d) = Some d)
      by (intros d ->; by apply ParseInt_show, Hd).
    destruct vl as [v|].
    + destruct Hvs as (t & Hjs & ->).
      assert (ParseFloat t = Some v) as Hpt by (eapply ParseFloat_json_float; [by apply Hv|done]).
      destruct dl as [d|]; cbn -[ParseInt ParseFloat]; rewrite ?(Hdl d) by done;
        cbn -[ParseInt ParseFloat]; by rewrite Hpt.
    + subst vs. destruct dl as [d|]; cbn -[ParseInt]; [by rewrite (Hdl d)|done].
Qed.

(** An encoded metric reads back in front of anything. *)
Lemma parse_encode_readable m s f rest :
  Metrics_ok m → encode_Metrics m = Some s → (6 ≤ f)%nat →
  ∃ l, parse_value f (s +:+ rest) = Some (JObj l, rest) ∧ decode_Metrics (JObj l) = Some (readable m) ∧ depth (JObj l) = 1.
Proof.
  intros Hm (vs & Hvs & ->)%encode_Metrics_members Hf.
  destruct (metric_members_ok m vs Hm Hvs) as [Hall Hdec].
  eexists. split; [|split; [exact Hdec|unfold metric_members; by destruct (Delta m), vs]]. destruct f as [|f]; [lia|].
  rewrite !str_app_assoc, !str_app_cons, !str_app_nil_l. cbn [parse_value].
  rewrite skip_ws_not_ws, decide_True by done.
  assert (∃ t, join_comma ((λ '(k, vt, _), member_text k vt) <$> metric_members m vs) +:+ String "}" rest
    = String dquote t) as [t Ht].
  { unfold metric_members. destruct (Delta m), vs; cbn; eexists; reflexivity. }
  rewrite Ht. rewrite skip_ws_not_ws, decide_False by done. rewrite <- Ht.
  rewrite parse_members_render; [done| | |done].
  - unfold metric_members. by destruct (Delta m), vs.
  - unfold metric_members. destruct (Delta m), vs; simpl; lia.
Qed.

Lemma parse_encode_Metrics m s f rest :
  Metrics_ok m → names_ok m → encode_Metrics m = Some s → (6 ≤ f)%nat →
  ∃ l, parse_value f (s +:+ rest) = Some (JObj l, rest) ∧ decode_Metrics (JObj l) = Some m ∧ depth (JObj l) = 1.
Proof.
  intros Hm Hn Hs Hf. destruct (parse_encode_readable m s f rest Hm Hs Hf) as (l & Hp & Hd & Hdp). rewrite (readable_id m Hn) in Hd. eauto.
Qed.

Lemma encode_Metrics_length m s : encode_Metrics m = Some s → (6 ≤ String.length s)%nat.
Proof.
  intros (vs & _ & ->)%encode_Metrics_members. unfold metric_members.
  destruct (Delta m), vs; cbn -[String.length]; rewrite !str_app_cons; simpl String.length;
    rewrite !length_str_app; simpl String.length; lia.
Qed.

Theorem decode_encode_readable m s :
  Metrics_ok m → encode_Metrics m = Some s → Unmarshal_Metrics s = Some (readable m).
Proof.
  intros Hm Hs. unfold Unmarshal_Metrics, parse_text.
  pose proof (encode_Metrics_length _ _ Hs).
  destruct (parse_encode_readable m s (S (String.length s)) "" Hm Hs) as (l & Hp & Hd & Hdp); [lia|].
  rewrite str_app_nil_r in Hp. rewrite Hp. cbn [mbind option_bind]. rewrite decide_True by done.
  by rewrite shallow_small by lia.
Qed.

Theorem decode_encode_Metrics m s :
  Metrics_ok m → names_ok m → encode_Metrics m = Some s → Unmarshal_Metrics s = Some m.
Proof. intros Hm Hn Hs. rewrite (decode_encode_readable m s Hm Hs). by rewrite readable_id. Qed.

(** A stream may go on after the metric. *)
Lemma Decode_encode_Metrics m s rest :
  Metrics_ok m → names_ok m → encode_Metrics m = Some s → Decode_Metrics (s +:+ rest) = Some m.
Proof.
  intros Hm Hn Hs. unfold Decode_Metrics, parse_stream.
  pose proof (encode_Metrics_length _ _ Hs).
  destruct (parse_encode_Metrics m s (S (String.length (s +:+ rest))) rest Hm Hn Hs) as (l & Hp & Hd & Hdp);
    [rewrite length_str_app; lia|].
  rewrite Hp. cbn [mbind option_bind]. rewrite shallow_small by lia. exact Hd.
Qed.

(** *** Slices *)

Lemma parse_encode_all l ss f rest :
  l ≠ [] → Forall Metrics_ok l → Forall names_ok l → encode_all l = Some ss →
  (6 + length l ≤ f)%nat →
  ∃ vs, parse_elements f (join_comma ss +:+ String "]" rest) = Some (vs, rest) ∧
        decode_all vs = Some l ∧ depth (JArr vs) ≤ 2.
Proof.
  revert ss f. induction l as [|m l IH]; intros ss f Hne Hok Hn Hs Hf; [done|].
  apply Forall_cons in Hok as [Hm Hok]. apply Forall_cons in Hn as [Hnm Hn].
  simpl in Hs. apply bind_Some in Hs as (s & Hms & (ss' & Hss & [= <-])%bind_Some).
  destruct f as [|f]; [lia|]. simpl in Hf. destruct l as [|m' l].
  - simpl in Hss. injection Hss as <-. simpl join_comma.
    destruct (parse_encode_Metrics m s f (String "]" rest) Hm Hnm Hms) as (lm & Hp & Hd & Hdp); [lia|].
    exists [JObj lm]. cbn [parse_elements]. rewrite Hp. cbn [mbind option_bind].
    rewrite skip_ws_not_ws, decide_True by done. split; [done|].
    cbn [decode_all]. rewrite Hd. split; [done|]. cbn [depth foldr] in *. lia.
  - destruct (IH ss' f ltac:(done) Hok Hn Hss ltac:(simpl in *; lia)) as (vs & Hvs & Hdvs & Hdpv).
    assert (∃ s' ss'', ss' = s' :: ss'') as (s' & ss'' & ->).
    { simpl in Hss. apply bind_Some in Hss as (? & _ & (? & _ & [= <-])%bind_Some). eauto. }
    rewrite join_comma_cons, !str_app_assoc, str_app_cons, str_app_nil_l.
    destruct (parse_encode_Metrics m s f (String "," (join_comma (s' :: ss'') +:+ String "]" rest)) Hm Hnm Hms)
      as (lm & Hp & Hd & Hdp); [lia|].
    exists (JObj lm :: vs). cbn [parse_elements]. rewrite Hp. cbn [mbind option_bind].
    rewrite skip_ws_not_ws, decide_False, decide_True by done. rewrite Hvs. split; [done|].
    cbn [decode_all]. rewrite Hd; cbn [mbind option_bind]; rewrite Hdvs. split; [done|]. cbn [depth foldr] in *. lia.
Qed.

Lemma encode_all_length l ss :
  encode_all l = Some ss → (6 * length l ≤ String.length (join_comma ss))%nat.
Proof.
  revert ss. induction l as [|m l IH]; intros ss; simpl; [intros [= <-]; simpl; lia|].
  intros (s & Hs & (ss' & Hss & [= <-])%bind_Some)%bind_Some.
  specialize (IH _ Hss). apply encode_Metrics_length in Hs.
  destruct ss' as [|s' ss']; simpl join_comma.
  - destruct l as [|m' l]; [simpl; lia|]. simpl in Hss.
    by apply bind_Some in Hss as (? & _ & (? & _ & [=])%bind_Some).
  - rewrite !length_str_app. simpl String.length. simpl in IH. lia.
Qed.

Theorem decode_encode_slice l s :
  Forall Metrics_ok l → Forall names_ok l → encode_slice (Some l) = Some s →
  Decode_slice s = Some (Some l).
Proof.
  intros Hok Hn (ss & Hss & [= <-])%bind_Some. unfold Decode_slice, parse_stream.
  destruct l as [|m l]; [injection Hss as <-; reflexivity|].
  pose proof (encode_all_length _ _ Hss) as Hlen. simpl in Hlen.
  assert (6 ≤ String.length (join_comma ss))%nat as Hlen6.
  { pose proof Hss as Hss'. simpl in Hss'.
    apply bind_Some in Hss' as (s & Hs & (ss' & _ & [= <-])%bind_Some).
    apply encode_Metrics_length in Hs. destruct ss'; simpl join_comma; rewrite ?length_str_app; lia. }
  rewrite !str_app_cons, str_app_nil_l. cbn [parse_value]. rewrite skip_ws_not_ws by done.
  rewrite decide_False, decide_True by done.
  assert (∃ t, join_comma ss +:+ "]" = String "{" t) as [t Ht].
  { simpl in Hss. apply bind_Some in Hss as (s & Hs & (ss' & _ & [= <-])%bind_Some).
    apply encode_Metrics_members in Hs as (vs & _ & ->).
    destruct ss'; cbn; eexists; reflexivity. }
  rewrite Ht. rewrite skip_ws_not_ws, decide_False by done. rewrite <- Ht.
  destruct (parse_encode_all (m :: l) ss (String.length (String "[" (join_comma ss +:+ "]"))) ""
              ltac:(done) Hok Hn Hss) as (vs & Hp & Hd & Hdp).
  { simpl. rewrite length_str_app. simpl. lia. }
  rewrite Hp. cbn [mbind option_bind]. rewrite shallow_small by done. simpl. by rewrite Hd.
Qed.

(** *** The encoder's output is one line that ends in a brace *)

Lemma all_digits_no_nl s : all_digits s = true → no_nl s = true.
Proof.
  induction s as [|c s IH]; simpl; [done|]. intros [Hc Hs]%andb_true_iff.
  rewrite IH, andb_true_r by done. revert c Hc. apply digit_cases. by repeat constructor.
Qed.

Lemma show_int_no_nl n : no_nl (show_int n) = true.
Proof.
  unfold show_int. pose proof (λ n, all_digits_no_nl _ (show_nonneg_digits n)) as H.
  case_decide; simpl; apply H.
Qed.

Lemma json_float_no_nl f s : json_float f = Some s → no_nl s = true.
Proof.
  destruct f as [|neg|neg m e]; simpl; [done|done|]. intros [= <-].
  assert (no_nl (sign_str neg) = true) as Hsg by by destruct neg.
  case_decide; [by rewrite no_nl_app, Hsg|].
  destruct (shortest neg m e) as [d k]. rewrite no_nl_app, Hsg. simpl.
  pose proof (show_nonneg_digits d) as Hd.
  case_decide.
  - unfold layout_e. destruct (all_digits_take_drop 1 _ Hd) as [H1 H2].
    pose proof (λ n, all_digits_no_nl _ (show_nonneg_digits n)) as Hn.
    repeat case_decide; rewrite ?no_nl_app; simpl;
      by rewrite !all_digits_no_nl by (done || apply show_nonneg_digits).
  - unfold layout_f. repeat case_decide; rewrite ?no_nl_app; simpl.
    + by rewrite !all_digits_no_nl by (done || apply zeros_digits).
    + destruct (all_digits_take_drop (Z.to_nat (Z.of_nat (String.length (show_nonneg d)) + k)) _ Hd).
      by rewrite !all_digits_no_nl.
    + by rewrite !all_digits_no_nl by (done || apply zeros_digits).
Qed.

Lemma hex_digit_no_nl n : 0 ≤ n < 16 → bool_decide (hex_digit n = nl) = false.
Proof.
  intros ?. assert (n ∈ seqZ 0 16) as Hn by (apply elem_of_seqZ; lia).
  cut (no_nl (String (hex_digit n) "") = true).
  { simpl. rewrite andb_true_r. apply negb_true_iff. }
  apply (proj1 (Forall_forall (λ n, no_nl (String (hex_digit n) "") = true) (seqZ 0 16))); [|done].
  by repeat constructor.
Qed.

Lemma escape_ascii_no_nl c : byte c < 128 → no_nl (escape_ascii c) = true.
Proof.
  intros Hc. pose proof (byte_nonneg c).
  assert (0 ≤ byte c `div` 16 < 16) by (split; [apply Z.div_pos; lia|apply Z.div_lt_upper_bound; lia]).
  assert (0 ≤ byte c `mod` 16 < 16) by (apply Z.mod_pos_bound; lia).
  unfold escape_ascii. repeat case_decide; try reflexivity.
  - rewrite no_nl_app. simpl. by rewrite !hex_digit_no_nl.
  - simpl. rewrite bool_decide_eq_false_2; [done|]. by intros ->.
Qed.

Lemma escape_no_nl n s : no_nl (escape n s) = true.
Proof.
  revert s. induction n as [|n IH]; intros [|c s]; try done. cbn [escape]. case_decide.
  - by rewrite no_nl_app, IH, escape_ascii_no_nl.
  - destruct (utf8_take (String c s)) as [[q r]|] eqn:Ht; rewrite no_nl_app, IH; [|done].
    destruct (utf8_take_spec _ _ _ Ht) as (_ & Hq & _). rewrite andb_true_r.
    unfold escape_rune. by repeat case_decide.
Qed.

Lemma encode_string_no_nl s : no_nl (encode_string s) = true.
Proof. unfold encode_string. simpl. by rewrite no_nl_app, escape_no_nl. Qed.

Lemma join_comma_no_nl l : Forall (λ s, no_nl s = true) l → no_nl (join_comma l) = true.
Proof.
  induction 1 as [|s l Hs Hl IH]; [done|]. destruct l as [|s' l]; [done|].
  by rewrite join_comma_cons, !no_nl_app, Hs, IH.
Qed.

Lemma encode_Metrics_line m s :
  encode_Metrics m = Some s → no_nl s = true ∧ ∃ t, s = t +:+ "}".
Proof.
  unfold encode_Metrics. intros (vs & Hvs & [= <-])%bind_Some. split.
  - rewrite !no_nl_app, join_comma_no_nl; [done|]. repeat apply Forall_app_2.
    + destruct (Delta m) as [d|]; [|done]. apply Forall_singleton.
      by rewrite no_nl_app, show_int_no_nl.
    + destruct (Value m) as [v|]; [|by injection Hvs as <-].
      apply bind_Some in Hvs as (t & Ht & [= <-]). apply Forall_singleton.
      by rewrite no_nl_app, (json_float_no_nl _ _ Ht).
    + by repeat constructor; rewrite no_nl_app, encode_string_no_nl.
  - eexists. by rewrite <- str_app_assoc.
Qed.
