(* ===== verification/MemFile.v ===== *)
(** * Saving the in-memory store to a file and restoring it

    [MemStorage.SaveToFile] and [MemStorage.ReadFromFile] of
    [internal/storage/storage.go], on a file system of regular files.  The file
    is one JSON object per line; [bufio.Scanner] with its 64 KiB token limit is
    modelled by [scan_lines] and [read_lines].  What a start finds of a store that was saved is [read_as] or, of
    a part of the file, [read_partly]; with names that are valid UTF-8 it is the store itself but for
    gauges that are NaN or infinite ([restored]). *)

From S2P Require Import Prelude Strconv Float64 GoErrors Metrics MemStorage Json.

Open Scope Z_scope.

(** The contents of the regular files, by name. *)
Abbreviation filesystem := (gmap string string).

(** What [enc.Encode] appends to the file: nothing when the value has no JSON
    (the error is dropped by the caller). *)
Definition save_line (m : Metrics) : string := default "" (Encode (encode_Metrics m)).

Definition counter_metric (m : MemStorage) (k : string) : Metrics :=
  mkMetrics (Some (default 0 (counter m !! k))) None k CounterType.
Definition gauge_metric (m : MemStorage) (k : string) : Metrics :=
  mkMetrics None (Some (default fzero (gauge m !! k))) k GaugeType.

(** The file written, with [cks] and [gks] the order in which [range] visits
    the keys of the two maps. *)
Definition saved_text (cks gks : list string) (m : MemStorage) : string :=
  concat_str (save_line <$> (counter_metric m <$> cks)) +:+
  concat_str (save_line <$> (gauge_metric m <$> gks)).

(** [create] is the error of [os.Create], if any. *)
Definition mem_SaveToFile (cks gks : list string) (create : option goerror) (fname : string)
    (m : MemStorage) (fs : filesystem) : option goerror * filesystem :=
  match create with
  | Some err => (Some err, fs)
  | None => (None, <[fname := saved_text cks gks m]> fs)
  end.

(** [bufio.ScanLines]: the pieces between newlines, without a last empty piece. *)
Fixpoint drop_last_empty (l : list string) : list string :=
  match l with
  | [] => []
  | [s] => if decide (s = "") then [] else [s]
  | s :: l => s :: drop_last_empty l
  end.
Definition scan_lines (s : string) : list string := drop_last_empty (Split s nl).

(** A trailing carriage return is not part of the token. *)
Fixpoint dropCR (s : string) : string :=
  match s with
  | "" => ""
  | String c "" => if decide (c = cr) then "" else String c ""
  | String c s => String c (dropCR s)
  end.

Definition MaxScanTokenSize : Z := 65536.
Definition ErrTooLong : goerror := ErrMsg "bufio.Scanner: token too long".

(** The [switch] on a line read: [*metric.Delta] and [*metric.Value] are nil
    dereferences when the member is missing. *)
Definition load_metric (metric : Metrics) (m : MemStorage) : outcome MemStorage :=
  if decide (MType metric = CounterType) then
    match Delta metric with
    | Some d => Ret (set_counter (ID metric) d m)
    | None => Panic "nil pointer dereference"
    end
  else if decide (MType metric = GaugeType) then
    match Value metric with
    | Some v => Ret (set_gauge (ID metric) v m)
    | None => Panic "nil pointer dereference"
    end
  else Ret m.

Section ReadFromFile.
(** The error [json.Unmarshal] returns on a text it rejects, and the error of
    [os.Open] on a file that does not exist. *)
Context (json_err : string → goerror) (not_exist : string → goerror).

(** The loop over the tokens; the store is what the lines before an error
    have made of it. *)
Fixpoint read_lines (l : list string) (m : MemStorage) : outcome (option goerror * MemStorage) :=
  match l with
  | [] => Ret (None, m)
  | raw :: l =>
      if decide (MaxScanTokenSize ≤ Z.of_nat (String.length raw)) then Ret (Some ErrTooLong, m)
      else match Unmarshal_Metrics (dropCR raw) with
           | None => Ret (Some (json_err (dropCR raw)), m)
           | Some metric => m' ← load_metric metric m; read_lines l m'
           end
  end.

Definition mem_ReadFromFile (fname : string) (fs : filesystem) (m : MemStorage) :
    outcome (option goerror * MemStorage) :=
  match fs !! fname with
  | None => Ret (Some (not_exist fname), m)
  | Some text => read_lines (scan_lines text) m
  end.
End ReadFromFile.

(** ** Lines *)

Lemma Split_line a b : no_nl a = true → Split (a +:+ String nl b) nl = a :: Split b nl.
Proof.
  induction a as [|c a IH].
  - intros _. rewrite str_app_nil_l. cbn [Split]. destruct (Split b nl) eqn:Hb; [|by rewrite decide_True].
    by apply Split_not_nil in Hb.
  - cbn [no_nl]. intros [Hc Ha]%andb_true_iff. rewrite str_app_cons. cbn [Split]. rewrite IH by done.
    rewrite decide_False; [done|]. intros ->. by rewrite bool_decide_eq_true_2 in Hc.
Qed.

Lemma drop_last_empty_cons s l : l ≠ [] → drop_last_empty (s :: l) = s :: drop_last_empty l.
Proof. by destruct l. Qed.

Lemma scan_line a b : no_nl a = true → scan_lines (a +:+ String nl b) = a :: scan_lines b.
Proof.
  intros Ha. unfold scan_lines. rewrite Split_line by done.
  apply drop_last_empty_cons, Split_not_nil.
Qed.

Lemma dropCR_brace t : dropCR (t +:+ "}") = t +:+ "}".
Proof.
  induction t as [|c t IH]; [done|]. rewrite str_app_cons. simpl. rewrite IH.
  by destruct (t +:+ "}") eqn:E; [destruct t|].
Qed.

(** ** A store read from a file is well formed *)

Lemma load_metric_ok metric m m' :
  Metrics_ok metric → mem_ok m → load_metric metric m = Ret m' → mem_ok m'.
Proof.
  intros [Hd Hv] Hm. unfold load_metric. repeat first [case_decide|case_match]; intros [= <-];
    eauto with gomon.
Qed.

Lemma read_lines_ok je l m e m' :
  mem_ok m → read_lines je l m = Ret (e, m') → mem_ok m'.
Proof.
  revert m. induction l as [|raw l IH]; intros m Hm; cbn [read_lines]; [by intros [= <- <-]|].
  case_decide; [by intros [= <- <-]|].
  destruct (Unmarshal_Metrics (dropCR raw)) as [metric|] eqn:Hu; [|by intros [= <- <-]].
  intros (m1 & Hl & Hr)%outcome_bind_Ret. eapply IH; [|exact Hr].
  eapply load_metric_ok; [|done..]. by eapply Unmarshal_Metrics_ok.
Qed.

(** ** Reading what was written *)

(** A line the scanner can hold; a metric without a JSON text has no line. *)
Definition line_fits (v : Metrics) : Prop := Z.of_nat (String.length (save_line v)) ≤ MaxScanTokenSize.
#[export] Instance line_fits_dec v : Decision (line_fits v).
Proof. unfold line_fits. apply _. Defined.

(** The metrics that have a JSON text. *)
Definition storable (l : list Metrics) : list Metrics := filter (λ v, finite_value v = true) l.

Lemma storable_cons v l : storable (v :: l) = if finite_value v then v :: storable l else storable l.
Proof. unfold storable. rewrite filter_cons. by destruct (finite_value v). Qed.

Lemma storable_app l1 l2 : storable (l1 ++ l2) = storable l1 ++ storable l2.
Proof. apply filter_app. Qed.

Lemma save_line_none v : finite_value v = false → save_line v = "".
Proof. intros Hf. unfold save_line. by rewrite encode_Metrics_None. Qed.

(** The loop over the metrics that were written: it stops at the first line that is too long. *)
Fixpoint load_all (l : list Metrics) (m : MemStorage) : outcome (option goerror * MemStorage) :=
  match l with
  | [] => Ret (None, m)
  | v :: l =>
      if decide (line_fits v) then m' ← load_metric (readable v) m; load_all l m' else Ret (Some ErrTooLong, m)
  end.

Lemma read_saved je l m :
  Forall Metrics_ok l →
  read_lines je (scan_lines (concat_str (save_line <$> l))) m = load_all (storable l) m.
Proof.
  intros Hl. revert m. induction Hl as [|v l Hok Hl IH]; intros m; [done|].
  simpl. rewrite storable_cons. destruct (finite_value v) eqn:Hf.
  2: { rewrite (save_line_none v Hf), str_app_nil_l. apply IH. }
  destruct (encode_Metrics_Some v Hf) as [s Hs].
  destruct (encode_Metrics_line v s Hs) as (Hnl & t & Ht).
  assert (save_line v = s +:+ nl_str) as Hsv by (unfold save_line; by rewrite Hs).
  assert (line_fits v ↔ ¬ MaxScanTokenSize ≤ Z.of_nat (String.length s)) as Hfit.
  { unfold line_fits. rewrite Hsv, length_str_app. simpl. unfold MaxScanTokenSize. lia. }
  rewrite Hsv, str_app_assoc. unfold nl_str at 1. rewrite str_app_cons, str_app_nil_l.
  rewrite scan_line by done. cbn [read_lines load_all].
  destruct (decide (line_fits v)) as [Hv|Hv]; [|by rewrite decide_True by (destruct (decide (MaxScanTokenSize ≤ Z.of_nat (String.length s))); tauto)].
  rewrite decide_False by tauto.
  rewrite Ht, dropCR_brace, <- Ht, (decode_encode_readable v s) by done. simpl.
  destruct (load_metric (readable v) m) as [m'| | | | |]; simpl; [apply IH|done..].
Qed.

(** *** What reading puts into a map *)

(** The new map has, under the valid form of every name of the saved map, the value of a name of that form, and is the
    old one elsewhere. *)
Definition entries {A} (src old new : gmap string A) : Prop :=
  ∀ k', (∃ k c, to_valid k = k' ∧ src !! k = Some c ∧ new !! k' = Some c) ∨
        ((∀ k, to_valid k = k' → src !! k = None) ∧ new !! k' = old !! k').

(** Every entry that is new is one of the saved map. *)
Definition some_entries {A} (src old new : gmap string A) : Prop :=
  ∀ k', (∃ k c, to_valid k = k' ∧ src !! k = Some c ∧ new !! k' = Some c) ∨ new !! k' = old !! k'.

Lemma entries_valid {A} (src old new : gmap string A) :
  map_Forall (λ k _, valid_utf8 k = true) src → entries src old new → new = src ∪ old.
Proof.
  intros Hv Hn. apply map_eq. intros k'. destruct (Hn k') as [(k & c & <- & Hs & ->)|[Hs ->]].
  - rewrite to_valid_id by by eapply (Hv k). by rewrite (lookup_union_Some_l _ _ _ _ Hs).
  - destruct (src !! k') as [c|] eqn:Hk; [|by rewrite lookup_union_r].
    rewrite (Hs k') in Hk; [done|]. apply to_valid_id. by eapply Hv.
Qed.

Lemma some_entries_valid {A} (src new : gmap string A) :
  map_Forall (λ k _, valid_utf8 k = true) src → some_entries src ∅ new → new ⊆ src.
Proof.
  intros Hv Hn. apply map_subseteq_spec. intros k' x Hx. destruct (Hn k') as [(k & c & <- & Hs & Hk)|Hk].
  - rewrite to_valid_id in * by by eapply (Hv k). congruence.
  - by rewrite Hk, lookup_empty in Hx.
Qed.

Lemma some_entries_insert {A} (src old new : gmap string A) k c :
  some_entries src old new → src !! k = Some c → some_entries src old (<[to_valid k := c]> new).
Proof.
  intros Hn Hk k'. destruct (decide (to_valid k = k')) as [<-|Hne].
  - left. exists k, c. by rewrite lookup_insert_eq.
  - rewrite lookup_insert_ne by done. apply Hn.
Qed.

(** The gauges that have a JSON text: NaN and the infinities do not. *)
Definition finite_gauges (m : MemStorage) : gmap string Gauge :=
  filter (λ kv, is_finite kv.2 = true) (gauge m).

Lemma lookup_finite_gauges m k :
  finite_gauges m !! k =
  match gauge m !! k with Some g => if is_finite g then Some g else None | None => None end.
Proof.
  unfold finite_gauges. rewrite map_lookup_filter. destruct (gauge m !! k) as [g|]; [|done].
  simpl. case_guard as Hf; simpl in *; [by rewrite Hf|by destruct (is_finite g)].
Qed.

(** Reading the file of [m] into [m0] gives [m']: completely, or a part. *)
Definition read_as (m m0 m' : MemStorage) : Prop :=
  entries (counter m) (counter m0) (counter m') ∧ entries (finite_gauges m) (gauge m0) (gauge m').
Definition read_partly (m m0 m' : MemStorage) : Prop :=
  some_entries (counter m) (counter m0) (counter m') ∧ some_entries (finite_gauges m) (gauge m0) (gauge m').

(** A metric that a save of [m] writes. *)
Inductive written_by (m : MemStorage) : Metrics → Prop :=
| wb_counter k c : counter m !! k = Some c → written_by m (mkMetrics (Some c) None k CounterType)
| wb_gauge k g : finite_gauges m !! k = Some g → written_by m (mkMetrics None (Some g) k GaugeType).

Lemma load_written m v m1 :
  written_by m v →
  load_metric (readable v) m1 =
  Ret (match Delta v, Value v with
       | Some c, _ => set_counter (to_valid (ID v)) c m1
       | _, Some g => set_gauge (to_valid (ID v)) g m1
       | _, _ => m1
       end).
Proof. destruct 1; reflexivity. Qed.

(** Reading lines of a save always ends, with what it has read by then. *)
Lemma load_all_partly m m0 l m1 :
  Forall (written_by m) l → read_partly m m0 m1 →
  ∃ e m2, load_all l m1 = Ret (e, m2) ∧ read_partly m m0 m2 ∧
    e = (if decide (Forall line_fits l) then None else Some ErrTooLong).
Proof.
  intros Hl. revert m1. induction Hl as [|v l Hv Hl IH]; intros m1 [Hc Hg]; cbn [load_all].
  { exists None, m1. split_and!; [done|done|by rewrite decide_True by constructor]. }
  destruct (decide (line_fits v)) as [Hf|Hf].
  - rewrite (load_written m v m1 Hv). cbn [mbind outcome_bind].
    destruct (IH (match Delta v, Value v with
      | Some c, _ => set_counter (to_valid (ID v)) c m1 | _, Some g => set_gauge (to_valid (ID v)) g m1 | _, _ => m1 end))
      as (e & m2 & -> & Hp & ->).
    { destruct Hv; (split; [|]); cbn; try done; by apply some_entries_insert. }
    exists (if decide (Forall line_fits l) then None else Some ErrTooLong), m2. split_and!; [done|done|].
    destruct (decide (Forall line_fits l)) as [Hall|Hall]; [by rewrite decide_True by by constructor|].
    rewrite decide_False; [done|]. by intros [_ ?]%Forall_cons.
  - exists (Some ErrTooLong), m1. split_and!; [done|done|]. rewrite decide_False; [done|]. by intros [? _]%Forall_cons.
Qed.

(** *** Everything that was saved, in any order *)

Lemma foldl_entries {A} (src old : gmap string A) (f : string → A) ks :
  (∀ k c, src !! k = Some c → f k = c) → (∀ k, k ∈ ks ↔ is_Some (src !! k)) →
  entries src old (foldl (λ a k, <[to_valid k := f k]> a) old ks).
Proof.
  intros Hf Hks k'.
  assert (∀ (ks : list string) (new : gmap string A), let m1 : gmap string A := foldl (λ a k, <[to_valid k := f k]> a) new ks in
    (∃ k, k ∈ ks ∧ to_valid k = k' ∧ m1 !! k' = Some (f k)) ∨ ((∀ k, k ∈ ks → to_valid k ≠ k') ∧ m1 !! k' = new !! k')) as Hfold.
  { clear. intros ks. induction ks as [|x ks IH]; intros new; [right; split; [by intros k ?%elem_of_nil|done]|]. cbn [foldl].
    destruct (IH (<[to_valid x := f x]> new)) as [(k & Hk & Hv & Hn)|[Hno Hn]]; [left; exists k; set_solver|].
    destruct (decide (to_valid x = k')) as [Hx|Hx]; [left; exists x|right].
    - rewrite Hn, Hx, lookup_insert_eq. set_solver.
    - rewrite Hn, lookup_insert_ne by done. set_solver. }
  destruct (Hfold ks old) as [(k & Hk & Hv & Hn)|[Hno Hn]]; [left|right].
  - apply Hks in Hk as [c Hc]. exists k, c. by rewrite Hn, (Hf k c Hc).
  - split; [|done]. intros k Hv. apply eq_None_not_Some. intros Hk%Hks. by eapply Hno.
Qed.

Lemma foldl_set_counter (f : string → Z) ks m0 :
  foldl (λ a k, set_counter (to_valid k) (f k) a) m0 ks =
  mkMem (gauge m0) (foldl (λ a k, <[to_valid k := f k]> a) (counter m0) ks).
Proof. revert m0. induction ks as [|k ks IH]; intros m0; cbn [foldl]; [by destruct m0|]. by rewrite IH. Qed.

Lemma foldl_set_gauge (f : string → float64) ks m0 :
  foldl (λ a k, set_gauge (to_valid k) (f k) a) m0 ks =
  mkMem (foldl (λ a k, <[to_valid k := f k]> a) (gauge m0) ks) (counter m0).
Proof. revert m0. induction ks as [|k ks IH]; intros m0; cbn [foldl]; [by destruct m0|]. by rewrite IH. Qed.

Lemma load_counters m ks l m0 :
  Forall line_fits (counter_metric m <$> ks) →
  load_all ((counter_metric m <$> ks) ++ l) m0 =
  load_all l (foldl (λ a k, set_counter (to_valid k) (default 0 (counter m !! k)) a) m0 ks).
Proof.
  revert m0. induction ks as [|k ks IH]; intros m0; [done|]. rewrite fmap_cons. intros [Hk Hks]%Forall_cons.
  cbn [app load_all foldl]. rewrite decide_True by done. unfold readable. cbn. by rewrite <- IH.
Qed.

Lemma load_gauges m ks m0 :
  Forall line_fits (gauge_metric m <$> ks) →
  load_all (gauge_metric m <$> ks) m0 =
  Ret (None, foldl (λ a k, set_gauge (to_valid k) (default fzero (gauge m !! k)) a) m0 ks).
Proof.
  revert m0. induction ks as [|k ks IH]; intros m0; [done|]. rewrite fmap_cons. intros [Hk Hks]%Forall_cons.
  cbn [load_all foldl]. rewrite decide_True by done. unfold readable. cbn. by rewrite <- IH.
Qed.

(** Every line of the file of [m] fits the scanner's buffer; every name is valid UTF-8. *)
Definition lines_fit (m : MemStorage) : Prop :=
  map_Forall (λ k _, line_fits (counter_metric m k)) (counter m) ∧ map_Forall (λ k _, line_fits (gauge_metric m k)) (gauge m).
#[export] Instance lines_fit_dec m : Decision (lines_fit m).
Proof. unfold lines_fit. apply _. Defined.

Definition valid_names (m : MemStorage) : Prop :=
  map_Forall (λ k _, valid_utf8 k = true) (counter m) ∧ map_Forall (λ k _, valid_utf8 k = true) (gauge m).
#[export] Instance valid_names_dec m : Decision (valid_names m).
Proof. unfold valid_names. apply _. Defined.

Section Saved.
Context (m : MemStorage) (cks gks : list string).
Context (Hc : cks ≡ₚ keys (counter m)) (Hg : gks ≡ₚ keys (gauge m)).

Definition saved_metrics : list Metrics := (counter_metric m <$> cks) ++ (gauge_metric m <$> gks).

Lemma in_cks k : k ∈ cks ↔ is_Some (counter m !! k).
Proof using Hc. by rewrite Hc, keys_lookup. Qed.
Lemma in_gks k : k ∈ gks ↔ is_Some (gauge m !! k).
Proof using Hg. by rewrite Hg, keys_lookup. Qed.

Lemma saved_metrics_ok : mem_ok m → Forall Metrics_ok saved_metrics.
Proof using Hc Hg.
  intros [Hgo Hco]. apply Forall_app_2; apply Forall_fmap, Forall_forall; intros k Hk.
  - apply in_cks in Hk as [c Hk]. unfold counter_metric, Metrics_ok; simpl. rewrite Hk. simpl.
    split; [intros d [= <-]; by apply (Hco k)|done].
  - apply in_gks in Hk as [g Hk]. unfold gauge_metric, Metrics_ok; simpl. rewrite Hk. simpl.
    split; [done|intros v [= <-]; by apply (Hgo k)].
Qed.

Lemma saved_written : Forall (written_by m) (storable saved_metrics).
Proof using Hc Hg.
  apply Forall_forall. intros v [Hf Hv]%list_elem_of_filter. unfold saved_metrics in Hv.
  apply elem_of_app in Hv as [(k & -> & Hk)%list_elem_of_fmap|(k & -> & Hk)%list_elem_of_fmap].
  - apply in_cks in Hk as [c Hk]. unfold counter_metric. rewrite Hk. by constructor.
  - apply in_gks in Hk as [g Hk]. unfold finite_value, gauge_metric in *. cbn in Hf. rewrite Hk in *. cbn in *.
    constructor. by rewrite lookup_finite_gauges, Hk, Hf.
Qed.

Lemma storable_counters ks : storable (counter_metric m <$> ks) = counter_metric m <$> ks.
Proof. induction ks as [|k ks IH]; [done|]. by rewrite fmap_cons, storable_cons, IH. Qed.

Lemma storable_gauges ks :
  storable (gauge_metric m <$> ks) = gauge_metric m <$> filter (λ k, is_finite (default fzero (gauge m !! k)) = true) ks.
Proof.
  induction ks as [|k ks IH]; [done|]. rewrite fmap_cons, storable_cons, filter_cons, IH.
  unfold finite_value. simpl. by destruct (is_finite _).
Qed.

Lemma lines_fit_saved : lines_fit m ↔ Forall line_fits (storable saved_metrics).
Proof using Hc Hg.
  unfold saved_metrics. rewrite storable_app, storable_counters, storable_gauges, Forall_app, !Forall_fmap, !Forall_forall.
  unfold lines_fit, map_Forall. cbn. split; intros [H1 H2]; split.
  - intros k [c Hk]%in_cks. by eapply H1.
  - intros k [_ [g Hk]%in_gks]%list_elem_of_filter. by eapply H2.
  - intros k c Hk. apply H1, in_cks. by eexists.
  - intros k g Hk. destruct (is_finite g) eqn:Hf.
    + apply H2, list_elem_of_filter. rewrite Hk. split; [exact Hf|]. apply in_gks. by eexists.
    + unfold line_fits. rewrite save_line_none; [unfold MaxScanTokenSize; simpl; lia|].
      unfold finite_value, gauge_metric. cbn. by rewrite Hk.
Qed.

(** The whole file. *)
Lemma load_saved m0 :
  ∃ e m', load_all (storable saved_metrics) m0 = Ret (e, m') ∧ read_partly m m0 m' ∧
    e = (if decide (lines_fit m) then None else Some ErrTooLong) ∧ (lines_fit m → read_as m m0 m').
Proof using Hc Hg.
  destruct (load_all_partly m m0 (storable saved_metrics) m0 saved_written) as (e & m' & Hl & Hp & He).
  { split; intros k; by right. }
  exists e, m'. split_and!; [done|done| |].
  - rewrite He. destruct (decide (lines_fit m)) as [Hf|Hf].
    + rewrite decide_True; [done|by apply lines_fit_saved].
    + rewrite decide_False; [done|]. by intros ?%lines_fit_saved.
  - intros Hf%lines_fit_saved. unfold saved_metrics in *. rewrite storable_app, storable_counters, storable_gauges in *.
    apply Forall_app in Hf as [Hf1 Hf2]. rewrite load_counters, load_gauges, foldl_set_counter, foldl_set_gauge in Hl by done.
    injection Hl as _ <-. split; cbn [gauge counter]; apply foldl_entries.
    + by intros k c ->.
    + apply in_cks.
    + intros k g. rewrite lookup_finite_gauges. destruct (gauge m !! k) as [g'|]; [|done]. cbn. by destruct (is_finite g'); [intros [= <-]|].
    + intros k. rewrite list_elem_of_filter, in_gks, lookup_finite_gauges. destruct (gauge m !! k) as [g|]; cbn.
      * destruct (is_finite g); split; [eauto|eauto|by intros []|by intros [? ?]].
      * split; [by intros [_ [? ?]]|by intros [? ?]].
Qed.
End Saved.

Lemma finite_valid m : valid_names m → map_Forall (λ k _, valid_utf8 k = true) (finite_gauges m).
Proof.
  intros [_ Hv] k g. rewrite lookup_finite_gauges. destruct (gauge m !! k) as [g'|] eqn:Hk; [|done]. intros _. by eapply Hv.
Qed.

(** With valid names: the counters of [m] and its finite gauges over those of [m0]. *)
Definition restored (m m0 : MemStorage) : MemStorage :=
  mkMem (finite_gauges m ∪ gauge m0) (counter m ∪ counter m0).

Lemma read_as_valid m m0 m' : valid_names m → read_as m m0 m' → m' = restored m m0.
Proof.
  intros Hv [Hc Hg]. destruct m'. unfold restored. cbn in *.
  rewrite (entries_valid _ _ _ (proj1 Hv) Hc), (entries_valid _ _ _ (finite_valid m Hv) Hg). done.
Qed.

(** ** What saving and restoring promise *)

(** [C12] Save and restore: if creating the file succeeds, then whatever the order in which [range]
    visited the two maps, and whatever the store holds, reading the file into any store never panics.  If every line of
    the file fits the scanner's 64 KiB the reading succeeds: every counter of the saved store and every finite gauge
    is found under its name, bit for bit, when the names are valid UTF-8, and the other names of the store are as
    they were ([restored]); names that are not come back with U+FFFD for the bytes that are not valid, so several can
    fall on one and one of them is found ([entries]).  If a line is longer, which one long name is enough for, the reading
    stops there with an error, and what it has read is a part of the saved store.  Gauges that are NaN or
    infinite are not in the file. *)
Theorem restore_save (je ne : string → goerror) (m m0 : MemStorage) (cks gks : list string)
    (fname : string) (fs : filesystem)
    (Hm : mem_ok m) (Hc : cks ≡ₚ keys (counter m)) (Hg : gks ≡ₚ keys (gauge m)) :
  let '(e, fs') := mem_SaveToFile cks gks None fname m fs in
  e = None ∧ (∀ fname', fname' ≠ fname → fs' !! fname' = fs !! fname') ∧
  ∃ m', mem_ReadFromFile je ne fname fs' m0 = Ret (if decide (lines_fit m) then None else Some ErrTooLong, m') ∧
    read_partly m m0 m' ∧
    (lines_fit m → read_as m m0 m' ∧ (valid_names m → m' = restored m m0)).
Proof.
  unfold mem_SaveToFile. lazy beta iota. split; [done|]. split; [intros ??; by rewrite lookup_insert_ne|].
  unfold mem_ReadFromFile. rewrite lookup_insert_eq. unfold saved_text.
  rewrite <- concat_str_app, <- fmap_app, (read_saved _ (saved_metrics m cks gks)) by by apply saved_metrics_ok.
  destruct (load_saved m cks gks Hc Hg m0) as (e & m' & -> & Hp & -> & Hr). exists m'. split_and!; [done..|].
  intros Hf. split; [by apply Hr|]. intros Hv. by apply read_as_valid, Hr.
Qed.

Lemma restore_save_witness :
  let m := mkMem {[ "Alloc" := FFin false (2 ^ 52) (-53); "bad" := FNaN ]} {[ "PollCount" := min_int64 ]} in
  let '(e, fs') := mem_SaveToFile ["PollCount"] ["bad"; "Alloc"] None "dump" m ∅ in
  e = None ∧
  mem_ReadFromFile (λ _, ErrNoVal) (λ _, ErrNoVal) "dump" fs' (mkMem {[ "bad" := fzero ]} ∅) =
    Ret (None, mkMem {[ "Alloc" := FFin false (2 ^ 52) (-53); "bad" := fzero ]} {[ "PollCount" := min_int64 ]}).
Proof.
  cbn zeta.
  destruct (restore_save (λ _, ErrNoVal) (λ _, ErrNoVal)
    (mkMem {[ "Alloc" := FFin false (2 ^ 52) (-53); "bad" := FNaN ]} {[ "PollCount" := min_int64 ]})
    (mkMem {[ "bad" := fzero ]} ∅) ["PollCount"] ["bad"; "Alloc"] "dump" ∅) as (He & _ & m' & Hr & _ & Hall).
  - apply (bool_decide_unpack _). vm_compute. exact I.
  - apply (bool_decide_unpack _). vm_compute. exact I.
  - apply (bool_decide_unpack _). vm_compute. exact I.
  - split; [exact He|]. etransitivity; [exact Hr|].
    assert (lines_fit (mkMem {[ "Alloc" := FFin false (2 ^ 52) (-53); "bad" := FNaN ]} {[ "PollCount" := min_int64 ]})) as Hf
      by (apply (bool_decide_unpack _); vm_compute; exact I).
    rewrite decide_True by exact Hf. f_equal. f_equal. etransitivity; [apply (proj2 (Hall Hf))|reflexivity].
    apply (bool_decide_unpack _). vm_compute. exact I.
Defined.

(** Both failures: a name that is not valid UTF-8 is renamed, and after a name that is too long nothing is
    restored. *)
Definition byte_ff : string := String (chr 255) "".

Example renamed_by_restart :
  mem_ReadFromFile (λ _, ErrNoVal) (λ _, ErrNoVal) "d"
    (mem_SaveToFile [byte_ff] [] None "d" (mkMem ∅ {[ byte_ff := 7 ]}) ∅).2 NewMemStorage =
  Ret (None, mkMem ∅ {[ rune_error := 7 ]}).
Proof. vm_compute. reflexivity. Qed.

Definition long_name : string := zeros 65536.

Example stopped_by_long_name :
  mem_ReadFromFile (λ _, ErrNoVal) (λ _, ErrNoVal) "d"
    (mem_SaveToFile [long_name; "c"] [] None "d" (mkMem ∅ {[ long_name := 7; "c" := 8 ]}) ∅).2 NewMemStorage =
  Ret (Some ErrTooLong, NewMemStorage).
Proof. vm_compute. reflexivity. Qed.

(** A store that is saved and restored at the next start is the same store, when no gauge is
    NaN or infinite, the names are valid and the lines not too long. *)
Theorem save_restart (je ne : string → goerror) (m : MemStorage) (cks gks : list string)
    (fname : string) (fs : filesystem)
    (Hm : mem_ok m) (Hfit : lines_fit m) (Hv : valid_names m) (Hfin : map_Forall (λ _ g, is_finite g = true) (gauge m))
    (Hc : cks ≡ₚ keys (counter m)) (Hg : gks ≡ₚ keys (gauge m)) :
  mem_ReadFromFile je ne fname (mem_SaveToFile cks gks None fname m fs).2 NewMemStorage = Ret (None, m).
Proof.
  unfold mem_SaveToFile; cbn [snd]. unfold mem_ReadFromFile. rewrite lookup_insert_eq. unfold saved_text.
  rewrite <- concat_str_app, <- fmap_app, (read_saved _ (saved_metrics m cks gks)) by by apply saved_metrics_ok.
  destruct (load_saved m cks gks Hc Hg NewMemStorage) as (e & m' & -> & _ & -> & Hr). rewrite decide_True by done.
  rewrite (read_as_valid m NewMemStorage m' Hv (Hr Hfit)). unfold restored, finite_gauges. simpl.
  rewrite !(right_id_L ∅ (∪)). rewrite map_filter_id by (intros; by apply (Hfin i)). by destruct m.
Qed.

Lemma save_restart_witness :
  let m := mkMem {[ "Alloc" := FFin true (2 ^ 52) (-53); "a<b" := fzero ]} {[ "PollCount" := 7 ]} in
  mem_ReadFromFile (λ _, ErrNoVal) (λ _, ErrNoVal) "d"
    (mem_SaveToFile ["PollCount"] ["a<b"; "Alloc"] None "d" m ∅).2 NewMemStorage = Ret (None, m).
Proof. cbn zeta. apply save_restart; apply (bool_decide_unpack _); vm_compute; exact I. Defined.

(** What the loop makes of one line: a store to go on with, the error it stops with, or a panic. *)
Inductive line_result : Type :=
| Goes (m : MemStorage)
| Stops (err : goerror)
| Panics.

Definition read_line (je : string → goerror) (raw : string) (m : MemStorage) : line_result :=
  if decide (MaxScanTokenSize ≤ Z.of_nat (String.length raw)) then Stops ErrTooLong
  else match Unmarshal_Metrics (dropCR raw) with
       | None => Stops (je (dropCR raw))
       | Some v =>
           if decide (MType v = CounterType) then
             match Delta v with Some d => Goes (set_counter (ID v) d m) | None => Panics end
           else if decide (MType v = GaugeType) then
             match Value v with Some x => Goes (set_gauge (ID v) x m) | None => Panics end
           else Goes m
       end.

(** [l] is read to its end from [m], giving [m']. *)
Inductive reads_all (je : string → goerror) : list string → MemStorage → MemStorage → Prop :=
| reads_nil m : reads_all je [] m m
| reads_cons raw l m m1 m2 :
    read_line je raw m = Goes m1 → reads_all je l m1 m2 → reads_all je (raw :: l) m m2.

Lemma read_lines_cons je raw l m :
  read_lines je (raw :: l) m =
  match read_line je raw m with
  | Goes m' => read_lines je l m'
  | Stops err => Ret (Some err, m)
  | Panics => Panic "nil pointer dereference"
  end.
Proof.
  cbn [read_lines]. unfold read_line. case_decide; [done|].
  destruct (Unmarshal_Metrics (dropCR raw)) as [v|]; [|done].
  unfold load_metric. by repeat first [case_decide|case_match].
Qed.

Lemma read_lines_prefix je l1 l2 m m1 :
  reads_all je l1 m m1 → read_lines je (l1 ++ l2) m = read_lines je l2 m1.
Proof. induction 1 as [|raw l m m1 m2 Hr Hl IH]; [done|]. simpl app. by rewrite read_lines_cons, Hr. Qed.

Lemma reads_all_total je l m :
  (∃ m', reads_all je l m m') ∨
  (∃ l1 raw l2 m1, l = l1 ++ raw :: l2 ∧ reads_all je l1 m m1 ∧
    (read_line je raw m1 = Panics ∨ ∃ err, read_line je raw m1 = Stops err)).
Proof.
  revert m. induction l as [|raw l IH]; intros m; [left; eexists; constructor|].
  destruct (read_line je raw m) as [m1|err|] eqn:Hr.
  - destruct (IH m1) as [[m' Hm']|(l1 & raw' & l2 & m2 & -> & Hl1 & H)].
    + left. exists m'. by econstructor.
    + right. exists (raw :: l1), raw', l2, m2. split_and!; [done|by econstructor|done].
  - right. exists [], raw, l, m. split_and!; [done|constructor|eauto].
  - right. exists [], raw, l, m. split_and!; [done|constructor|eauto].
Qed.

(** [C36] Reading a file always comes to an end in one of three ways: every line was loaded and
    there is no error; or the first line that is too long or is not a metric in JSON stopped it,
    its error is returned and the store holds the lines before it; or a line names a counter without
    a delta or a gauge without a value, and the program panics there.  In every case the store that
    is returned is well formed if the old one was. *)
Theorem read_file_outcomes (je ne : string → goerror) (fname text : string) (fs : filesystem)
    (m : MemStorage) (Hf : fs !! fname = Some text) (Hm : mem_ok m) :
  (∃ m', reads_all je (scan_lines text) m m' ∧ mem_ok m' ∧
         mem_ReadFromFile je ne fname fs m = Ret (None, m')) ∨
  (∃ l1 raw l2 m1, scan_lines text = l1 ++ raw :: l2 ∧ reads_all je l1 m m1 ∧
     ((∃ err, read_line je raw m1 = Stops err ∧ mem_ok m1 ∧
              mem_ReadFromFile je ne fname fs m = Ret (Some err, m1)) ∨
      (read_line je raw m1 = Panics ∧
       mem_ReadFromFile je ne fname fs m = Panic "nil pointer dereference"))).
Proof.
  unfold mem_ReadFromFile. rewrite Hf.
  destruct (reads_all_total je (scan_lines text) m) as [[m' Hr]|(l1 & raw & l2 & m1 & Hl & Hr & H)].
  - left. exists m'. split; [done|].
    assert (read_lines je (scan_lines text) m = Ret (None, m')) as He.
    { rewrite <- (app_nil_r (scan_lines text)). by rewrite (read_lines_prefix _ _ _ _ _ Hr). }
    split; [by eapply read_lines_ok|done].
  - right. exists l1, raw, l2, m1. split; [done|]. split; [done|].
    rewrite Hl, (read_lines_prefix _ _ _ _ _ Hr), read_lines_cons.
    destruct H as [Hp|[err He]]; [right; by rewrite Hp|left].
    exists err. rewrite He. split; [done|]. split; [|done].
    eapply (read_lines_ok je l1 m None); [done|]. rewrite <- (app_nil_r l1).
    by rewrite (read_lines_prefix _ _ _ _ _ Hr).
Qed.

Lemma read_file_outcomes_witness :
  let text := jq "{'id':'c','type':'counter','delta':3}" +:+ nl_str +:+ jq "{'id':'c','type':'counter'}" in
  mem_ReadFromFile (λ _, ErrNoVal) (λ _, ErrNoVal) "d" {[ "d" := text ]} NewMemStorage =
    Panic "nil pointer dereference".
Proof.
  cbn zeta.
  destruct (read_file_outcomes (λ _, ErrNoVal) (λ _, ErrNoVal) "d"
    (jq "{'id':'c','type':'counter','delta':3}" +:+ nl_str +:+ jq "{'id':'c','type':'counter'}")
    {[ "d" := jq "{'id':'c','type':'counter','delta':3}" +:+ nl_str +:+ jq "{'id':'c','type':'counter'}" ]}
    NewMemStorage) as [(m' & _ & _ & H)|(l1 & raw & l2 & m1 & _ & _ & [(err & _ & _ & H)|[_ H]])].
  - vm_compute. reflexivity.
  - apply mem_ok_new.
  - exfalso. revert H. vm_compute. discriminate.
  - exfalso. revert H. vm_compute. discriminate.
  - exact H.
Defined.
