(* ===== verification/GoRetry.v ===== *)
(** * The retry loop of go-retry

    [vendor/github.com/sethvargo/go-retry]: the Fibonacci backoff, the limit on the number of
    retries, and the loop [Do], which the retrier and the agent run their requests in.  Time is the
    clock of the [world]: a retried function moves it by what it takes, waiting on a timer moves it
    to the timer's instant or to the instant the context ends, whichever is first. *)

From S2P Require Import Prelude GoErrors Metrics.

Open Scope Z_scope.

(** [Backoff]: the wait before the next attempt and whether to stop. *)
Class Backoff (B : Type) : Type := Next : B → (Z * bool) * B.

(** [fibonacciBackoff]: its two durations, in nanoseconds. *)
Record fibonacciBackoff : Type := mkFib { fib0 : Z; fib1 : Z }.

Definition NewFibonacci (base : Z) : outcome fibonacciBackoff :=
  if decide (base ≤ 0) then Panic "base must be greater than 0" else Ret (mkFib 0 base).

(** Without concurrent calls the compare-and-swap succeeds at once. *)
#[export] Instance fibonacci_Next : Backoff fibonacciBackoff := λ b,
  let next := wrap64 (fib0 b + fib1 b) in
  if decide (next ≤ 0) then (max_int64, false, b)
  else (next, false, mkFib (fib1 b) next).

(** The closure of [WithMaxRetries]: its counter and the backoff it wraps. *)
Record maxRetriesBackoff (B : Type) : Type := mkMax { max : Z; attempt : Z; inner : B }.
Arguments mkMax {B} max attempt inner.
Arguments max {B} m.
Arguments attempt {B} m.
Arguments inner {B} m.

Definition WithMaxRetries {B} (max : Z) (next : B) : maxRetriesBackoff B := mkMax max 0 next.

#[export] Instance maxRetries_Next {B} `{Backoff B} : Backoff (maxRetriesBackoff B) := λ b,
  if decide (max b ≤ attempt b) then (0, true, b)
  else
    let '(val, stop, next) := Next (inner b) in
    let b' := mkMax (max b) (attempt b + 1) next in
    if stop : bool then (0, true, b') else (val, false, b').

(** [RetryableError]. *)
Definition RetryableError (err : option goerror) : option goerror := ErrRetryable <$> err.

Section Do.
Context {S B : Type} `{Backoff B}.

(** [fuel] bounds the number of attempts. *)
Fixpoint Do (fuel : nat) (ctx : context) (b : B) (f : op S (option goerror)) (w : world S) :
    outcome (option goerror * B * world S) :=
  match fuel with
  | O => NoFuel
  | Datatypes.S fuel =>
      match ctx_Err ctx (now w) with
      | Some e => Ret (Some e, b, w)
      | None =>
          let '(err, w) := f w in
          match err with
          | None => Ret (None, b, w)
          | Some err =>
              match errors_As_retryable err with
              | None => Ret (Some err, b, w)
              | Some rerr =>
                  let '(next, stop, b) := Next b in
                  if stop : bool then Ret (Some rerr, b, w)
                  else match ctx_Err ctx (now w) with
                       | Some e => Ret (Some e, b, w)
                       | None =>
                           let timer := now w + Z.max 0 next in
                           match done_at ctx with
                           | Some d =>
                               if decide (d < timer) then Ret (ctx_Err ctx d, b, World d (store w))
                               else Do fuel ctx b f (World timer (store w))
                           | None => Do fuel ctx b f (World timer (store w))
                           end
                       end
              end
          end
      end
  end.
End Do.

(** ** The waits *)

(** The waits of the first [n] retries. *)
Fixpoint waits {B} `{Backoff B} (n : nat) (b : B) : list Z :=
  match n with
  | O => []
  | S n => let '(next, stop, b) := Next b in if stop : bool then [] else next :: waits n b
  end.

Lemma fibonacci_positive b : 0 < (Next b).1.1.
Proof.
  unfold Next, fibonacci_Next. cbv zeta. case_decide; simpl; [done|lia].
Qed.

Lemma fibonacci_never_stops (b : fibonacciBackoff) : (Next b).1.2 = false.
Proof. unfold Next, fibonacci_Next. cbv zeta. by case_decide. Qed.

(** The durations stay in [int64]. *)
Definition fib_ok (b : fibonacciBackoff) : Prop :=
  0 ≤ fib0 b ≤ max_int64 ∧ 0 < fib1 b ≤ max_int64 ∧ fib0 b ≤ fib1 b.

Lemma fib_ok_new base b : is_int64 base → NewFibonacci base = Ret b → fib_ok b.
Proof.
  unfold NewFibonacci, is_int64, fib_ok. intros ?. case_decide; intros [= <-]; simpl.
  unfold max_int64 in *. lia.
Qed.

(** One step adds the two last waits, or has overflowed and says so. *)
Lemma fib_next b :
  fib_ok b →
  fib_ok (Next b).2 ∧
  Next b = if decide (fib0 b + fib1 b ≤ max_int64)
           then (fib0 b + fib1 b, false, mkFib (fib1 b) (fib0 b + fib1 b))
           else (max_int64, false, b).
Proof.
  intros (H0 & H1 & H2). unfold Next, fibonacci_Next. cbv zeta.
  destruct (decide (fib0 b + fib1 b ≤ max_int64)) as [Hs|Hs].
  - rewrite wrap64_id by (unfold is_int64, min_int64, max_int64 in *; lia).
    rewrite decide_False by lia. split; [|done]. unfold fib_ok; simpl. lia.
  - assert (wrap64 (fib0 b + fib1 b) = fib0 b + fib1 b - 2 ^ 64) as ->.
    { rewrite <- (wrap64_plus_mult _ (-1)). apply wrap64_id. unfold is_int64, min_int64, max_int64 in *. lia. }
    rewrite decide_True by (unfold max_int64 in *; lia). split; [|done]. by unfold fib_ok.
Qed.

(** ** Records of the attempts

    [logged f] behaves as [f] and notes the instant each attempt starts and the error it
    ends with. *)
Definition attempt_log : Type := list (Z * option goerror).

Definition logged {S} (f : op S (option goerror)) : op (S * attempt_log) (option goerror) := λ w,
  let '(err, w') := f (World (now w) (store w).1) in
  (err, World (now w') (store w', (store w).2 ++ [(now w, err)])).

(** Two functions that agree through a view [h] of the state make the loop agree. *)
Section Views.
Context {S T B : Type} `{Backoff B} (h : S → T).
Context (f : op S (option goerror)) (g : op T (option goerror)) (ctx : context).

Definition view (w : world S) : world T := World (now w) (h (store w)).

Hypothesis agree : ∀ w, g (view w) = let '(e, w') := f w in (e, view w').

Lemma Do_view fuel b w :
  Do fuel ctx b g (view w) = (λ '(e, b, w), (e, b, view w)) <$> Do fuel ctx b f w.
Proof.
  revert b w. induction fuel as [|fuel IH]; intros b w; [done|]. cbn [Do].
  unfold view at 1. cbn [now]. destruct (ctx_Err ctx (now w)); [done|].
  rewrite agree. destruct (f w) as [err w'].
  destruct err as [err|]; [|done].
  destruct (errors_As_retryable err) as [rerr|]; [|done].
  destruct (Next b) as [[next stop] b']. destruct stop; [done|].
  unfold view at 1. cbn [now]. destruct (ctx_Err ctx (now w')); [done|]. cbv zeta.
  change (store (view w')) with (h (store w')). change (now (view w')) with (now w').
  destruct (done_at ctx) as [d|]; [case_decide; [done|]|]; exact (IH b' (World _ (store w'))).
Qed.
End Views.

(** Keeping a record changes nothing. *)
Lemma Do_logged {S B} `{Backoff B} (f : op S (option goerror)) ctx fuel b w :
  Do fuel ctx b f (view fst w) = (λ '(e, b, w), (e, b, view fst w)) <$> Do fuel ctx b (logged f) w.
Proof.
  apply Do_view. intros [t [s l]]. unfold logged, view. cbn. by destruct (f (World t s)) as [e [t' s']].
Qed.

(** What every attempt preserves, the loop preserves. *)
Lemma Do_inv {S B} `{Backoff B} (I : S → Prop) (f : op S (option goerror)) ctx fuel b w e b' w' :
  (∀ w, I (store w) → I (store (f w).2)) →
  Do fuel ctx b f w = Ret (e, b', w') → I (store w) → I (store w').
Proof.
  intros Hf. revert b w. induction fuel as [|fuel IH]; intros b w; [done|]. cbn [Do].
  destruct (ctx_Err ctx (now w)); [by intros [= <- <- <-]|].
  intros HD Hw. specialize (Hf w Hw). destruct (f w) as [err w1]. simpl in Hf.
  destruct err as [err|]; [|by injection HD as <- <- <-].
  destruct (errors_As_retryable err); [|by injection HD as <- <- <-].
  destruct (Next b) as [[next stop] b1]. destruct stop; [by injection HD as <- <- <-|].
  destruct (ctx_Err ctx (now w1)); [by injection HD as <- <- <-|].
  destruct (done_at ctx); [case_decide; [by injection HD as <- <- <-|]|]; by eapply IH.
Qed.

(** The same with one more thing the successful attempt, the last, establishes. *)
Lemma Do_outcome {S B} `{Backoff B} (I J : S → Prop) (f : op S (option goerror)) ctx fuel b w e b' w' :
  (∀ w, I (store w) → match (f w).1 with None => J | Some _ => I end (store (f w).2)) →
  Do fuel ctx b f w = Ret (e, b', w') → I (store w) → match e with None => J | Some _ => I end (store w').
Proof.
  intros Hf. revert b w. induction fuel as [|fuel IH]; intros b w; [done|]. cbn [Do].
  destruct (ctx_Err ctx (now w)); [by intros [= <- <- <-]|].
  intros HD Hw. specialize (Hf w Hw). destruct (f w) as [err w1]. simpl in Hf.
  destruct err as [err|]; [|by injection HD as <- <- <-].
  destruct (errors_As_retryable err); [|by injection HD as <- <- <-].
  destruct (Next b) as [[next stop] b1]. destruct stop; [by injection HD as <- <- <-|].
  destruct (ctx_Err ctx (now w1)); [by injection HD as <- <- <-|].
  destruct (done_at ctx) as [d|] eqn:Hd; [case_decide; [|by eapply IH]|by eapply IH]. injection HD as <- <- <-.
  destruct (proj2 (ctx_Err_done ctx d)) as [x ->]; [by exists d|done].
Qed.

(** Success is the success of an attempt, and its world is the one that attempt left. *)
Lemma Do_success {S B} `{Backoff B} (f : op S (option goerror)) ctx fuel b w b' w' :
  Do fuel ctx b f w = Ret (None, b', w') → ∃ w1, ctx_Err ctx (now w1) = None ∧ f w1 = (None, w').
Proof.
  revert b w. induction fuel as [|fuel IH]; intros b w; [done|]. cbn [Do].
  destruct (ctx_Err ctx (now w)) eqn:Hctx; [done|]. destruct (f w) as [err w1] eqn:Hf.
  destruct err as [err|]; [|intros [= <- <-]; eauto].
  destruct (errors_As_retryable err); [|done].
  destruct (Next b) as [[next stop] b1]. destruct stop; [done|].
  destruct (ctx_Err ctx (now w1)); [done|].
  destruct (done_at ctx) as [d|] eqn:Hd; [case_decide as Hlt; [|by apply IH]|by apply IH].
  destruct (proj2 (ctx_Err_done ctx d)) as [x Hx]; [by exists d|]. by rewrite Hx.
Qed.

(** ** What the loop does with a limited backoff *)

Definition ctx_ended (ctx : context) (e : option goerror) : Prop :=
  ∃ t x, ctx_Err ctx t = Some x ∧ e = Some x.

(** The result of the loop after the attempts [l], of which [left] were allowed. *)
Definition attempts_result (ctx : context) (left : Z) (l : attempt_log) (e : option goerror) : Prop :=
  match last l with
  | None => ctx_ended ctx e
  | Some (_, None) => e = None
  | Some (_, Some err) =>
      match errors_As_retryable err with
      | None => e = Some err
      | Some r => (e = Some r ∧ Z.of_nat (length l) = left) ∨ ctx_ended ctx e
      end
  end.

Definition is_retryable (a : Z * option goerror) : Prop :=
  ∃ err, a.2 = Some err ∧ is_Some (errors_As_retryable err).

(** [l] is a legal record of one run of the loop that may start [left] attempts. *)
Record legal_attempts (ctx : context) (left : Z) (l : attempt_log) (e : option goerror) : Prop := {
  legal_count : Z.of_nat (length l) ≤ left;
  legal_started : Forall (λ a, ctx_Err ctx a.1 = None) l;
  legal_retried : Forall is_retryable (take (length l - 1) l);
  legal_result : attempts_result ctx left l e
}.

Lemma legal_none ctx left e : 0 ≤ left → ctx_ended ctx e → legal_attempts ctx left [] e.
Proof. by split. Qed.

Lemma legal_last ctx left t err e :
  1 ≤ left → ctx_Err ctx t = None → attempts_result ctx left [(t, err)] e →
  legal_attempts ctx left [(t, err)] e.
Proof. intros. split; [done|by repeat constructor|by constructor|done]. Qed.

Lemma legal_cons ctx left a l e :
  ctx_Err ctx a.1 = None → is_retryable a → 1 ≤ left →
  legal_attempts ctx (left - 1) l e → legal_attempts ctx left (a :: l) e.
Proof.
  intros Ha Hr Hleft [Hc Hs Hret Hres]. split.
  - simpl. lia.
  - by constructor.
  - destruct l as [|b l]; [constructor|]. simpl in *. rewrite Nat.sub_0_r in *. by constructor.
  - unfold attempts_result in *. destruct l as [|b l].
    + simpl in Hres. destruct a as [t o], Hr as (err & Ho & [r Hr]). simpl in *. subst o. rewrite Hr.
      by right.
    + rewrite last_cons. destruct (last (b :: l)) as [[t o]|] eqn:Hl; [|by apply last_None in Hl].
      destruct o as [err|]; [|done]. destruct (errors_As_retryable err); [|done].
      destruct Hres as [[-> Hn]|?]; [left|by right]. split; [done|].
      change (length (a :: b :: l)) with (S (length (b :: l))). lia.
Qed.

Section Limited.
Context {S B : Type} `{Backoff B} (f : op S (option goerror)) (ctx : context).
Hypothesis never_stops : ∀ b : B, (Next b).1.2 = false.

Definition left_of (b : maxRetriesBackoff B) : Z := Z.max 0 (max b - attempt b) + 1.

Lemma Next_limited (b : maxRetriesBackoff B) :
  (left_of b = 1 ∧ Next b = (0, true, b)) ∨
  (∃ b', 1 < left_of b ∧ Next b = ((Next (inner b)).1.1, false, b') ∧
         left_of b' = left_of b - 1 ∧ max b' = max b ∧ inner b' = (Next (inner b)).2).
Proof.
  change (Next b) with (maxRetries_Next b). unfold maxRetries_Next, left_of. case_decide as Hm; [left; split; [lia|done]|right].
  pose proof (never_stops (inner b)) as Hn.
  destruct (Next (inner b)) as [[val stop] next]. simpl in Hn. subst stop.
  eexists. split; [lia|]. split; [done|]. simpl. split; [lia|done].
Qed.

(** Enough fuel: the attempts the backoff still allows, the first included. *)
Lemma Do_limited fuel b w :
  left_of b ≤ Z.of_nat fuel →
  ∃ e b' w' l, Do fuel ctx b (logged f) w = Ret (e, b', w') ∧
    (store w').2 = (store w).2 ++ l ∧ legal_attempts ctx (left_of b) l e.
Proof.
  revert b w. induction fuel as [|fuel IH]; intros b [t [s l0]] Hfuel.
  { unfold left_of in Hfuel. lia. }
  assert (1 ≤ left_of b) as Hleft by (unfold left_of; lia).
  cbn [Do]. cbn [now]. destruct (ctx_Err ctx t) as [x|] eqn:Hx.
  { eexists _, _, _, []. split_and!; [done|by rewrite app_nil_r|]. apply legal_none; [lia|by exists t, x]. }
  unfold logged at 1. cbn [now store fst snd].
  destruct (f (World t s)) as [err [t' s']]. cbn [now store].
  destruct err as [err|].
  2: { eexists _, _, _, [_]. split_and!; [done..|]. by apply legal_last. }
  destruct (errors_As_retryable err) as [rerr|] eqn:Hr.
  2: { eexists _, _, _, [_]. split_and!; [done..|]. apply legal_last; [done..|].
       unfold attempts_result; simpl. by rewrite Hr. }
  destruct (Next_limited b) as [[Hl ->]|(b' & Hl & -> & Hb' & _)].
  { eexists _, _, _, [_]. split_and!; [done..|]. apply legal_last; [done..|].
    unfold attempts_result; simpl. rewrite Hr. left. split; [done|by rewrite Hl]. }
  assert (∀ t'' x, ctx_Err ctx t'' = Some x →
    legal_attempts ctx (left_of b) [(t, Some err)] (Some x)) as Hend.
  { intros t'' x Ht. apply legal_last; [done..|]. unfold attempts_result; simpl. rewrite Hr. right.
    by exists t'', x. }
  destruct (ctx_Err ctx t') as [x|] eqn:Hx'.
  { eexists _, _, _, [_]. split_and!; [done..|]. by eapply Hend. }
  assert (∀ t'', ∃ e b'' w' l, Do fuel ctx b' (logged f) (World t'' (s', l0 ++ [(t, Some err)])) = Ret (e, b'', w') ∧
    (store w').2 = l0 ++ l ∧ legal_attempts ctx (left_of b) l e) as Hgo.
  { intros t''. destruct (IH b' (World t'' (s', l0 ++ [(t, Some err)]))) as (e & b'' & w' & l & HD & Hs & Hleg); [lia|].
    exists e, b'', w', ((t, Some err) :: l). split; [done|]. split; [by rewrite Hs; simpl; rewrite <- app_assoc|].
    apply legal_cons; [done|by exists err; rewrite Hr|done|]. by rewrite <- Hb'. }
  destruct (done_at ctx) as [d|] eqn:Hd; [|apply Hgo]. case_decide; [|apply Hgo].
  destruct (proj2 (ctx_Err_done ctx d)) as [x Hxd]; [by exists d|].
  eexists _, _, _, [_]. rewrite Hxd. split_and!; [done..|]. by eapply Hend.
Qed.
End Limited.

(** ** The Fibonacci waits in closed form *)

(** The Fibonacci numbers, from [fib 0 = 0] and [fib 1 = 1]. *)
Fixpoint fib_pair (n : nat) : Z * Z :=
  match n with O => (0, 1) | S n => let '(a, b) := fib_pair n in (b, a + b) end.
Definition fib (n : nat) : Z := (fib_pair n).1.

Lemma fib_pair_eq n : fib_pair n = (fib n, fib (S n)).
Proof. unfold fib. simpl. by destruct (fib_pair n). Qed.

Lemma fib_SS n : fib (S (S n)) = fib n + fib (S n).
Proof. unfold fib at 1. cbn [fib_pair]. by rewrite fib_pair_eq. Qed.

Lemma fib_nonneg n : 0 ≤ fib n ∧ 0 < fib (S n).
Proof. induction n as [|n [IH1 IH2]]; [done|]. rewrite fib_SS. lia. Qed.

Lemma fib_mono n k : (1 ≤ n)%nat → fib n ≤ fib (n + k).
Proof.
  intros Hn. induction k as [|k IH]; [by rewrite Nat.add_0_r|].
  destruct n as [|n]; [lia|]. rewrite <- plus_n_Sm. simpl Nat.add in *. rewrite fib_SS.
  pose proof (fib_nonneg (n + k)). lia.
Qed.

(** The [k]-th wait, in multiples of the base: 1, 2, 3, 5, 8, ..., capped. *)
Definition fib_wait (base : Z) (k : nat) : Z := Z.min max_int64 (base * fib (k + 2)).

Lemma waits_stuck {B} `{Backoff B} (b : B) v n : Next b = (v, false, b) → waits n b = replicate n v.
Proof. intros Hb. induction n as [|n IH]; [done|]. cbn [waits]. rewrite Hb. simpl. by rewrite IH. Qed.

Lemma fmap_const {A} (g : A → Z) v l : (∀ x, x ∈ l → g x = v) → g <$> l = replicate (length l) v.
Proof. induction l as [|x l IH]; intros Hl; [done|]. rewrite fmap_cons. simpl. f_equal; [|apply IH]; set_solver. Qed.

Definition fib_state (base : Z) (j : nat) : fibonacciBackoff := mkFib (base * fib j) (base * fib (S j)).

Lemma fib_state_ok base j : 0 < base → base * fib (S j) ≤ max_int64 → fib_ok (fib_state base j).
Proof.
  intros Hb Hj. pose proof (fib_nonneg j) as [Hf0 Hf1].
  assert (fib j ≤ fib (S j)) by (destruct j; [done|rewrite fib_SS; pose proof (fib_nonneg j); lia]).
  assert (0 ≤ base * fib j) by (apply Z.mul_nonneg_nonneg; lia).
  assert (0 < base * fib (S j)) by (apply Z.mul_pos_pos; lia).
  assert (base * fib j ≤ base * fib (S j)) by (apply Z.mul_le_mono_nonneg_l; lia).
  unfold fib_ok; simpl. lia.
Qed.

Lemma waits_fib base j n :
  0 < base → base * fib (S j) ≤ max_int64 →
  waits n (fib_state base j) = fib_wait base <$> seq j n.
Proof.
  intros Hb. revert j. induction n as [|n IH]; intros j Hj; [done|].
  destruct (fib_next (fib_state base j)) as [_ Hnext]; [by apply fib_state_ok|].
  assert (base * fib (S (S j)) = base * fib j + base * fib (S j)) as HSS by (rewrite fib_SS; lia).
  simpl fib0 in Hnext. simpl fib1 in Hnext. rewrite <- HSS in Hnext.
  assert (fib_wait base j = Z.min max_int64 (base * fib (S (S j)))) as Hw
    by (unfold fib_wait; by rewrite (Nat.add_comm j 2)).
  case_decide as Hs.
  - cbn [waits]. rewrite Hnext. change (mkFib _ _) with (fib_state base (S j)).
    rewrite IH by done. cbn [seq]. rewrite fmap_cons, Hw. by rewrite Z.min_r.
  - rewrite (waits_stuck _ _ _ Hnext), (fmap_const _ max_int64), length_seq; [done|].
    intros k Hk%elem_of_seq. unfold fib_wait. apply Z.min_l.
    transitivity (base * fib (S (S j))); [lia|]. apply Z.mul_le_mono_nonneg_l; [lia|].
    replace (k + 2)%nat with (S (S j) + (k - j))%nat by lia. apply fib_mono. lia.
Qed.

Lemma NewFibonacci_state base : 0 < base → NewFibonacci base = Ret (fib_state base 0).
Proof.
  intros Hb. unfold NewFibonacci, fib_state. rewrite decide_False by lia.
  do 2 f_equal; [|]; unfold fib; simpl; lia.
Qed.

(** The waits of [NewFibonacci(base)] are [base] times the Fibonacci numbers 1, 2, 3, 5, 8,
    ... as long as the product fits a 64-bit duration, and the largest duration ever after, even
    though the code detects the overflow on a wrapped sum. *)
Theorem fibonacci_waits (base : Z) (b : fibonacciBackoff) (n : nat)
    (Hbase : is_int64 base) (Hb : NewFibonacci base = Ret b) :
  waits n b = (λ k, Z.min max_int64 (base * fib (k + 2))) <$> seq 0 n.
Proof.
  assert (0 < base) as Hpos by (unfold NewFibonacci in Hb; case_decide; [done|lia]).
  rewrite NewFibonacci_state in Hb by done. injection Hb as <-. apply (waits_fib base 0 n Hpos).
  unfold fib; simpl. unfold is_int64 in Hbase. lia.
Qed.

Lemma fibonacci_waits_witness :
  waits 5 (mkFib 0 (2 ^ 61)) = [2 ^ 61; 2 ^ 62; 3 * 2 ^ 61; max_int64; max_int64].
Proof.
  rewrite (fibonacci_waits (2 ^ 61) (mkFib 0 (2 ^ 61)) 5).
  - vm_compute. reflexivity.
  - apply (bool_decide_unpack _). vm_compute. exact I.
  - vm_compute. reflexivity.
Defined.

(** ** A function that keeps failing *)

(** The instants of the attempts when each takes [d] and the waits are [ws]. *)
Fixpoint schedule (t d : Z) (ws : list Z) : list Z :=
  match ws with [] => [t] | w :: ws => t :: schedule (t + d + w) d ws end.

(** Fails with [err] after [d], whatever the state. *)
Definition always_fails {S} (d : Z) (err : goerror) : op S (option goerror) := λ w,
  (Some err, World (now w + d) (store w)).

(** The context does not end before [t]. *)
Definition alive_until (ctx : context) (t : Z) : Prop := ∀ d, done_at ctx = Some d → t < d.

Lemma alive_until_le ctx t t' : t ≤ t' → alive_until ctx t' → alive_until ctx t.
Proof. intros ? H d Hd. specialize (H d Hd). lia. Qed.

Lemma alive_Err ctx t : alive_until ctx t → ctx_Err ctx t = None.
Proof.
  intros Ha. apply eq_None_not_Some. intros (d & Hd & ?)%ctx_Err_done. specialize (Ha d Hd). lia.
Qed.

Lemma schedule_last t d ws : 0 ≤ d → Forall (λ w, 0 ≤ w) ws → t ≤ List.last (schedule t d ws) 0.
Proof.
  intros Hd Hws. revert t. induction Hws as [|w ws Hw Hws IH]; intros t; simpl; [lia|].
  specialize (IH (t + d + w)). destruct ws; simpl in *; lia.
Qed.

Section Persistent.
Context {S B : Type} `{Backoff B} (ctx : context) (d : Z) (err r : goerror).
Hypothesis never_stops : ∀ b : B, (Next b).1.2 = false.
Hypothesis positive : ∀ b : B, 0 < (Next b).1.1.
Hypothesis takes : 0 ≤ d.
Hypothesis retryable : errors_As_retryable err = Some r.

Lemma waits_nonneg n (b : B) : Forall (λ w, 0 ≤ w) (waits n b).
Proof.
  revert b. induction n as [|n IH]; intros b; [constructor|]. cbn [waits].
  pose proof (never_stops b). pose proof (positive b).
  destruct (Next b) as [[v []] b']; [constructor|]. simpl in *. constructor; [lia|apply IH].
Qed.

Lemma Do_persistent n fuel (b : maxRetriesBackoff B) (w : world (S * attempt_log)) :
  left_of b = Z.of_nat n + 1 → (n < fuel)%nat →
  alive_until ctx (List.last (schedule (now w) d (waits n (inner b))) 0 + d) →
  ∃ b' w', Do fuel ctx b (logged (always_fails d err)) w = Ret (Some r, b', w') ∧
    (store w').2 = (store w).2 ++ ((λ t, (t, Some err)) <$> schedule (now w) d (waits n (inner b))).
Proof.
  revert fuel b w. induction n as [|n IH]; intros [|fuel] b [t [s l]] Hleft Hfuel Halive; [lia| |lia|].
  - cbn [Do]. simpl in Halive. rewrite alive_Err by (eapply alive_until_le; [|exact Halive]; simpl; lia).
    cbn [logged always_fails now store fst snd]. rewrite retryable.
    destruct (Next_limited never_stops b) as [[_ ->]|(b' & Hl & _)]; [|lia].
    eexists _, _. split; [done|]. done.
  - cbn [waits] in Halive |- *. pose proof (never_stops (inner b)) as Hn. pose proof (positive (inner b)) as Hp.
    destruct (Next_limited never_stops b) as [[Hl _]|(b' & Hl & Hnext & Hb' & _ & Hin)]; [lia|].
    destruct (Next (inner b)) as [[v stop] i] eqn:Hi. simpl in Hn, Hp, Hin. subst stop i.
    cbn [now] in *. pose proof (waits_nonneg n (inner b')) as Hw.
    pose proof (schedule_last (t + d + v) d _ takes Hw) as Hlast.
    assert (List.last (schedule t d (v :: waits n (inner b'))) 0 =
            List.last (schedule (t + d + v) d (waits n (inner b'))) 0) as Hsch
      by (simpl; by destruct (waits n (inner b'))).
    rewrite Hsch in Halive.
    cbn [Do]. cbn [now]. rewrite alive_Err by (eapply alive_until_le; [|exact Halive]; lia).
    cbn [logged always_fails now store fst snd]. rewrite retryable, Hnext.
    rewrite alive_Err by (eapply alive_until_le; [|exact Halive]; lia).
    simpl fst. rewrite Z.max_r by lia.
    destruct (IH fuel b' (World (t + d + v) (s, l ++ [(t, Some err)]))) as (b'' & w' & HD & Hs);
      [lia|lia|done|].
    exists b'', w'. split.
    + destruct (done_at ctx) as [dl|] eqn:Hdl; [|done]. rewrite decide_False; [done|].
      specialize (Halive dl Hdl). lia.
    + rewrite Hs. simpl. by rewrite <- app_assoc.
Qed.
End Persistent.
