(* ===== verification/Retrier.v ===== *)
(** * The retrier

    [internal/retrier/retrier.go]: the parameters, and the five wrappers that run a storage method in the
    loop of go-retry.  A wrapper returns a closure; the backoff it captured keeps its state from one
    call of the closure to the next, so the closure takes it and gives it back. *)

From S2P Require Import Prelude GoErrors Metrics GoRetry.

Open Scope Z_scope.

(** Durations are in nanoseconds. *)
Definition Second : Z := 10 ^ 9.

Record Retrier : Type := mkRetrier {
  skippedErrors : option goerror;
  maxRetries : Z;
  fiboDuration : Z;
  timeout : Z
}.

Definition NewRetrier : Retrier := {|
  fiboDuration := 1 * Second;
  maxRetries := 3;
  timeout := 30 * Second;
  skippedErrors :=
    Some (ErrJoin [ErrWrongMetricValueType; ErrWrongMetricType; ErrBadMetricType; ErrNoVal])
|}.

Definition SetParams (fibotime timeout maxretries : Z) (rr : Retrier) : Retrier :=
  mkRetrier (skippedErrors rr) maxretries fibotime timeout.

Definition GetTimeoutCtx (rr : Retrier) : Z := timeout rr.

(** The backoff a wrapper creates, once, when it wraps. *)
Abbreviation bf := (maxRetriesBackoff fibonacciBackoff).

Definition new_bf (rr : Retrier) : outcome bf :=
  b ← NewFibonacci (fiboDuration rr); Ret (WithMaxRetries (maxRetries rr) b).

(** The function given to [retry.Do]: errors of the skip list end the loop. *)
Definition attempt_once {S} (rr : Retrier) (f : op S (option goerror)) : op S (option goerror) := λ w,
  let '(err, w') := f w in
  (if errors_Is (skippedErrors rr) err then err else RetryableError err, w').

(** One call of the closure of a method without result. *)
Definition retry_call {S} (rr : Retrier) (f : context → op S (option goerror))
    (b : bf) (ctx : context) (w : world S) : outcome (option goerror * bf * world S) :=
  let ctx := WithTimeout ctx (now w) (timeout rr) in
  Do (Z.to_nat (left_of b)) ctx b (attempt_once rr (f ctx)) w.

(** A method whose result is assigned to a captured variable at every attempt. *)
Definition capture {S A} (f : op S (A * option goerror)) : op (A * S) (option goerror) := λ w,
  let '((a, err), w') := f (World (now w) (store w).2) in (err, World (now w') (a, store w')).

Definition retry_call_value {S A} (rr : Retrier) (zero : A) (f : context → op S (A * option goerror))
    (b : bf) (ctx : context) (w : world S) : outcome ((A * option goerror) * bf * world S) :=
  let ctx := WithTimeout ctx (now w) (timeout rr) in
  '(err, b, w') ← Do (Z.to_nat (left_of b)) ctx b (attempt_once rr (capture (f ctx)))
                     (World (now w) (zero, store w));
  Ret (((store w').1, err), b, World (now w') (store w').2).

Definition UseRetrierWM {S} (rr : Retrier)
    (f : context → string → string → iface → op S (option goerror)) :
    outcome (bf * (bf → context → string → string → iface → world S →
                   outcome (option goerror * bf * world S))) :=
  b ← new_bf rr;
  Ret (b, λ b ctx mtype name val, retry_call rr (λ ctx, f ctx mtype name val) b ctx).

Definition UseRetrierWMB {S} (rr : Retrier) (f : context → list Metrics → op S (option goerror)) :
    outcome (bf * (bf → context → list Metrics → world S → outcome (option goerror * bf * world S))) :=
  b ← new_bf rr;
  Ret (b, λ b ctx metrics, retry_call rr (λ ctx, f ctx metrics) b ctx).

Definition UseRetrierPopDB {S} (rr : Retrier) (f : context → op S (option goerror)) :
    outcome (bf * (bf → context → world S → outcome (option goerror * bf * world S))) :=
  b ← new_bf rr;
  Ret (b, λ b ctx, retry_call rr f b ctx).

Definition UseRetrierGetAllM {S} (rr : Retrier) (f : context → op S (string * option goerror)) :
    outcome (bf * (bf → context → world S → outcome ((string * option goerror) * bf * world S))) :=
  b ← new_bf rr;
  Ret (b, λ b ctx, retry_call_value rr "" f b ctx).

Definition UseRetrierGetMetric {S} (rr : Retrier)
    (f : context → string → string → op S (iface * option goerror)) :
    outcome (bf * (bf → context → string → string → world S →
                   outcome ((iface * option goerror) * bf * world S))) :=
  b ← new_bf rr;
  Ret (b, λ b ctx mType name, retry_call_value rr INil (λ ctx, f ctx mType name) b ctx).

(** ** Lemmas *)

(** A retrier made by [NewRetrier] and [SetParams]. *)
Definition made (rr : Retrier) : Prop :=
  skippedErrors rr = skippedErrors NewRetrier ∧ 0 ≤ maxRetries rr ∧
  0 < fiboDuration rr ≤ max_int64 ∧ 0 < timeout rr.
#[export] Instance made_dec rr : Decision (made rr).
Proof. unfold made. apply _. Defined.

Lemma made_NewRetrier : made NewRetrier.
Proof. by vm_compute. Qed.

(** The errors that end the loop. *)
Definition skipped (rr : Retrier) (err : goerror) : bool := errors_Is (skippedErrors rr) (Some err).

Lemma skipped_sentinel e :
  e ∈ [ErrNoVal; ErrBadMetricType; ErrWrongMetricType; ErrWrongMetricValueType] →
  skipped NewRetrier e = true.
Proof. rewrite !elem_of_cons. intros Hs. destruct_or! Hs; subst; [done..|by apply elem_of_nil in Hs]. Qed.

Lemma skipped_made rr err : made rr → skipped rr err = skipped NewRetrier err.
Proof. intros [Hs _]. unfold skipped. by rewrite Hs. Qed.

Lemma made_skipped rr err :
  made rr → skipped rr err = true → errors_As_retryable err = None ∧ skipped NewRetrier err = true.
Proof.
  intros [Hs _]. unfold skipped. rewrite Hs. intros Hk. split; [|done].
  revert Hk. unfold NewRetrier, errors_Is. cbn.
  rewrite !orb_true_iff, !bool_decide_eq_true. intros Hk. destruct_or! Hk; by subst.
Qed.

Lemma attempt_once_eq {S} rr (f : op S (option goerror)) w :
  attempt_once rr f w =
  let '(err, w') := f w in
  (match err with
   | None => None
   | Some e => if skipped rr e then Some e else Some (ErrRetryable e)
   end, w').
Proof.
  unfold attempt_once. destruct (f w) as [[err|] w']; [done|].
  by destruct (skippedErrors rr).
Qed.

(** The result an attempt had before it was marked retryable. *)
Definition raw_result (err : option goerror) : option goerror :=
  match err with Some (ErrRetryable e) => Some e | e => e end.

Definition raw_log (l : attempt_log) : attempt_log := (λ '(t, e), (t, raw_result e)) <$> l.

(** What a caller of the wrapped method can rely on: [l] are the calls of the method itself, with
    the instants they start and their results, [left] of them allowed. *)
Definition calls_result (rr : Retrier) (ctx : context) (left : Z) (l : attempt_log) (e : option goerror) : Prop :=
  match last l with
  | None => ctx_ended ctx e
  | Some (_, None) => e = None
  | Some (_, Some err) =>
      if skipped rr err then e = Some err
      else (e = Some err ∧ Z.of_nat (length l) = left) ∨ ctx_ended ctx e
  end.

Record legal_calls (rr : Retrier) (ctx : context) (left : Z) (l : attempt_log) (e : option goerror) : Prop := {
  calls_count : Z.of_nat (length l) ≤ left;
  calls_started : Forall (λ a, ctx_Err ctx a.1 = None) l;
  calls_retried : Forall (λ a, ∃ err, a.2 = Some err ∧ skipped rr err = false) (take (length l - 1) l);
  calls_end : calls_result rr ctx left l e
}.

(** A result as [attempt_once] gives it. *)
Definition marked (rr : Retrier) (e : option goerror) : Prop :=
  match e with
  | None => True
  | Some (ErrRetryable err) => skipped rr err = false ∨ skipped rr (ErrRetryable err) = true
  | Some err => skipped rr err = true
  end.

Lemma marked_cases rr e :
  made rr → marked rr e →
  (e = None) ∨ (∃ err, e = Some (ErrRetryable err) ∧ skipped rr err = false) ∨
  (∃ err, e = Some err ∧ skipped rr err = true ∧ errors_As_retryable err = None ∧ raw_result e = Some err).
Proof.
  intros Hm. destruct e as [err|]; [|by left]. intros Hk. right.
  destruct err; simpl in Hk;
    try (right; eexists; split; [done|]; destruct (made_skipped _ _ Hm Hk); done).
  destruct Hk as [Hk|Hk]; [left; eauto|]. by destruct (made_skipped _ _ Hm Hk).
Qed.

Lemma legal_calls_of_attempts rr ctx left l e :
  made rr → Forall (λ a, marked rr a.2) l →
  legal_attempts ctx left l e → legal_calls rr ctx left (raw_log l) e.
Proof.
  intros Hm Hl [Hc Hs Hr He]. unfold raw_log. split.
  - by rewrite length_fmap.
  - apply Forall_fmap. by eapply Forall_impl; [exact Hs|intros [t o]].
  - rewrite length_fmap, <- fmap_take, Forall_fmap.
    eapply Forall_impl; [apply Forall_and; split; [exact Hr|by apply Forall_take, Hl]|].
    intros [t o] [(err & Ho & [r Hrr]) Hk]; simpl in *. subst o.
    destruct (marked_cases _ _ Hm Hk) as [?|[(err' & [= ->] & Hsk)|(err' & [= ->] & _ & Hn & _)]];
      [done|by exists err'|congruence].
  - unfold calls_result, attempts_result in *. rewrite fmap_last, length_fmap.
    destruct (last l) as [[t o]|] eqn:Hlast; [|done]. simpl.
    apply last_Some in Hlast as [l' ->]. apply Forall_app in Hl as [_ [Hk _]%Forall_cons]. simpl in Hk.
    destruct (marked_cases _ _ Hm Hk) as [->|[(err & -> & Hsk)|(err & -> & Hsk & Hn & Hraw)]].
    + done.
    + simpl in *. by rewrite Hsk.
    + rewrite Hraw, Hsk. by rewrite Hn in He.
Qed.

Lemma marked_attempt {S} rr (f : op S (option goerror)) w : marked rr (attempt_once rr f w).1.
Proof.
  rewrite attempt_once_eq. destruct (f w) as [[err|] w']; simpl; [|done].
  destruct (skipped rr err) eqn:Hs; [destruct err; by simpl; auto|by left].
Qed.

(** A call keeps to its record, starting from any backoff. *)
Lemma retry_call_legal {S} rr (f : context → op S (option goerror)) b ctx t s :
  made rr →
  let ctx' := WithTimeout ctx t (timeout rr) in
  ∃ e b' w', retry_call rr (λ c, logged (f c)) b ctx (World t (s, [])) = Ret (e, b', w') ∧
    retry_call rr f b ctx (World t s) = Ret (e, b', view fst w') ∧
    legal_calls rr ctx' (left_of b) (store w').2 e.
Proof.
  intros Hm ctx'.
  destruct (Do_limited (attempt_once rr (f ctx')) ctx' fibonacci_never_stops (Z.to_nat (left_of b)) b
              (World t (s, []))) as (e & b' & w' & l & HD & Hl & Hleg).
  { unfold left_of. lia. }
  simpl in Hl.
  assert (Forall (λ a, marked rr a.2) l) as Hmk.
  { rewrite <- Hl. eapply (Do_inv (B := bf) (λ s : S * attempt_log, Forall (λ a, marked rr a.2) s.2)); [|exact HD|constructor].
    intros [t1 [s1 l1]] H1. unfold logged; cbn.
    pose proof (marked_attempt rr (f ctx') (World t1 s1)) as Hk.
    destruct (attempt_once rr (f ctx') (World t1 s1)). simpl in *.
    apply Forall_app_2; [done|by constructor]. }
  exists e, b', (view (λ '(s, l), (s, raw_log l)) w'). split_and!.
  - unfold retry_call. cbn [now]. fold ctx'.
    change (World t (s, [])) with (view (λ '(s, l), (s, raw_log l)) (World t (s, []))).
    rewrite (Do_view _ (logged (attempt_once rr (f ctx')))); [by rewrite HD|].
    intros [t1 [s1 l1]]. unfold view at 1; cbn [now store]. rewrite attempt_once_eq. unfold logged. cbn.
    rewrite attempt_once_eq. destruct (f ctx' (World t1 s1)) as [err [t2 s2]]. cbn. unfold view, raw_log; cbn.
    rewrite fmap_app. cbn. do 5 f_equal. destruct err as [err|]; [|done].
    destruct (skipped rr err) eqn:Hs; [|done]. destruct (made_skipped _ _ Hm Hs) as [Hn _].
    by destruct err.
  - unfold retry_call. cbn [now]. fold ctx'.
    change (World t s) with (view fst (World t (s, @nil (Z * option goerror)))).
    rewrite Do_logged, HD. by destruct w' as [t1 [s1 l1]].
  - destruct w' as [t1 [s1 l1]]. simpl in *. subst l1. by apply legal_calls_of_attempts.
Qed.

(** What failed calls keep and the successful one, the last, establishes; [n] counts the calls. *)
Lemma retry_call_outcome {S} rr (I J : nat → S → Prop) (f : context → op S (option goerror)) b ctx w :
  made rr →
  (∀ n ctx w, I n (store w) → match (f ctx w).1 with None => J | Some _ => I end (Datatypes.S n) (store (f ctx w).2)) →
  I 0%nat (store w) →
  ∃ e b' w' n, retry_call rr f b ctx w = Ret (e, b', w') ∧ Z.of_nat n ≤ left_of b ∧
    match e with None => J | Some _ => I end n (store w').
Proof.
  intros Hm Hf H0. destruct w as [t s].
  destruct (retry_call_legal rr f b ctx t s Hm) as (e & b' & w' & Hlog & Hr & Hleg).
  exists e, b', (view fst w'), (length (store w').2). split; [done|]. split; [apply Hleg|].
  unfold retry_call in Hlog. cbn [now] in Hlog.
  apply (Do_outcome (B := bf) (λ x : S * attempt_log, I (length x.2) x.1) (λ x, J (length x.2) x.1)) in Hlog;
    [by destruct e| |exact H0].
  intros [t1 [s1 l1]] Hi. rewrite attempt_once_eq. unfold logged. cbn [now store fst snd] in *.
  specialize (Hf _ (WithTimeout ctx t (timeout rr)) (World t1 s1) Hi).
  destruct (f _ (World t1 s1)) as [err [t2 s2]]. cbn [fst snd store now] in *.
  destruct err as [err|]; [destruct (skipped rr err)|]; cbn [fst snd store]; by rewrite length_app, Nat.add_comm.
Qed.

(** A method that succeeds, or fails with an error of the skip list, is called once. *)
Lemma retry_call_once {S} rr (f : context → op S (option goerror)) b ctx w :
  made rr → ctx_Err ctx (now w) = None →
  let '(e, w') := f (WithTimeout ctx (now w) (timeout rr)) w in
  match e with None => True | Some err => skipped rr err = true end →
  retry_call rr f b ctx w = Ret (e, b, w').
Proof.
  intros Hm Hctx. unfold retry_call. set (ctx' := WithTimeout ctx (now w) (timeout rr)).
  assert (ctx_Err ctx' (now w) = None) as Hctx'.
  { apply eq_None_not_Some. intros (d & Hd & Hle)%ctx_Err_done. destruct Hm as (_ & _ & _ & Ht).
    apply eq_None_not_Some in Hctx. apply Hctx, ctx_Err_done.
    unfold ctx', done_at, WithTimeout, min_opt in *; simpl in *.
    destruct (deadline ctx) as [dl|], (cancelled ctx) as [c|]; simpl in *; simplify_eq;
      first [exfalso; lia|eexists; split; [done|]; lia]. }
  destruct (f ctx' w) as [e w'] eqn:Hf. intros He.
  assert (∃ n, Z.to_nat (left_of b) = Datatypes.S n) as [n ->].
  { exists (Z.to_nat (left_of b - 1)). unfold left_of. lia. }
  cbn [Do]. rewrite Hctx', attempt_once_eq, Hf. destruct e as [err|]; [|done].
  rewrite He. by destruct (made_skipped _ _ Hm He) as [-> _].
Qed.

Lemma retry_call_value_once {S A} rr (zero : A) (f : context → op S (A * option goerror)) b ctx w :
  made rr → ctx_Err ctx (now w) = None →
  let '((a, e), w') := f (WithTimeout ctx (now w) (timeout rr)) w in
  match e with None => True | Some err => skipped rr err = true end →
  retry_call_value rr zero f b ctx w = Ret ((a, e), b, w').
Proof.
  intros Hm Hctx.
  pose proof (retry_call_once rr (λ ctx, capture (f ctx)) b ctx (World (now w) (zero, store w)) Hm Hctx) as H.
  unfold capture in H at 1. cbn [now store snd] in H.
  assert (World (now w) (store w) = w) as Hw by by destruct w. rewrite Hw in H.
  destruct (f _ w) as [[a e] w'] eqn:Hf. intros He. specialize (H He).
  unfold retry_call_value. unfold retry_call in H. cbn [now] in H. rewrite H. by destruct w'.
Qed.

(** A closed context: no attempt is made. *)
Lemma retry_call_dead {S} rr (f : context → op S (option goerror)) b ctx w e :
  ctx_Err (WithTimeout ctx (now w) (timeout rr)) (now w) = Some e →
  retry_call rr f b ctx w = Ret (Some e, b, w).
Proof.
  intros He. unfold retry_call.
  assert (∃ n, Z.to_nat (left_of b) = Datatypes.S n) as [n ->].
  { exists (Z.to_nat (left_of b - 1)). unfold left_of. lia. }
  cbn [Do]. by rewrite He.
Qed.

Lemma new_bf_made rr :
  made rr → ∃ b, new_bf rr = Ret b ∧ left_of b = maxRetries rr + 1 ∧ inner b = fib_state (fiboDuration rr) 0.
Proof.
  intros (_ & Hm & Hf & _). eexists. split_and!.
  - unfold new_bf. rewrite NewFibonacci_state by lia. reflexivity.
  - unfold left_of, WithMaxRetries; simpl. lia.
  - done.
Qed.

(** ** What the retrier promises *)

(** [C9] Wrapping a storage write with the retrier: the wrapped call always returns, without a
    panic; the method is called at most [maxRetries + 1] times and never once the timeout of the
    call or the caller's context has ended; it is called again only after an error that is not on
    the skip list; and the caller gets nil exactly when the last call succeeded, a skipped error at
    once and as it is, any other error, unwrapped, only after all the retries, or else the error
    of the context. *)
Theorem retrier_contract {S : Type} (rr : Retrier)
    (f : context → string → string → iface → op S (option goerror))
    (ctx : context) (mtype name : string) (val : iface) (t : Z) (s : S) (Hm : made rr) :
  ∃ b call call_logged e b' w',
    UseRetrierWM rr f = Ret (b, call) ∧
    UseRetrierWM rr (λ ctx mtype name val, logged (f ctx mtype name val)) = Ret (b, call_logged) ∧
    call b ctx mtype name val (World t s) = Ret (e, b', view fst w') ∧
    call_logged b ctx mtype name val (World t (s, [])) = Ret (e, b', w') ∧
    legal_calls rr (WithTimeout ctx t (timeout rr)) (maxRetries rr + 1) (store w').2 e.
Proof.
  destruct (new_bf_made rr Hm) as (b & Hb & Hleft & _).
  destruct (retry_call_legal rr (λ ctx, f ctx mtype name val) b ctx t s Hm) as (e & b' & w' & H1 & H2 & H3).
  unfold UseRetrierWM. rewrite Hb. cbn.
  eexists _, _, _, e, b', w'. rewrite <- Hleft. split_and!; [reflexivity..|exact H2|exact H1|exact H3].
Qed.

Lemma retrier_contract_witness :
  ∃ b call call_logged e b' w',
    UseRetrierWM NewRetrier (λ _ _ _ _, always_fails 5 (ErrMsg "conn refused")) = Ret (b, call) ∧
    UseRetrierWM NewRetrier (λ _ _ _ _, logged (always_fails 5 (ErrMsg "conn refused"))) = Ret (b, call_logged) ∧
    call b Background GaugeType "g" INil (World 0 tt) = Ret (e, b', view fst w') ∧
    call_logged b Background GaugeType "g" INil (World 0 (tt, [])) = Ret (e, b', w') ∧
    legal_calls NewRetrier (WithTimeout Background 0 (30 * Second)) (3 + 1) (store w').2 e.
Proof.
  apply (retrier_contract NewRetrier (λ _ _ _ _, always_fails 5 (ErrMsg "conn refused")) Background
           GaugeType "g" INil 0 tt).
  apply (bool_decide_unpack _). vm_compute. exact I.
Defined.

(** A batch write whose store keeps failing with an error that is not on the skip list, each
    call taking [d]: if the timeout leaves room for it, the method is called exactly
    [maxRetries + 1] times, at the instants given by the Fibonacci waits (for three retries from
    one second: after 1, then 2, then 3 seconds), and the caller gets that error itself. *)
Theorem retrier_persistent_failure {S : Type} (rr : Retrier) (ctx : context) (metrics : list Metrics)
    (d : Z) (err : goerror) (t : Z) (s : S)
    (Hm : made rr) (Hd : 0 ≤ d) (Herr : skipped rr err = false) :
  let waits := fib_wait (fiboDuration rr) <$> seq 0 (Z.to_nat (maxRetries rr)) in
  let starts := schedule t d waits in
  alive_until (WithTimeout ctx t (timeout rr)) (List.last starts 0 + d) →
  ∃ b call b' w',
    UseRetrierWMB rr (λ _ _, logged (always_fails d err)) = Ret (b, call) ∧
    call b ctx metrics (World t (s, [])) = Ret (Some err, b', w') ∧
    (store w').2 = (λ t, (t, Some err)) <$> starts.
Proof.
  cbn zeta. intros Halive. destruct (new_bf_made rr Hm) as (b & Hb & Hleft & Hin).
  assert (waits (Z.to_nat (maxRetries rr)) (inner b) = fib_wait (fiboDuration rr) <$> seq 0 (Z.to_nat (maxRetries rr))) as Hw.
  { destruct Hm as (_ & _ & ? & _). rewrite Hin. apply waits_fib; [lia|]. unfold fib; simpl. lia. }
  set (ctx' := WithTimeout ctx t (timeout rr)) in *.
  destruct (Do_persistent (S := S) ctx' d (ErrRetryable err) err fibonacci_never_stops fibonacci_positive Hd
    eq_refl (Z.to_nat (maxRetries rr)) (Z.to_nat (left_of b)) b (World t (s, []))) as (b' & w' & HD & Hl).
  - destruct Hm as (_ & ? & _). lia.
  - destruct Hm as (_ & ? & _). lia.
  - by rewrite Hw.
  - exists b. eexists _, b', (view (λ '(s, l), (s, raw_log l)) w'). split; [by unfold UseRetrierWMB; rewrite Hb|].
    split.
    + unfold retry_call. cbn [now]. fold ctx'.
      change (World t (s, [])) with (view (λ '(s, l), (s, raw_log l)) (World t (s, []))) at 1.
      rewrite (Do_view _ (logged (always_fails d (ErrRetryable err)))); [by rewrite HD|].
      intros [t1 [s1 l1]]. rewrite attempt_once_eq. cbn. rewrite Herr. unfold view, raw_log; cbn.
      by rewrite fmap_app.
    + destruct w' as [t1 [s1 l1]]. simpl in *. subst l1. unfold raw_log. rewrite Hw, <- list_fmap_compose.
      by apply list_fmap_ext.
Qed.

Lemma retrier_persistent_failure_witness :
  ∃ b call b' w',
    UseRetrierWMB NewRetrier (λ _ _, logged (always_fails 0 (ErrMsg "conn refused"))) = Ret (b, call) ∧
    call b Background [] (World 7 (tt, [])) = Ret (Some (ErrMsg "conn refused"), b', w') ∧
    (store w').2 = (λ t, (t, Some (ErrMsg "conn refused"))) <$> [7; 7 + Second; 7 + 3 * Second; 7 + 6 * Second].
Proof.
  apply (retrier_persistent_failure NewRetrier Background [] 0 (ErrMsg "conn refused") 7 tt).
  - apply (bool_decide_unpack _). vm_compute. exact I.
  - lia.
  - vm_compute. reflexivity.
  - intros x Hx. vm_compute in Hx. injection Hx as <-. vm_compute. reflexivity.
Defined.

(** Reading through the retrier: the value the caller gets without an error is the value that
    one call of the method returned without an error, started while the context was alive, and the
    world is the one that call left behind. *)
Theorem retrier_value {S : Type} (rr : Retrier)
    (f : context → string → string → op S (iface * option goerror))
    (b b' : bf) call (ctx : context) (mType name : string) (w w' : world S) (v : iface)
    (Hu : UseRetrierGetMetric rr f = Ret (b, call))
    (Hc : call b ctx mType name w = Ret ((v, None), b', w')) :
  ∃ w1, ctx_Err (WithTimeout ctx (now w) (timeout rr)) (now w1) = None ∧
        f (WithTimeout ctx (now w) (timeout rr)) mType name w1 = ((v, None), w').
Proof.
  unfold UseRetrierGetMetric in Hu. apply outcome_bind_Ret in Hu as (b0 & _ & [= -> <-]).
  unfold retry_call_value in Hc. apply outcome_bind_Ret in Hc as ([[e b1] w1] & HD & [= <- -> <- <-]).
  apply Do_success in HD as (w0 & Hctx & Ha). rewrite attempt_once_eq in Ha. unfold capture in Ha.
  exists (World (now w0) (store w0).2). split; [done|].
  destruct (f _ mType name (World (now w0) (store w0).2)) as [[a e] w2].
  destruct e as [err|]; [by destruct (skipped rr err)|]. injection Ha as <-. by destruct w2.
Qed.

(** A method that takes two nanoseconds and returns 5. *)
Definition five : op unit (iface * option goerror) := λ w, ((ICounter 5, None), World (now w + 2) tt).

Lemma retrier_value_witness :
  ∃ w1, ctx_Err (WithTimeout Background 3 (30 * Second)) (now w1) = None ∧
        five w1 = ((ICounter 5, None), World 5 tt).
Proof.
  apply (retrier_value NewRetrier (λ _ _ _, five)
           (mkMax 3 0 (mkFib 0 Second)) (mkMax 3 0 (mkFib 0 Second))
           (λ b ctx mType name, retry_call_value NewRetrier INil (λ _, five) b ctx)
           Background CounterType "c" (World 3 tt) (World 5 tt) (ICounter 5)).
  - reflexivity.
  - vm_compute. reflexivity.
Defined.
