(* ===== verification/StoreSpec.v ===== *)
(** * What the handlers rely on in a store

    A store refines the pair of maps of [MemStorage.v] when there is a view of its state as such a
    pair under which every method behaves as the map operation of the same name, or fails with an
    error that is not one of the sentinels and leaves the view alone.  The contract of a store may
    cover only some of its states, which the methods then keep, and only some writes.  The in-memory
    store refines itself without failures and without conditions; the Postgres store is in
    [PgServer.v].  The lemmas below carry the refinement through the retrier: whatever the number
    of attempts, a wrapped write takes effect once or not at all. *)

From S2P Require Import Prelude GoErrors Float64 Metrics MemStorage GoRetry Retrier.

Open Scope Z_scope.

(** An error of the machinery, not of the arguments: the retrier tries again. *)
Definition transient (e : option goerror) : Prop :=
  ∃ err, e = Some err ∧ skipped NewRetrier err = false.

Class AbstractStore (S : Type) `{StoreMetrics S} : Type := {
  abs : S → MemStorage;
  store_ok : S → Prop;                              (* the states the contract covers *)
  write_ok : string → string → iface → Prop;        (* the writes it covers *)
  batch_ok : list Metrics → Prop;
  abs_WriteMetric ctx mtype name val w :
    store_ok (store w) → write_ok mtype name val →
    let '(e, w') := WriteMetric ctx mtype name val w in
    store_ok (store w') ∧
    ((e, abs (store w')) = mem_WriteMetric mtype name val (abs (store w)) ∨
     (transient e ∧ abs (store w') = abs (store w)));
  abs_WriteBatchMetrics ctx metrics w :
    store_ok (store w) → batch_ok metrics →
    let '(e, w') := WriteBatchMetrics ctx metrics w in
    store_ok (store w') ∧
    ((e, abs (store w')) = mem_WriteBatchMetrics metrics (abs (store w)) ∨
     (transient e ∧ abs (store w') = abs (store w)));
  abs_GetMetric ctx mType name w :
    store_ok (store w) →
    let '((v, e), w') := GetMetric ctx mType name w in
    ((v, e) = mem_GetMetric mType name (abs (store w)) ∨ transient e) ∧
    store_ok (store w') ∧ abs (store w') = abs (store w);
  abs_GetAllMetricsTxt ctx w :
    store_ok (store w) →
    let '((s, e), w') := GetAllMetricsTxt ctx w in
    ((s, e) = mem_GetAllMetricsTxt (abs (store w)) ∨ transient e) ∧
    store_ok (store w') ∧ abs (store w') = abs (store w);
  abs_Ping ctx w :
    store_ok (store w) →
    store_ok (store (Ping ctx w).2) ∧ abs (store (Ping ctx w).2) = abs (store w)
}.

#[export] Instance MemStorage_AbstractStore : AbstractStore MemStorage.
Proof.
  refine (Build_AbstractStore MemStorage _ id (λ _, True) (λ _ _ _, True) (λ _, True) _ _ _ _ _).
  - intros. cbn. destruct (mem_WriteMetric _ _ _ _). by split; [|left].
  - intros. cbn. by split; [|left].
  - intros. cbn. destruct (mem_GetMetric _ _ _). by split; [left|].
  - intros. cbn. by split; [left|].
  - done.
Defined.

(** ** Through the retrier *)

Section Effect.
Context {S : Type} (Pre : S → Prop) (Post : option goerror → S → Prop).

(** A final result of the operation, or a failed call that left the state as it was. *)
Definition once_or_never (e : option goerror) (s : S) : Prop :=
  Post e s ∨ (is_Some e ∧ Pre s).

(** One call: final, or transient and without effect. *)
Definition one_call (f : op S (option goerror)) : Prop :=
  ∀ w, Pre (store w) →
    let '(e, w') := f w in
    (Post e (store w') ∧
     match e with None => True | Some err => skipped NewRetrier err = true end) ∨
    (transient e ∧ Pre (store w')).

Lemma Do_effect {B} `{Backoff B} rr (f : op S (option goerror)) ctx fuel (b : B) w e b' w' :
  made rr → one_call f → Pre (store w) →
  Do fuel ctx b (attempt_once rr f) w = Ret (e, b', w') →
  once_or_never e (store w').
Proof.
  intros Hm Hf. revert b w. induction fuel as [|fuel IH]; intros b w Ha; [done|]. cbn [Do].
  destruct (ctx_Err ctx (now w)); [intros [= <- <- <-]; right; eauto|].
  rewrite attempt_once_eq. specialize (Hf w Ha). destruct (f w) as [err w1].
  destruct Hf as [[Hp Hs]|[(x & -> & Hx) Hw1]].
  - assert (match err with None => None | Some e0 => if skipped rr e0 then Some e0 else Some (ErrRetryable e0) end
            = err) as ->.
    { destruct err as [err|]; [|done]. unfold skipped in *. destruct Hm as [-> _]. by rewrite Hs. }
    destruct err as [err|]; [|by intros [= <- <- <-]; left].
    assert (errors_As_retryable err = None) as ->.
    { apply (made_skipped rr err Hm). unfold skipped in *. by destruct Hm as [-> _]. }
    by intros [= <- <- <-]; left.
  - assert (skipped rr x = false) as -> by (unfold skipped in *; by destruct Hm as [-> _]).
    cbn [errors_As_retryable]. destruct (Next b) as [[next stop] b1].
    destruct stop; [intros [= <- <- <-]; right; eauto|].
    destruct (ctx_Err ctx (now w1)); [intros [= <- <- <-]; right; eauto|]. cbv zeta.
    destruct (done_at ctx) as [d|] eqn:Hd; [case_decide as Hlt; [|by apply IH]|by apply IH].
    intros [= <- <- <-]. right. split; [apply ctx_Err_done; by exists d|done].
Qed.

Lemma retry_call_effect rr (f : context → op S (option goerror)) (b : bf) ctx w :
  made rr → (∀ ctx, one_call (f ctx)) → Pre (store w) →
  ∃ e b' w', retry_call rr f b ctx w = Ret (e, b', w') ∧ once_or_never e (store w').
Proof.
  intros Hm Hf Ha.
  destruct (retry_call_legal rr f b ctx (now w) (store w) Hm) as (e & b' & w' & _ & Hr & _).
  exists e, b', (view fst w'). replace (World (now w) (store w)) with w in Hr by by destruct w.
  split; [done|]. unfold retry_call in Hr. cbv zeta in Hr.
  eapply (Do_effect (B := bf)); [done|apply Hf|exact Ha|exact Hr].
Qed.
End Effect.

(** The value version: the captured variable is part of the view. *)
Lemma retry_call_value_effect {S A} rr (zero : A) (Pre : S → Prop) (v : A) (e0 : option goerror)
    (f : context → op S (A * option goerror)) (b : bf) ctx w :
  made rr →
  (∀ ctx w, Pre (store w) →
     let '((x, e), w') := f ctx w in
     (((x, e) = (v, e0) ∧ match e0 with None => True | Some err => skipped NewRetrier err = true end) ∨
      transient e) ∧ Pre (store w')) →
  Pre (store w) →
  ∃ x e b' w', retry_call_value rr zero f b ctx w = Ret ((x, e), b', w') ∧
    Pre (store w') ∧ ((x, e) = (v, e0) ∨ is_Some e).
Proof.
  intros Hm Hf Ha.
  destruct (retry_call_effect (λ s : A * S, Pre s.2)
    (λ e s, (s.1, e) = (v, e0) ∧ Pre s.2) rr
    (λ ctx, capture (f ctx)) b ctx (World (now w) (zero, store w)) Hm) as (e & b' & w' & Hr & He); [|done|].
  { intros ctx' [t [z s]] Hs. unfold capture. cbn in *. specialize (Hf ctx' (World t s) Hs).
    destruct (f ctx' (World t s)) as [[x e] [t' s']]. cbn in *.
    destruct Hf as [[[[= -> ->] ?]|?] ?]; auto. }
  unfold retry_call in Hr. cbn [now] in Hr. unfold retry_call_value. rewrite Hr. cbn.
  eexists _, _, _, _. split; [done|]. cbn. destruct He as [[? ?]|[? ?]]; auto.
Qed.

(** ** The calls of the handlers *)

Section Calls.
Context {S : Type} `{AbstractStore S} (rr : Retrier) (Hm : made rr).

Lemma mem_write_final mtype name val m :
  match (mem_WriteMetric mtype name val m).1 with
  | None => True | Some err => skipped NewRetrier err = true
  end.
Proof.
  destruct (mem_WriteMetric_cases mtype name val m) as [(g & _ & _ & ->)|[(c & _ & _ & ->)|(_ & ->)]]; [done..|].
  unfold write_error. simpl. destruct (well_typed mtype val); [done|]. by case_decide.
Qed.

Lemma mem_get_final mType name m :
  match (mem_GetMetric mType name m).2 with
  | None => True | Some err => skipped NewRetrier err = true
  end.
Proof. unfold mem_GetMetric. repeat case_decide; [by destruct (gauge m !! name)|by destruct (counter m !! name)|done]. Qed.

(** What a wrapped write gives: its effect on the maps, once, or an error and no effect. *)
Definition written (r : option goerror * MemStorage) (m : MemStorage) (e : option goerror) (s : S) : Prop :=
  store_ok s ∧ ((e, abs s) = r ∨ (is_Some e ∧ abs s = m)).

(** States that look like [m]. *)
Definition looks (m : MemStorage) (s : S) : Prop := store_ok s ∧ abs s = m.

(** A call of a method that follows the contract, through the retrier. *)
Lemma retry_written (f : context → op S (option goerror)) b ctx w r :
  (∀ ctx w', looks (abs (store w)) (store w') →
     let '(e, w'') := f ctx w' in
     store_ok (store w'') ∧ ((e, abs (store w'')) = r ∨ (transient e ∧ abs (store w'') = abs (store w)))) →
  match r.1 with None => True | Some err => skipped NewRetrier err = true end →
  store_ok (store w) →
  ∃ e b' w', retry_call rr f b ctx w = Ret (e, b', w') ∧ written r (abs (store w)) e (store w').
Proof.
  intros Hf Hfin Hok.
  destruct (retry_call_effect (looks (abs (store w))) (λ e s, store_ok s ∧ (e, abs s) = r) rr f b ctx w)
    as (e & b' & w' & Hr & He); [done| |done|].
  - intros ctx' w1 Hw1. specialize (Hf ctx' w1 Hw1). destruct (f ctx' w1) as [e w2].
    destruct Hf as [? [<-|[? ?]]]; [left|right]; by repeat split.
  - exists e, b', w'. split; [done|]. unfold written, looks in *. destruct He as [[? ?]|(? & ? & ?)]; auto.
Qed.

Lemma retry_WriteMetric b ctx mtype name val w :
  store_ok (store w) → write_ok mtype name val →
  ∃ e b' w', retry_call rr (λ ctx, WriteMetric ctx mtype name val) b ctx w = Ret (e, b', w') ∧
    written (mem_WriteMetric mtype name val (abs (store w))) (abs (store w)) e (store w').
Proof.
  intros Hok Hwr. apply retry_written; [|apply mem_write_final|done].
  intros ctx' w1 [Hok1 <-]. by apply abs_WriteMetric.
Qed.

Lemma retry_WriteBatch b ctx metrics w :
  store_ok (store w) → batch_ok metrics →
  ∃ e b' w', retry_call rr (λ ctx, WriteBatchMetrics ctx metrics) b ctx w = Ret (e, b', w') ∧
    written (mem_WriteBatchMetrics metrics (abs (store w))) (abs (store w)) e (store w').
Proof.
  intros Hok Hwr. apply retry_written; [|done|done].
  intros ctx' w1 [Hok1 <-]. by apply abs_WriteBatchMetrics.
Qed.

Lemma retry_GetMetric b ctx mType name w :
  store_ok (store w) →
  ∃ v e b' w', retry_call_value rr INil (λ ctx, GetMetric ctx mType name) b ctx w = Ret ((v, e), b', w') ∧
    looks (abs (store w)) (store w') ∧
    ((v, e) = mem_GetMetric mType name (abs (store w)) ∨ is_Some e).
Proof.
  intros Hok. destruct (mem_GetMetric mType name (abs (store w))) as [v e0] eqn:Hg.
  apply (retry_call_value_effect rr INil (looks (abs (store w)))); [done| |done].
  intros ctx' w1 [Hok1 Hw1]. pose proof (abs_GetMetric ctx' mType name w1 Hok1) as Hlaw.
  pose proof (mem_get_final mType name (abs (store w))) as Hfin. rewrite Hw1, Hg in *.
  destruct (GetMetric ctx' mType name w1) as [[x e] w2]. destruct Hlaw as [[?|?] ?]; auto.
Qed.

Lemma retry_GetAll b ctx w :
  store_ok (store w) →
  ∃ s e b' w', retry_call_value rr "" GetAllMetricsTxt b ctx w = Ret ((s, e), b', w') ∧
    looks (abs (store w)) (store w') ∧
    ((s, e) = mem_GetAllMetricsTxt (abs (store w)) ∨ is_Some e).
Proof.
  intros Hok. apply (retry_call_value_effect rr "" (looks (abs (store w)))); [done| |done].
  intros ctx' w1 [Hok1 Hw1]. pose proof (abs_GetAllMetricsTxt ctx' w1 Hok1) as Hlaw. rewrite Hw1 in Hlaw.
  destruct (GetAllMetricsTxt ctx' w1) as [[x e] w2]. destruct Hlaw as [[?|?] ?]; auto.
Qed.
End Calls.
