(* ===== verification/Http.v ===== *)
(** * HTTP requests and responses

    What the server uses of [net/http]: a request with its headers and body, and a response as the
    sequence of calls a handler makes on its [http.ResponseWriter].  [respond] is what the server
    sends for such a sequence; middlewares that wrap the writer are functions on sequences. *)

From S2P Require Import Prelude Strconv Float64 GoErrors Metrics.

Open Scope Z_scope.

Definition StatusOK : Z := 200.
Definition StatusBadRequest : Z := 400.
Definition StatusForbidden : Z := 403.
Definition StatusNotFound : Z := 404.
Definition StatusMethodNotAllowed : Z := 405.
Definition StatusInternalServerError : Z := 500.

(** Of a header with several values, the first, which is the one [Get] gives. *)
Abbreviation headers := (gmap string string).

(** [Header.Get]: the empty string when the header is missing. *)
Definition header_Get (h : headers) (k : string) : string := default "" (h !! k).

Record request : Type := mkRequest {
  Method : string;
  Path : string;                    (* [URL.RawPath] when that is set, else [URL.Path] *)
  Header : headers;
  RemoteAddr : string;
  URLParams : gmap string string;   (* set by the router, in the request's context *)
  Body : string;
  BodyErr : bool                    (* reading past [Body] fails instead of ending *)
}.

(** [r.Body = io.NopCloser(bytes.NewBuffer(b))]. *)
Definition set_body (r : request) (b : string) : request :=
  mkRequest (Method r) (Path r) (Header r) (RemoteAddr r) (URLParams r) b false.

(** [chi.URLParam]. *)
Definition URLParam (r : request) (k : string) : string := default "" (URLParams r !! k).

Definition set_params (r : request) (ps : gmap string string) : request :=
  mkRequest (Method r) (Path r) (Header r) (RemoteAddr r) ps (Body r) (BodyErr r).

(** One call on a [http.ResponseWriter]. *)
Inductive wcall : Type :=
| HeaderSet (k v : string)
| HeaderDel (k : string)
| HeaderAdd (k v : string)
| WriteHeader (code : Z)
| Write (data : string).

#[export] Instance wcall_eq_dec : EqDecision wcall.
Proof. solve_decision. Defined.

(** [http.Error] of Go 1.22. *)
Definition http_Error (msg : string) (code : Z) : list wcall :=
  [HeaderSet "Content-Type" "text/plain; charset=utf-8";
   HeaderSet "X-Content-Type-Options" "nosniff";
   WriteHeader code;
   Write (msg +:+ nl_str)].

(** The response being sent: the headers are fixed by the first [WriteHeader], a [Write] without one
    sends status 200, and a second [WriteHeader] is ignored. *)
Record response : Type := mkResponse {
  pending : headers;
  sent : option (Z * headers);
  body : string
}.

Definition new_response : response := mkResponse ∅ None "".

Definition send_header (code : Z) (r : response) : response :=
  match sent r with
  | Some _ => r
  | None => mkResponse (pending r) (Some (code, pending r)) (body r)
  end.

Definition wstep (r : response) (c : wcall) : response :=
  match c with
  | HeaderSet k v => mkResponse (<[k := v]> (pending r)) (sent r) (body r)
  | HeaderDel k => mkResponse (delete k (pending r)) (sent r) (body r)
  | HeaderAdd k v =>
      mkResponse (match pending r !! k with Some _ => pending r | None => <[k := v]> (pending r) end) (sent r) (body r)
  | WriteHeader code => send_header code r
  | Write d =>
      let r := send_header StatusOK r in mkResponse (pending r) (sent r) (body r +:+ d)
  end.

(** The status, the headers and the body that leave the server. *)
Definition respond (l : list wcall) : Z * headers * string :=
  let r := send_header StatusOK (foldl wstep new_response l) in
  match sent r with
  | Some (code, h) => (code, h, body r)
  | None => (StatusOK, pending r, body r) (* not reached *)
  end.

Definition status (l : list wcall) : Z := (respond l).1.1.
Definition reply_body (l : list wcall) : string := (respond l).2.
Definition reply_header (l : list wcall) (k : string) : string := header_Get (respond l).1.2 k.

(** A handler over a store of type [S]. *)
Abbreviation handler S := (request → world S → outcome (list wcall * world S)).

(** ** Lemmas *)

(** The status once sent does not change. *)
Lemma foldl_sent l r x : sent r = Some x → sent (foldl wstep r l) = Some x.
Proof.
  revert r. induction l as [|c l IH]; intros r Hr; [done|]. simpl. apply IH.
  destruct c; simpl; unfold send_header; rewrite ?Hr; done.
Qed.

Lemma status_sent l r code h :
  foldl wstep new_response l = r → sent r = Some (code, h) → status l = code ∧ reply_body l = body r.
Proof.
  intros Hl Hs. unfold status, reply_body, respond. rewrite Hl. unfold send_header. rewrite Hs. by rewrite Hs.
Qed.

(** Calls that only change headers. *)
Definition header_only (c : wcall) : Prop :=
  match c with HeaderSet _ _ | HeaderDel _ | HeaderAdd _ _ => True | _ => False end.

Lemma header_only_sent l r :
  Forall header_only l → sent (foldl wstep r l) = sent r ∧ body (foldl wstep r l) = body r.
Proof.
  intros Hl. revert r. induction Hl as [|c l Hc Hl IH]; intros r; [done|]. simpl.
  destruct (IH (wstep r c)) as [-> ->]. by destruct c.
Qed.

(** The first [WriteHeader] decides. *)
Lemma status_first pre code rest :
  Forall header_only pre → status (pre ++ WriteHeader code :: rest) = code.
Proof.
  intros Hpre. destruct (header_only_sent _ new_response Hpre) as [Hs _].
  unfold status, respond. rewrite foldl_app. cbn [foldl wstep].
  set (r0 := foldl wstep new_response pre) in *. unfold send_header at 2. rewrite Hs. simpl sent.
  set (r1 := mkResponse _ _ _).
  assert (sent (foldl wstep r1 rest) = Some (code, pending r0)) as Hr by by apply foldl_sent.
  unfold send_header. rewrite Hr. by rewrite Hr.
Qed.

(** An error reply that follows nothing but header changes has its own status and text. *)
Lemma status_http_Error pre msg code :
  Forall header_only pre → status (pre ++ http_Error msg code) = code.
Proof.
  intros Hpre. unfold http_Error.
  change (pre ++ _) with (pre ++ ([HeaderSet "Content-Type" "text/plain; charset=utf-8";
    HeaderSet "X-Content-Type-Options" "nosniff"] ++ [WriteHeader code; Write (msg +:+ nl_str)])).
  rewrite app_assoc. apply status_first, Forall_app_2; [done|by repeat constructor].
Qed.

Lemma body_http_Error pre msg code :
  Forall header_only pre → reply_body (pre ++ http_Error msg code) = msg +:+ nl_str.
Proof.
  intros Hpre. destruct (header_only_sent _ new_response Hpre) as [Hs Hb].
  unfold reply_body, respond. rewrite foldl_app. simpl.
  unfold send_header. simpl. rewrite Hs. simpl. by rewrite Hb.
Qed.

Lemma body_one_write pre code d :
  Forall header_only pre → reply_body (pre ++ [WriteHeader code; Write d]) = d.
Proof.
  intros Hpre. destruct (header_only_sent _ new_response Hpre) as [Hs Hb].
  unfold reply_body, respond. rewrite foldl_app. simpl.
  unfold send_header. rewrite Hs. simpl. by rewrite Hb.
Qed.

(** The headers are those set before the first [WriteHeader]. *)
Lemma header_before_status pre k v code rest :
  Forall header_only pre → reply_header (pre ++ HeaderSet k v :: WriteHeader code :: rest) k = v.
Proof.
  intros Hpre. destruct (header_only_sent _ new_response Hpre) as [Hs _].
  unfold reply_header, respond. rewrite foldl_app. cbn [foldl wstep].
  set (r0 := foldl wstep new_response pre) in *.
  assert (sent (foldl wstep (send_header code (mkResponse (<[k := v]> (pending r0)) (sent r0) (body r0))) rest) =
          Some (code, <[k := v]> (pending r0))) as Hr.
  { apply foldl_sent. unfold send_header. cbn. by rewrite Hs. }
  set (r1 := foldl wstep _ rest) in *. unfold send_header. rewrite Hr, Hr. cbn.
  unfold header_Get. by rewrite lookup_insert_eq.
Qed.
