(* ===== verification/Handlers.v ===== *)
(** * The HTTP handlers

    The handlers of [internal/server/server.go], each a function of the request and the world that gives
    the calls on the response writer and the world after it.  They are generic in the store: the
    theorems need only that it refines the maps ([AbstractStore]). *)

From S2P Require Import Prelude Strconv Float64 GoErrors Metrics MemStorage Json GoRetry Retrier StoreSpec Http.

Open Scope Z_scope.

(** The handlers' context and retrier; the storage is in the world, the cipher is in [CryptAndSign.v]. *)
Record metricHandlers : Type := mkHandlers { mh_ctx : context; reqRetrier : Retrier }.

Record urlToMetric : Type := mkUrlToMetric {
  metricType : string; metricName : string; metricValue : string }.

(** Escaping of text in [html/template]. *)
Definition html_escape_char (c : ascii) : string :=
  if decide (c = "000"%char) then rune_error
  else if decide (c = dquote) then "&#34;"
  else if decide (c = "&"%char) then "&amp;"
  else if decide (c = "'"%char) then "&#39;"
  else if decide (c = "+"%char) then "&#43;"
  else if decide (c = "<"%char) then "&lt;"
  else if decide (c = ">"%char) then "&gt;"
  else String c "".

Fixpoint html_escape (s : string) : string :=
  match s with "" => "" | String c s => html_escape_char c +:+ html_escape s end.

Definition page_head : string := jq "
<!DOCTYPE html>
<html lang='en'>
<head>
	<meta charset='UTF-8' />
	<meta name='counters' content='width=device-width, initial-scale=1.0' />
	<title>Counters</title>
</head>
<body>
<pre>
".

Definition page_foot : string := "
</pre>
</body>
</html>".

(** [json.NewDecoder(r.Body).Decode(&v)]: the next JSON value of the body.  An object or an array
    is complete with its last byte; any other value only with what follows it. *)
Definition body_value (r : request) : option json :=
  match parse_stream (Body r) with
  | Some (JObj l) => Some (JObj l)
  | Some (JArr l) => Some (JArr l)
  | v => if BodyErr r then None else v
  end.

Section Handlers.
Context {S : Type} `{StoreMetrics S} (mh : metricHandlers).

(** A storage method through a fresh wrapper of the retrier. *)
Definition do_WriteMetric (mtype name : string) (val : iface) (w : world S) :
    outcome (option goerror * world S) :=
  '(b, call) ← UseRetrierWM (reqRetrier mh) WriteMetric;
  '(e, _, w') ← call b (mh_ctx mh) mtype name val w; Ret (e, w').

Definition do_WriteBatchMetrics (metrics : list Metrics) (w : world S) :
    outcome (option goerror * world S) :=
  '(b, call) ← UseRetrierWMB (reqRetrier mh) WriteBatchMetrics;
  '(e, _, w') ← call b (mh_ctx mh) metrics w; Ret (e, w').

Definition do_GetMetric (mType name : string) (w : world S) :
    outcome ((iface * option goerror) * world S) :=
  '(b, call) ← UseRetrierGetMetric (reqRetrier mh) GetMetric;
  '(r, _, w') ← call b (mh_ctx mh) mType name w; Ret (r, w').

Definition do_GetAllMetricsTxt (w : world S) : outcome ((string * option goerror) * world S) :=
  '(b, call) ← UseRetrierGetAllM (reqRetrier mh) GetAllMetricsTxt;
  '(r, _, w') ← call b (mh_ctx mh) w; Ret (r, w').

Definition updateMetrics : handler S := λ req w,
  let ct := header_Get (Header req) "Content-Type" in
  if decide (ct ≠ "" ∧ ct ≠ "text/plain") then
    Ret (http_Error ("wrong content type: " +:+ ct) StatusBadRequest, w)
  else
    let metric := mkUrlToMetric (URLParam req "type") (URLParam req "name") (URLParam req "value") in
    let ok := [HeaderSet "Content-Type" "text/plain"; WriteHeader StatusOK; Write "OK"] in
    if decide (metricType metric = GaugeType) then
      match ParseFloat (metricValue metric) with
      | None => Ret (http_Error "can't parse gauge metric" StatusBadRequest, w)
      | Some fl64 =>
          '(err, w) ← do_WriteMetric (metricType metric) (metricName metric) (IGauge fl64) w;
          match err with
          | Some _ => Ret (http_Error "can't store gauge metric" StatusInternalServerError, w)
          | None => Ret (ok, w)
          end
      end
    else if decide (metricType metric = CounterType) then
      match ParseInt (metricValue metric) with
      | None => Ret (http_Error "can't parse counter metric" StatusBadRequest, w)
      | Some i64 =>
          '(err, w) ← do_WriteMetric (metricType metric) (metricName metric) (ICounter i64) w;
          match err with
          | Some _ => Ret (http_Error "can't store counter metric" StatusInternalServerError, w)
          | None => Ret (ok, w)
          end
      end
    else Ret (http_Error "metric_type not found" StatusBadRequest, w).

Definition getMetrics : handler S := λ req w,
  let pre := [HeaderSet "Content-Type" "text/plain"] in
  let mType := URLParam req "type" in
  let mVal := URLParam req "val" in
  if decide (mType = GaugeType) then
    '((val, err), w) ← do_GetMetric GaugeType mVal w;
    match err with
    | Some _ => Ret (pre ++ http_Error "gauge not found" StatusNotFound, w)
    | None => Ret (pre ++ [WriteHeader StatusOK; Write (show_iface val +:+ nl_str)], w)
    end
  else if decide (mType = CounterType) then
    '((val, err), w) ← do_GetMetric CounterType mVal w;
    match err with
    | Some _ => Ret (pre ++ http_Error "counter not found" StatusNotFound, w)
    | None => Ret (pre ++ [WriteHeader StatusOK; Write (show_iface val +:+ nl_str)], w)
    end
  else Ret (pre ++ http_Error "metric_type not found" StatusBadRequest, w).

Definition getAll : handler S := λ req w,
  let pre := [HeaderSet "Content-Type" "text/html"] in
  '((res, err), w) ← do_GetAllMetricsTxt w;
  match err with
  | Some e => Ret (pre ++ http_Error (error_text e) StatusInternalServerError, w)
  | None =>
      Ret (pre ++ [WriteHeader StatusOK; Write page_head; Write (html_escape res); Write page_foot], w)
  end.

(** [enc.Encode(x)] after [WriteHeader(200)]: on an encoding error the error reply comes too late
    for its status. *)
Definition encode_reply (pre : list wcall) (json : option string) (msg : string) : list wcall :=
  pre ++ WriteHeader StatusOK ::
  match Encode json with
  | Some line => [Write line]
  | None => http_Error msg StatusInternalServerError
  end.

Definition wrong_content_type (ct : string) : list wcall :=
  http_Error ("wrong content type: " +:+ ct) StatusBadRequest.

Definition json_header : list wcall := [HeaderSet "Content-Type" "application/json"].

Definition updateMetricsJSON : handler S := λ r w,
  let ct := header_Get (Header r) "Content-Type" in
  if decide (ct ≠ "application/json") then Ret (wrong_content_type ct, w)
  else match body_value r ≫= decode_Metrics with
  | None => Ret (json_header ++ http_Error "error to pasrse json request" StatusBadRequest, w)
  | Some m =>
      let done_with := encode_reply json_header (encode_Metrics m) "can't prepare json answer" in
      match decide (MType m = GaugeType ∧ ID m ≠ ""), Value m with
      | left _, Some v =>
          '(err, w) ← do_WriteMetric (MType m) (ID m) (IGauge v) w;
          match err with
          | Some _ => Ret (json_header ++ http_Error "can't store gauge metric" StatusInternalServerError, w)
          | None => Ret (done_with, w)
          end
      | _, _ =>
          match decide (MType m = CounterType ∧ ID m ≠ ""), Delta m with
          | left _, Some d =>
              '(err, w) ← do_WriteMetric (MType m) (ID m) (ICounter d) w;
              match err with
              | Some _ => Ret (json_header ++ http_Error "can't store counter metric" StatusInternalServerError, w)
              | None => Ret (done_with, w)
              end
          | _, _ =>
              Ret (json_header ++
                   http_Error "bad metric type or no metric value or id is empty" StatusBadRequest, w)
          end
      end
  end.

Definition getMetricsJSON : handler S := λ r w,
  let ct := header_Get (Header r) "Content-Type" in
  if decide (ct ≠ "application/json") then Ret (wrong_content_type ct, w)
  else match body_value r ≫= decode_Metrics with
  | None => Ret (json_header ++ http_Error "error to pasrse json request" StatusBadRequest, w)
  | Some m =>
      '((res, err), w) ← do_GetMetric (MType m) (ID m) w;
      match err with
      | Some e => Ret (json_header ++ http_Error (error_text e) StatusNotFound, w)
      | None =>
          match res with
          | IGauge g =>
              Ret (encode_reply json_header (encode_Metrics (mkMetrics (Delta m) (Some g) (ID m) (MType m)))
                     "can't encode json", w)
          | ICounter c =>
              Ret (encode_reply json_header (encode_Metrics (mkMetrics (Some c) (Value m) (ID m) (MType m)))
                     "can't encode json", w)
          | _ => Ret (json_header ++ http_Error "bad metric type" StatusNotFound, w)
          end
      end
  end.

Definition updateBatchMetricsJSON : handler S := λ r w,
  let ct := header_Get (Header r) "Content-Type" in
  if decide (ct ≠ "application/json") then Ret (wrong_content_type ct, w)
  else match body_value r ≫= decode_slice with
  | None => Ret (json_header ++ http_Error "error to pasrse json request" StatusBadRequest, w)
  | Some batch =>
      '(err, w) ← do_WriteBatchMetrics (default [] batch) w;
      match err with
      | Some _ => Ret (json_header ++ http_Error "error to store batch metrics" StatusInternalServerError, w)
      | None => Ret (encode_reply json_header (encode_slice batch) "can't encode json", w)
      end
  end.

Definition dbPing : handler S := λ r w,
  let ctx := WithTimeout (mh_ctx mh) (now w) (GetTimeoutCtx (reqRetrier mh)) in
  let '(err, w) := Ping ctx w in
  match err with
  | Some e => Ret (http_Error (error_text e) StatusInternalServerError, w)
  | None => Ret ([WriteHeader StatusOK; Write ("OK" +:+ nl_str)], w)
  end.
End Handlers.

Lemma body_value_read r : BodyErr r = false → body_value r = parse_stream (Body r).
Proof. intros Hr. unfold body_value. rewrite Hr. by destruct (parse_stream (Body r)) as [[]|]. Qed.

(** ** The storage calls of the handlers *)

Section Effects.
Context {S : Type} `{AbstractStore S} (mh : metricHandlers) (Hm : made (reqRetrier mh)).

Lemma do_WriteMetric_effect mtype name val (w : world S) :
  store_ok (store w) → write_ok mtype name val →
  ∃ e w', do_WriteMetric mh mtype name val w = Ret (e, w') ∧
    written (mem_WriteMetric mtype name val (abs (store w))) (abs (store w)) e (store w').
Proof.
  intros Hs Hok.
  destruct (new_bf_made _ Hm) as (b & Hb & _).
  destruct (retry_WriteMetric _ Hm b (mh_ctx mh) mtype name val w Hs Hok) as (e & b' & w' & Hr & He).
  exists e, w'. split; [|done]. unfold do_WriteMetric, UseRetrierWM. rewrite Hb. cbn. by rewrite Hr.
Qed.

Lemma do_WriteBatch_effect metrics (w : world S) :
  store_ok (store w) → batch_ok metrics →
  ∃ e w', do_WriteBatchMetrics mh metrics w = Ret (e, w') ∧
    written (mem_WriteBatchMetrics metrics (abs (store w))) (abs (store w)) e (store w').
Proof.
  intros Hs Hok.
  destruct (new_bf_made _ Hm) as (b & Hb & _).
  destruct (retry_WriteBatch _ Hm b (mh_ctx mh) metrics w Hs Hok) as (e & b' & w' & Hr & He).
  exists e, w'. split; [|done]. unfold do_WriteBatchMetrics, UseRetrierWMB. rewrite Hb. cbn. by rewrite Hr.
Qed.

Lemma do_GetMetric_effect mType name (w : world S) :
  store_ok (store w) →
  ∃ v e w', do_GetMetric mh mType name w = Ret ((v, e), w') ∧ looks (abs (store w)) (store w') ∧
    ((v, e) = mem_GetMetric mType name (abs (store w)) ∨ is_Some e).
Proof.
  intros Hs.
  destruct (new_bf_made _ Hm) as (b & Hb & _).
  destruct (retry_GetMetric _ Hm b (mh_ctx mh) mType name w Hs) as (v & e & b' & w' & Hr & He).
  exists v, e, w'. split; [|done]. unfold do_GetMetric, UseRetrierGetMetric. rewrite Hb. cbn. by rewrite Hr.
Qed.

Lemma do_GetAll_effect (w : world S) :
  store_ok (store w) →
  ∃ s e w', do_GetAllMetricsTxt mh w = Ret ((s, e), w') ∧ looks (abs (store w)) (store w') ∧
    ((s, e) = mem_GetAllMetricsTxt (abs (store w)) ∨ is_Some e).
Proof.
  intros Hs.
  destruct (new_bf_made _ Hm) as (b & Hb & _).
  destruct (retry_GetAll _ Hm b (mh_ctx mh) w Hs) as (v & e & b' & w' & Hr & He).
  exists v, e, w'. split; [|done]. unfold do_GetAllMetricsTxt, UseRetrierGetAllM. rewrite Hb. cbn. by rewrite Hr.
Qed.
End Effects.

(** On the in-memory store, while the server runs, the calls are the map operations themselves. *)
Section MemCalls.
Context (mh : metricHandlers) (Hm : made (reqRetrier mh)) (w : world MemStorage).
Context (Halive : ctx_Err (mh_ctx mh) (now w) = None).

Lemma do_WriteMetric_mem mtype name val :
  do_WriteMetric mh mtype name val w =
  Ret ((mem_WriteMetric mtype name val (store w)).1, set_store w (mem_WriteMetric mtype name val (store w)).2).
Proof.
  destruct (new_bf_made _ Hm) as (b & Hb & _). unfold do_WriteMetric, UseRetrierWM. rewrite Hb. cbn.
  pose proof (retry_call_once _ (λ ctx, WriteMetric ctx mtype name val) b _ w Hm Halive) as Hr. cbn in Hr.
  pose proof (mem_write_final mtype name val (store w)) as Hf.
  destruct (mem_WriteMetric mtype name val (store w)) as [e m].
  rewrite Hr by (destruct e; [by rewrite skipped_made|done]). done.
Qed.

Lemma do_WriteBatch_mem metrics :
  do_WriteBatchMetrics mh metrics w = Ret (None, set_store w (foldl batch_step (store w) metrics)).
Proof.
  destruct (new_bf_made _ Hm) as (b & Hb & _). unfold do_WriteBatchMetrics, UseRetrierWMB. rewrite Hb. cbn.
  pose proof (retry_call_once _ (λ ctx, WriteBatchMetrics ctx metrics) b _ w Hm Halive) as Hr. cbn in Hr.
  by rewrite Hr.
Qed.

Lemma do_GetMetric_mem mType name :
  do_GetMetric mh mType name w = Ret (mem_GetMetric mType name (store w), w).
Proof.
  destruct (new_bf_made _ Hm) as (b & Hb & _). unfold do_GetMetric, UseRetrierGetMetric. rewrite Hb. cbn.
  pose proof (retry_call_value_once _ INil (λ ctx, GetMetric ctx mType name) b _ w Hm Halive) as Hr. cbn in Hr.
  pose proof (mem_get_final mType name (store w)) as Hf.
  destruct (mem_GetMetric mType name (store w)) as [v e].
  rewrite Hr by (destruct e; [by rewrite skipped_made|done]). done.
Qed.

Lemma do_GetAll_mem :
  do_GetAllMetricsTxt mh w = Ret (mem_GetAllMetricsTxt (store w), w).
Proof.
  destruct (new_bf_made _ Hm) as (b & Hb & _). unfold do_GetAllMetricsTxt, UseRetrierGetAllM. rewrite Hb. cbn.
  pose proof (retry_call_value_once _ "" GetAllMetricsTxt b _ w Hm Halive) as Hr. cbn in Hr.
  by rewrite Hr.
Qed.
End MemCalls.

#[export] Hint Rewrite do_WriteMetric_mem do_WriteBatch_mem do_GetMetric_mem do_GetAll_mem using done : gomon.

(** ** What the update handlers promise *)

(** The write a request to [/update/{type}/{name}/{value}] asks for. *)
Definition asks_url (req : request) (mtype name : string) (val : iface) : Prop :=
  header_Get (Header req) "Content-Type" ∈ [""; "text/plain"] ∧
  URLParam req "type" = mtype ∧ URLParam req "name" = name ∧
  ((∃ g, mtype = GaugeType ∧ ParseFloat (URLParam req "value") = Some g ∧ val = IGauge g) ∨
   (∃ c, mtype = CounterType ∧ ParseInt (URLParam req "value") = Some c ∧ val = ICounter c)).

(** The write a request to [/update/] asks for. *)
Definition asks_json (req : request) (m : Metrics) (val : iface) : Prop :=
  header_Get (Header req) "Content-Type" = "application/json" ∧
  body_value req ≫= decode_Metrics = Some m ∧ ID m ≠ "" ∧
  ((∃ g, MType m = GaugeType ∧ Value m = Some g ∧ val = IGauge g) ∨
   (∃ c, MType m = CounterType ∧ Delta m = Some c ∧ val = ICounter c)).

(** A store after one successful write of a well-typed value. *)
Lemma mem_write_ok mtype name val m :
  well_typed mtype val = true → mem_WriteMetric mtype name val m = (None, (mem_WriteMetric mtype name val m).2).
Proof.
  intros Hw. destruct (mem_WriteMetric_cases mtype name val m) as [(g & _ & _ & ->)|[(c & _ & _ & ->)|(Hn & _)]];
    [done..|congruence].
Qed.

Section Updates.
Context {S : Type} `{AbstractStore S} (mh : metricHandlers) (Hm : made (reqRetrier mh)).

(** Both handlers of single metrics end with one write and a reply that tells whether it was done. *)
Lemma write_reply mtype name val (w : world S) ok err :
  store_ok (store w) → write_ok mtype name val → well_typed mtype val = true →
  status ok = StatusOK → status err = StatusInternalServerError →
  ∃ l w', ('(e, w) ← do_WriteMetric mh mtype name val w;
           match e with Some _ => Ret (err, w) | None => Ret (ok, w) end) = Ret (l, w') ∧ store_ok (store w') ∧
    ((l = ok ∧ status l = StatusOK ∧
      abs (store w') = (mem_WriteMetric mtype name val (abs (store w))).2) ∨
     (l = err ∧ status l = StatusInternalServerError ∧ abs (store w') = abs (store w))).
Proof.
  intros Hs Hwr Hw Hok Herr.
  destruct (do_WriteMetric_effect mh Hm mtype name val w Hs Hwr) as (e & w' & -> & Hs' & He). cbn.
  destruct e as [x|].
  - exists err, w'. split; [done|]. split; [done|]. right. split_and!; [done..|].
    destruct He as [He|[_ ?]]; [|done]. rewrite mem_write_ok in He by done. congruence.
  - exists ok, w'. split; [done|]. split; [done|]. left. destruct He as [He|[[? ?] _]]; [|done].
    split_and!; [done..|]. by rewrite <- He.
Qed.
End Updates.

(** What a write request may do: be refused with 400 and change nothing; be done once and answered
    with 200; or be given up with 500, the store unchanged. *)
Definition write_outcome {S} `{AbstractStore S} (asks : string → string → iface → Prop)
    (w : world S) (l : list wcall) (w' : world S) : Prop :=
  ((∀ t n v, ¬ asks t n v) ∧ status l = StatusBadRequest ∧ w' = w) ∨
  (∃ t n v, asks t n v ∧
    ((status l = StatusOK ∧ abs (store w') = (mem_WriteMetric t n v (abs (store w))).2) ∨
     (status l = StatusInternalServerError ∧ abs (store w') = abs (store w)))).

(** [C8] Updating one metric by URL, on any store that refines the maps (in a state and for a write its
    contract covers): the handler always answers
    and never panics.  A request that asks for no write (content type, metric type, or a value
    that does not parse as the type wants) gets 400 and the world is untouched; otherwise either the
    answer is 200 and the write was applied exactly once, however many attempts it took, or the
    answer is 500 and the store is as before.  Either way the contract covers the new state. *)
Theorem update_url_effect {S : Type} `{AbstractStore S} (mh : metricHandlers) (req : request) (w : world S)
    (Hm : made (reqRetrier mh)) (Hs : store_ok (store w))
    (Hreq : ∀ t n v, asks_url req t n v → write_ok t n v) :
  ∃ l w', updateMetrics mh req w = Ret (l, w') ∧ store_ok (store w') ∧ write_outcome (asks_url req) w l w'.
Proof.
  pose proof Gauge_ne_Counter as Hne. unfold updateMetrics. cbv zeta. cbn [metricType metricName metricValue].
  case_decide as Hct.
  { eexists _, _. split; [done|]. split; [done|]. left. split_and!; [|done|done].
    intros t n v [Hin _]. rewrite !elem_of_cons, elem_of_nil in Hin. naive_solver. }
  assert (header_Get (Header req) "Content-Type" ∈ [""; "text/plain"]) as Hin.
  { rewrite !elem_of_cons. destruct (decide (header_Get (Header req) "Content-Type" = "")); [by left|].
    destruct (decide (header_Get (Header req) "Content-Type" = "text/plain")); [by right; left|tauto]. }
  case_decide as Hg; [|case_decide as Hc].
  - destruct (ParseFloat (URLParam req "value")) as [g|] eqn:Hp.
    + destruct (write_reply mh Hm (URLParam req "type") (URLParam req "name") (IGauge g) w
        [HeaderSet "Content-Type" "text/plain"; WriteHeader StatusOK; Write "OK"]
        (http_Error "can't store gauge metric" StatusInternalServerError)) as (l & w' & -> & Hs' & Hl); [done|apply Hreq; split_and!; eauto|by rewrite Hg|done..|].
      exists l, w'. split; [done|]. split; [done|]. right. eexists _, _, _. split; [|naive_solver].
      split_and!; [done..|]. left. eauto.
    + eexists _, _. split; [done|]. split; [done|]. left. split_and!; [|done|done].
      intros t n v (_ & Ht & _ & [(g & ? & ? & _)|(c & ? & ? & _)]); congruence.
  - destruct (ParseInt (URLParam req "value")) as [c|] eqn:Hp.
    + destruct (write_reply mh Hm (URLParam req "type") (URLParam req "name") (ICounter c) w
        [HeaderSet "Content-Type" "text/plain"; WriteHeader StatusOK; Write "OK"]
        (http_Error "can't store counter metric" StatusInternalServerError)) as (l & w' & -> & Hs' & Hl); [done|apply Hreq; split_and!; eauto|by rewrite Hc|done..|].
      exists l, w'. split; [done|]. split; [done|]. right. eexists _, _, _. split; [|naive_solver].
      split_and!; [done..|]. right. eauto.
    + eexists _, _. split; [done|]. split; [done|]. left. split_and!; [|done|done].
      intros t n v (_ & Ht & _ & [(g & ? & ? & _)|(c & ? & ? & _)]); congruence.
  - eexists _, _. split; [done|]. split; [done|]. left. split_and!; [|done|done].
    intros t n v (_ & Ht & _ & [(g & ? & ? & _)|(c & ? & ? & _)]); congruence.
Qed.

(** The handlers of a server that was just started. *)
Definition started : metricHandlers := mkHandlers Background NewRetrier.

Definition url_request (mtype name value : string) : request :=
  mkRequest "POST" ("/update/" +:+ mtype +:+ "/" +:+ name +:+ "/" +:+ value) ∅ "127.0.0.1:5000"
    {[ "type" := mtype; "name" := name; "value" := value ]} "" false.

Definition json_request (path body : string) : request :=
  mkRequest "POST" path {[ "Content-Type" := "application/json" ]} "127.0.0.1:5000" ∅ body false.

Lemma update_url_effect_witness :
  ∃ l w', updateMetrics started (url_request "gauge" "Alloc" "1.5") (World 0 NewMemStorage) = Ret (l, w') ∧
    store_ok (store w') ∧ write_outcome (asks_url (url_request "gauge" "Alloc" "1.5")) (World 0 NewMemStorage) l w'.
Proof. apply (update_url_effect started); [apply (bool_decide_unpack _); vm_compute; exact I|exact I|done]. Defined.

Lemma status_encode_reply pre json msg :
  Forall header_only pre → status (encode_reply pre json msg) = StatusOK.
Proof. apply status_first. Qed.

(** Updating one metric in JSON, on any store that refines the maps: a request with another
    content type, a body that is no metric in JSON, no name, an unknown type or no value of its
    type gets 400 and leaves the world alone; otherwise it is applied exactly once and answered
    with 200, or not applied and answered with 500. *)
Theorem update_json_effect {S : Type} `{AbstractStore S} (mh : metricHandlers) (req : request) (w : world S)
    (Hm : made (reqRetrier mh)) (Hs : store_ok (store w))
    (Hreq : ∀ m v, asks_json req m v → write_ok (MType m) (ID m) v) :
  ∃ l w', updateMetricsJSON mh req w = Ret (l, w') ∧ store_ok (store w') ∧
    write_outcome (λ t n v, ∃ m, asks_json req m v ∧ t = MType m ∧ n = ID m) w l w'.
Proof.
  pose proof Gauge_ne_Counter as Hne. unfold updateMetricsJSON. cbv zeta. case_decide as Hct.
  { eexists _, _. split; [done|]. split; [done|]. left. split_and!; [|done|done]. intros t n v (m & (? & _) & _). congruence. }
  destruct (body_value req ≫= decode_Metrics) as [m|] eqn:Hd.
  2: { eexists _, _. split; [done|]. split; [done|]. left. split_and!; [|done|done]. intros t n v (m & (_ & ? & _) & _). congruence. }
  assert (∀ val err, well_typed (MType m) val = true → status err = StatusInternalServerError → asks_json req m val →
    ∃ l w', ('(e, w) ← do_WriteMetric mh (MType m) (ID m) val w;
       match e with
       | Some _ => Ret (err, w)
       | None => Ret (encode_reply json_header (encode_Metrics m) "can't prepare json answer", w)
       end) = Ret (l, w') ∧ store_ok (store w') ∧ write_outcome (λ t n v, ∃ m, asks_json req m v ∧ t = MType m ∧ n = ID m) w l w') as Hwrite.
  { intros val err Hwt Herr Hasks.
    destruct (write_reply mh Hm (MType m) (ID m) val w
        (encode_reply json_header (encode_Metrics m) "can't prepare json answer") err) as (l & w' & -> & Hs' & Hl);
      [done|by apply Hreq|done|apply status_encode_reply; by repeat constructor|done|].
    exists l, w'. split; [done|]. split; [done|]. right. exists (MType m), (ID m), val. split; [eauto|naive_solver]. }
  assert (∀ v, asks_json req m v → (∃ g, MType m = GaugeType ∧ Value m = Some g) ∨ (∃ c, MType m = CounterType ∧ Delta m = Some c)) as Hasks.
  { intros v (_ & _ & _ & [(g & ? & ? & _)|(c & ? & ? & _)]); eauto. }
  assert (∀ msg, ¬ (∃ v, asks_json req m v) → ∃ l w', Ret (json_header ++ http_Error msg StatusBadRequest, w) = Ret (l, w') ∧ store_ok (store w') ∧
    write_outcome (λ t n v, ∃ m, asks_json req m v ∧ t = MType m ∧ n = ID m) w l w') as Hbad.
  { intros msg Hno. eexists _, _. split; [done|]. split; [done|]. left. split_and!; [|by apply status_http_Error; repeat constructor|done].
    intros t n v (m' & Ha & _). pose proof Ha as (_ & Hd' & _). assert (m' = m) as -> by congruence. eauto. }
  destruct (decide (MType m = GaugeType ∧ ID m ≠ "")) as [[Ht Hid]|Hng].
  - destruct (Value m) as [g|] eqn:Hv.
    { apply Hwrite; [by rewrite Ht|by apply status_http_Error; repeat constructor|].
      split_and!; [done..|]. left. eauto. }
    rewrite decide_False by (rewrite Ht; by intros [? _]). apply Hbad. intros [v Ha].
    destruct (Hasks v Ha) as [(g & _ & ?)|(c & ? & _)]; congruence.
  - destruct (decide (MType m = CounterType ∧ ID m ≠ "")) as [[Ht Hid]|Hnc].
    + destruct (Delta m) as [c|] eqn:Hdl.
      { apply Hwrite; [by rewrite Ht|by apply status_http_Error; repeat constructor|].
        split_and!; [done..|]. right. eauto. }
      apply Hbad. intros [v Ha]. destruct (Hasks v Ha) as [(g & ? & _)|(c & _ & ?)]; congruence.
    + apply Hbad. intros [v Ha]. pose proof Ha as (_ & _ & Hid & _).
      destruct (Hasks v Ha) as [(g & ? & _)|(c & ? & _)]; tauto.
Qed.

Lemma update_json_effect_witness :
  let req := json_request "/update/" (jq "{'id':'PollCount','type':'counter','delta':4}") in
  ∃ l w', updateMetricsJSON started req (World 0 NewMemStorage) = Ret (l, w') ∧ store_ok (store w') ∧
    write_outcome (λ t n v, ∃ m, asks_json req m v ∧ t = MType m ∧ n = ID m) (World 0 NewMemStorage) l w'.
Proof. apply (update_json_effect started); [apply (bool_decide_unpack _); vm_compute; exact I|exact I|done]. Defined.

(** [C15] Updating a batch in JSON, on any store that refines the maps: a request with another content
    type or a body that is no list of metrics gets 400 and leaves the world alone; otherwise
    the whole batch is applied exactly once and answered with 200, the reply being the batch
    itself when it can be encoded, or nothing of it is applied and the answer is 500. *)
Theorem update_batch_effect {S : Type} `{AbstractStore S} (mh : metricHandlers) (req : request) (w : world S)
    (Hm : made (reqRetrier mh)) (Hs : store_ok (store w))
    (Hreq : ∀ batch, body_value req ≫= decode_slice = Some batch → batch_ok (default [] batch)) :
  ∃ l w', updateBatchMetricsJSON mh req w = Ret (l, w') ∧ store_ok (store w') ∧
    match (if decide (header_Get (Header req) "Content-Type" = "application/json")
           then body_value req ≫= decode_slice else None) with
    | None => status l = StatusBadRequest ∧ w' = w
    | Some batch =>
        (status l = StatusOK ∧ abs (store w') = foldl batch_step (abs (store w)) (default [] batch) ∧
         ∀ s, encode_slice batch = Some s → reply_body l = s +:+ nl_str) ∨
        (status l = StatusInternalServerError ∧ abs (store w') = abs (store w))
    end.
Proof.
  unfold updateBatchMetricsJSON. cbv zeta.
  destruct (decide (header_Get (Header req) "Content-Type" = "application/json")) as [Hct|Hct].
  2: { rewrite decide_True by done. eexists _, _. split; [done|]. split; [done|]. split; [|done]. by apply (status_http_Error []). }
  rewrite decide_False by tauto. destruct (body_value req ≫= decode_slice) as [batch|] eqn:Hd.
  2: { eexists _, _. split; [done|]. split; [done|]. split; [|done]. apply status_http_Error. by repeat constructor. }
  destruct (do_WriteBatch_effect mh Hm (default [] batch) w Hs (Hreq batch eq_refl)) as (e & w' & -> & Hs' & He). cbn.
  destruct e as [x|].
  - eexists _, _. split; [done|]. split; [done|]. right. split; [done|].
    destruct He as [He|[_ ?]]; [|done]. discriminate He.
  - eexists _, _. split; [done|]. split; [done|]. left. destruct He as [[= He]|[[? ?] _]]; [|done].
    split; [by apply (status_encode_reply json_header); repeat constructor|]. split; [done|].
    intros s Henc. unfold encode_reply. rewrite Henc.
    apply (body_one_write json_header). by repeat constructor.
Qed.

Lemma update_batch_effect_witness :
  let body := jq "[{'id':'PollCount','type':'counter','delta':4},{'id':'g','type':'gauge','value':0.5}]" in
  ∃ l w', updateBatchMetricsJSON started (json_request "/updates/" body) (World 0 NewMemStorage) = Ret (l, w') ∧
    status l = StatusOK ∧ reply_body l = jq "[{'delta':4,'id':'PollCount','type':'counter'},{'value':0.5,'id':'g','type':'gauge'}]" +:+ nl_str.
Proof.
  cbn zeta.
  destruct (update_batch_effect started (json_request "/updates/"
      (jq "[{'id':'PollCount','type':'counter','delta':4},{'id':'g','type':'gauge','value':0.5}]"))
      (World 0 NewMemStorage)) as (l & w' & Hu & _).
  - apply (bool_decide_unpack _). vm_compute. exact I.
  - exact I.
  - done.
  - exists l, w'. split; [exact Hu|]. vm_compute in Hu. injection Hu as <- _. vm_compute. split; reflexivity.
Defined.

(** The value of a metric as text. *)
Definition value_text (mType name : string) (m : MemStorage) : option string :=
  match mem_GetMetric mType name m with
  | (v, None) => Some (show_iface v)
  | (_, Some _) => None
  end.

(** Reading one metric by URL never changes the store.  A type that is neither gauge nor
    counter gets 400; a metric the store does not have gets 404; a metric it has gets 200 with
    its current value as text (or, on a store whose calls can fail, 404). *)
Theorem get_url_reply {S : Type} `{AbstractStore S} (mh : metricHandlers) (req : request) (w : world S)
    (Hm : made (reqRetrier mh)) (Hs : store_ok (store w)) :
  let mType := URLParam req "type" in
  let name := URLParam req "val" in
  ∃ l w', getMetrics mh req w = Ret (l, w') ∧ looks (abs (store w)) (store w') ∧
    (if decide (mType = GaugeType ∨ mType = CounterType) then
       (∃ s, value_text mType name (abs (store w)) = Some s ∧ status l = StatusOK ∧ reply_body l = s +:+ nl_str) ∨
       status l = StatusNotFound
     else status l = StatusBadRequest) ∧
    (value_text mType name (abs (store w)) = None → status l ≠ StatusOK).
Proof.
  cbv zeta. unfold getMetrics.
  assert (∀ t msg, t = GaugeType ∨ t = CounterType → ∃ l w', ('((val, err), w) ← do_GetMetric mh t (URLParam req "val") w;
     match err with
     | Some _ => Ret ([HeaderSet "Content-Type" "text/plain"] ++ http_Error msg StatusNotFound, w)
     | None => Ret ([HeaderSet "Content-Type" "text/plain"] ++ [WriteHeader StatusOK; Write (show_iface val +:+ nl_str)], w)
     end) = Ret (l, w') ∧ looks (abs (store w)) (store w') ∧
     ((∃ s, value_text t (URLParam req "val") (abs (store w)) = Some s ∧ status l = StatusOK ∧ reply_body l = s +:+ nl_str) ∨
       status l = StatusNotFound)) as Hget.
  { intros t msg Ht. destruct (do_GetMetric_effect mh Hm t (URLParam req "val") w Hs) as (v & e & w' & -> & Ha & He). cbn.
    destruct e as [x|].
    - eexists _, _. split; [done|]. split; [done|]. right. done.
    - eexists _, _. split; [done|]. split; [done|]. left. exists (show_iface v).
      destruct He as [He|[? ?]]; [|done]. unfold value_text. rewrite <- He. split_and!; [done|done|].
      apply (body_one_write [_]). by repeat constructor. }
  destruct (decide (URLParam req "type" = GaugeType)) as [Hg|Hg];
    [|destruct (decide (URLParam req "type" = CounterType)) as [Hc|Hc]].
  - destruct (Hget GaugeType "gauge not found") as (l & w' & Hl & Ha & H1); [auto|].
    exists l, w'. rewrite decide_True by auto. rewrite Hg. split_and!; [done..|]. intros Hn. destruct H1 as [(s & ? & _)|Hst]; [congruence|by rewrite Hst].
  - destruct (Hget CounterType "counter not found") as (l & w' & Hl & Ha & H1); [auto|].
    exists l, w'. rewrite decide_True by auto. rewrite Hc. split_and!; [done..|]. intros Hn. destruct H1 as [(s & ? & _)|Hst]; [congruence|by rewrite Hst].
  - eexists _, _. rewrite (decide_False (P := _ ∨ _)) by tauto. split; [done|].
    rewrite status_http_Error by by repeat constructor. done.
Qed.

Lemma get_url_reply_witness :
  let req := mkRequest "GET" "/value/counter/PollCount" ∅ "" {[ "type" := "counter"; "val" := "PollCount" ]} "" false in
  ∃ l w', getMetrics started req (World 0 (mkMem ∅ {[ "PollCount" := -5 ]})) = Ret (l, w') ∧
    status l = StatusOK ∧ reply_body l = "-5" +:+ nl_str.
Proof.
  cbn zeta.
  destruct (get_url_reply started
    (mkRequest "GET" "/value/counter/PollCount" ∅ "" {[ "type" := "counter"; "val" := "PollCount" ]} "" false)
    (World 0 (mkMem ∅ {[ "PollCount" := -5 ]}))) as (l & w' & Hg & _).
  - apply (bool_decide_unpack _). vm_compute. exact I.
  - exact I.
  - exists l, w'. split; [exact Hg|]. vm_compute in Hg. injection Hg as <- _. vm_compute. split; reflexivity.
Defined.

(** ** The API from end to end, on the in-memory store *)

Definition get_request (mtype name : string) : request :=
  mkRequest "GET" ("/value/" +:+ mtype +:+ "/" +:+ name) ∅ "127.0.0.1:5000" {[ "type" := mtype; "val" := name ]} "" false.

(** Serve requests one after the other with one handler. *)
Fixpoint serve_requests {S} (h : handler S) (rs : list request) (w : world S) : outcome (list Z * world S) :=
  match rs with
  | [] => Ret ([], w)
  | r :: rs => '(l, w) ← h r w; '(codes, w) ← serve_requests h rs w; Ret (status l :: codes, w)
  end.

Lemma URLParam_update t n v :
  URLParam (url_request t n v) "type" = t ∧ URLParam (url_request t n v) "name" = n ∧
  URLParam (url_request t n v) "value" = v.
Proof. done. Qed.

Lemma updateMetrics_counter_mem mh name d (w : world MemStorage) :
  made (reqRetrier mh) → ctx_Err (mh_ctx mh) (now w) = None → is_int64 d →
  updateMetrics mh (url_request CounterType name (show_int d)) w =
  Ret ([HeaderSet "Content-Type" "text/plain"; WriteHeader StatusOK; Write "OK"],
       set_store w (add_counter name d (store w))).
Proof.
  intros Hm Ha Hd. unfold updateMetrics. cbv zeta.
  destruct (URLParam_update CounterType name (show_int d)) as (-> & -> & ->).
  cbn [metricType metricName metricValue].
  rewrite (decide_False (P := _ ∧ _)) by (cbn; tauto).
  rewrite decide_False, decide_True by done.
  rewrite ParseInt_show by done. by rewrite do_WriteMetric_mem.
Qed.


Lemma getMetrics_mem mh t name (w : world MemStorage) v :
  made (reqRetrier mh) → ctx_Err (mh_ctx mh) (now w) = None → t = GaugeType ∨ t = CounterType →
  mem_GetMetric t name (store w) = (v, None) →
  getMetrics mh (get_request t name) w =
  Ret ([HeaderSet "Content-Type" "text/plain"; WriteHeader StatusOK; Write (show_iface v +:+ nl_str)], w).
Proof.
  intros Hm Ha Ht Hg. unfold getMetrics. cbv zeta.
  change (URLParam (get_request t name) "type") with t. change (URLParam (get_request t name) "val") with name.
  destruct Ht as [-> | ->]; [rewrite decide_True by done|rewrite decide_False, decide_True by done];
    rewrite do_GetMetric_mem by done; by rewrite Hg.
Qed.

Lemma serve_counters mh name ds (w : world MemStorage) :
  made (reqRetrier mh) → ctx_Err (mh_ctx mh) (now w) = None → Forall is_int64 ds →
  serve_requests (updateMetrics mh) ((λ d, url_request CounterType name (show_int d)) <$> ds) w =
  Ret ((λ _, StatusOK) <$> ds, set_store w (foldl (λ m d, add_counter name d m) (store w) ds)).
Proof.
  intros Hm. revert w. induction ds as [|d ds IH]; intros w Ha Hds; [by destruct w|].
  apply Forall_cons in Hds as [Hd Hds]. rewrite !fmap_cons. cbn [serve_requests].
  rewrite updateMetrics_counter_mem by done. cbn [mbind outcome_bind]. by rewrite IH.
Qed.

Lemma add_counters name ds m c0 :
  counter m !! name = Some c0 → is_int64 c0 →
  counter (foldl (λ m d, add_counter name d m) m ds) !! name = Some (wrap64 (c0 + foldr Z.add 0 ds)).
Proof.
  revert m c0. induction ds as [|d ds IH]; intros m c0 Hm Hc; simpl.
  - by rewrite Z.add_0_r, wrap64_id.
  - rewrite (IH _ (wrap64 (c0 + d))); [by rewrite wrap64_add_l, Z.add_assoc| |apply wrap64_range].
    rewrite lookup_add_counter, decide_True by done. by rewrite Hm.
Qed.

(** Counters accumulate over the API: sending the deltas [d1 ... dn] (at least one) to
    [/update/counter/name/...] in separate requests is answered with 200 each time, and
    [/value/counter/name] then answers with the old value plus their sum, modulo [2^64]. *)
Theorem http_counter_accumulates (mh : metricHandlers) (name : string) (ds : list Z) (w : world MemStorage)
    (Hm : made (reqRetrier mh)) (Ha : ctx_Err (mh_ctx mh) (now w) = None)
    (Hds : Forall is_int64 ds) (Hne : ds ≠ []) :
  ∃ w' l,
    serve_requests (updateMetrics mh) ((λ d, url_request CounterType name (show_int d)) <$> ds) w =
      Ret ((λ _, StatusOK) <$> ds, w') ∧
    getMetrics mh (get_request CounterType name) w' = Ret (l, w') ∧
    status l = StatusOK ∧
    reply_body l =
      show_int (wrap64 (default 0 (counter (store w) !! name) + foldr Z.add 0 ds)) +:+ nl_str.
Proof.
  rewrite serve_counters by done. eexists _, _. split; [done|].
  set (w' := set_store w _).
  assert (counter (store w') !! name =
    Some (wrap64 (default 0 (counter (store w) !! name) + foldr Z.add 0 ds))) as Hc.
  { unfold w'. cbn [store set_store]. destruct ds as [|d ds]; [done|]. simpl.
    rewrite (add_counters _ _ _ (wrap64 (default 0 (counter (store w) !! name) + d))).
    - by rewrite wrap64_add_l, Z.add_assoc.
    - by rewrite lookup_add_counter, decide_True.
    - apply wrap64_range. }
  rewrite (getMetrics_mem _ _ _ _ (ICounter (wrap64 (default 0 (counter (store w) !! name) + foldr Z.add 0 ds))));
    [|done|done|by right|by rewrite get_counter, Hc].
  split; [done|]. split; [done|]. apply (body_one_write [_]). by repeat constructor.
Qed.

Lemma http_counter_accumulates_witness :
  ∃ w' l,
    serve_requests (updateMetrics started)
      ((λ d, url_request CounterType "PollCount" (show_int d)) <$> [max_int64; 5; -2]) (World 0 NewMemStorage) =
      Ret ((λ _, StatusOK) <$> [max_int64; 5; -2], w') ∧
    getMetrics started (get_request CounterType "PollCount") w' = Ret (l, w') ∧
    status l = StatusOK ∧
    reply_body l = show_int (wrap64 (default 0 (counter NewMemStorage !! "PollCount") +
                                     foldr Z.add 0 [max_int64; 5; -2])) +:+ nl_str.
Proof.
  apply (http_counter_accumulates started "PollCount" [max_int64; 5; -2] (World 0 NewMemStorage)).
  - apply (bool_decide_unpack _). vm_compute. exact I.
  - reflexivity.
  - apply (bool_decide_unpack _). vm_compute. exact I.
  - discriminate.
Defined.



(** What [/value/] answers for the metric [m] found to have the value [v]. *)
Definition with_value (m : Metrics) (v : iface) : option Metrics :=
  match v with
  | IGauge g => Some (mkMetrics (Delta m) (Some g) (ID m) (MType m))
  | ICounter c => Some (mkMetrics (Some c) (Value m) (ID m) (MType m))
  | _ => None
  end.

Lemma getMetricsJSON_mem mh body m (w : world MemStorage) :
  made (reqRetrier mh) → ctx_Err (mh_ctx mh) (now w) = None → Decode_Metrics body = Some m →
  getMetricsJSON mh (json_request "/value/" body) w =
  Ret (match mem_GetMetric (MType m) (ID m) (store w) with
       | (_, Some e) => json_header ++ http_Error (error_text e) StatusNotFound
       | (v, None) =>
           match with_value m v with
           | Some m' => encode_reply json_header (encode_Metrics m') "can't encode json"
           | None => json_header ++ http_Error "bad metric type" StatusNotFound
           end
       end, w).
Proof.
  intros Hm Ha Hd. unfold getMetricsJSON. cbv zeta.
  change (header_Get (Header (json_request "/value/" body)) "Content-Type") with "application/json".
  rewrite decide_False by tauto. rewrite body_value_read by done.
  change (parse_stream (Body (json_request "/value/" body)) ≫= decode_Metrics) with (Decode_Metrics body). rewrite Hd.
  rewrite do_GetMetric_mem by done.
  destruct (mem_GetMetric (MType m) (ID m) (store w)) as [v [e|]]; [done|]. by destruct v.
Qed.

(** Reading one metric in JSON from the in-memory store: it never changes the store, and the
    answer is 404 with the reason for an unknown type or a missing metric, and 200 with the request's
    metric, completed with the current value, otherwise.  The exception are gauges that are NaN or
    infinite, which have no JSON: the status 200 is already sent when the encoder fails, so the
    answer is 200 with an error text as its body. *)
Theorem get_json_reply (mh : metricHandlers) (body : string) (m : Metrics) (w : world MemStorage)
    (Hm : made (reqRetrier mh)) (Ha : ctx_Err (mh_ctx mh) (now w) = None)
    (Hd : Decode_Metrics body = Some m) (Hv : finite_value m = true) :
  ∃ l, getMetricsJSON mh (json_request "/value/" body) w = Ret (l, w) ∧
    match mem_GetMetric (MType m) (ID m) (store w) with
    | (_, Some e) => status l = StatusNotFound ∧ reply_body l = error_text e +:+ nl_str
    | (IGauge g, None) =>
        status l = StatusOK ∧
        if is_finite g
        then ∃ s, encode_Metrics (mkMetrics (Delta m) (Some g) (ID m) (MType m)) = Some s ∧ reply_body l = s +:+ nl_str
        else reply_body l = "can't encode json" +:+ nl_str
    | (v, None) =>
        ∃ c s, v = ICounter c ∧ status l = StatusOK ∧
               encode_Metrics (mkMetrics (Some c) (Value m) (ID m) (MType m)) = Some s ∧ reply_body l = s +:+ nl_str
    end.
Proof.
  rewrite (getMetricsJSON_mem _ _ m) by done. eexists. split; [done|].
  assert (∀ v, mem_GetMetric (MType m) (ID m) (store w) = (v, None) →
    (∃ g, v = IGauge g) ∨ (∃ c, v = ICounter c)) as Hcases.
  { intros v. unfold mem_GetMetric. repeat case_decide; repeat case_match; intros [= <-]; eauto. }
  destruct (mem_GetMetric (MType m) (ID m) (store w)) as [v [e|]].
  { assert (match v with IGauge _ | _ =>
      status (json_header ++ http_Error (error_text e) StatusNotFound) = StatusNotFound ∧
      reply_body (json_header ++ http_Error (error_text e) StatusNotFound) = error_text e +:+ nl_str end) as Hr.
    { destruct v; (split; [by apply status_http_Error; repeat constructor|
                           by apply body_http_Error; repeat constructor]). }
    by destruct v. }
  assert (∀ m', finite_value m' = true → ∃ s, encode_Metrics m' = Some s ∧
    reply_body (encode_reply json_header (encode_Metrics m') "can't encode json") = s +:+ nl_str) as Henc.
  { intros m' Hf. destruct (encode_Metrics_Some m' Hf) as [s Hs]. exists s. split; [done|].
    unfold encode_reply. rewrite Hs. apply (body_one_write json_header). by repeat constructor. }
  assert (∀ j, status (encode_reply json_header j "can't encode json") = StatusOK) as Hst
    by (intros; apply status_encode_reply; by repeat constructor).
  destruct (Hcases v eq_refl) as [[g ->]|[c ->]]; cbn [with_value].
  - split; [apply Hst|]. destruct (is_finite g) eqn:Hf; [by apply Henc|].
    unfold encode_reply. by rewrite encode_Metrics_None.
  - destruct (Henc (mkMetrics (Some c) (Value m) (ID m) (MType m)) Hv) as (s & ? & ?). eauto 10.
Qed.

Lemma get_json_reply_witness :
  let m := mkMetrics None None "g" GaugeType in
  let body := jq "{'id':'g','type':'gauge'}" in
  let w := World 0 (mkMem {[ "g" := FNaN ]} ∅) in
  ∃ l, getMetricsJSON started (json_request "/value/" body) w = Ret (l, w) ∧
       status l = StatusOK ∧ reply_body l = "can't encode json" +:+ nl_str.
Proof.
  cbn zeta.
  destruct (get_json_reply started (jq "{'id':'g','type':'gauge'}") (mkMetrics None None "g" GaugeType)
              (World 0 (mkMem {[ "g" := FNaN ]} ∅))) as (l & Hl & Hr).
  - apply (bool_decide_unpack _). vm_compute. exact I.
  - reflexivity.
  - vm_compute. reflexivity.
  - reflexivity.
  - exists l. split; [exact Hl|]. exact Hr.
Defined.

(** A batch in JSON on the in-memory store, for any request that carries it. *)
Lemma batch_mem_reply (mh : metricHandlers) (ms : list Metrics) (s : string) (req : request) (w : world MemStorage) :
  made (reqRetrier mh) → ctx_Err (mh_ctx mh) (now w) = None →
  Forall Metrics_ok ms → Forall names_ok ms → encode_slice (Some ms) = Some s →
  header_Get (Header req) "Content-Type" = "application/json" → Body req = s → BodyErr req = false →
  updateBatchMetricsJSON mh req w =
    Ret (json_header ++ [WriteHeader StatusOK; Write (s +:+ nl_str)],
         set_store w (mem_WriteBatchMetrics ms (store w)).2).
Proof.
  intros Hm Ha Hok Hn Hs Hct Hb He. unfold updateBatchMetricsJSON. cbv zeta. rewrite Hct.
  rewrite decide_False by tauto. rewrite body_value_read, Hb by done.
  change (parse_stream s ≫= decode_slice) with (Decode_slice s).
  rewrite (decode_encode_slice ms) by done. simpl default. rewrite do_WriteBatch_mem by done. cbn [mbind outcome_bind].
  unfold encode_reply. by rewrite Hs.
Qed.

(** A batch encoded by the agent is stored by the server: posting the JSON of any list of metrics with
    UTF-8 names to [/updates/] is answered with 200 and that very JSON, and stores exactly what
    writing the list to the store does. *)
Theorem http_batch_roundtrip (mh : metricHandlers) (ms : list Metrics) (s : string) (w : world MemStorage)
    (Hm : made (reqRetrier mh)) (Ha : ctx_Err (mh_ctx mh) (now w) = None)
    (Hok : Forall Metrics_ok ms) (Hn : Forall names_ok ms) (Hs : encode_slice (Some ms) = Some s) :
  ∃ l, updateBatchMetricsJSON mh (json_request "/updates/" s) w =
         Ret (l, set_store w (mem_WriteBatchMetrics ms (store w)).2) ∧
       status l = StatusOK ∧ reply_body l = s +:+ nl_str ∧ reply_header l "Content-Type" = "application/json".
Proof.
  eexists. split; [by apply batch_mem_reply|]. split; [apply status_first; by repeat constructor|].
  split; [apply (body_one_write json_header); by repeat constructor|done].
Qed.

Lemma http_batch_roundtrip_witness :
  ∃ l, updateBatchMetricsJSON started
         (json_request "/updates/" (jq "[{'delta':4,'id':'PollCount','type':'counter'},{'value':-0.5,'id':'a b','type':'gauge'}]"))
         (World 0 NewMemStorage) =
       Ret (l, set_store (World 0 NewMemStorage)
         (mem_WriteBatchMetrics [mkMetrics (Some 4) None "PollCount" "counter";
                                 mkMetrics None (Some (FFin true (2 ^ 52) (-53))) "a b" "gauge"] NewMemStorage).2) ∧
       status l = StatusOK ∧
       reply_body l = jq "[{'delta':4,'id':'PollCount','type':'counter'},{'value':-0.5,'id':'a b','type':'gauge'}]" +:+ nl_str ∧
       reply_header l "Content-Type" = "application/json".
Proof.
  apply (http_batch_roundtrip started
    [mkMetrics (Some 4) None "PollCount" "counter"; mkMetrics None (Some (FFin true (2 ^ 52) (-53))) "a b" "gauge"]
    (jq "[{'delta':4,'id':'PollCount','type':'counter'},{'value':-0.5,'id':'a b','type':'gauge'}]")
    (World 0 NewMemStorage)).
  - apply (bool_decide_unpack _). vm_compute. exact I.
  - reflexivity.
  - apply (bool_decide_unpack _). vm_compute. exact I.
  - apply (bool_decide_unpack _). vm_compute. exact I.
  - vm_compute. reflexivity.
Defined.

(** The page of all metrics on the in-memory store is the fixed frame around the HTML-escaped
    text of the store, sent with status 200 as HTML, and the escaped text has none of the
    characters that could open a tag or an attribute. *)
Theorem get_all_page (mh : metricHandlers) (req : request) (w : world MemStorage)
    (Hm : made (reqRetrier mh)) (Ha : ctx_Err (mh_ctx mh) (now w) = None) :
  let text := html_escape (mem_GetAllMetricsTxt (store w)).1 in
  ∃ l, getAll mh req w = Ret (l, w) ∧ status l = StatusOK ∧ reply_header l "Content-Type" = "text/html" ∧
    reply_body l = page_head +:+ text +:+ page_foot ∧
    Forall (λ c, c ∉ ["<"; ">"; "'"; dquote]%char) (String.list_ascii_of_string text).
Proof.
  cbv zeta. unfold getAll. rewrite do_GetAll_mem by done. cbn [mbind outcome_bind mem_GetAllMetricsTxt fst].
  set (s := mem_GetAllMetricsTxt_in _ _ _). eexists. split; [done|]. split; [done|]. split; [done|]. split.
  - unfold reply_body, respond. simpl. by rewrite str_app_nil_l, str_app_assoc.
  - clear. induction s as [|c s IH]; [constructor|]. cbn [html_escape].
    assert (∀ a b, String.list_ascii_of_string (a +:+ b) = String.list_ascii_of_string a ++ String.list_ascii_of_string b) as Happ.
    { intros a b. induction a as [|x a IHa]; [done|]. rewrite str_app_cons. simpl. by rewrite IHa. }
    rewrite Happ. apply Forall_app_2; [|done]. unfold html_escape_char.
    repeat case_decide; try (apply (bool_decide_unpack _); vm_compute; exact I).
    simpl. constructor; [|done]. rewrite !elem_of_cons, elem_of_nil. naive_solver.
Qed.

Lemma get_all_page_witness :
  let w := World 0 (mkMem {[ "a<b" := float_of_Z 1000000 ]} ∅) in
  ∃ l, getAll started (get_request "" "") w = Ret (l, w) ∧ status l = StatusOK ∧
    reply_body l = page_head +:+ "---Counters---" +:+ nl_str +:+ "---Gauge---" +:+ nl_str +:+
                   "a&lt;b: 1e&#43;06" +:+ nl_str +:+ page_foot.
Proof.
  cbn zeta.
  destruct (get_all_page started (get_request "" "") (World 0 (mkMem {[ "a<b" := float_of_Z 1000000 ]} ∅)))
    as (l & Hl & Hs & _ & Hb & _).
  - apply (bool_decide_unpack _). vm_compute. exact I.
  - reflexivity.
  - exists l. split; [exact Hl|]. split; [exact Hs|]. rewrite Hb. vm_compute. reflexivity.
Defined.
