(* ===== verification/Codec.v ===== *)
(** * Hex, Base64 and HMAC-SHA256

    What the program uses of [encoding/hex], [encoding/base64] and [crypto/hmac] with
    [crypto/sha256].  A digest is the string of its bytes. *)

From S2P Require Import Prelude Strconv Float64 Json.

Open Scope Z_scope.

Fixpoint bytes_of (s : string) : list Z :=
  match s with "" => [] | String c s => byte c :: bytes_of s end.

Fixpoint of_bytes (l : list Z) : string :=
  match l with [] => "" | b :: l => String (chr b) (of_bytes l) end.

(** ** Hex *)

(** [hex.EncodeToString]. *)
Fixpoint hex_EncodeToString (s : string) : string :=
  match s with
  | "" => ""
  | String c s =>
      String (hex_digit (byte c `div` 16)) (String (hex_digit (byte c `mod` 16)) (hex_EncodeToString s))
  end.

(** [hex.DecodeString]: [None] for an odd length or a character that is no digit. *)
Fixpoint hex_DecodeString (s : string) : option string :=
  match s with
  | "" => Some ""
  | String a (String b s) =>
      x ← hex_val a; y ← hex_val b; t ← hex_DecodeString s; Some (String (chr (x * 16 + y)) t)
  | String _ "" => None
  end.

(** ** Base64, standard encoding with padding *)

Definition b64_char (n : Z) : ascii :=
  if decide (n < 26) then chr (65 + n)
  else if decide (n < 52) then chr (97 + (n - 26))
  else if decide (n < 62) then chr (48 + (n - 52))
  else if decide (n = 62) then "+"%char else "/"%char.

Definition b64_val (c : ascii) : option Z :=
  let n := byte c in
  if decide (65 ≤ n ≤ 90) then Some (n - 65)
  else if decide (97 ≤ n ≤ 122) then Some (n - 97 + 26)
  else if decide (48 ≤ n ≤ 57) then Some (n - 48 + 52)
  else if decide (c = "+"%char) then Some 62
  else if decide (c = "/"%char) then Some 63
  else None.

Fixpoint b64_EncodeToString (s : string) : string :=
  match s with
  | "" => ""
  | String x "" =>
      String (b64_char (byte x `div` 4)) (String (b64_char ((byte x `mod` 4) * 16)) "==")
  | String x (String y "") =>
      String (b64_char (byte x `div` 4))
        (String (b64_char ((byte x `mod` 4) * 16 + byte y `div` 16))
           (String (b64_char ((byte y `mod` 16) * 4)) "="))
  | String x (String y (String z s)) =>
      String (b64_char (byte x `div` 4))
        (String (b64_char ((byte x `mod` 4) * 16 + byte y `div` 16))
           (String (b64_char ((byte y `mod` 16) * 4 + byte z `div` 64))
              (String (b64_char (byte z `mod` 64)) (b64_EncodeToString s))))
  end.

(** The bytes of the characters, four by four; trailing bits are not checked. *)
Fixpoint b64_decode (s : string) : option string :=
  match s with
  | "" => Some ""
  | String a (String b (String c (String d s))) =>
      x ← b64_val a; y ← b64_val b;
      let b1 := chr (x * 4 + y `div` 16) in
      if decide (d = "="%char) then
        if decide (s = "") then
          if decide (c = "="%char) then Some (String b1 "")
          else z ← b64_val c; Some (String b1 (String (chr ((y `mod` 16) * 16 + z `div` 4)) ""))
        else None
      else
        z ← b64_val c; v ← b64_val d; t ← b64_decode s;
        Some (String b1 (String (chr ((y `mod` 16) * 16 + z `div` 4)) (String (chr ((z `mod` 4) * 64 + v)) t)))
  | _ => None
  end.

Fixpoint drop_newlines (s : string) : string :=
  match s with
  | "" => ""
  | String c s => if decide (c = nl ∨ c = cr) then drop_newlines s else String c (drop_newlines s)
  end.

(** [base64.StdEncoding.DecodeString]: newlines are skipped. *)
Definition b64_DecodeString (s : string) : option string := b64_decode (drop_newlines s).

(** ** SHA-256 *)

Definition mask32 : Z := 0xffffffff.
Definition add32 (a b : Z) : Z := Z.land (a + b) mask32.
Definition rotr (x n : Z) : Z := Z.lor (Z.shiftr x n) (Z.land (Z.shiftl x (32 - n)) mask32).

(** The constants are the first 32 bits of the fractional parts of roots of the first primes
    (FIPS 180-4): [nth_root_bits k p] is [⌊2^32 * p^(1/k)⌋] modulo [2^32]. *)
Definition first_primes (n : nat) : list Z :=
  take n (filter (λ p, forallb (λ d, negb (p `mod` d =? 0)) (seqZ 2 (p - 2)) = true) (seqZ 2 400)).

Definition nth_root_bits (k p : Z) : Z :=
  foldl (λ r i, if decide ((r + 2 ^ i) ^ k ≤ p * 2 ^ (32 * k)) then r + 2 ^ i else r) 0 (reverse (seqZ 0 40)) `mod` 2 ^ 32.

Definition sha_K : list Z := Eval vm_compute in nth_root_bits 3 <$> first_primes 64.
Definition sha_H0 : list Z := Eval vm_compute in nth_root_bits 2 <$> first_primes 8.

Definition sig0 (x : Z) : Z := Z.lxor (Z.lxor (rotr x 7) (rotr x 18)) (Z.shiftr x 3).
Definition sig1 (x : Z) : Z := Z.lxor (Z.lxor (rotr x 17) (rotr x 19)) (Z.shiftr x 10).
Definition Sig0 (x : Z) : Z := Z.lxor (Z.lxor (rotr x 2) (rotr x 13)) (rotr x 22).
Definition Sig1 (x : Z) : Z := Z.lxor (Z.lxor (rotr x 6) (rotr x 11)) (rotr x 25).
Definition Ch (x y z : Z) : Z := Z.lxor (Z.land x y) (Z.land (Z.lxor x mask32) z).
Definition Maj (x y z : Z) : Z := Z.lxor (Z.lxor (Z.land x y) (Z.land x z)) (Z.land y z).

(** The message schedule, the words in reverse order: [w[t-16]] is the 16th of the list. *)
Fixpoint sha_extend (n : nat) (rev_w : list Z) : list Z :=
  match n with
  | O => rev_w
  | S n =>
      let at_ i := List.nth i rev_w 0 in
      sha_extend n (add32 (add32 (sig1 (at_ 1%nat)) (at_ 6%nat)) (add32 (sig0 (at_ 14%nat)) (at_ 15%nat)) :: rev_w)
  end.

Definition sha_round (st : list Z) (kw : Z * Z) : list Z :=
  match st with
  | [a; b; c; d; e; f; g; h] =>
      let t1 := add32 (add32 (add32 h (Sig1 e)) (add32 (Ch e f g) kw.1)) kw.2 in
      let t2 := add32 (Sig0 a) (Maj a b c) in
      [add32 t1 t2; a; b; c; add32 d t1; e; f; g]
  | _ => st
  end.

Definition sha_block (h : list Z) (words : list Z) : list Z :=
  zip_with add32 h (foldl sha_round h (zip sha_K (reverse (sha_extend 48 (reverse words))))).

Fixpoint words_of (l : list Z) : list Z :=
  match l with
  | a :: b :: c :: d :: l => (((a * 256 + b) * 256 + c) * 256 + d) :: words_of l
  | _ => []
  end.

Definition be_bytes (n : nat) (x : Z) : list Z :=
  (λ i, Z.land (Z.shiftr x (8 * Z.of_nat i)) 255) <$> reverse (seq 0 n).

Definition sha_pad (l : list Z) : list Z :=
  let n := Z.of_nat (length l) in
  l ++ [128] ++ replicate (Z.to_nat ((55 - n) `mod` 64)) 0 ++ be_bytes 8 (n * 8).

Fixpoint sha_blocks (fuel : nat) (h : list Z) (words : list Z) : list Z :=
  match fuel, words with
  | S fuel, _ :: _ => sha_blocks fuel (sha_block h (take 16 words)) (drop 16 words)
  | _, _ => h
  end.

Definition sha256_bytes (l : list Z) : list Z :=
  let words := words_of (sha_pad l) in sha_blocks (length words) sha_H0 words ≫= be_bytes 4.

Definition sha256 (s : string) : string := of_bytes (sha256_bytes (bytes_of s)).

(** [hmac.New(sha256.New, key)] fed with [msg], then [Sum(nil)]. *)
Definition hmac_sha256 (key msg : string) : string :=
  let k := bytes_of key in
  let k := if decide (64 < Z.of_nat (length k)) then sha256_bytes k else k in
  let k := k ++ replicate (64 - length k) 0 in
  of_bytes (sha256_bytes ((Z.lxor 0x5c <$> k) ++ sha256_bytes ((Z.lxor 0x36 <$> k) ++ bytes_of msg))).

Example sha256_abc :
  hex_EncodeToString (sha256 "abc") = "ba7816bf8f01cfea414140de5dae2223b00361a396177a9cb410ff61f20015ad".
Proof. vm_compute. reflexivity. Qed.

Example hmac_fox :
  hex_EncodeToString (hmac_sha256 "key" "The quick brown fox jumps over the lazy dog") =
  "f7bc83f430538424b13298e6aa6fb143ef4d59a14946175997479dbc2d1a3cd8".
Proof. vm_compute. reflexivity. Qed.

Example b64_ex :
  b64_EncodeToString "any carnal pleas" = "YW55IGNhcm5hbCBwbGVhcw==" ∧
  b64_DecodeString ("YW55IGNhcm5h" +:+ nl_str +:+ "bCBwbGVhcw==") = Some "any carnal pleas" ∧
  b64_DecodeString "YW5=IGNh" = None ∧ b64_DecodeString "YW5" = None.
Proof. vm_compute. done. Qed.

(** ** Round trips *)

Lemma byte_bound c : 0 ≤ byte c < 256.
Proof. unfold byte. pose proof (N_ascii_bounded c). lia. Qed.

Lemma byte_chr n : 0 ≤ n < 256 → byte (chr n) = n.
Proof. intros Hn. unfold byte, chr. rewrite N_ascii_embedding by lia. lia. Qed.

Lemma chr_eq n c : n = byte c → chr n = c.
Proof. intros ->. apply chr_byte. Qed.

Lemma hex_roundtrip s : hex_DecodeString (hex_EncodeToString s) = Some s.
Proof.
  induction s as [|c s IH]; [done|]. cbn [hex_EncodeToString hex_DecodeString].
  pose proof (byte_bound c).
  assert (0 ≤ byte c `div` 16 < 16) by (split; [apply Z.div_pos; lia|apply Z.div_lt_upper_bound; lia]).
  assert (0 ≤ byte c `mod` 16 < 16) by (apply Z.mod_pos_bound; lia).
  rewrite !hex_val_digit by done. cbn [mbind option_bind]. rewrite IH. cbn [mbind option_bind].
  replace (byte c `div` 16 * 16 + byte c `mod` 16) with (byte c) by (pose proof (Z.div_mod (byte c) 16); lia).
  by rewrite chr_byte.
Qed.

Lemma b64_val_char n : 0 ≤ n < 64 →
  b64_val (b64_char n) = Some n ∧ b64_char n ≠ "="%char ∧ b64_char n ≠ nl ∧ b64_char n ≠ cr.
Proof.
  intros Hn. apply (bool_decide_eq_true_1 _).
  assert (forallb (λ n, bool_decide (b64_val (b64_char n) = Some n ∧ b64_char n ≠ "="%char ∧
    b64_char n ≠ nl ∧ b64_char n ≠ cr)) (seqZ 0 64) = true) as HF by (vm_compute; reflexivity).
  rewrite List.forallb_forall in HF. apply HF. apply list_elem_of_In, elem_of_seqZ. lia.
Qed.

(** One group of three bytes. *)
Lemma b64_decode_group x y z t u :
  b64_decode t = Some u →
  b64_decode (String (b64_char (byte x `div` 4))
    (String (b64_char ((byte x `mod` 4) * 16 + byte y `div` 16))
      (String (b64_char ((byte y `mod` 16) * 4 + byte z `div` 64))
        (String (b64_char (byte z `mod` 64)) t)))) = Some (String x (String y (String z u))).
Proof.
  intros Ht. pose proof (byte_bound x). pose proof (byte_bound y). pose proof (byte_bound z).
  cbn [b64_decode].
  destruct (b64_val_char (byte x `div` 4)) as (-> & _); [Z.to_euclidean_division_equations; lia|].
  destruct (b64_val_char ((byte x `mod` 4) * 16 + byte y `div` 16)) as (-> & _); [Z.to_euclidean_division_equations; lia|].
  destruct (b64_val_char ((byte y `mod` 16) * 4 + byte z `div` 64)) as (-> & _); [Z.to_euclidean_division_equations; lia|].
  destruct (b64_val_char (byte z `mod` 64)) as (-> & Hd & _); [Z.to_euclidean_division_equations; lia|].
  cbn [mbind option_bind]. rewrite decide_False by done. rewrite Ht. cbn [mbind option_bind].
  repeat f_equal.
  - apply chr_eq. Z.to_euclidean_division_equations; lia.
  - apply chr_eq. Z.to_euclidean_division_equations; lia.
  - apply chr_eq. Z.to_euclidean_division_equations; lia.
Qed.

Lemma b64_decode_two x y :
  b64_decode (String (b64_char (byte x `div` 4))
    (String (b64_char ((byte x `mod` 4) * 16 + byte y `div` 16))
      (String (b64_char ((byte y `mod` 16) * 4)) "="))) = Some (String x (String y "")).
Proof.
  pose proof (byte_bound x). pose proof (byte_bound y). cbn [b64_decode].
  destruct (b64_val_char (byte x `div` 4)) as (-> & _); [Z.to_euclidean_division_equations; lia|].
  destruct (b64_val_char ((byte x `mod` 4) * 16 + byte y `div` 16)) as (-> & _); [Z.to_euclidean_division_equations; lia|].
  destruct (b64_val_char ((byte y `mod` 16) * 4)) as (-> & Hc & _); [Z.to_euclidean_division_equations; lia|].
  cbn [mbind option_bind]. rewrite !decide_True by done. rewrite decide_False by done.
  cbn [mbind option_bind]. repeat f_equal.
  - apply chr_eq. Z.to_euclidean_division_equations; lia.
  - apply chr_eq. Z.to_euclidean_division_equations; lia.
Qed.

Lemma b64_decode_one x :
  b64_decode (String (b64_char (byte x `div` 4)) (String (b64_char ((byte x `mod` 4) * 16)) "==")) =
  Some (String x "").
Proof.
  pose proof (byte_bound x). cbn [b64_decode].
  destruct (b64_val_char (byte x `div` 4)) as (-> & _); [Z.to_euclidean_division_equations; lia|].
  destruct (b64_val_char ((byte x `mod` 4) * 16)) as (-> & _); [Z.to_euclidean_division_equations; lia|].
  cbn [mbind option_bind]. rewrite !decide_True by done. repeat f_equal.
  apply chr_eq. Z.to_euclidean_division_equations; lia.
Qed.

Lemma string_ind3 (P : string → Prop) :
  P "" → (∀ x, P (String x "")) → (∀ x y, P (String x (String y ""))) →
  (∀ x y z s, P s → P (String x (String y (String z s)))) → ∀ s, P s.
Proof.
  intros H0 H1 H2 H3. fix IH 1. intros [|x [|y [|z s]]]; [done|apply H1|apply H2|apply H3, IH].
Qed.

Lemma b64_no_newlines s : drop_newlines (b64_EncodeToString s) = b64_EncodeToString s.
Proof.
  assert (∀ n t, 0 ≤ n < 64 → drop_newlines (String (b64_char n) t) = String (b64_char n) (drop_newlines t)) as Hc.
  { intros n t Hn. destruct (b64_val_char n Hn) as (_ & _ & ? & ?). cbn [drop_newlines].
    by rewrite decide_False by tauto. }
  induction s as [|x|x y|x y z s IH] using string_ind3; [done|..]; cbn [b64_EncodeToString].
  - pose proof (byte_bound x). rewrite !Hc by (Z.to_euclidean_division_equations; lia). done.
  - pose proof (byte_bound x). pose proof (byte_bound y).
    rewrite !Hc by (Z.to_euclidean_division_equations; lia). done.
  - pose proof (byte_bound x). pose proof (byte_bound y). pose proof (byte_bound z).
    rewrite !Hc by (Z.to_euclidean_division_equations; lia). by rewrite IH.
Qed.

Lemma b64_roundtrip s : b64_DecodeString (b64_EncodeToString s) = Some s.
Proof.
  unfold b64_DecodeString. rewrite b64_no_newlines.
  induction s as [|x|x y|x y z s IH] using string_ind3; [done|apply b64_decode_one|apply b64_decode_two|].
  cbn [b64_EncodeToString]. by apply b64_decode_group.
Qed.

(** A digest is never empty. *)
Lemma sha_round_length st kw : length (sha_round st kw) = length st.
Proof. by destruct st as [|? [|? [|? [|? [|? [|? [|? [|? [|]]]]]]]]]. Qed.

Lemma sha_rounds_length kws st : length (foldl sha_round st kws) = length st.
Proof. revert st. induction kws as [|kw kws IH]; intros st; [done|]. simpl. by rewrite IH, sha_round_length. Qed.

Lemma sha_blocks_length fuel h words : length (sha_blocks fuel h words) = length h.
Proof.
  revert h words. induction fuel as [|fuel IH]; intros h words; [done|]. destruct words as [|x words]; [done|].
  cbn [sha_blocks]. rewrite IH. unfold sha_block. rewrite length_zip_with, sha_rounds_length. lia.
Qed.

Lemma hmac_not_empty key msg : hmac_sha256 key msg ≠ "".
Proof.
  unfold hmac_sha256. cbv zeta. set (l := _ ++ sha256_bytes _). unfold sha256_bytes.
  pose proof (sha_blocks_length (length (words_of (sha_pad l))) sha_H0 (words_of (sha_pad l))) as Hlen.
  destruct (sha_blocks _ _ _) as [|x t]; [done|]. rewrite bind_cons. done.
Qed.

Lemma hex_not_empty s : s ≠ "" → hex_EncodeToString s ≠ "".
Proof. by destruct s. Qed.
