(* ===== verification/Pem.v ===== *)
(** * PEM blocks

    What the program uses of [encoding/pem] (Go 1.22): [EncodeToMemory], with which
    [keygen/main.go] writes the key files, and [Decode], with which the two crypto middlewares read
    them.  The headers of a block are never read by the program, only their number matters to
    [Decode]. *)

From S2P Require Import Prelude Strconv Float64 Json Codec.

Open Scope nat_scope.

(** [pem.Block] without its headers. *)
Record Block : Type := mkBlock { BlockType : string; Bytes : string }.

Definition pemStart : string := "-----BEGIN ".
Definition pemEnd : string := "-----END ".
Definition pemEndOfLine : string := "-----".
Definition pemLineLength : nat := 64.
Definition tab : ascii := "009"%char.

(** ** Encoding *)

(** The [lineBreaker]: a newline after every 64 characters, and one after a last, shorter line;
    [room] characters fit on the current line. *)
Fixpoint break_lines (room : nat) (s : string) : string :=
  match s with
  | "" => if decide (room = pemLineLength) then "" else nl_str
  | String c s =>
      String c (match room with
                | S (S room) => break_lines (S room) s
                | _ => String nl (break_lines pemLineLength s)
                end)
  end.

Definition pem_EncodeToMemory (b : Block) : string :=
  pemStart +:+ BlockType b +:+ pemEndOfLine +:+ nl_str +:+
  break_lines pemLineLength (b64_EncodeToString (Bytes b)) +:+
  pemEnd +:+ BlockType b +:+ pemEndOfLine +:+ nl_str.

(** ** Decoding *)

(** [bytes.Cut]. *)
Fixpoint Cut (s sep : string) : option (string * string) :=
  if HasPrefix s sep then Some ("", str_drop (String.length sep) s)
  else match s with
       | "" => None
       | String c s => '(before, after) ← Cut s sep; Some (String c before, after)
       end.

Definition HasSuffix (s suffix : string) : bool :=
  (String.length suffix <=? String.length s) &&
  bool_decide (str_drop (String.length s - String.length suffix) s = suffix).

(** [bytes.TrimRight] with the characters of [cutset]. *)
Fixpoint TrimRight (s : string) (cutset : list ascii) : string :=
  match s with
  | "" => ""
  | String c s =>
      let t := TrimRight s cutset in
      if decide (t = "" ∧ c ∈ cutset) then "" else String c t
  end.

(** The text up to the first newline, a carriage return before that newline not included, and what
    follows the newline. *)
Definition getLine (data : string) : string * string :=
  match Cut data nl_str with
  | Some (line, rest) =>
      let line := if HasSuffix line (String cr "") then str_take (String.length line - 1) line else line in
      (TrimRight line [" "%char; tab], rest)
  | None => (TrimRight data [" "%char; tab], "")
  end.

Fixpoint removeSpacesAndTabs (s : string) : string :=
  match s with
  | "" => ""
  | String c s => if decide (c = " "%char ∨ c = tab) then removeSpacesAndTabs s else String c (removeSpacesAndTabs s)
  end.

(** The header lines at the front of [rest]: their number and what follows, [None] when the text
    ends in them.  Every line takes at least one character, so [fuel] is the length. *)
Fixpoint skip_headers (fuel : nat) (rest : string) : option (nat * string) :=
  if decide (rest = "") then None
  else let '(line, next) := getLine rest in
       if Contains line ":" then
         match fuel with
         | O => None
         | S fuel => '(n, rest) ← skip_headers fuel next; Some (S n, rest)
         end
       else Some (0, rest).

(** The text of the block's body and what follows [-----END ] of its last line. *)
Definition find_end (headers : nat) (rest : string) : option (string * string) :=
  if decide (headers = 0 ∧ HasPrefix rest pemEnd = true)
  then Some ("", str_drop (String.length pemEnd) rest)
  else Cut rest (String nl pemEnd).

(** One block whose first line starts, after [-----BEGIN ], at [rest]: [inr] is the block, [inl] is
    the text at which the search for the next block goes on ([continue]), [None] is the end of the
    text inside the headers ([return nil, data]). *)
Definition decode_block (rest : string) : option (string + Block) :=
  let '(typeLine, rest) := getLine rest in
  if negb (HasSuffix typeLine pemEndOfLine) then Some (inl rest) else
  let typeLine := str_take (String.length typeLine - String.length pemEndOfLine) typeLine in
  '(headers, rest) ← skip_headers (String.length rest) rest;
  match find_end headers rest with
  | None => Some (inl rest)
  | Some (body, endTrailer) =>
      let endTrailerLen := String.length typeLine + String.length pemEndOfLine in
      if decide (String.length endTrailer < endTrailerLen) then Some (inl rest) else
      let restOfEndLine := str_drop endTrailerLen endTrailer in
      let endTrailer := str_take endTrailerLen endTrailer in
      if negb (HasPrefix endTrailer typeLine && HasSuffix endTrailer pemEndOfLine) then Some (inl rest) else
      if decide ((getLine restOfEndLine).1 ≠ "") then Some (inl rest) else
      match b64_DecodeString (removeSpacesAndTabs body) with
      | None => Some (inl rest)
      | Some bytes => Some (inr (mkBlock typeLine bytes))
      end
  end.

(** The search for a block: [-----BEGIN ] at the front of the text or of a line. *)
Definition next_start (rest : string) : option string :=
  if HasPrefix rest pemStart then Some (str_drop (String.length pemStart) rest)
  else snd <$> Cut rest (String nl pemStart).

Fixpoint decode_loop (fuel : nat) (rest : string) : option Block :=
  match fuel with
  | O => None
  | S fuel =>
      rest ← next_start rest;
      r ← decode_block rest;
      match r with inl rest => decode_loop fuel rest | inr b => Some b end
  end.

(** [pem.Decode], its first result. *)
Definition pem_Decode (data : string) : option Block := decode_loop (S (String.length data)) data.

(** ** Prefixes, suffixes and cuts *)

Lemma str_all_take P n s : str_all P s → str_all P (str_take n s).
Proof. revert s. induction n as [|n IH]; intros [|c s]; simpl; naive_solver. Qed.

Lemma str_all_TrimRight P s cutset : str_all P s → str_all P (TrimRight s cutset).
Proof. induction s as [|c s IH]; [done|]. simpl. intros [Hc Hs]. case_decide; [done|]. simpl. auto. Qed.

Lemma HasPrefix_app s t : HasPrefix (s +:+ t) s = true.
Proof.
  unfold HasPrefix. induction s as [|c s IH]; [by destruct t|]. rewrite str_app_cons. simpl.
  destruct (Ascii.ascii_dec c c); [done|congruence].
Qed.

Lemma HasPrefix_cons c s d t : HasPrefix (String c s) (String d t) = true → c = d ∧ HasPrefix s t = true.
Proof. unfold HasPrefix. simpl. destruct (Ascii.ascii_dec d c) as [->|]; [done|discriminate]. Qed.

Lemma HasSuffix_app s t : HasSuffix (s +:+ t) t = true.
Proof.
  unfold HasSuffix. rewrite length_str_app.
  replace (String.length s + String.length t - String.length t) with (String.length s) by lia.
  rewrite str_drop_app, andb_true_iff. split; [apply Nat.leb_le; lia|by apply bool_decide_eq_true_2].
Qed.

Lemma Contains_no_char s c : str_all (λ d, d ≠ c) s → Contains s (String c "") = false.
Proof.
  induction s as [|d s IH]; [done|]. intros [Hd Hs]. cbn [Contains]. rewrite IH by done. apply orb_false_iff.
  split; [|done]. apply not_true_iff_false. by intros [? _]%HasPrefix_cons.
Qed.

Lemma Cut_found s after : Cut (s +:+ after) s = Some ("", after).
Proof.
  pose proof (HasPrefix_app s after) as Hp. pose proof (str_drop_app s after) as Hd.
  destruct (s +:+ after) as [|c t]; cbn [Cut]; by rewrite Hp, Hd.
Qed.

(** The first occurrence of a separator that cannot start inside [before]. *)
Lemma Cut_app c d before sep after :
  str_all (λ x, x ≠ d) before → c ≠ d →
  Cut (before +:+ String c (String d sep) +:+ after) (String c (String d sep)) = Some (before, after).
Proof.
  intros Hb Hcd. induction before as [|x before IH]; [rewrite str_app_nil_l; apply Cut_found|].
  destruct Hb as [Hx Hb]. rewrite str_app_cons. cbn [Cut]. rewrite IH by done.
  replace (HasPrefix _ _) with false; [done|]. symmetry. apply not_true_iff_false. intros [-> Hp]%HasPrefix_cons.
  destruct before as [|y before]; rewrite ?str_app_cons, ?str_app_nil_l in Hp; apply HasPrefix_cons in Hp as [? _].
  - done.
  - by destruct Hb.
Qed.

Lemma Cut_char c before after :
  str_all (λ x, x ≠ c) before → Cut (before +:+ String c after) (String c "") = Some (before, after).
Proof.
  intros Hb. induction before as [|x before IH]; [apply (Cut_found (String c "") after)|].
  destruct Hb as [Hx Hb]. rewrite str_app_cons. cbn [Cut]. rewrite IH by done.
  replace (HasPrefix _ _) with false; [done|]. symmetry. apply not_true_iff_false. by intros [? _]%HasPrefix_cons.
Qed.

(** What stands before the separator is a part of the text. *)
Lemma Cut_before P s sep a b : Cut s sep = Some (a, b) → str_all P s → str_all P a.
Proof.
  revert a b. induction s as [|c s IH]; intros a b; cbn [Cut].
  - case_match; intros; by simplify_eq.
  - case_match; [intros; by simplify_eq|]. intros Hc [? ?]. destruct (Cut s sep) as [[a' b']|] eqn:?; [|done].
    simplify_eq/=. eauto.
Qed.

Lemma Cut_length s sep a b : Cut s sep = Some (a, b) → String.length b + String.length sep ≤ String.length s.
Proof.
  revert a b. induction s as [|c s IH]; intros a b; cbn [Cut].
  - destruct sep; cbn; [|done]. intros; simplify_eq. simpl. lia.
  - case_match eqn:Hp.
    + intros; simplify_eq. rewrite length_str_drop. enough (String.length sep ≤ String.length (String c s)) by lia.
      clear -Hp. unfold HasPrefix in Hp. revert Hp. generalize (String c s) as t.
      induction sep as [|d sep IH]; intros [|e t]; simpl; try done; try lia.
      destruct (Ascii.ascii_dec d e); [|done]. intros H%IH. lia.
    + destruct (Cut s sep) as [[a' b']|] eqn:?; [|done]. intros; simplify_eq/=. specialize (IH _ _ eq_refl). lia.
Qed.

(** ** Lines *)

Lemma TrimRight_last s c cutset : c ∉ cutset → TrimRight (s +:+ String c "") cutset = s +:+ String c "".
Proof.
  intros Hc. induction s as [|d s IH].
  - rewrite str_app_nil_l. cbn [TrimRight]. by rewrite decide_False by tauto.
  - rewrite str_app_cons. cbn [TrimRight]. rewrite IH. rewrite decide_False; [done|]. intros [? _]. by destruct s.
Qed.

(** A dash is no white space. *)
Ltac dash := rewrite !elem_of_cons, elem_of_nil; intros [? | [? | []]]; discriminate.

Lemma getLine_dashes t rest :
  str_all (λ x, x ≠ nl) t → getLine (t +:+ pemEndOfLine +:+ nl_str +:+ rest) = (t +:+ pemEndOfLine, rest).
Proof.
  intros Ht. unfold getLine. rewrite <- str_app_assoc. unfold nl_str at 1. rewrite str_app_cons, str_app_nil_l.
  rewrite Cut_char by (apply str_all_app; split; [done|by repeat split]).
  replace (t +:+ pemEndOfLine) with ((t +:+ "----") +:+ "-") by by rewrite str_app_assoc.
  replace (HasSuffix _ _) with false; [by rewrite TrimRight_last by dash|].
  unfold HasSuffix. rewrite length_str_app. simpl.
  replace (String.length (t +:+ "----") + 1 - 1) with (String.length (t +:+ "----")) by lia.
  rewrite str_drop_app. symmetry. apply andb_false_iff. right. by apply bool_decide_eq_false_2.
Qed.

Lemma getLine_all P body rest :
  str_all P body → str_all P (getLine (body +:+ String nl rest)).1.
Proof.
  intros Hb. unfold getLine.
  assert (∃ a b, Cut (body +:+ String nl rest) nl_str = Some (a, b) ∧ str_all P a) as (a & b & -> & Ha).
  { induction body as [|c body IH].
    - exists "", rest. split; [apply (Cut_found nl_str rest)|done].
    - destruct Hb as [Hc Hb]. destruct (IH Hb) as (a & b & Hcut & Ha). rewrite str_app_cons. cbn [Cut].
      case_match; [by exists "", (str_drop (String.length nl_str) (String c (body +:+ String nl rest)))|].
      rewrite Hcut. by exists (String c a), b. }
  cbn [fst]. apply str_all_TrimRight. case_match; [by apply str_all_take|done].
Qed.

Lemma TrimRight_length s cutset : String.length (TrimRight s cutset) ≤ String.length s.
Proof. induction s as [|c s IH]; [done|]. simpl. case_decide; simpl; lia. Qed.

Lemma getLine_length s : String.length (getLine s).2 ≤ String.length s - 1.
Proof.
  unfold getLine. destruct (Cut s nl_str) as [[line rest]|] eqn:Hc; cbn [snd]; [|simpl; lia].
  apply Cut_length in Hc. simpl in Hc. lia.
Qed.

(** ** The search ends *)

Lemma skip_headers_length fuel rest n rest' :
  skip_headers fuel rest = Some (n, rest') → String.length rest' ≤ String.length rest.
Proof.
  revert rest n rest'. induction fuel as [|fuel IH]; intros rest n rest'; cbn [skip_headers];
    (case_decide; [done|]); pose proof (getLine_length rest); destruct (getLine rest) as [line next]; case_match;
    intros; simplify_eq/=; try lia.
  destruct (skip_headers fuel next) as [[m rest2]|] eqn:Hs; [|done]. simplify_eq/=. apply IH in Hs. lia.
Qed.

(** Length of the text is enough fuel for the headers. *)
Lemma skip_headers_fuel f g rest :
  String.length rest ≤ f → String.length rest ≤ g → skip_headers f rest = skip_headers g rest.
Proof.
  revert g rest. induction f as [|f IH]; intros [|g] rest Hf Hg; cbn [skip_headers];
    (case_decide as Hne; [done|]); rewrite <- length_0_iff in Hne; try lia.
  pose proof (getLine_length rest). destruct (getLine rest) as [line next]; simpl in *. case_match; [|done].
  by rewrite (IH g next) by lia.
Qed.

Lemma next_start_length rest rest' : next_start rest = Some rest' → String.length rest' < String.length rest.
Proof.
  unfold next_start. case_match eqn:Hp.
  - intros; simplify_eq. rewrite length_str_drop. destruct rest; [done|]. cbn [String.length pemStart]. lia.
  - destruct (Cut rest _) as [[a b]|] eqn:Hc; [|done]. intros; simplify_eq/=. apply Cut_length in Hc. simpl in Hc. lia.
Qed.

Lemma decode_block_length rest rest' : decode_block rest = Some (inl rest') → String.length rest' ≤ String.length rest.
Proof.
  unfold decode_block. pose proof (getLine_length rest). destruct (getLine rest) as [typeLine rest0]. cbn [snd] in *.
  case_match; [intros; simplify_eq; lia|].
  destruct (skip_headers _ rest0) as [[n rest1]|] eqn:Hs; [|done]. apply skip_headers_length in Hs. cbn.
  repeat case_match; intros; simplify_eq; lia.
Qed.

(** More fuel than characters finds no other block: [pem_Decode] has enough of it. *)
Lemma decode_loop_fuel f g rest :
  String.length rest < f → String.length rest < g → decode_loop f rest = decode_loop g rest.
Proof.
  revert g rest. induction f as [|f IH]; intros [|g] rest Hf Hg; [lia..|]. cbn [decode_loop].
  destruct (next_start rest) as [rest1|] eqn:Hn; [|done]. apply next_start_length in Hn. cbn.
  destruct (decode_block rest1) as [[rest2|b]|] eqn:Hb; [|done..]. apply decode_block_length in Hb. cbn.
  apply IH; lia.
Qed.

(** ** What is encoded is decoded *)

(** The characters of a line of Base64 text. *)
Definition pem_char (c : ascii) : Prop :=
  c ≠ "-"%char ∧ c ≠ ":"%char ∧ c ≠ " "%char ∧ c ≠ tab ∧ c ≠ nl ∧ c ≠ cr.

Lemma b64_char_pem n : (0 ≤ n < 64)%Z → pem_char (b64_char n).
Proof.
  intros Hn. apply (bool_decide_eq_true_1 _).
  assert (forallb (λ n, bool_decide (pem_char (b64_char n))) (seqZ 0 64) = true) as HF by (vm_compute; reflexivity).
  rewrite List.forallb_forall in HF. apply HF. apply list_elem_of_In, elem_of_seqZ. lia.
Qed.

Lemma b64_pem s : str_all pem_char (b64_EncodeToString s).
Proof.
  induction s as [|x|x y|x y z s IH] using string_ind3; [done|..]; cbn [b64_EncodeToString str_all];
    pose proof (byte_bound x); try pose proof (byte_bound y); try pose proof (byte_bound z);
    split_and?; try apply b64_char_pem; try done; Z.to_euclidean_division_equations; lia.
Qed.

(** The lines are the text cut by newlines, with one at the end. *)
Lemma break_lines_body room s :
  str_all pem_char s → 1 ≤ room ≤ pemLineLength → s ≠ "" ∨ room ≠ pemLineLength →
  ∃ body, break_lines room s = body +:+ nl_str ∧ str_all (λ c, pem_char c ∨ c = nl) body ∧ drop_newlines body = s.
Proof.
  unfold pemLineLength. revert room. induction s as [|c s IH]; intros room; cbn [break_lines]; unfold pemLineLength.
  { intros _ _ [?|?]; [done|]. exists "". by rewrite decide_False by done. }
  intros [Hc Hs] Hroom _.
  assert (∀ body, drop_newlines (String c body) = String c (drop_newlines body)) as Hdrop.
  { intros body. unfold pem_char in Hc. cbn [drop_newlines]. by rewrite decide_False by tauto. }
  destruct room as [|[|room]]; [lia|..].
  - destruct (decide (s = "")) as [->|Hne].
    + exists (String c ""). rewrite Hdrop. split_and!; [done|simpl; tauto|done].
    + destruct (IH 64 Hs) as (body & -> & Hb & Hd); [lia|tauto|]. exists (String c (String nl body)).
      rewrite Hdrop, !str_app_cons. split_and!; [done|simpl; tauto|]. cbn [drop_newlines].
      by rewrite decide_True, Hd by tauto.
  - destruct (IH (S room) Hs) as (body & -> & Hb & Hd); [lia|right; lia|]. exists (String c body).
    rewrite Hdrop, Hd, str_app_cons. split_and!; [done|simpl; tauto|done].
Qed.

Lemma removeSpacesAndTabs_id s : str_all (λ c, pem_char c ∨ c = nl) s → removeSpacesAndTabs s = s.
Proof.
  induction s as [|c s IH]; [done|]. intros [Hc Hs]. cbn [removeSpacesAndTabs]. rewrite IH by done.
  rewrite decide_False; [done|]. unfold pem_char in Hc. intros [E|E]; subst c; destruct Hc as [?|?]; tauto || done.
Qed.

(** A name that can stand on the first line of a block. *)
Definition label (t : string) : Prop := str_all (λ c, c ≠ nl ∧ c ≠ ":"%char) t.

Lemma skip_headers_none fuel rest :
  rest ≠ "" → Contains (getLine rest).1 ":" = false → skip_headers fuel rest = Some (0, rest).
Proof.
  intros Hne Hc. destruct fuel; cbn [skip_headers]; rewrite decide_False by done;
    destruct (getLine rest); simpl in Hc; by rewrite Hc.
Qed.

(** The body of an encoded block and its last line. *)
Lemma find_end_encoded bytes trailer :
  let rest := break_lines pemLineLength (b64_EncodeToString bytes) +:+ pemEnd +:+ trailer in
  ∃ body, find_end 0 rest = Some (body, trailer) ∧ b64_DecodeString (removeSpacesAndTabs body) = Some bytes.
Proof.
  cbv zeta. unfold find_end. destruct (decide (bytes = "")) as [->|Hne].
  { exists "". cbn [b64_EncodeToString]. change (break_lines pemLineLength "") with "". rewrite str_app_nil_l.
    rewrite decide_True by (split; [done|apply HasPrefix_app]). by rewrite str_drop_app. }
  destruct (break_lines_body pemLineLength (b64_EncodeToString bytes)) as (body & -> & Hb & Hd).
  { apply b64_pem. } { unfold pemLineLength; lia. } { left. by destruct bytes as [|? [|? [|? ?]]]. }
  exists body. split.
  - rewrite decide_False.
    + rewrite str_app_assoc. apply Cut_app; [|done]. eapply str_all_impl; [|exact Hb].
      intros c [Hc| ->]; [apply Hc|done].
    + intros [_ Hp]. destruct body as [|c body].
      * by destruct bytes as [|? [|? [|? ?]]].
      * rewrite str_app_assoc, str_app_cons in Hp. apply HasPrefix_cons in Hp as [-> _].
        destruct Hb as [[Hc|Hc] _]; [by destruct Hc|done].
  - rewrite removeSpacesAndTabs_id by done. rewrite <- (b64_roundtrip bytes). unfold b64_DecodeString.
    by rewrite Hd, b64_no_newlines.
Qed.

Lemma first_line_no_colon bytes t rest :
  label t →
  Contains (getLine (break_lines pemLineLength (b64_EncodeToString bytes) +:+ pemEnd +:+ t +:+ pemEndOfLine +:+
    nl_str +:+ rest)).1 ":" = false.
Proof.
  intros Ht. apply Contains_no_char. destruct (decide (bytes = "")) as [->|Hne].
  - change (break_lines pemLineLength _) with "". rewrite str_app_nil_l, <- str_app_assoc, getLine_dashes.
    + apply str_all_app. split; [|by repeat split]. apply str_all_app. split; [by repeat split|].
      eapply str_all_impl; [|exact Ht]. naive_solver.
    + apply str_all_app. split; [by repeat split|]. eapply str_all_impl; [|exact Ht]. naive_solver.
  - destruct (break_lines_body pemLineLength (b64_EncodeToString bytes)) as (body & -> & Hb & _).
    { apply b64_pem. } { unfold pemLineLength; lia. } { left. by destruct bytes as [|? [|? [|? ?]]]. }
    rewrite str_app_assoc. unfold nl_str at 1. rewrite str_app_cons, str_app_nil_l. apply getLine_all.
    eapply str_all_impl; [|exact Hb]. intros c [Hc| ->]; [apply Hc|done].
Qed.

(** [pem.Decode] of the text [pem.EncodeToMemory] makes of a block gives the block. *)
Lemma pem_roundtrip t bytes : label t → pem_Decode (pem_EncodeToMemory (mkBlock t bytes)) = Some (mkBlock t bytes).
Proof.
  intros Ht. unfold pem_Decode, pem_EncodeToMemory. cbn [BlockType Bytes decode_loop].
  set (rest := break_lines _ _ +:+ _). unfold next_start. rewrite HasPrefix_app, str_drop_app.
  cbn [mbind option_bind]. unfold decode_block. rewrite getLine_dashes.
  2: { eapply str_all_impl; [|exact Ht]. naive_solver. }
  rewrite HasSuffix_app. cbn [negb].
  assert (String.length (t +:+ pemEndOfLine) - String.length pemEndOfLine = String.length t) as ->
    by (rewrite length_str_app; lia).
  rewrite str_take_app, skip_headers_none.
  2: { subst rest. destruct (break_lines _ _); done. }
  2: { subst rest. pose proof (first_line_no_colon bytes t "" Ht) as Hc. by rewrite str_app_nil_r in Hc. }
  cbn [mbind option_bind]. subst rest. destruct (find_end_encoded bytes (t +:+ pemEndOfLine +:+ nl_str)) as (body & -> & Hb).
  rewrite Hb. cbn zeta. rewrite decide_False by (rewrite !length_str_app; simpl; lia).
  rewrite <- length_str_app, <- (str_app_assoc t pemEndOfLine nl_str), str_take_app, str_drop_app.
  by rewrite HasPrefix_app, HasSuffix_app.
Qed.

Example pem_ex :
  pem_EncodeToMemory (mkBlock "KEY" "any carnal pleas") =
    "-----BEGIN KEY-----" +:+ nl_str +:+ "YW55IGNhcm5hbCBwbGVhcw==" +:+ nl_str +:+ "-----END KEY-----" +:+ nl_str ∧
  pem_Decode ("text -----BEGIN" +:+ nl_str +:+ "-----BEGIN A-----" +:+ nl_str +:+ "H: 1" +:+ nl_str +:+ "YW55 " +:+
    String cr nl_str +:+ "-----END A-----") = Some (mkBlock "A" "any") ∧
  pem_Decode ("-----BEGIN A-----" +:+ nl_str +:+ "YW55" +:+ nl_str +:+ "-----END B-----") = None.
Proof. vm_compute. done. Qed.
