(* ===== verification/SignWriter.v ===== *)
(** * The response writer that signs

    [signResponseWriter] of [internal/cryptandsign/cryptandsign.go].  [WriteHeader] starts a goroutine
    that waits until [Write] has computed the signature and set its header; [Write] waits until that
    goroutine has sent the headers.  The two channels have room for one value each.  The writer
    is modelled twice: as a transition system over all interleavings of the handler and the
    goroutines, and as the function [sign_calls] on the calls of a handler, which the middleware
    uses; the theorems relate them. *)

From S2P Require Import Prelude GoErrors Metrics Json Codec Http.

Open Scope Z_scope.

Definition signHeaderType : string := "HashSHA256".

(** The header [Write] sets when [data] has been fed to the hash. *)
Definition sign_header (key data : string) : wcall :=
  HeaderSet signHeaderType (hex_EncodeToString (hmac_sha256 key data)).

(** ** The transition system *)

(** A goroutine of [WriteHeader(code)]: before [<-headersSetDone], before
    [wr.WriteHeader], before [headersSendDone <- true]. *)
Inductive goroutine : Type :=
| GWait (code : Z)
| GHeader (code : Z)
| GSend.

(** The handler: running, in [Write(b)] before [headersSetDone <- true], or before
    [<-headersSendDone]. *)
Inductive hpoint : Type :=
| HRun
| HSet (b : string)
| HSent (b : string).

Record sw : Type := mkSw {
  calls : list wcall;          (* what the handler still does *)
  point : hpoint;
  out : list wcall;            (* what the wrapped writer has been told *)
  hashed : string;             (* what [sign] has been fed *)
  set_done : bool;             (* a value in [headersSetDone] *)
  send_done : bool;            (* a value in [headersSendDone] *)
  gos : list goroutine
}.

Inductive sw_step (key : string) : sw → sw → Prop :=
| step_header c cs o h sd nd g :
    header_only c →
    sw_step key (mkSw (c :: cs) HRun o h sd nd g) (mkSw cs HRun (o ++ [c]) h sd nd g)
| step_WriteHeader code cs o h sd nd g :
    sw_step key (mkSw (WriteHeader code :: cs) HRun o h sd nd g)
                (mkSw cs HRun o h sd nd (g ++ [GWait code]))
| step_Write b cs o h sd nd g :
    sw_step key (mkSw (Write b :: cs) HRun o h sd nd g)
                (mkSw cs (HSet b) (o ++ [sign_header key (h +:+ b)]) (h +:+ b) sd nd g)
| step_set b cs o h nd g :
    sw_step key (mkSw cs (HSet b) o h false nd g) (mkSw cs (HSent b) o h true nd g)
| step_sent b cs o h sd g :
    sw_step key (mkSw cs (HSent b) o h sd true g) (mkSw cs HRun (o ++ [Write b]) h sd false g)
| step_go_wait code cs p o h nd g1 g2 :
    sw_step key (mkSw cs p o h true nd (g1 ++ GWait code :: g2))
                (mkSw cs p o h false nd (g1 ++ GHeader code :: g2))
| step_go_header code cs p o h sd nd g1 g2 :
    sw_step key (mkSw cs p o h sd nd (g1 ++ GHeader code :: g2))
                (mkSw cs p (o ++ [WriteHeader code]) h sd nd (g1 ++ GSend :: g2))
| step_go_send cs p o h sd g1 g2 :
    sw_step key (mkSw cs p o h sd false (g1 ++ GSend :: g2))
                (mkSw cs p o h sd true (g1 ++ g2)).

(** A fresh writer whose hash was already fed [h]. *)
Definition sw_start (h : string) (cs : list wcall) : sw := mkSw cs HRun [] h false false [].

(** The handler has returned. *)
Definition sw_done (s : sw) : Prop := calls s = [] ∧ point s = HRun.

Definition stuck (key : string) (s : sw) : Prop := ∀ s', ¬ sw_step key s s'.

(** ** The function on calls *)

(** [pending] are the codes of the goroutines that wait, in the order they were started. *)
Fixpoint sign_calls_go (key h : string) (pending : list Z) (cs : list wcall) : outcome (list wcall) :=
  match cs with
  | [] => Ret []
  | WriteHeader code :: cs => sign_calls_go key h (pending ++ [code]) cs
  | Write b :: cs =>
      match pending with
      | [] => Blocked "headersSendDone"
      | code :: pending =>
          l ← sign_calls_go key (h +:+ b) pending cs;
          Ret (sign_header key (h +:+ b) :: WriteHeader code :: Write b :: l)
      end
  | c :: cs => l ← sign_calls_go key h pending cs; Ret (c :: l)
  end.

Definition sign_calls (key h : string) (cs : list wcall) : outcome (list wcall) := sign_calls_go key h [] cs.

(** ** Replies of one write *)

(** What the signed handlers answer with: headers, one status, one body. *)
Definition simple_reply (l : list wcall) : Prop :=
  ∃ pre code d, l = pre ++ [WriteHeader code; Write d] ∧ Forall header_only pre.

Lemma simple_http_Error pre msg code : Forall header_only pre → simple_reply (pre ++ http_Error msg code).
Proof.
  intros Hpre. exists (pre ++ [HeaderSet "Content-Type" "text/plain; charset=utf-8";
    HeaderSet "X-Content-Type-Options" "nosniff"]), code, (msg +:+ nl_str).
  split; [by rewrite <- app_assoc|]. apply Forall_app_2; [done|by repeat constructor].
Qed.

(** The signed form of such a reply. *)
Definition signed_reply (key h : string) (pre : list wcall) (code : Z) (d : string) : list wcall :=
  pre ++ [sign_header key (h +:+ d); WriteHeader code; Write d].

Lemma sign_calls_simple key h pre code d :
  Forall header_only pre →
  sign_calls key h (pre ++ [WriteHeader code; Write d]) = Ret (signed_reply key h pre code d).
Proof.
  unfold sign_calls, signed_reply. intros Hpre. induction Hpre as [|c pre Hc Hpre IH]; [done|].
  simpl. rewrite IH. by destruct c.
Qed.

(** ** Every interleaving of a reply of one write ends with the signed reply *)

(** The states the writer goes through, with the number of steps left. *)
Inductive reply_state (key h : string) (pre : list wcall) (code : Z) (d : string) : nat → sw → Prop :=
| rs_headers p1 p2 :
    pre = p1 ++ p2 →
    reply_state key h pre code d (length p2 + 7)
      (mkSw (p2 ++ [WriteHeader code; Write d]) HRun p1 h false false [])
| rs_started :
    reply_state key h pre code d 6 (mkSw [Write d] HRun pre h false false [GWait code])
| rs_set :
    reply_state key h pre code d 5
      (mkSw [] (HSet d) (pre ++ [sign_header key (h +:+ d)]) (h +:+ d) false false [GWait code])
| rs_waiting :
    reply_state key h pre code d 4
      (mkSw [] (HSent d) (pre ++ [sign_header key (h +:+ d)]) (h +:+ d) true false [GWait code])
| rs_have :
    reply_state key h pre code d 3
      (mkSw [] (HSent d) (pre ++ [sign_header key (h +:+ d)]) (h +:+ d) false false [GHeader code])
| rs_sending :
    reply_state key h pre code d 2
      (mkSw [] (HSent d) ((pre ++ [sign_header key (h +:+ d)]) ++ [WriteHeader code]) (h +:+ d) false false [GSend])
| rs_sent :
    reply_state key h pre code d 1
      (mkSw [] (HSent d) ((pre ++ [sign_header key (h +:+ d)]) ++ [WriteHeader code]) (h +:+ d) false true [])
| rs_done :
    reply_state key h pre code d 0 (mkSw [] HRun (signed_reply key h pre code d) (h +:+ d) false false []).

Lemma app_cons_single {A} (x y : A) l1 l2 : [x] = l1 ++ y :: l2 → l1 = [] ∧ y = x ∧ l2 = [].
Proof. destruct l1 as [|a l1]; [by intros [= -> <-]|]. intros [= _ Hl]. by destruct l1. Qed.

Lemma app_cons_nil {A} (y : A) l1 l2 : [] ≠ l1 ++ y :: l2.
Proof. by destruct l1. Qed.

(** Invert the goroutine list of a step. *)
Ltac inv_gos :=
  repeat match goal with
    | H : [] = _ ++ _ :: _ |- _ => by apply app_cons_nil in H
    | H : _ ++ _ :: _ = [] |- _ => by symmetry in H; apply app_cons_nil in H
    | H : [_] = _ ++ _ :: _ |- _ => apply app_cons_single in H as (-> & ? & ->); simplify_eq
    | H : _ ++ _ :: _ = [_] |- _ => symmetry in H
    end.

Lemma reply_state_step key h pre code d n s s' :
  Forall header_only pre →
  reply_state key h pre code d n s → sw_step key s s' →
  ∃ m, n = S m ∧ reply_state key h pre code d m s'.
Proof.
  intros Hpre Hs Hst.
  destruct Hs as [p1 p2 ->| | | | | | |]; inversion Hst; simplify_eq/=; inv_gos;
    try (eexists; split; [reflexivity|]; constructor).
  - destruct p2 as [|x p2]; simplify_eq/=; [done|]. exists (length p2 + 7)%nat. split; [done|].
    apply rs_headers. by rewrite <- app_assoc.
  - destruct p2 as [|x p2]; simplify_eq/=.
    + exists 6%nat. split; [done|]. rewrite app_nil_r. constructor.
    + apply Forall_app in Hpre as [_ [Hx _]%Forall_cons]. done.
  - destruct p2 as [|x p2]; simplify_eq/=. apply Forall_app in Hpre as [_ [Hx _]%Forall_cons]. done.
  - done.
  - exists 0%nat. split; [done|]. unfold signed_reply. rewrite <- !app_assoc. constructor.
Qed.

Lemma reply_state_progress key h pre code d n s :
  Forall header_only pre → reply_state key h pre code d (S n) s → ∃ s', sw_step key s s'.
Proof.
  intros Hpre Hs. inversion Hs as [p1 p2 Hp| | | | | | |]; subst; [|eexists; by constructor..| | | |].
  - destruct p2 as [|x p2]; [eexists; apply step_WriteHeader|].
    apply Forall_app in Hpre as [_ [Hx _]%Forall_cons]. eexists. by apply step_header.
  - eexists. apply (step_go_wait key code [] _ _ _ _ [] []).
  - eexists. apply (step_go_header key code [] _ _ _ _ _ [] []).
  - eexists. apply (step_go_send key [] _ _ _ _ [] []).
  - eexists. apply step_sent.
Qed.

Lemma reply_state_nsteps key h pre code d k n s s' :
  Forall header_only pre → reply_state key h pre code d n s → nsteps (sw_step key) k s s' →
  (k ≤ n)%nat ∧ reply_state key h pre code d (n - k) s'.
Proof.
  intros Hpre Hs Hk. revert n Hs. induction Hk as [s|k s s1 s' Hst Hk IH]; intros n Hs.
  - split; [lia|]. by rewrite Nat.sub_0_r.
  - destruct (reply_state_step _ _ _ _ _ _ _ _ Hpre Hs Hst) as (m & -> & Hm).
    destruct (IH m Hm) as [Hle Hr]. split; [lia|]. done.
Qed.

(** [C30] A handler that sets headers, calls [WriteHeader] once and [Write] once on the signing writer:
    whatever the scheduling of the goroutine, the exchange over the two channels does not deadlock,
    takes exactly seven steps after the headers, and the wrapped writer receives the
    handler's headers, then the signature header, then the status, then the body, in this order;
    this is what [sign_calls] says. *)
Theorem signed_reply_all_schedules (key h : string) (pre : list wcall) (code : Z) (d : string) (k : nat) (s : sw)
    (Hpre : Forall header_only pre)
    (Hk : nsteps (sw_step key) k (sw_start h (pre ++ [WriteHeader code; Write d])) s) :
  (k ≤ length pre + 7)%nat ∧
  ((k < length pre + 7)%nat → ∃ s', sw_step key s s') ∧
  (k = (length pre + 7)%nat → sw_done s ∧ sign_calls key h (pre ++ [WriteHeader code; Write d]) = Ret (out s) ∧
     out s = pre ++ [sign_header key (h +:+ d); WriteHeader code; Write d]).
Proof.
  destruct (reply_state_nsteps key h pre code d k (length pre + 7) _ s Hpre (rs_headers _ _ _ _ _ [] pre eq_refl) Hk)
    as [Hle Hr].
  split; [done|]. split.
  - intros Hlt. destruct (length pre + 7 - k)%nat as [|m] eqn:Hm; [lia|]. by eapply reply_state_progress.
  - intros ->. rewrite Nat.sub_diag in Hr. rewrite sign_calls_simple by done. inversion Hr; [lia|]. done.
Qed.

Lemma signed_reply_all_schedules_witness :
  ∃ s, nsteps (sw_step "key") 8 (sw_start "req" ([HeaderSet "Content-Type" "text/plain"] ++ [WriteHeader 200; Write "OK"])) s ∧
    out s = [HeaderSet "Content-Type" "text/plain"; sign_header "key" "reqOK"; WriteHeader 200; Write "OK"].
Proof.
  eexists. split.
  - repeat (eapply nsteps_l; [first [by apply step_header|by apply step_WriteHeader|by apply step_Write
      |by apply step_set|by apply (step_go_wait _ _ _ _ _ _ _ [] [])|by apply (step_go_header _ _ _ _ _ _ _ _ [] [])
      |by apply (step_go_send _ _ _ _ _ _ [] [])|by apply step_sent]|]). apply nsteps_O.
  - refine (proj2 (proj2 (proj2 (proj2 (signed_reply_all_schedules "key" "req" [HeaderSet "Content-Type" "text/plain"] 200 "OK" 8 _ _ _)) eq_refl))).
    + by repeat constructor.
    + repeat (eapply nsteps_l; [first [by apply step_header|by apply step_WriteHeader|by apply step_Write
        |by apply step_set|by apply (step_go_wait _ _ _ _ _ _ _ [] [])|by apply (step_go_header _ _ _ _ _ _ _ _ [] [])
        |by apply (step_go_send _ _ _ _ _ _ [] [])|by apply step_sent]|]). apply nsteps_O.
Defined.

(** [C39] A [Write] for which no [WriteHeader] is waiting, such as the second [Write] of a handler or
    the first of one that never calls [WriteHeader], blocks the handler for ever, in every
    scheduling; [sign_calls] says the same. *)
Theorem write_without_header_blocks (key h b : string) (o cs : list wcall) (s : sw)
    (Hs : rtc (sw_step key) (mkSw (Write b :: cs) HRun o h false false []) s) :
  ¬ sw_done s ∧ sign_calls key h (Write b :: cs) = Blocked "headersSendDone".
Proof.
  split; [|done].
  cut ((calls s = Write b :: cs ∧ point s = HRun ∧ set_done s = false ∧ send_done s = false ∧ gos s = []) ∨
       (calls s = cs ∧ (point s = HSet b ∨ point s = HSent b) ∧ send_done s = false ∧ gos s = [])).
  { unfold sw_done. intros [(-> & _)|(_ & [-> | ->] & _)]; by intros [? ?]. }
  remember (mkSw (Write b :: cs) HRun o h false false []) as s0 eqn:H0.
  assert ((calls s0 = Write b :: cs ∧ point s0 = HRun ∧ set_done s0 = false ∧ send_done s0 = false ∧ gos s0 = []) ∨
       (calls s0 = cs ∧ (point s0 = HSet b ∨ point s0 = HSent b) ∧ send_done s0 = false ∧ gos s0 = [])) as Hinv
    by (left; by subst).
  clear H0. induction Hs as [s|s s1 s2 Hst Hs IH]; [done|]. apply IH. clear IH Hs.
  destruct Hst; simpl in *; destruct_and?; destruct Hinv as [Hinv|Hinv]; destruct_and?; simplify_eq/=; inv_gos;
    try done; try (by right; eauto); naive_solver.
Qed.

Lemma write_without_header_blocks_witness :
  ¬ sw_done (mkSw [] (HSent "b") [sign_header "key" "ab"] "ab" true false []) ∧
  sign_calls "key" "a" [Write "b"] = Blocked "headersSendDone".
Proof.
  apply (write_without_header_blocks "key" "a" "b" [] []).
  eapply rtc_l; [apply step_Write|]. eapply rtc_l; [apply step_set|]. apply rtc_refl.
Defined.
