(* ===== verification/CryptAndSign.v ===== *)
(** * Signing and encryption

    [internal/cryptandsign/cryptandsign.go] and [internal/cryptandsign/asymcryptdecrypt.go]: the middleware that checks the
    signature of a request and signs the answer, the encryption of a message part by part with
    RSA-OAEP, and both sides of the agent.  RSA, the key files and the parsers of the keys in their PEM
    blocks are parameters. *)

From S2P Require Import Prelude Strconv Float64 GoErrors Metrics Json Codec Pem Http SignWriter.

Open Scope Z_scope.

(** ** Checking signatures *)

Definition SignCheck {S} (h : handler S) (seckey : string) : handler S := λ r w,
  let hashSignStr := header_Get (Header r) signHeaderType in
  if decide (seckey = "") then h r w
  else if decide (hashSignStr ≠ "") then
    if BodyErr r then Ret (http_Error "error read request body" StatusBadRequest, w)
    else
      let req := Body r in
      let r := set_body r req in
      match hex_DecodeString hashSignStr with
      | None => Ret (http_Error "can't decode hashSign" StatusBadRequest, w)
      | Some hashSign =>
          if decide (hashSign = hmac_sha256 seckey req) then
            '(l, w) ← h r w; l ← sign_calls seckey req l; Ret (l, w)
          else Ret (http_Error "sign error" StatusBadRequest, w)
      end
  else '(l, w) ← h r w; l ← sign_calls seckey "" l; Ret (l, w).

(** ** The agent's side *)

(** A response as the agent sees it. *)
Record reply : Type := mkReply { StatusCode : Z; ReplyBody : string }.

(** [AgentSendFunc]: the request's headers are those of the one [*resty.Request] the agent
    reuses; [W] is the world the request is sent to. *)
Abbreviation AgentSendFunc W :=
  (headers → string → string → string → W → outcome ((goerror + reply) * headers * W)).

Definition SignNew {W} (s : AgentSendFunc W) (seckey : string) : AgentSendFunc W := λ r send serverHost xRealIp w,
  if decide (seckey = "") then s r send serverHost xRealIp w
  else s (<[signHeaderType := hex_EncodeToString (hmac_sha256 seckey send)]> r) send serverHost xRealIp w.

(** ** RSA-OAEP part by part *)

(** [msg[start:finish]] for a range that lies within the string. *)
Definition substring (msg : string) (start finish : Z) : string :=
  str_take (Z.to_nat (finish - start)) (str_drop (Z.to_nat start) msg).

Section Parts.
Context (step : Z).
(** The block operation; the number says how often it was used before (the random source moves on). *)
Context (block : nat → string → goerror + string).

(** The common loop of [encryptOAEPbyPart] and [decryptOAEPbyPart] of one
    block after the other; an error of the block operation ends it. *)
Fixpoint by_part (fuel n : nat) (msg : string) (start : Z) : outcome (goerror + string) :=
  let msgLen := Z.of_nat (String.length msg) in
  match fuel with
  | O => NoFuel
  | S fuel =>
      if decide (start < msgLen) then
        let finish := Z.min (start + step) msgLen in
        if decide (finish < start) then Panic "slice bounds out of range"
        else match block n (substring msg start finish) with
             | inl err => Ret (inl err)
             | inr b =>
                 rest ← by_part fuel (S n) msg (start + step);
                 Ret (match rest with inl err => inl err | inr t => inr (b +:+ t) end)
             end
      else Ret (inr "")
  end.
End Parts.

(** What the program uses of [crypto/rsa], of [os.ReadFile] and of the parsers of key files. *)
Class RSA : Type := {
  PublicKey : Type;
  PrivateKey : Type;
  Public : PrivateKey → PublicKey;
  Size : PublicKey → Z;
  EncryptOAEP : PublicKey → nat → string → goerror + string;
  DecryptOAEP : PrivateKey → string → goerror + string;
  ReadFile : string → option string;
  ParsePKIXPublicKey : string → option (option PublicKey);   (* [Some None]: a key, but not RSA *)
  ParsePKCS1PrivateKey : string → option PrivateKey
}.

Definition sha256_Size : Z := 32.

Section Crypt.
Context `{RSA}.

Definition encryptOAEPbyPart (fuel : nat) (public : PublicKey) (msg : string) : outcome (goerror + string) :=
  by_part (Size public - 2 * sha256_Size - 2) (EncryptOAEP public) fuel 0 msg 0.

Definition decryptOAEPbyPart (fuel : nat) (private : PrivateKey) (msg : string) : outcome (goerror + string) :=
  by_part (Size (Public private)) (λ _, DecryptOAEP private) fuel 0 msg 0.

(** Reading and parsing the key files. *)
Definition load_public (path : string) : outcome PublicKey :=
  match ReadFile path with
  | None => Fatal "error reading pub key"
  | Some pem =>
      match pem_Decode pem with
      | None => Panic "nil pointer dereference"
      | Some publicKeyBlock =>
          match ParsePKIXPublicKey (Bytes publicKeyBlock) with
          | None => Fatal "error parse pub key"
          | Some None => Panic "interface conversion"
          | Some (Some k) => Ret k
          end
      end
  end.

Definition load_private (path : string) : outcome PrivateKey :=
  match ReadFile path with
  | None => Fatal "error reading priv key"
  | Some pem =>
      match pem_Decode pem with
      | None => Panic "nil pointer dereference"
      | Some privateKeyBlock =>
          match ParsePKCS1PrivateKey (Bytes privateKeyBlock) with
          | None => Fatal "error parse priv key"
          | Some k => Ret k
          end
      end
  end.

(** Enough fuel for a message when every step advances by at least one byte. *)
Definition parts_fuel (msg : string) : nat := S (String.length msg).

Definition AsymmetricEncryptData {W} (s : AgentSendFunc W) (pubkeypath : string) : AgentSendFunc W :=
  λ r send serverHost xRealIp w,
  if decide (pubkeypath ≠ "") then
    publicKey ← load_public pubkeypath;
    ciphertext ← encryptOAEPbyPart (parts_fuel send) publicKey send;
    match ciphertext with
    | inl err => Ret (inl err, r, w)
    | inr c => s r (b64_EncodeToString c) serverHost xRealIp w
    end
  else s r send serverHost xRealIp w.

Definition AsymmetricDencryptData {S} (h : handler S) (privkeypath : string) : handler S := λ r w,
  if decide (privkeypath ≠ "") then
    privateKey ← load_private privkeypath;
    if BodyErr r then Ret (http_Error "error read encrypted request" StatusBadRequest, w)
    else match b64_DecodeString (Body r) with
         | None => Ret (http_Error "error decode base64 string" StatusBadRequest, w)
         | Some ciphertext =>
             plaintext ← decryptOAEPbyPart (parts_fuel ciphertext) privateKey ciphertext;
             match plaintext with
             | inl _ => Ret (http_Error "error data dencryption" StatusBadRequest, w)
             | inr p => h (set_body r p) w
             end
         end
  else h r w.
End Crypt.

(** ** The loop over the parts *)

(** The same loop on the part of the message that is left. *)
Fixpoint by_chunk (step : nat) (block : nat → string → goerror + string) (fuel n : nat) (rest : string) :
    outcome (goerror + string) :=
  match fuel with
  | O => NoFuel
  | S fuel =>
      if decide (rest = "") then Ret (inr "")
      else match block n (str_take step rest) with
           | inl err => Ret (inl err)
           | inr b =>
               t ← by_chunk step block fuel (S n) (str_drop step rest);
               Ret (match t with inl err => inl err | inr t => inr (b +:+ t) end)
           end
  end.

Lemma by_part_chunk step block fuel n msg start :
  0 < step → 0 ≤ start →
  by_part step block fuel n msg start = by_chunk (Z.to_nat step) block fuel n (str_drop (Z.to_nat start) msg).
Proof.
  intros Hstep. revert n start. induction fuel as [|fuel IH]; intros n start Hs; [done|].
  cbn [by_part by_chunk].
  pose proof (length_str_drop (Z.to_nat start) msg) as Hlen.
  destruct (decide (start < Z.of_nat (String.length msg))) as [Hlt|Hge].
  - rewrite decide_False by lia.
    rewrite (decide_False (P := str_drop _ _ = "")) by (rewrite <- length_0_iff, Hlen; lia).
    assert (substring msg start (Z.min (start + step) (Z.of_nat (String.length msg))) =
            str_take (Z.to_nat step) (str_drop (Z.to_nat start) msg)) as ->.
    { unfold substring. destruct (decide (start + step ≤ Z.of_nat (String.length msg))).
      - rewrite Z.min_l by lia. f_equal. lia.
      - rewrite Z.min_r by lia. rewrite !str_take_all; [done|rewrite Hlen; lia..]. }
    destruct (block n _) as [err|b]; [done|]. rewrite IH by lia.
    rewrite str_drop_drop. by replace (Z.to_nat start + Z.to_nat step)%nat with (Z.to_nat (start + step)) by lia.
  - rewrite decide_True; [done|]. apply length_0_iff. rewrite Hlen. lia.
Qed.

(** Documented behaviour of RSA-OAEP with SHA-256 for one key pair: a message of at most
    [Size - 66] bytes is encrypted to [Size] bytes, which decrypt to it. *)
Class KeyPair `{RSA} (private : PrivateKey) : Prop := {
  key_size : 2 * sha256_Size + 2 < Size (Public private);
  encrypt_short n m :
    Z.of_nat (String.length m) ≤ Size (Public private) - 2 * sha256_Size - 2 →
    ∃ c, EncryptOAEP (Public private) n m = inr c ∧ Z.of_nat (String.length c) = Size (Public private) ∧
         DecryptOAEP private c = inr m
}.

Section RoundTrip.
Context `{RSA} (private : PrivateKey) `{!KeyPair private}.

Definition enc_step : nat := Z.to_nat (Size (Public private) - 2 * sha256_Size - 2).
Definition dec_step : nat := Z.to_nat (Size (Public private)).

Lemma chunk_roundtrip fuel n m :
  (String.length m < fuel)%nat →
  ∃ c, by_chunk enc_step (EncryptOAEP (Public private)) fuel n m = Ret (inr c) ∧
    ∀ fuel' k, (String.length c < fuel')%nat →
      by_chunk dec_step (λ _, DecryptOAEP private) fuel' k c = Ret (inr m).
Proof.
  pose proof key_size as Hkey. unfold sha256_Size in Hkey.
  revert n m. induction fuel as [|fuel IH]; intros n m Hlen; [lia|]. cbn [by_chunk].
  destruct (decide (m = "")) as [->|Hne].
  { exists "". split; [done|]. intros [|fuel'] k Hk; [simpl in Hk; lia|done]. }
  assert (0 < String.length m)%nat as Hpos by (rewrite <- length_0_iff in Hne; lia).
  assert (0 < enc_step)%nat as Hstep by (unfold enc_step, sha256_Size; lia).
  destruct (encrypt_short n (str_take enc_step m)) as (c & Henc & Hc & Hdec).
  { rewrite length_str_take. unfold enc_step, sha256_Size in *. lia. }
  rewrite Henc. destruct (IH (S n) (str_drop enc_step m)) as (c' & Henc' & Hdec').
  { rewrite length_str_drop. lia. }
  rewrite Henc'. exists (c +:+ c'). split; [done|]. intros [|fuel'] k Hk; [lia|]. cbn [by_chunk].
  assert (dec_step = String.length c) as Hd by (unfold dec_step; lia).
  rewrite length_str_app in Hk.
  rewrite decide_False by (rewrite <- length_0_iff, length_str_app; lia).
  rewrite Hd, str_take_app, str_drop_app, <- Hd, Hdec. rewrite Hdec' by lia. simpl.
  by rewrite str_take_drop.
Qed.

(** Encrypting part by part and decrypting part by part. *)
Lemma oaep_roundtrip msg :
  ∃ c, encryptOAEPbyPart (parts_fuel msg) (Public private) msg = Ret (inr c) ∧
       decryptOAEPbyPart (parts_fuel c) private c = Ret (inr msg).
Proof.
  pose proof key_size as Hkey. unfold sha256_Size in Hkey.
  unfold encryptOAEPbyPart, decryptOAEPbyPart, parts_fuel, sha256_Size.
  rewrite by_part_chunk by lia.
  destruct (chunk_roundtrip (S (String.length msg)) 0 msg) as (c & He & Hd); [lia|].
  exists c. split; [exact He|]. rewrite by_part_chunk by lia. apply Hd. lia.
Qed.
End RoundTrip.

(** Both key files unset, or the two halves of one key pair. *)
Definition paired `{RSA} (pubkeypath privkeypath : string) : Prop :=
  (pubkeypath = "" ∧ privkeypath = "") ∨
  (pubkeypath ≠ "" ∧ privkeypath ≠ "" ∧
   ∃ private, KeyPair private ∧ load_public pubkeypath = Ret (Public private) ∧ load_private privkeypath = Ret private).

Lemma set_body_id r : BodyErr r = false → set_body r (Body r) = r.
Proof. destruct r; simpl. by intros ->. Qed.

Lemma paired_channel `{RSA} (pubkeypath privkeypath send : string) :
  paired pubkeypath privkeypath →
  ∃ c,
    (∀ (W : Type) (s : AgentSendFunc W) (r : headers) (serverHost xRealIp : string) (w : W),
       AsymmetricEncryptData s pubkeypath r send serverHost xRealIp w = s r c serverHost xRealIp w) ∧
    (∀ (S : Type) (h : handler S) (req : request) (w : world S),
       Body req = c → BodyErr req = false →
       AsymmetricDencryptData h privkeypath req w = h (set_body req send) w).
Proof.
  intros [[-> ->]|(Hpub_set & Hpriv_set & private & Hpair & Hpub & Hpriv)].
  { exists send. split; [done|]. intros S h req w <- Herr. by rewrite set_body_id. }
  destruct (oaep_roundtrip private send) as (c & He & Hd). exists (b64_EncodeToString c). split.
  - intros W s r serverHost xRealIp w. unfold AsymmetricEncryptData. rewrite decide_True by done.
    rewrite Hpub. cbn [mbind outcome_bind]. by rewrite He.
  - intros S h req w Hb Herr. unfold AsymmetricDencryptData. rewrite decide_True by done.
    rewrite Hpriv. cbn [mbind outcome_bind]. rewrite Herr, Hb, b64_roundtrip. by rewrite Hd.
Qed.

(** A request the agent's [SignNew] has signed passes the check, and a reply of one write keeps
    its status and body. *)
Lemma SignCheck_accepts {S} (h : handler S) key r w pre code d w' :
  (key ≠ "" → header_Get (Header r) signHeaderType = hex_EncodeToString (hmac_sha256 key (Body r))) →
  BodyErr r = false → Forall header_only pre →
  h r w = Ret (pre ++ [WriteHeader code; Write d], w') →
  ∃ pre', Forall header_only pre' ∧ SignCheck h key r w = Ret (pre' ++ [WriteHeader code; Write d], w').
Proof.
  intros Hsig He Hpre Hh. unfold SignCheck. cbv zeta. case_decide as Hk; [by exists pre|].
  rewrite Hsig by done. rewrite decide_True by apply hex_not_empty, hmac_not_empty. rewrite He, hex_roundtrip.
  rewrite decide_True by done. rewrite set_body_id, Hh by done. cbn [mbind outcome_bind].
  rewrite sign_calls_simple by done. exists (pre ++ [sign_header key (Body r +:+ d)]). split.
  - apply Forall_app_2; [done|by repeat constructor].
  - unfold signed_reply. by rewrite <- app_assoc.
Qed.

(** ** What the middlewares promise *)

(** [C18] The encrypted channel: when the agent's public key file and the server's private key file hold
    the two halves of one key pair, then whatever message the agent sends, of any length, the
    encrypting wrapper passes on one text [c], and the decrypting middleware given [c] as the
    body of any request runs its handler with exactly the message as the body. *)
Theorem encrypted_channel `{RSA} (private : PrivateKey) `{!KeyPair private} (pubkeypath privkeypath send : string)
    (Hpub : load_public pubkeypath = Ret (Public private)) (Hpriv : load_private privkeypath = Ret private)
    (Hpub_set : pubkeypath ≠ "") (Hpriv_set : privkeypath ≠ "") :
  ∃ c,
    (∀ (W : Type) (s : AgentSendFunc W) (r : headers) (serverHost xRealIp : string) (w : W),
       AsymmetricEncryptData s pubkeypath r send serverHost xRealIp w = s r c serverHost xRealIp w) ∧
    (∀ (S : Type) (h : handler S) (req : request) (w : world S),
       Body req = c → BodyErr req = false →
       AsymmetricDencryptData h privkeypath req w = h (set_body req send) w).
Proof.
  apply paired_channel. right. eauto 10.
Qed.

(** A stand-in for RSA with blocks of 68 bytes, hence parts of 2: the length, the message, padding. *)
Definition toy_encrypt (m : string) : goerror + string :=
  if decide (Z.of_nat (String.length m) ≤ 2)
  then inr (String (chr (Z.of_nat (String.length m))) m +:+ zeros (67 - String.length m))
  else inl (ErrMsg "crypto/rsa: message too long for RSA key size").

Definition toy_decrypt (c : string) : goerror + string :=
  match c with
  | String n m => inr (str_take (Z.to_nat (byte n)) m)
  | "" => inl (ErrMsg "crypto/rsa: decryption error")
  end.

Definition toy_pem : string := pem_EncodeToMemory (mkBlock "RSA PRIVATE KEY" "k").

Definition toy_RSA : RSA := {|
  PublicKey := unit; PrivateKey := unit; Public := λ _, tt; Size := λ _, 68;
  EncryptOAEP := λ _ _, toy_encrypt; DecryptOAEP := λ _, toy_decrypt;
  ReadFile := λ path, if decide (path = "key.pem") then Some toy_pem else None;
  ParsePKIXPublicKey := λ _, Some (Some tt); ParsePKCS1PrivateKey := λ _, Some tt
|}.

Lemma toy_KeyPair : KeyPair (H := toy_RSA) tt.
Proof.
  split; [done|]. intros n m Hm. unfold sha256_Size in Hm. cbn in *. unfold toy_encrypt. rewrite decide_True by lia.
  eexists. split; [done|]. split.
  - rewrite length_str_app, length_zeros. simpl. lia.
  - simpl. rewrite byte_chr by lia. rewrite Nat2Z.id. by rewrite str_take_app.
Qed.

Lemma encrypted_channel_witness :
  ∃ c,
    (∀ (W : Type) (s : AgentSendFunc W) (r : headers) (serverHost xRealIp : string) (w : W),
       AsymmetricEncryptData (H := toy_RSA) s "key.pem" r "hello" serverHost xRealIp w = s r c serverHost xRealIp w) ∧
    (∀ (S : Type) (h : handler S) (req : request) (w : world S),
       Body req = c → BodyErr req = false →
       AsymmetricDencryptData (H := toy_RSA) h "key.pem" req w = h (set_body req "hello") w).
Proof.
  apply (encrypted_channel (H := toy_RSA) (KeyPair0 := toy_KeyPair) tt "key.pem" "key.pem" "hello").
  - reflexivity.
  - reflexivity.
  - discriminate.
  - discriminate.
Defined.

(** The request carries the signature of its body under [key]. *)
Definition signed_with (key : string) (r : request) : Prop :=
  BodyErr r = false ∧ hex_DecodeString (header_Get (Header r) signHeaderType) = Some (hmac_sha256 key (Body r)).

(** [C31] The signature check, with a key set: a request whose signature header is the hex of the
    HMAC of its body is handed to the handler with that body, and the answer is signed; a request
    with any other signature header gets 400, and the handler is not run, whatever it is.  A request
    without the header is handed on unchecked. *)
Theorem sign_check_gate {S : Type} (h : handler S) (key : string) (r : request) (w : world S) (Hkey : key ≠ "") :
  let hdr := header_Get (Header r) signHeaderType in
  (hdr ≠ "" → signed_with key r →
     SignCheck h key r w = '(l, w) ← h (set_body r (Body r)) w; l ← sign_calls key (Body r) l; Ret (l, w)) ∧
  (hdr ≠ "" → ¬ signed_with key r →
     ∃ l, status l = StatusBadRequest ∧ ∀ h', SignCheck (S := S) h' key r w = Ret (l, w)) ∧
  (hdr = "" → SignCheck h key r w = '(l, w) ← h r w; l ← sign_calls key "" l; Ret (l, w)).
Proof.
  cbv zeta. unfold SignCheck, signed_with. split_and!.
  - intros Hh [He Hs]. rewrite decide_False, decide_True by done. by rewrite He, Hs, decide_True.
  - intros Hh Hn. destruct (BodyErr r) eqn:He.
    { eexists. split; [|intros h'; by rewrite decide_False, decide_True]. done. }
    destruct (hex_DecodeString _) as [sg|].
    + eexists. split; [|intros h'; rewrite decide_False, decide_True by done; by rewrite decide_False by naive_solver].
      done.
    + eexists. split; [|intros h'; by rewrite decide_False, decide_True]. done.
  - intros Hh. rewrite decide_False by done. by rewrite (decide_False (P := _ ≠ _)) by tauto.
Qed.

(** Answers OK. *)
Definition ok_handler : handler nat := λ _ w, Ret ([WriteHeader 200; Write "OK"], World (now w) (S (store w))).

Lemma sign_check_gate_witness :
  let r := mkRequest "POST" "/updates/" {[ signHeaderType := hex_EncodeToString (hmac_sha256 "k" "data") ]} "" ∅ "data" false in
  SignCheck ok_handler "k" r (World 0 0%nat) =
    Ret ([sign_header "k" "dataOK"; WriteHeader 200; Write "OK"], World 0 1%nat).
Proof.
  cbn zeta.
  rewrite (proj1 (sign_check_gate ok_handler "k"
    (mkRequest "POST" "/updates/" {[ signHeaderType := hex_EncodeToString (hmac_sha256 "k" "data") ]} "" ∅ "data" false)
    (World 0 0%nat) ltac:(discriminate))).
  - vm_compute. reflexivity.
  - vm_compute. discriminate.
  - vm_compute. split; reflexivity.
Defined.
