(* ===== verification/Keygen.v ===== *)
(** * The key generator

    [keygen/main.go]: one run writes [private.pem] and [public.pem], the files the private key of
    the server and the public key of the agent are read from.  Random generation, the two marshallers
    and the file system are parameters with their documented behaviour as laws. *)

From S2P Require Import Prelude Strconv Float64 GoErrors Metrics Json Codec Pem Http SignWriter CryptAndSign.

Open Scope Z_scope.

(** The files of the working directory, by name. *)
Abbreviation disk := (gmap string string).

(** What the generator calls: [rsa.GenerateKey] with [rand.Reader] (one run of it),
    [x509.MarshalPKCS1PrivateKey], [x509.MarshalPKIXPublicKey] and [os.WriteFile] with mode 0644, which
    may leave anything in the file when it fails. *)
Class KeyTools `{RSA} : Type := {
  GenerateKey : Z → goerror + PrivateKey;
  MarshalPKCS1PrivateKey : PrivateKey → string;
  MarshalPKIXPublicKey : PublicKey → goerror + string;
  WriteFile : string → string → disk → option goerror * disk
}.

Section Keygen.
Context `{KeyTools}.

Definition genPrivatePub : goerror + (string * PublicKey) :=
  match GenerateKey 4096 with
  | inl err => inl err
  | inr privateKey =>
      inr (pem_EncodeToMemory (mkBlock "RSA PRIVATE KEY" (MarshalPKCS1PrivateKey privateKey)), Public privateKey)
  end.

Definition marshalPubKey (publicKey : PublicKey) : goerror + string :=
  match MarshalPKIXPublicKey publicKey with
  | inl err => inl err
  | inr publicKeyBytes => inr (pem_EncodeToMemory (mkBlock "RSA PUBLIC KEY" publicKeyBytes))
  end.

(** The error [main] dies of through [log.Fatal], none when it returns, and the files it leaves. *)
Definition main (d : disk) : option goerror * disk :=
  match genPrivatePub with
  | inl err => (Some err, d)
  | inr (privateKey, publicKey) =>
      let '(err, d) := WriteFile "private.pem" privateKey d in
      match err with
      | Some err => (Some err, d)
      | None =>
          match marshalPubKey publicKey with
          | inl err => (Some err, d)
          | inr publicKeyPEM => WriteFile "public.pem" publicKeyPEM d
          end
      end
  end.
End Keygen.

(** The crypto middlewares of a process started on the files [d]. *)
Definition on_disk (R : RSA) (d : disk) : RSA := {|
  PublicKey := PublicKey; PrivateKey := PrivateKey; Public := Public; Size := Size;
  EncryptOAEP := EncryptOAEP; DecryptOAEP := DecryptOAEP; ReadFile := λ path, d !! path;
  ParsePKIXPublicKey := ParsePKIXPublicKey; ParsePKCS1PrivateKey := ParsePKCS1PrivateKey
|}.

(** Documented behaviour: a generated key has a modulus of as many bits as asked for, so its size in bytes
    is that number divided by eight and rounded up; what the marshallers write of a generated key the parsers read; a file that was written without an error holds what was written, and the other files are
    untouched; with a generated key OAEP with SHA-256 encrypts a message of at most [Size - 66] bytes. *)
Class KeyToolsLaws `{KeyTools} : Prop := {
  generate_size bits k : GenerateKey bits = inr k → Size (Public k) = (bits + 7) `div` 8;
  parse_private bits k :
    GenerateKey bits = inr k → ParsePKCS1PrivateKey (MarshalPKCS1PrivateKey k) = Some k;
  parse_public p b : MarshalPKIXPublicKey p = inr b → ParsePKIXPublicKey b = Some (Some p);
  write_file name data d d' : WriteFile name data d = (None, d') → d' = <[name := data]> d;
  write_file_other name data d err d' other :
    WriteFile name data d = (err, d') → other ≠ name → d' !! other = d !! other;
  oaep_short bits k n m :
    GenerateKey bits = inr k →
    Z.of_nat (String.length m) ≤ Size (Public k) - 2 * sha256_Size - 2 →
    ∃ c, EncryptOAEP (Public k) n m = inr c ∧ Z.of_nat (String.length c) = Size (Public k) ∧ DecryptOAEP k c = inr m
}.

Section Generated.
Context {R : RSA} {T : @KeyTools R} {L : @KeyToolsLaws R T}.

Lemma private_label : label "RSA PRIVATE KEY".
Proof. vm_compute. by repeat split. Qed.

Lemma public_label : label "RSA PUBLIC KEY".
Proof. vm_compute. by repeat split. Qed.

(** A run that succeeds leaves the two halves of the generated key. *)
Lemma main_files d d' :
  main d = (None, d') →
  ∃ k bytes, GenerateKey 4096 = inr k ∧ MarshalPKIXPublicKey (Public k) = inr bytes ∧
    d' = <["public.pem" := pem_EncodeToMemory (mkBlock "RSA PUBLIC KEY" bytes)]>
           (<["private.pem" := pem_EncodeToMemory (mkBlock "RSA PRIVATE KEY" (MarshalPKCS1PrivateKey k))]> d).
Proof.
  unfold main, genPrivatePub, marshalPubKey. destruct (GenerateKey 4096) as [|k] eqn:Hg; [done|].
  destruct (WriteFile "private.pem" _ d) as [[err|] d1] eqn:Hw; [done|]. apply write_file in Hw as ->.
  destruct (MarshalPKIXPublicKey (Public k)) as [|bytes] eqn:Hm; [done|]. intros Hw. apply write_file in Hw as ->.
  by exists k, bytes.
Qed.

Lemma generated_pair d (k : @PrivateKey R) : @GenerateKey R T 4096 = inr k → KeyPair (H := on_disk R d) k.
Proof.
  intros Hg. split; [|intros n m; exact (oaep_short 4096 k n m Hg)].
  change (2 * sha256_Size + 2 < Size (Public k)). by rewrite (generate_size _ _ Hg).
Qed.

Lemma generated_paired d d' : main d = (None, d') → paired (H := on_disk R d') "public.pem" "private.pem".
Proof.
  intros (k & bytes & Hg & Hm & ->)%main_files. right. split_and!; [done..|]. exists k.
  split_and!; [by eapply generated_pair|..].
  - unfold load_public. cbn [ReadFile on_disk]. rewrite lookup_insert_eq, pem_roundtrip by apply public_label.
    cbn. by rewrite (parse_public _ _ Hm).
  - unfold load_private. cbn [ReadFile on_disk]. rewrite lookup_insert_ne, lookup_insert_eq by done.
    rewrite pem_roundtrip by apply private_label. cbn. by rewrite (parse_private _ _ Hg).
Qed.
(** [C32] The key generator makes a working channel: when a run returns without an error, then with the
    files it left, [public.pem] given to the agent and [private.pem] to the server, a message of any
    length that the agent's wrapper encrypts arrives at the server's handler unchanged.  No other
    file is touched. *)
Theorem keygen_channel (d d' : disk) (send : string) (Hmain : main d = (None, d')) :
  (∀ other, other ≠ "private.pem" → other ≠ "public.pem" → d' !! other = d !! other) ∧
  ∃ c,
    (∀ (W : Type) (s : AgentSendFunc W) (r : headers) (serverHost xRealIp : string) (w : W),
       AsymmetricEncryptData (H := on_disk R d') s "public.pem" r send serverHost xRealIp w =
       s r c serverHost xRealIp w) ∧
    (∀ (S : Type) (h : handler S) (req : request) (w : world S),
       Body req = c → BodyErr req = false →
       AsymmetricDencryptData (H := on_disk R d') h "private.pem" req w = h (set_body req send) w).
Proof.
  split.
  - intros other Hpriv Hpub. apply main_files in Hmain as (k & bytes & _ & _ & ->).
    by rewrite !lookup_insert_ne by done.
  - eapply paired_channel, generated_paired, Hmain.
Qed.

(** A run that fails: [public.pem] holds what it held before, unless its own write failed, while
    [private.pem] may already hold the new key; no other file is touched. *)
Theorem keygen_failure (d d' : disk) (err : goerror) (Hmain : main d = (Some err, d')) :
  (∀ other, other ≠ "private.pem" → other ≠ "public.pem" → d' !! other = d !! other) ∧
  (GenerateKey 4096 = inl err ∧ d' = d ∨
   ∃ k, GenerateKey 4096 = inr k ∧
     let private := pem_EncodeToMemory (mkBlock "RSA PRIVATE KEY" (MarshalPKCS1PrivateKey k)) in
     (WriteFile "private.pem" private d = (Some err, d') ∧ d' !! "public.pem" = d !! "public.pem" ∨
      MarshalPKIXPublicKey (Public k) = inl err ∧ d' = <["private.pem" := private]> d ∨
      ∃ bytes, MarshalPKIXPublicKey (Public k) = inr bytes ∧ d' !! "private.pem" = Some private ∧
        WriteFile "public.pem" (pem_EncodeToMemory (mkBlock "RSA PUBLIC KEY" bytes))
          (<["private.pem" := private]> d) = (Some err, d'))).
Proof.
  unfold main, genPrivatePub, marshalPubKey in Hmain.
  destruct (GenerateKey 4096) as [e|k] eqn:Hg; [simplify_eq; by auto|].
  destruct (WriteFile "private.pem" _ d) as [[e|] d1] eqn:Hw.
  { simplify_eq. split; [intros other ??; by eapply write_file_other|]. right. exists k. split; [done|].
    left. split; [done|]. by eapply write_file_other. }
  apply write_file in Hw as ->. destruct (MarshalPKIXPublicKey (Public k)) as [e|bytes] eqn:Hm.
  - simplify_eq. split; [intros; by rewrite lookup_insert_ne|]. right. exists k. split; [done|]. by right; left.
  - split.
    + intros other ??. rewrite (write_file_other _ _ _ _ _ other Hmain) by done. by rewrite lookup_insert_ne.
    + right. exists k. split; [done|]. right; right. exists bytes. split; [done|]. split; [|done].
      rewrite (write_file_other _ _ _ _ _ "private.pem" Hmain) by done. by rewrite lookup_insert_eq.
Qed.
End Generated.

(** ** A stand-in for RSA with keys of any size

    A key is its size in bytes; a message is padded on the left to that size. *)
Fixpoint unpad (c : string) : goerror + string :=
  match c with
  | "" => inl (ErrMsg "crypto/rsa: decryption error")
  | String x c => if decide (x = "0"%char) then unpad c else inr c
  end.

Lemma unpad_zeros n m : unpad (zeros n +:+ String "1" m) = inr m.
Proof. induction n; [done|]. cbn [zeros]. by rewrite str_app_cons. Qed.

Definition sized_RSA : RSA := {|
  PublicKey := nat; PrivateKey := nat; Public := λ k, k; Size := Z.of_nat;
  EncryptOAEP := λ k _ m,
    if decide (Z.of_nat (String.length m) ≤ Z.of_nat k - 66) then inr (zeros (k - 1 - String.length m) +:+ String "1" m)
    else inl (ErrMsg "crypto/rsa: message too long for RSA key size");
  DecryptOAEP := λ _, unpad; ReadFile := λ _, None;
  ParsePKIXPublicKey := λ b, Some (Some (String.length b)); ParsePKCS1PrivateKey := λ b, Some (String.length b)
|}.

Definition sized_tools : KeyTools (H := sized_RSA) := {|
  GenerateKey := λ bits, if decide (0 ≤ bits) then inr (Z.to_nat ((bits + 7) `div` 8)) : goerror + @PrivateKey sized_RSA
                         else inl (ErrMsg "crypto/rsa: too few bits");
  MarshalPKCS1PrivateKey := zeros : @PrivateKey sized_RSA → string;
  MarshalPKIXPublicKey := λ k : @PublicKey sized_RSA, inr (zeros k);
  WriteFile := λ name data d, (None, <[name := data]> d)
|}.

Lemma sized_laws : KeyToolsLaws (H := sized_RSA) (H0 := sized_tools).
Proof.
  split; cbn.
  - intros bits k. case_decide; [|done]. intros [= <-]. rewrite Z2Nat.id; [done|]. apply Z.div_pos; lia.
  - intros bits k _. by rewrite length_zeros.
  - intros p b [= <-]. by rewrite length_zeros.
  - intros name data d d' [= <-]. done.
  - intros name data d err d' other [= <- <-] Hne. by rewrite lookup_insert_ne.
  - intros bits k n m _ Hm. unfold sha256_Size in Hm. rewrite decide_True by lia. eexists. split; [done|]. split.
    + rewrite length_str_app, length_zeros. simpl. lia.
    + apply unpad_zeros.
Qed.

Lemma keygen_channel_witness :
  let d' := (main (H0 := sized_tools) {[ "config.json" := "{}" ]}).2 in
  d' !! "config.json" = Some "{}" ∧
  ∃ c,
    (∀ (W : Type) (s : AgentSendFunc W) (r : headers) (serverHost xRealIp : string) (w : W),
       AsymmetricEncryptData (H := on_disk sized_RSA d') s "public.pem" r "hello" serverHost xRealIp w =
       s r c serverHost xRealIp w) ∧
    (∀ (S : Type) (h : handler S) (req : request) (w : world S),
       Body req = c → BodyErr req = false →
       AsymmetricDencryptData (H := on_disk sized_RSA d') h "private.pem" req w = h (set_body req "hello") w).
Proof.
  intros d'.
  destruct (keygen_channel (R := sized_RSA) (T := sized_tools) (L := sized_laws) {[ "config.json" := "{}" ]} d' "hello"
    ltac:(apply injective_projections; [vm_compute; reflexivity|reflexivity])) as [Hother Hc].
  split; [|exact Hc]. rewrite Hother; [reflexivity|discriminate|discriminate].
Defined.
