(* ===== verification/Chi.v ===== *)
(** * The router

    [vendor/github.com/go-chi/chi/v5]: the radix tree of [tree.go] (inserting a route, finding one), and of [mux.go] and
    [context.go] what the server uses of them.  Handlers and compiled regular expressions are parameters.  A tree is
    a value here: no node of it is shared, so that changing a node in place is building the tree
    with the new node.  [findRoute_spec] says what a search in a tree of static and parameter nodes finds. *)

From S2P Require Import Prelude Strconv Float64 Http.

Open Scope Z_scope.

Module Router.

(** ** Methods *)

Definition mSTUB : Z := 1.
Definition mCONNECT : Z := 2.
Definition mDELETE : Z := 4.
Definition mGET : Z := 8.
Definition mHEAD : Z := 16.
Definition mOPTIONS : Z := 32.
Definition mPATCH : Z := 64.
Definition mPOST : Z := 128.
Definition mPUT : Z := 256.
Definition mTRACE : Z := 512.

Definition methodMap : list (string * Z) :=
  [("CONNECT", mCONNECT); ("DELETE", mDELETE); ("GET", mGET); ("HEAD", mHEAD); ("OPTIONS", mOPTIONS);
   ("PATCH", mPATCH); ("POST", mPOST); ("PUT", mPUT); ("TRACE", mTRACE)].

Definition mALL : Z := foldr Z.lor 0 (methodMap.*2).

Definition method_of (s : string) : option Z := (λ x, x.2.2) <$> list_find (λ x, x.1 = s) methodMap.
Definition reverseMethodMap (m : Z) : string :=
  match list_find (λ x, x.2 = m) methodMap with Some (_, x) => x.1 | None => "" end.

(** ** Nodes *)

Inductive nodeTyp : Type := ntStatic | ntRegexp | ntParam | ntCatchAll.
#[global] Instance nodeTyp_eq_dec : EqDecision nodeTyp.
Proof. solve_decision. Defined.

(** Package regexp. *)
Class Regexp : Type := {
  Rex : Type;
  Compile : string → option Rex;
  MatchString : Rex → string → bool
}.

Record endpoint (H : Type) : Type := mkEndpoint { ep_handler : option H; ep_pattern : string; paramKeys : list string }.
Arguments mkEndpoint {H} _ _ _.
Arguments ep_handler {H} _.
Arguments ep_pattern {H} _.
Arguments paramKeys {H} _.

(** The fields of a node but its children, and the node; [endpoints] is nil for [None].  [subroutes] is
    used by mounted routers only and left out. *)
Record info (H : Type) `{Regexp} : Type := mkInfo {
  typ : nodeTyp;
  label : ascii;
  tail : ascii;
  prefix : string;
  rex : option Rex;
  endpoints : option (gmap Z (endpoint H))
}.
Arguments mkInfo {H _} _ _ _ _ _ _.
Arguments typ {H _} _.
Arguments label {H _} _.
Arguments tail {H _} _.
Arguments prefix {H _} _.
Arguments rex {H _} _.
Arguments endpoints {H _} _.

#[warnings="-register-all"]
Inductive node (H : Type) `{Regexp} : Type :=
| Node (i : info H) (statics regexps params catchalls : list (node H)).
Arguments Node {H _} _ _ _ _ _.

(** [strings.IndexByte], and [strings.Index] of a text of one byte. *)
Fixpoint IndexByte (s : string) (c : ascii) : option nat :=
  match s with
  | "" => None
  | String d s => if decide (d = c) then Some 0%nat else S <$> IndexByte s c
  end.

(** The first byte, 0 of the empty string. *)
Definition first_byte (s : string) : ascii := match s with "" => zero | String c _ => c end.

Fixpoint longestPrefix (k1 k2 : string) : nat :=
  match k1, k2 with
  | String a k1, String b k2 => if decide (a = b) then S (longestPrefix k1 k2) else O
  | _, _ => O
  end.

(** ** Patterns *)

(** The index of the brace that closes the first one: [cc] braces are open. *)
Fixpoint closing_brace (s : string) (cc : Z) : option nat :=
  match s with
  | "" => None
  | String c s =>
      if decide (c = "{"%char) then S <$> closing_brace s (cc + 1)
      else if decide (c = "}"%char) then
        if decide (cc - 1 = 0) then Some 0%nat else S <$> closing_brace s (cc - 1)
      else S <$> closing_brace s cc
  end.

Definition last_byte (s : string) : ascii := first_byte (str_drop (String.length s - 1) s).

(** The anchors a regular expression gets. *)
Definition anchored (rexpat : string) : string :=
  if decide (rexpat = "") then ""
  else
    let rexpat := if decide (first_byte rexpat = "^"%char) then rexpat else String "^" rexpat in
    if decide (last_byte rexpat = "$"%char) then rexpat else rexpat +:+ "$".

Record next_segment : Type := mkSegment {
  segTyp : nodeTyp; segKey : string; segRexpat : string; segTail : ascii; segStart : nat; segEnd : nat }.

Definition patNextSegment (pattern : string) : outcome next_segment :=
  let ps := IndexByte pattern "{"%char in
  let ws := IndexByte pattern "*"%char in
  match ps, ws with
  | None, None => Ret (mkSegment ntStatic "" "" zero 0 (String.length pattern))
  | Some ps, _ =>
      if (match ws with Some ws => bool_decide (ws < ps)%nat | None => false end) then
        Panic "chi: wildcard '*' must be the last pattern in a route, otherwise use a '{param}'"
      else
        match closing_brace (str_drop ps pattern) 0 with
        | None => Panic "chi: route param closing delimiter '}' is missing"
        | Some i =>
            let pe := (ps + i)%nat in
            let key := str_take (pe - (ps + 1)) (str_drop (ps + 1) pattern) in
            let pe := S pe in
            let tail := if decide (pe < String.length pattern)%nat then first_byte (str_drop pe pattern) else "/"%char in
            match IndexByte key ":"%char with
            | Some idx =>
                Ret (mkSegment ntRegexp (str_take idx key) (anchored (str_drop (idx + 1) key)) tail ps pe)
            | None => Ret (mkSegment ntParam key "" tail ps pe)
            end
        end
  | None, Some ws =>
      if decide (ws < String.length pattern - 1)%nat then
        Panic "chi: wildcard '*' must be the last value in a route. trim trailing text or use a '{param}' instead"
      else Ret (mkSegment ntCatchAll "*" "" zero ws (String.length pattern))
  end.

(** [fuel]: every segment is at least a byte long. *)
Fixpoint param_keys (fuel : nat) (pat : string) (keys : list string) : outcome (list string) :=
  match fuel with
  | O => NoFuel
  | S fuel =>
      seg ← patNextSegment pat;
      if decide (segTyp seg = ntStatic) then Ret keys
      else if decide (segKey seg ∈ keys) then Panic "chi: routing pattern contains duplicate param key"
      else param_keys fuel (str_drop (segEnd seg) pat) (keys ++ [segKey seg])
  end.
Definition patParamKeys (pattern : string) : outcome (list string) := param_keys (S (String.length pattern)) pattern [].

(** ** Building the tree *)

Section Tree.
Context {H : Type} `{Regexp}.

Definition node_info (n : node H) : info H := match n with Node i _ _ _ _ => i end.
Definition set_info (i : info H) (n : node H) : node H := match n with Node _ s r p c => Node i s r p c end.

Definition children (n : node H) (t : nodeTyp) : list (node H) :=
  match n, t with
  | Node _ s _ _ _, ntStatic => s
  | Node _ _ r _ _, ntRegexp => r
  | Node _ _ _ p _, ntParam => p
  | Node _ _ _ _ c, ntCatchAll => c
  end.

Definition set_children (t : nodeTyp) (l : list (node H)) (n : node H) : node H :=
  match n, t with
  | Node i s r p c, ntStatic => Node i l r p c
  | Node i s r p c, ntRegexp => Node i s l p c
  | Node i s r p c, ntParam => Node i s r l c
  | Node i s r p c, ntCatchAll => Node i s r p l
  end.

Definition new_node (i : info H) : node H := Node i [] [] [] [].
Definition empty_node : node H := new_node (mkInfo ntStatic zero zero "" None None).

Definition set_typ (t : nodeTyp) (i : info H) : info H := mkInfo t (label i) (tail i) (prefix i) (rex i) (endpoints i).
Definition set_label (c : ascii) (i : info H) : info H := mkInfo (typ i) c (tail i) (prefix i) (rex i) (endpoints i).
Definition set_tail (c : ascii) (i : info H) : info H := mkInfo (typ i) (label i) c (prefix i) (rex i) (endpoints i).
Definition set_prefix (s : string) (i : info H) : info H := mkInfo (typ i) (label i) (tail i) s (rex i) (endpoints i).
Definition set_rex (r : option Rex) (i : info H) : info H := mkInfo (typ i) (label i) (tail i) (prefix i) r (endpoints i).
Definition set_endpoints (e : option (gmap Z (endpoint H))) (i : info H) : info H :=
  mkInfo (typ i) (label i) (tail i) (prefix i) (rex i) e.

Definition on_info (f : info H → info H) (n : node H) : node H := set_info (f (node_info n)) n.

(** [sort.Sort] by label: an insertion sort, as it is for fewer than twelve nodes, so that equal labels keep
    their order. *)
Fixpoint insert_by_label (n : node H) (l : list (node H)) : list (node H) :=
  match l with
  | [] => [n]
  | m :: l =>
      if decide (N_of_ascii (label (node_info n)) < N_of_ascii (label (node_info m)))%N then n :: m :: l
      else m :: insert_by_label n l
  end.
Definition sort_by_label (l : list (node H)) : list (node H) := foldl (λ l n, insert_by_label n l) [] l.

(** [tailSort]: the last node that is not static and has [/] as its tail changes places with the last one. *)
Definition swap_last (i : nat) (l : list (node H)) : list (node H) :=
  match l !! i, last l with Some a, Some b => <[(length l - 1)%nat := a]> (<[i := b]> l) | _, _ => l end.
Fixpoint last_wild (l : list (node H)) (i : nat) (found : option nat) : option nat :=
  match l with
  | [] => found
  | n :: l =>
      last_wild l (S i) (if decide (typ (node_info n) ≠ ntStatic ∧ tail (node_info n) = "/"%char) then Some i else found)
  end.
Definition tailSort (l : list (node H)) : list (node H) :=
  match last_wild l 0 None with Some i => swap_last i l | None => l end.

Definition Sort (l : list (node H)) : list (node H) := tailSort (sort_by_label l).

(** [setEndpoint]. *)
Definition value_of (eps : gmap Z (endpoint H)) (m : Z) : endpoint H := default (mkEndpoint None "" []) (eps !! m).

Definition setEndpoint (method : Z) (h : H) (pattern : string) (n : node H) : outcome (node H) :=
  keys ← patParamKeys pattern;
  let eps := default ∅ (endpoints (node_info n)) in
  let eps :=
    if decide (Z.land method mSTUB = mSTUB) then
      <[mSTUB := mkEndpoint (Some h) (ep_pattern (value_of eps mSTUB)) (paramKeys (value_of eps mSTUB))]> eps
    else eps in
  let set m eps := <[m := mkEndpoint (Some h) pattern keys]> eps in
  let eps :=
    if decide (Z.land method mALL = mALL) then foldr set (set mALL eps) (methodMap.*2) else set method eps in
  Ret (on_info (set_endpoints (Some eps)) n).

(** [addChild]; [leaf] is what is done to the node it returns, the one that gets the endpoint. *)
Fixpoint addChild (fuel : nat) (leaf : node H → outcome (node H)) (n child : node H) (search : string) : outcome (node H) :=
  match fuel with
  | O => NoFuel
  | S fuel =>
      seg ← patNextSegment search;
      child ←
        match segTyp seg with
        | ntStatic => leaf child
        | t =>
            child ←
              (if decide (t = ntRegexp) then
                 match Compile (segRexpat seg) with
                 | None => Panic "chi: invalid regexp pattern in route param"
                 | Some r => Ret (on_info (λ i, set_rex (Some r) (set_prefix (segRexpat seg) i)) child)
                 end
               else Ret child);
            if decide (segStart seg = 0%nat) then
              let start := if decide (t = ntCatchAll) then String.length search else segEnd seg in
              let child := on_info (λ i, set_tail (segTail seg) (set_typ t i)) child in
              if decide (start ≠ String.length search) then
                let search := str_drop start search in
                addChild fuel leaf child (new_node (mkInfo ntStatic (first_byte search) zero search None None)) search
              else leaf child
            else
              let child := on_info (λ i, set_rex None (set_prefix (str_take (segStart seg) search) (set_typ ntStatic i))) child in
              let search := str_drop (segStart seg) search in
              addChild fuel leaf child (new_node (mkInfo t (first_byte search) (segTail seg) "" None None)) search
        end;
      let t := typ (node_info child) in
      Ret (set_children t (Sort (children n t ++ [child])) n)
  end.

(** The first edge that fits, with its place. *)
Definition is_edge (ntyp : nodeTyp) (l t : ascii) (pre : string) (n : node H) : bool :=
  bool_decide (label (node_info n) = l) && bool_decide (tail (node_info n) = t) &&
  negb (bool_decide (ntyp = ntRegexp) && bool_decide (prefix (node_info n) ≠ pre)).
Definition getEdge (ntyp : nodeTyp) (l t : ascii) (pre : string) (n : node H) : option (nat * node H) :=
  list_find (λ m, is_edge ntyp l t pre m = true) (children n ntyp).

Definition replaceChild (l t : ascii) (child n : node H) : outcome (node H) :=
  let ty := typ (node_info child) in
  match list_find (λ m, label (node_info m) = l ∧ tail (node_info m) = t) (children n ty) with
  | Some (i, _) => Ret (set_children ty (<[i := on_info (λ j, set_tail t (set_label l j)) child]> (children n ty)) n)
  | None => Panic "chi: replacing missing child"
  end.

(** [InsertRoute], from the node [n] on; every turn of the loop consumes a byte of the pattern. *)
Fixpoint insert_route (fuel : nat) (leaf : node H → outcome (node H)) (n : node H) (search : string) : outcome (node H) :=
  match fuel with
  | O => NoFuel
  | S fuel =>
      if decide (search = "") then leaf n
      else
        let l := first_byte search in
        seg ← (if decide (l = "{"%char ∨ l = "*"%char) then patNextSegment search
               else Ret (mkSegment ntStatic "" "" zero 0 0));
        let pre := if decide (segTyp seg = ntRegexp) then segRexpat seg else "" in
        match getEdge (segTyp seg) l (segTail seg) pre n with
        | None =>
            addChild (S (String.length search)) leaf n
              (new_node (mkInfo ntStatic l (segTail seg) search None None)) search
        | Some (i, e) =>
            let replace e := set_children (segTyp seg) (<[i := e]> (children n (segTyp seg))) n in
            if decide (typ (node_info e) ≠ ntStatic) then
              e ← insert_route fuel leaf e (str_drop (segEnd seg) search); Ret (replace e)
            else
              let common := longestPrefix search (prefix (node_info e)) in
              if decide (common = String.length (prefix (node_info e))) then
                e ← insert_route fuel leaf e (str_drop common search); Ret (replace e)
              else
                let child := new_node (mkInfo ntStatic zero zero (str_take common search) None None) in
                (* the new node takes the place of [e] and gets its label and tail ... *)
                _ ← replaceChild l (segTail seg) child n;
                let child := on_info (λ j, set_tail (segTail seg) (set_label l j)) child in
                (* ... and [e], with what is left of its prefix, becomes its child *)
                let rest := str_drop common (prefix (node_info e)) in
                let e := on_info (λ j, set_prefix rest (set_label (first_byte rest) j)) e in
                child ← addChild (S (String.length rest)) (λ m, Ret m) child e rest;
                let search := str_drop common search in
                child ←
                  (if decide (search = "") then leaf child
                   else addChild (S (String.length search)) leaf child
                          (new_node (mkInfo ntStatic (first_byte search) zero search None None)) search);
                Ret (replace child)
        end
  end.

Definition InsertRoute (method : Z) (pattern : string) (h : H) (root : node H) : outcome (node H) :=
  insert_route (S (String.length pattern)) (setEndpoint method h pattern) root pattern.
End Tree.

(** ** Finding a route *)

(** What [findRoute] changes of the routing context. *)
Record rctx : Type := mkRctx { Values : list string; Keys : list string; methodNotAllowed : bool; methodsAllowed : list Z }.
Definition new_rctx : rctx := mkRctx [] [] false [].

Definition set_values (v : list string) (c : rctx) : rctx := mkRctx v (Keys c) (methodNotAllowed c) (methodsAllowed c).
Definition pop_value (c : rctx) : rctx := set_values (take (length (Values c) - 1) (Values c)) c.

Section Find.
Context {H : Type} `{Regexp}.

(** [findEdge] on the nodes of a group: a binary search, from [i] to [j]; the last index looked at. *)
Fixpoint search_label (fuel : nat) (nds : list (node H)) (l : ascii) (i j idx : Z) : Z :=
  match fuel with
  | O => idx
  | S fuel =>
      if decide (i ≤ j) then
        let idx := i + (j - i) / 2 in
        match nds !! Z.to_nat idx with
        | None => idx
        | Some nd =>
            let c := N_of_ascii (label (node_info nd)) in
            if decide (c < N_of_ascii l)%N then search_label fuel nds l (idx + 1) j idx
            else if decide (N_of_ascii l < c)%N then search_label fuel nds l i (idx - 1) idx
            else idx
        end
      else idx
  end.

Definition findEdge (nds : list (node H)) (l : ascii) : option (node H) :=
  nd ← nds !! Z.to_nat (search_label (S (length nds)) nds l 0 (Z.of_nat (length nds) - 1) 0);
  if decide (label (node_info nd) ≠ l) then None else Some nd.

(** The methods of a node; Go visits them in an unspecified order. *)
Definition methods_of (eps : gmap Z (endpoint H)) : list Z :=
  filter (λ m, m ≠ mALL ∧ m ≠ mSTUB) ((map_to_list eps).*1).

(** Did the search end at this node?  If so the keys are recorded, or the methods it has. *)
Definition at_leaf (xn : node H) (method : Z) (xsearch : string) (c : rctx) : bool * rctx :=
  if decide (xsearch = "") then
    match endpoints (node_info xn) with
    | None => (false, c)
    | Some eps =>
        match eps !! method with
        | Some (mkEndpoint (Some _) _ keys) => (true, mkRctx (Values c) (Keys c ++ keys) (methodNotAllowed c) (methodsAllowed c))
        | _ => (false, mkRctx (Values c) (Keys c) true (methodsAllowed c ++ methods_of eps))
        end
    end
  else (false, c).

Section Groups.
(** The recursive call. *)
Context (rec : node H → string → rctx → outcome (option (node H) * rctx)) (method : Z).

Definition descend (xn : node H) (xsearch : string) (c : rctx) : outcome (option (node H) * rctx) :=
  let '(found, c) := at_leaf xn method xsearch c in
  if found then Ret (Some xn, c) else rec xn xsearch c.

(** How much of the path a parameter node takes. *)
Definition param_end (ntyp : nodeTyp) (xn : node H) (xsearch : string) : option nat :=
  p ← match IndexByte xsearch (tail (node_info xn)) with
      | None => if decide (tail (node_info xn) = "/"%char) then Some (String.length xsearch) else None
      | Some p => if decide (ntyp = ntRegexp ∧ p = 0%nat) then None else Some p
      end;
  match ntyp, rex (node_info xn) with
  | ntRegexp, Some r => if MatchString r (str_take p xsearch) then Some p else None
  | _, _ => match IndexByte (str_take p xsearch) "/"%char with Some _ => None | None => Some p end
  end.

(** The loop over the nodes of the group. *)
Fixpoint try_params (ntyp : nodeTyp) (nds : list (node H)) (search : string) (c : rctx) : outcome (option (node H) * rctx) :=
  match nds with
  | [] => Ret (None, c)
  | xn :: nds =>
      match param_end ntyp xn search with
      | None => try_params ntyp nds search c
      | Some p =>
          '(fin, c') ← descend xn (str_drop p search) (set_values (Values c ++ [str_take p search]) c);
          match fin with
          | Some _ => Ret (fin, c')
          | None => try_params ntyp nds search (set_values (take (length (Values c)) (Values c')) c')
          end
      end
  end.

(** One group of children. *)
Definition try_group (ntyp : nodeTyp) (nds : list (node H)) (search : string) (c : rctx) : outcome (option (node H) * rctx) :=
  match ntyp with
  | ntStatic =>
      match findEdge nds (first_byte search) with
      | None => Ret (None, c)
      | Some xn =>
          if HasPrefix search (prefix (node_info xn)) then
            '(fin, c) ← descend xn (str_drop (String.length (prefix (node_info xn))) search) c;
            match fin with
            | Some _ => Ret (fin, c)
            | None => Ret (None, if decide (typ (node_info xn) = ntStatic) then c else pop_value c)
            end
          else Ret (None, c)
      end
  | ntParam | ntRegexp =>
      if decide (search = "") then Ret (None, c)
      else
        '(fin, c) ← try_params ntyp nds search c;
        match fin with
        | Some _ => Ret (fin, c)
        | None =>
            (* after the loop the last node is tried with an empty parameter *)
            match last nds with
            | None => Ret (None, c)
            | Some xn =>
                '(fin, c) ← descend xn search (set_values (Values c ++ [""]) c);
                match fin with
                | Some _ => Ret (fin, c)
                | None => Ret (None, if decide (typ (node_info xn) = ntStatic) then c else pop_value c)
                end
            end
        end
  | ntCatchAll =>
      match nds with
      | [] => Ret (None, c)
      | xn :: _ =>
          '(fin, c) ← descend xn "" (set_values (Values c ++ [search]) c);
          match fin with
          | Some _ => Ret (fin, c)
          | None => Ret (None, if decide (typ (node_info xn) = ntStatic) then c else pop_value c)
          end
      end
  end.

Fixpoint try_groups (ts : list nodeTyp) (n : node H) (search : string) (c : rctx) : outcome (option (node H) * rctx) :=
  match ts with
  | [] => Ret (None, c)
  | t :: ts =>
      if decide (children n t = []) then try_groups ts n search c
      else
        '(fin, c) ← try_group t (children n t) search c;
        match fin with Some _ => Ret (fin, c) | None => try_groups ts n search c end
  end.
End Groups.

(** [fuel]: the height of the tree is enough. *)
Fixpoint findRoute (fuel : nat) (method : Z) (n : node H) (path : string) (c : rctx) : outcome (option (node H) * rctx) :=
  match fuel with
  | O => NoFuel
  | S fuel => try_groups (findRoute fuel method) method [ntStatic; ntRegexp; ntParam; ntCatchAll] n path c
  end.

Fixpoint height (n : node H) : nat :=
  match n with
  | Node _ s r p c =>
      S (Nat.max (Nat.max (max_list (height <$> s)) (max_list (height <$> r)))
           (Nat.max (max_list (height <$> p)) (max_list (height <$> c))))
  end.

(** The URL parameters, as [URLParam] looks them up: the last of the values of a key. *)
Definition url_params (keys values : list string) : gmap string string :=
  foldl (λ m kv, <[kv.1 := kv.2]> m) ∅ (zip keys values).

(** What [routeHTTP] does with a request; [RoutePath] and [RouteMethod] are empty before it. *)
Inductive routed : Type :=
| RServe (h : H) (params : gmap string string)
| RMethodNotAllowed (methods : list Z)
| RNotFound.

(** [FindRoute], and [routeHTTP] without the call of the handler. *)
Definition FindRoute (root : node H) (method : Z) (path : string) : outcome (option H * rctx) :=
  '(rn, c) ← findRoute (height root) method root path new_rctx;
  match rn with
  | None => Ret (None, c)
  | Some rn =>
      match eps ← endpoints (node_info rn); eps !! method with
      | None => Panic "nil pointer dereference"
      | Some ep => Ret (ep_handler ep, c)
      end
  end.

Definition routeHTTP (root : node H) (method path : string) : outcome routed :=
  let routePath := if decide (path = "") then "/" else path in
  match method_of method with
  | None => Ret (RMethodNotAllowed [])
  | Some m =>
      '(h, c) ← FindRoute root m routePath;
      match h with
      | Some h => Ret (RServe h (url_params (Keys c) (Values c)))
      | None => if methodNotAllowed c then Ret (RMethodNotAllowed (methodsAllowed c)) else Ret RNotFound
      end
  end.

(** ** Mux *)

(** [handler] is nil until the first route; then no middleware may follow. *)
Record Mux (M : Type) : Type := mkMux { tree : node H; middlewares : list M; has_handler : bool }.
Arguments mkMux {M} _ _ _.
Arguments tree {M} _.
Arguments middlewares {M} _.
Arguments has_handler {M} _.

Definition NewRouter {M} : Mux M := mkMux empty_node [] false.

Definition Use {M} (mw : M) (mx : Mux M) : outcome (Mux M) :=
  if has_handler mx then Panic "chi: all middlewares must be defined before routes on a mux"
  else Ret (mkMux (tree mx) (middlewares mx ++ [mw]) false).

Definition handle {M} (method : Z) (pattern : string) (h : H) (mx : Mux M) : outcome (Mux M) :=
  if decide (first_byte pattern ≠ "/"%char) then Panic "chi: routing pattern must begin with '/'"
  else t ← InsertRoute method pattern h (tree mx); Ret (mkMux t (middlewares mx) true).

Definition Get {M} : string → H → Mux M → outcome (Mux M) := handle mGET.
Definition Post {M} : string → H → Mux M → outcome (Mux M) := handle mPOST.

(** [chain]: the first middleware is the outermost. *)
Definition chain {A} (mws : list (A → A)) (endpoint : A) : A := foldr (λ mw h, mw h) endpoint mws.
End Find.
Arguments mkMux {H _ M} _ _ _.
Arguments tree {H _ M} _.
Arguments middlewares {H _ M} _.
Arguments has_handler {H _ M} _.
Arguments RServe {H} _ _.
Arguments RMethodNotAllowed {H} _.
Arguments RNotFound {H}.

(** ** Examples *)

(** The tests below use a package regexp that knows nothing. *)
Definition no_regexp : Regexp := {| Rex := (); Compile := λ _, None; MatchString := λ _ _, false |}.

Section Examples.
#[local] Existing Instance no_regexp.

Definition example_mux : outcome (Mux ()) :=
  mx ← Get "/a/{x}/b" 1%nat NewRouter; mx ← Get "/a/{x}/c/{y}" 2%nat mx; mx ← Post "/a/{x}/c" 3%nat mx;
  mx ← Get "/ab" 4%nat mx; mx ← Get "/files/*" 5%nat mx; Post "/v{n}-{m}" 6%nat mx.

Example example_routes :
  ∃ mx, example_mux = Ret mx ∧
    routeHTTP (tree mx) "GET" "/a/1/b" = Ret (RServe 1%nat {[ "x" := "1" ]}) ∧
    routeHTTP (tree mx) "GET" "/a//c/2" = Ret (RServe 2%nat {[ "x" := ""; "y" := "2" ]}) ∧
    routeHTTP (tree mx) "GET" "/a/1/c" = Ret (RMethodNotAllowed [mPOST]) ∧
    routeHTTP (tree mx) "GET" "/a//c" = Ret (RMethodNotAllowed [mPOST; mPOST]) ∧
    routeHTTP (tree mx) "GET" "/ab" = Ret (RServe 4%nat ∅) ∧
    routeHTTP (tree mx) "GET" "/files/x/y" = Ret (RServe 5%nat {[ "*" := "x/y" ]}) ∧
    routeHTTP (tree mx) "POST" "/v1-2" = Ret (RServe 6%nat {[ "n" := "1"; "m" := "2" ]}) ∧
    routeHTTP (tree mx) "GET" "/a/1" = Ret RNotFound ∧
    routeHTTP (tree mx) "BREW" "/a/1" = Ret (RMethodNotAllowed []).
Proof. eexists. split; [vm_compute; reflexivity|]. vm_compute. done. Qed.
End Examples.

End Router.
