(* ===== verification/ChiSpec.v ===== *)
(** * What a search in the router's tree finds

    For trees of static and parameter nodes as the server builds them ([plain]), [findRoute] of [Chi.v] finds
    the first route, in the order of the tree, that matches the path and has the method; when there is none
    it reports the methods of all routes that match.  A route is a list of literals and parameters. *)

From S2P Require Import Prelude Strconv Float64 Http Chi.
Import Router.

Open Scope Z_scope.

(** ** Matching *)

Inductive segment : Type :=
| Lit (s : string)
| Param.

(** Split a string at the first slash. *)
Fixpoint until_slash (s : string) : string * string :=
  match s with
  | "" => ("", "")
  | String c s' =>
      if decide (c = "/"%char) then ("", s) else let '(a, b) := until_slash s' in (String c a, b)
  end.

(** A parameter takes everything up to the next slash; it can be empty only in front of one. *)
Fixpoint match_segments (p : list segment) (path : string) : option (list string) :=
  match p with
  | [] => if decide (path = "") then Some [] else None
  | Lit s :: p => if HasPrefix path s then match_segments p (str_drop (String.length s) path) else None
  | Param :: p =>
      if decide (path = "") then None else let '(v, rest) := until_slash path in cons v <$> match_segments p rest
  end.

(** ** The routes of a tree *)

Section Spec.
Context {H : Type} `{Regexp}.

Definition own (n : node H) : list (list segment * node H) :=
  match endpoints (node_info n) with Some _ => [([], n)] | None => [] end.

Definition under (s : segment) (rs : list (list segment * node H)) : list (list segment * node H) :=
  (λ x, (s :: x.1, x.2)) <$> rs.

Fixpoint tree_routes (n : node H) : list (list segment * node H) :=
  match n with
  | Node _ s _ p _ =>
      concat ((λ c, under (Lit (prefix (node_info c))) (own c ++ tree_routes c)) <$> s) ++
      concat ((λ c, under Param (own c ++ tree_routes c)) <$> p)
  end.

(** The routes that match, with the values of their parameters. *)
Definition hits (path : string) (rs : list (list segment * node H)) : list (list string * node H) :=
  omap (λ x, (λ vs, (vs, x.2)) <$> match_segments x.1 path) rs.

(** The keys of a node for a method it has. *)
Definition served_keys (method : Z) (n : node H) : option (list string) :=
  eps ← endpoints (node_info n);
  match eps !! method with Some (mkEndpoint (Some _) _ keys) => Some keys | _ => None end.

Definition first_served (method : Z) (hs : list (list string * node H)) : option (list string * node H * list string) :=
  head (omap (λ x, (λ keys, (x.1, x.2, keys)) <$> served_keys method x.2) hs).

Definition node_methods (n : node H) : list Z :=
  match endpoints (node_info n) with Some eps => methods_of eps | None => [] end.

(** What a search that starts with [c] and passes the matches [hs] does. *)
Definition found (method : Z) (c : rctx) (hs : list (list string * node H)) (r : option (node H)) (c' : rctx) : Prop :=
  match first_served method hs with
  | Some (vs, x, keys) => r = Some x ∧ Values c' = Values c ++ vs ∧ Keys c' = Keys c ++ keys
  | None =>
      r = None ∧ Values c' = Values c ∧ Keys c' = Keys c ∧
      (methodNotAllowed c' = true ↔ methodNotAllowed c = true ∨ hs ≠ []) ∧
      (∀ m, m ∈ methodsAllowed c' ↔ m ∈ methodsAllowed c ∨ ∃ x, x ∈ hs.*2 ∧ m ∈ node_methods x)
  end.

(** The trees of the statement: strictly increasing labels, at most one parameter after a node, nothing but a
    slash after a parameter, and no regular expressions or wildcards. *)
Fixpoint increasing (l : list (node H)) : bool :=
  match l with
  | n :: ((m :: _) as l) =>
      bool_decide (N_of_ascii (label (node_info n)) < N_of_ascii (label (node_info m)))%N && increasing l
  | _ => true
  end.

Definition static_ok (n : node H) : bool :=
  bool_decide (typ (node_info n) = ntStatic) && bool_decide (prefix (node_info n) ≠ "") &&
  bool_decide (first_byte (prefix (node_info n)) = label (node_info n)).

Definition param_ok (n : node H) : bool :=
  bool_decide (typ (node_info n) = ntParam) && bool_decide (tail (node_info n) = "/"%char) &&
  bool_decide (length (children n ntParam) = 0%nat) &&
  forallb (λ c, bool_decide (label (node_info c) = "/"%char)) (children n ntStatic).

Fixpoint plain (n : node H) : bool :=
  match n with
  | Node _ s r p c =>
      bool_decide (length r = 0%nat) && bool_decide (length c = 0%nat) && bool_decide (length p ≤ 1)%nat &&
      increasing s && forallb static_ok s && forallb param_ok p && forallb plain s && forallb plain p
  end.

(** ** Lemmas on matches *)

Lemma hits_app path rs rs' : hits path (rs ++ rs') = hits path rs ++ hits path rs'.
Proof. unfold hits. apply omap_app. Qed.

Lemma hits_lit path s rs :
  hits path (under (Lit s) rs) = if HasPrefix path s then hits (str_drop (String.length s) path) rs else [].
Proof.
  unfold hits, under. induction rs as [|x rs IH]; [by destruct (HasPrefix _ _)|].
  rewrite fmap_cons. cbn [omap list_omap]. cbn [fst snd match_segments].
  destruct (HasPrefix path s); [|exact IH]. destruct (match_segments _ _); cbn; [f_equal|]; exact IH.
Qed.

Lemma hits_param path rs :
  hits path (under Param rs) =
  if decide (path = "") then []
  else (λ x, ((until_slash path).1 :: x.1, x.2)) <$> hits (until_slash path).2 rs.
Proof.
  unfold hits, under. induction rs as [|x rs IH]; [by case_decide|].
  rewrite fmap_cons. cbn [omap list_omap]. cbn [fst snd match_segments]. case_decide; [exact IH|].
  destruct (until_slash path) as [v rest]. cbn [fst snd] in *.
  destruct (match_segments x.1 rest); cbn; [f_equal|]; exact IH.
Qed.

Lemma hits_own path n :
  hits path (own n) = if decide (path = "") then match endpoints (node_info n) with Some _ => [([], n)] | None => [] end else [].
Proof. unfold own. destruct (endpoints _); cbn; by case_decide. Qed.

Lemma first_served_app method hs hs' :
  first_served method (hs ++ hs') =
  match first_served method hs with Some x => Some x | None => first_served method hs' end.
Proof. unfold first_served. rewrite omap_app. by destruct (omap _ hs). Qed.

Lemma first_served_fmap method v hs :
  first_served method ((λ x, (v :: x.1, x.2)) <$> hs) =
  (λ x, (v :: x.1.1, x.1.2, x.2)) <$> first_served method hs.
Proof.
  unfold first_served. induction hs as [|x hs IH]; [done|]. rewrite fmap_cons. cbn [omap list_omap].
  cbn [fst snd]. destruct (served_keys method x.2); [done|]. exact IH.
Qed.

(** One part of a search after another. *)
Lemma found_none method c hs c' :
  found method c hs None c' → first_served method hs = None.
Proof. unfold found. destruct (first_served method hs) as [[[vs x] keys]|]; [by intros [? _]|done]. Qed.

Lemma found_app method c hs c1 hs' r c2 :
  found method c hs None c1 → found method c1 hs' r c2 → found method c (hs ++ hs') r c2.
Proof.
  intros H1 H2. pose proof (found_none _ _ _ _ H1) as Hn. unfold found in *. rewrite first_served_app, Hn in *.
  destruct H1 as (_ & Hv & Hk & Hf & Hm). rewrite Hv, Hk in *. destruct (first_served method hs') as [[[vs x] keys]|]; [done|].
  destruct H2 as (-> & -> & -> & Hf' & Hm'). split_and!; try done.
  - rewrite Hf', Hf. destruct hs, hs'; cbn; naive_solver.
  - intros m. rewrite Hm', Hm, fmap_app. setoid_rewrite elem_of_app. naive_solver.
Qed.

Lemma found_stop method c hs hs' x c1 :
  found method c hs (Some x) c1 → found method c (hs ++ hs') (Some x) c1.
Proof.
  unfold found. rewrite first_served_app. destruct (first_served method hs) as [[[vs y] keys]|]; [done|]. by intros [? _].
Qed.

Lemma found_nil method c : found method c [] None c.
Proof. unfold found. cbn. split_and!; try done; [naive_solver|]. intros m. split; [by left|]. intros [?|(x & Hx & _)]; [done|]. by apply elem_of_nil in Hx. Qed.

(** ** The binary search of the edges *)

Definition key (n : node H) : N := N_of_ascii (label (node_info n)).

Lemma increasing_cons n l : increasing (n :: l) = true → increasing l = true ∧ ∀ m, m ∈ l → (key n < key m)%N.
Proof.
  revert n. induction l as [|m l IH]; intros n; [by split; [|intros ? ?%elem_of_nil]|].
  cbn [increasing]. intros [Hn Hl]%andb_true_iff. apply bool_decide_eq_true in Hn. split; [done|].
  destruct (IH m Hl) as [_ Hm]. intros x [->|Hx]%elem_of_cons; [done|]. specialize (Hm x Hx). unfold key in *. lia.
Qed.

Lemma increasing_lookup l i j n m :
  increasing l = true → l !! i = Some n → l !! j = Some m → (i < j)%nat → (key n < key m)%N.
Proof.
  revert i j. induction l as [|x l IH]; intros i j; [done|]. intros [Hl Hx]%increasing_cons Hi Hj Hij.
  destruct j as [|j]; [lia|]. destruct i as [|i]; cbn in *; simplify_eq.
  - apply Hx. by eapply list_elem_of_lookup_2.
  - apply (IH i j); [done..|lia].
Qed.

Lemma key_inj n m : key n = key m → label (node_info n) = label (node_info m).
Proof. unfold key. intros Hk. rewrite <- (ascii_N_embedding (label (node_info n))), Hk. apply ascii_N_embedding. Qed.

Lemma search_label_found nds k n fuel i j idx :
  increasing nds = true → nds !! k = Some n → 0 ≤ i → i ≤ Z.of_nat k ≤ j → j < Z.of_nat (length nds) →
  j - i + 1 < Z.of_nat fuel →
  search_label fuel nds (label (node_info n)) i j idx = Z.of_nat k.
Proof.
  intros Hinc Hk. revert i j idx. induction fuel as [|fuel IH]; intros i j idx Hi Hij Hj Hf; [lia|].
  cbn [search_label]. rewrite decide_True by lia.
  assert (0 ≤ (j - i) / 2 ≤ j - i) as Hq by (split; [apply Z.div_pos; lia|apply Z.div_le_upper_bound; lia]).
  destruct (nds !! Z.to_nat (i + (j - i) / 2)) as [m|] eqn:Hm; [|apply lookup_ge_None in Hm; lia].
  fold (key m) (key n). case_decide as H1; [|case_decide as H2].
  - destruct (decide (Z.to_nat (i + (j - i) / 2) < k)%nat); [apply IH; lia|].
    assert (k < Z.to_nat (i + (j - i) / 2) ∨ k = Z.to_nat (i + (j - i) / 2))%nat as [Hlt|Heq] by lia.
    + pose proof (increasing_lookup _ _ _ _ _ Hinc Hk Hm Hlt). lia.
    + rewrite <- Heq, Hk in Hm. injection Hm as <-. lia.
  - destruct (decide (k < Z.to_nat (i + (j - i) / 2))%nat); [apply IH; lia|].
    assert (Z.to_nat (i + (j - i) / 2) < k ∨ k = Z.to_nat (i + (j - i) / 2))%nat as [Hlt|Heq] by lia.
    + pose proof (increasing_lookup _ _ _ _ _ Hinc Hm Hk Hlt). lia.
    + rewrite <- Heq, Hk in Hm. injection Hm as <-. lia.
  - assert (k < Z.to_nat (i + (j - i) / 2) ∨ k = Z.to_nat (i + (j - i) / 2) ∨ Z.to_nat (i + (j - i) / 2) < k)%nat
      as [Hlt|[Heq|Hlt]] by lia.
    + pose proof (increasing_lookup _ _ _ _ _ Hinc Hk Hm Hlt). lia.
    + lia.
    + pose proof (increasing_lookup _ _ _ _ _ Hinc Hm Hk Hlt). lia.
Qed.

(** Among nodes with increasing labels the binary search finds the one with the label, if there is one. *)
Lemma findEdge_spec nds l :
  increasing nds = true →
  match findEdge nds l with
  | Some n => n ∈ nds ∧ label (node_info n) = l
  | None => ∀ n, n ∈ nds → label (node_info n) ≠ l
  end.
Proof.
  intros Hinc. destruct (findEdge nds l) as [n|] eqn:Hf; unfold findEdge in Hf.
  - apply bind_Some in Hf as (m & Hm & Hf). case_decide as Hl; [done|]. injection Hf as ->.
    split; [by eapply list_elem_of_lookup_2|]. by destruct (decide (label (node_info n) = l)).
  - intros n (k & Hk)%list_elem_of_lookup_1 <-. pose proof (lookup_lt_Some _ _ _ Hk) as Hlt.
    rewrite (search_label_found nds k n) in Hf by (done || lia). rewrite Nat2Z.id, Hk in Hf. cbn in Hf.
    by rewrite decide_False in Hf by (intros H1; by apply H1).
Qed.

(** ** One child *)

Lemma at_leaf_spec xn method path c :
  let '(b, c') := at_leaf xn method path c in
  found method c (hits path (own xn)) (if b then Some xn else None) c'.
Proof.
  unfold at_leaf. rewrite hits_own. destruct (decide (path = "")); [|apply found_nil].
  destruct (endpoints (node_info xn)) as [eps|] eqn:Heps; [|apply found_nil].
  assert (served_keys method xn = match eps !! method with Some (mkEndpoint (Some _) _ keys) => Some keys | _ => None end) as Hs.
  { unfold served_keys. by rewrite Heps. }
  assert (served_keys method xn = None →
          found method c [([], xn)] None (mkRctx (Values c) (Keys c) true (methodsAllowed c ++ methods_of eps))) as Hnone.
  { intros Hn. unfold found, first_served. cbn. rewrite Hn. cbn. split_and!; try done; [naive_solver|].
    intros m. rewrite elem_of_app. unfold node_methods. split.
    - intros [Hm|Hm]; [by left|]. right. exists xn. rewrite Heps, list_elem_of_singleton. done.
    - intros [Hm|(x & ->%list_elem_of_singleton & Hm)]; [by left|]. rewrite Heps in Hm. by right. }
  destruct (eps !! method) as [[[h|] pat keys]|]; [|by (apply Hnone; rewrite Hs)..].
  unfold found, first_served. cbn. rewrite Hs. cbn. by rewrite app_nil_r.
Qed.

Lemma descend_spec rec method xn path c :
  (∀ c1, ∃ r c', rec xn path c1 = Ret (r, c') ∧ found method c1 (hits path (tree_routes xn)) r c') →
  ∃ r c', descend rec method xn path c = Ret (r, c') ∧ found method c (hits path (own xn ++ tree_routes xn)) r c'.
Proof.
  intros Hrec. unfold descend. pose proof (at_leaf_spec xn method path c) as Hl.
  destruct (at_leaf xn method path c) as [[] c1]; rewrite hits_app.
  - exists (Some xn), c1. split; [done|by apply found_stop].
  - destruct (Hrec c1) as (r & c' & -> & Hr). exists r, c'. split; [done|]. by eapply found_app.
Qed.

(** ** The static children *)

Abbreviation static_routes := (λ c : node H, under (Lit (prefix (node_info c))) (own c ++ tree_routes c)).

Lemma HasPrefix_first path s : HasPrefix path s = true → s ≠ "" → first_byte path = first_byte s.
Proof.
  destruct s as [|a s]; [done|]. intros Hp _. unfold HasPrefix in Hp. destruct path as [|b path]; [done|].
  simpl in Hp. destruct (ascii_dec a b); [by subst|done].
Qed.

Lemma static_ok_spec n :
  static_ok n = true →
  typ (node_info n) = ntStatic ∧ prefix (node_info n) ≠ "" ∧ first_byte (prefix (node_info n)) = label (node_info n).
Proof. unfold static_ok. rewrite !andb_true_iff, !bool_decide_eq_true. tauto. Qed.

Lemma hits_static_none nds path :
  forallb static_ok nds = true → (∀ n, n ∈ nds → label (node_info n) ≠ first_byte path) →
  hits path (concat (static_routes <$> nds)) = [].
Proof.
  induction nds as [|n nds IH]; [done|]. cbn [forallb]. intros [Hok%static_ok_spec Hall]%andb_true_iff Hn.
  rewrite fmap_cons, concat_cons, hits_app, hits_lit, IH; [|done|intros m Hm; apply Hn; by right].
  destruct Hok as (_ & Hne & Hl). destruct (HasPrefix _ _) eqn:Hp; [|done].
  apply HasPrefix_first in Hp; [|done]. exfalso. apply (Hn n); [by left|]. congruence.
Qed.

Lemma hits_static_one nds n path :
  increasing nds = true → forallb static_ok nds = true → n ∈ nds → label (node_info n) = first_byte path →
  hits path (concat (static_routes <$> nds)) = hits path (static_routes n).
Proof.
  induction nds as [|m nds IH]; intros Hinc; [by intros _ ?%elem_of_nil|]. cbn [forallb].
  intros [Hok%static_ok_spec Hall]%andb_true_iff. apply increasing_cons in Hinc as [Hinc Hm].
  rewrite fmap_cons, concat_cons, hits_app. intros [->|Hn]%elem_of_cons Hl.
  - rewrite (hits_static_none nds), app_nil_r; [done..|]. intros x Hx. specialize (Hm x Hx). unfold key in Hm.
    rewrite <- Hl. intros Heq. rewrite Heq in Hm. lia.
  - rewrite IH by done. destruct Hok as (_ & Hne & Hlm). rewrite hits_lit. destruct (HasPrefix _ _) eqn:Hp; [|done].
    apply HasPrefix_first in Hp; [|done]. specialize (Hm n Hn). unfold key in Hm. rewrite Hl, Hp, Hlm in Hm. lia.
Qed.

Lemma try_static_spec rec method nds path c :
  increasing nds = true → forallb static_ok nds = true →
  (∀ n c1 path, n ∈ nds → ∃ r c', rec n path c1 = Ret (r, c') ∧ found method c1 (hits path (tree_routes n)) r c') →
  ∃ r c', try_group rec method ntStatic nds path c = Ret (r, c') ∧
          found method c (hits path (concat (static_routes <$> nds))) r c'.
Proof.
  intros Hinc Hok Hrec. cbn [try_group]. pose proof (findEdge_spec nds (first_byte path) Hinc) as He.
  destruct (findEdge nds (first_byte path)) as [n|].
  - destruct He as [Hn Hl]. rewrite (hits_static_one nds n path) by done. rewrite hits_lit.
    destruct (HasPrefix path _); [|exists None, c; by split; [|apply found_nil]].
    destruct (descend_spec rec method n (str_drop (String.length (prefix (node_info n))) path) c) as (r & c' & -> & Hr);
      [intros c1; by apply Hrec|].
    assert (typ (node_info n) = ntStatic) as Ht.
    { rewrite forallb_forall in Hok. by apply static_ok_spec, Hok, list_elem_of_In. }
    cbn. destruct r as [x|]; [by exists (Some x), c'|]. exists None, c'. by rewrite decide_True.
  - rewrite hits_static_none by done. exists None, c. by split; [|apply found_nil].
Qed.

(** ** The parameter child *)

Lemma until_slash_split path : path = (until_slash path).1 +:+ (until_slash path).2.
Proof.
  induction path as [|c path IH]; [done|]. cbn [until_slash]. case_decide; [done|].
  destruct (until_slash path) as [a b]. cbn [fst snd] in *. by rewrite IH at 1.
Qed.

Lemma IndexByte_until path :
  match IndexByte path "/"%char with
  | Some p => p = String.length (until_slash path).1
  | None => (until_slash path) = (path, "")
  end ∧ IndexByte (until_slash path).1 "/"%char = None.
Proof.
  induction path as [|c path IH]; [done|]. cbn [IndexByte until_slash]. destruct (decide (c = "/"%char)) as [->|Hc]; [done|].
  destruct (until_slash path) as [a b]. cbn [fst snd] in *. destruct IH as [IH1 IH2].
  split; [|cbn; by rewrite decide_False, IH2]. destruct (IndexByte path "/"); cbn; [by subst|by simplify_eq].
Qed.

Lemma param_ok_spec n :
  param_ok n = true →
  typ (node_info n) = ntParam ∧ tail (node_info n) = "/"%char ∧ children n ntParam = [] ∧
  ∀ c, c ∈ children n ntStatic → label (node_info c) = "/"%char.
Proof.
  unfold param_ok. rewrite !andb_true_iff, !bool_decide_eq_true, length_zero_iff_nil, forallb_forall.
  intros [[[? ?] ?] Hall]. split_and!; try done. intros c Hc. apply base.list_elem_of_In, Hall in Hc.
  by apply bool_decide_eq_true in Hc.
Qed.

Lemma param_end_spec (n : node H) path :
  tail (node_info n) = "/"%char → param_end ntParam n path = Some (String.length (until_slash path).1).
Proof.
  intros Ht. unfold param_end. rewrite Ht. destruct (IndexByte_until path) as [Hi Hn].
  pose proof (until_slash_split path) as Hp. destruct (IndexByte path "/") as [p|].
  - rewrite decide_False by (by intros [? _]). cbn [mbind option_bind]. subst p.
    assert (str_take (String.length (until_slash path).1) path = (until_slash path).1) as ->.
    { rewrite Hp at 2. apply str_take_app. }
    by rewrite Hn.
  - rewrite decide_True by done. cbn [mbind option_bind]. rewrite str_take_all by lia. rewrite Hi in *. cbn [fst] in *.
    by rewrite Hn.
Qed.

(** Without a slash at its front a parameter node cannot go on. *)
Lemma param_stuck n path :
  param_ok n = true → plain n = true → path ≠ "" → first_byte path ≠ "/"%char →
  hits path (own n ++ tree_routes n) = [].
Proof.
  intros (_ & _ & Hnp & Hlab)%param_ok_spec Hpl Hne Hs. rewrite hits_app, hits_own, decide_False by done.
  destruct n as [i st re pa ca]. cbn in Hnp, Hlab. subst pa. cbn [plain tree_routes] in *. rewrite !andb_true_iff in Hpl.
  rewrite app_nil_l. cbn [fmap list_fmap concat]. rewrite app_nil_r. apply hits_static_none; [tauto|].
  intros m Hm. rewrite (Hlab m Hm). congruence.
Qed.

Lemma found_weaken method c hs r c' (hs' : list (list string * node H)) c'' :
  found method c hs None c' → r = None → Values c'' = Values c → Keys c'' = Keys c →
  (methodNotAllowed c'' = true ↔ methodNotAllowed c' = true ∨ hs' ≠ []) →
  (∀ m, m ∈ methodsAllowed c'' ↔ m ∈ methodsAllowed c' ∨ ∃ x, x ∈ hs'.*2 ∧ m ∈ node_methods x) →
  (hs' = [] ∨ hs'.*2 = hs.*2) → found method c hs r c''.
Proof.
  intros Hf -> Hv Hk Hfl Hm Hhs. pose proof (found_none _ _ _ _ Hf) as Hn. unfold found in *. rewrite Hn in *.
  destruct Hf as (_ & Hv' & Hk' & Hfl' & Hm'). split_and!; try congruence.
  - rewrite Hfl, Hfl'. destruct Hhs as [->|Hhs]; [naive_solver|]. destruct hs, hs'; naive_solver.
  - intros m. rewrite Hm, Hm'. destruct Hhs as [->|Hhs]; [|rewrite Hhs; tauto]. cbn.
    setoid_rewrite elem_of_nil. naive_solver.
Qed.

Lemma take_app_len {A} (l k : list A) : take (length l) (l ++ k) = l.
Proof. by rewrite take_app_length. Qed.

Lemma try_param_spec rec method n path c :
  param_ok n = true → plain n = true →
  (∀ c1 path, ∃ r c', rec n path c1 = Ret (r, c') ∧ found method c1 (hits path (tree_routes n)) r c') →
  ∃ r c', try_group rec method ntParam [n] path c = Ret (r, c') ∧
          found method c (hits path (under Param (own n ++ tree_routes n))) r c'.
Proof.
  intros Hok Hpl Hrec. destruct (param_ok_spec _ Hok) as (Ht & Htl & _).
  cbn [try_group try_params last]. rewrite hits_param. destruct (decide (path = "")) as [|Hne].
  { exists None, c. by split; [|apply found_nil]. }
  rewrite param_end_spec by done. set (v := (until_slash path).1). set (rest := (until_slash path).2).
  assert (path = v +:+ rest) as Hp by apply until_slash_split.
  assert (str_take (String.length v) path = v) as -> by (rewrite Hp at 1; apply str_take_app).
  assert (str_drop (String.length v) path = rest) as -> by (rewrite Hp at 1; apply str_drop_app).
  destruct (descend_spec rec method n rest (set_values (Values c ++ [v]) c)) as (r & c1 & -> & Hf); [intros c0; by apply Hrec|].
  remember (hits rest (own n ++ tree_routes n)) as hs eqn:Hhseq. cbn [mbind outcome_bind].
  destruct r as [x|].
  { exists (Some x), c1. split; [done|]. unfold found in *. rewrite first_served_fmap.
    destruct (first_served method hs) as [[[vs y] keys]|]; [|by destruct Hf]. cbn in *. destruct Hf as (-> & -> & ->).
    by rewrite <- app_assoc. }
  cbn [mbind outcome_bind].
  set (c2 := set_values (take (length (Values c)) (Values c1)) c1).
  assert (Values c2 = Values c) as Hv2.
  { pose proof (found_none _ _ _ _ Hf) as Hn. unfold found in Hf. rewrite Hn in Hf. destruct Hf as (_ & Hv & _).
    unfold c2. cbn. rewrite Hv. cbn. apply take_app_len. }
  assert (found method c ((λ x, (v :: x.1, x.2)) <$> hs) None c2) as Hf2.
  { pose proof (found_none _ _ _ _ Hf) as Hn. unfold found in *. rewrite first_served_fmap, Hn in *. cbn [fmap option_fmap option_map].
    destruct Hf as (_ & _ & Hk & Hfl & Hm). split_and!; [done|done|exact Hk| |].
    - unfold c2. cbn. rewrite Hfl. cbn. destruct hs; naive_solver.
    - intros m. unfold c2. cbn. rewrite Hm. cbn. by rewrite <- list_fmap_compose. }
  destruct (descend_spec rec method n path (set_values (Values c2 ++ [""]) c2)) as (r' & c3 & -> & Hf3); [intros c0; by apply Hrec|].
  remember (hits path (own n ++ tree_routes n)) as hs' eqn:Hhseq'.
  assert (hs' = [] ∨ hs' = hs) as Hhs.
  { subst hs' hs. destruct (decide (first_byte path = "/"%char)) as [Hs|Hs]; [right|left; by apply param_stuck].
    unfold rest. destruct path as [|a path]; [done|]. cbn in Hs. subst a. done. }
  assert (first_served method hs' = None) as Hn'.
  { destruct Hhs as [->| ->]; [done|]. by eapply found_none. }
  unfold found in Hf3. rewrite Hn' in Hf3. destruct Hf3 as (-> & Hv3 & Hk3 & Hfl3 & Hm3).
  cbn [mbind outcome_bind]. exists None, (pop_value c3). split; [by rewrite decide_False by (by rewrite Ht)|].
  eapply (found_weaken _ _ _ None c2 hs'); [exact Hf2|done| | |exact Hfl3|exact Hm3|].
  - unfold pop_value. cbn. rewrite Hv3. cbn. rewrite length_app. cbn. rewrite Nat.add_sub. by rewrite take_app_len.
  - cbn. rewrite Hk3. cbn. pose proof (found_none _ _ _ _ Hf2) as Hn2. unfold found in Hf2. rewrite Hn2 in Hf2. by destruct Hf2 as (_ & _ & ? & _).
  - destruct Hhs as [Hhs|Hhs]; [by left|right]. rewrite Hhs. by rewrite <- list_fmap_compose.
Qed.

(** ** The whole search *)

Lemma height_child (n : node H) t m : m ∈ children n t → (height m < height n)%nat.
Proof.
  destruct n as [i s r p c]. intros Hm. cbn [height].
  assert (∀ l, m ∈ l → height m ≤ max_list (height <$> l))%nat as Hl.
  { intros l Hl. apply max_list_elem_of_le, list_elem_of_fmap. eauto. }
  destruct t; cbn in Hm; apply Hl in Hm; lia.
Qed.

Lemma try_groups_empty rec method t ts (n : node H) path c :
  children n t = [] → try_groups rec method (t :: ts) n path c = try_groups rec method ts n path c.
Proof. intros Ht. cbn [try_groups]. by rewrite decide_True. Qed.

(** A group, empty or not, and the groups after it. *)
Lemma try_groups_cons rec method t ts (n : node H) path c hs hs' :
  (children n t = [] → hs = []) →
  (∃ r c', try_group rec method t (children n t) path c = Ret (r, c') ∧ found method c hs r c') →
  (∀ c1, ∃ r c', try_groups rec method ts n path c1 = Ret (r, c') ∧ found method c1 hs' r c') →
  ∃ r c', try_groups rec method (t :: ts) n path c = Ret (r, c') ∧ found method c (hs ++ hs') r c'.
Proof.
  intros Hnil (r & c1 & Hg & Hf) Hts. cbn [try_groups]. destruct (decide (children n t = [])) as [Hc|Hc].
  - rewrite (Hnil Hc), app_nil_l. apply Hts.
  - rewrite Hg. cbn [mbind outcome_bind]. destruct r as [x|].
    + exists (Some x), c1. split; [done|]. by apply found_stop.
    + destruct (Hts c1) as (r & c2 & -> & Hf2). exists r, c2. split; [done|]. by eapply found_app.
Qed.

Lemma findRoute_spec fuel (n : node H) method path c :
  (height n ≤ fuel)%nat → plain n = true →
  ∃ r c', findRoute fuel method n path c = Ret (r, c') ∧ found method c (hits path (tree_routes n)) r c'.
Proof.
  revert n path c. induction fuel as [|fuel IH]; intros n path c Hh Hpl; [destruct n; cbn in Hh; lia|].
  assert (∀ t m path c, m ∈ children n t → plain m = true →
    ∃ r c', findRoute fuel method m path c = Ret (r, c') ∧ found method c (hits path (tree_routes m)) r c') as Hrec.
  { intros t m path' c' Hm Hp. apply IH; [|done]. apply height_child in Hm. lia. }
  clear IH Hh. destruct n as [i st re pa ca]. cbn [plain] in Hpl. rewrite !andb_true_iff, !bool_decide_eq_true in Hpl.
  destruct Hpl as [[[[[[[Hre Hca] Hpa] Hinc] Hst] Hpok] Hps] Hpp].
  rewrite length_zero_iff_nil in Hre, Hca. subst re ca. cbn [findRoute tree_routes]. rewrite hits_app.
  rewrite forallb_forall in Hps, Hpp.
  apply try_groups_cons.
  - cbn. by intros ->.
  - cbn [children]. apply try_static_spec; [done..|]. intros m c1 path' Hm.
    apply (Hrec ntStatic); [done|]. by apply Hps, base.list_elem_of_In.
  - intros c1. rewrite try_groups_empty by done.
    rewrite <- (app_nil_r (hits path (concat _))). apply try_groups_cons.
    + cbn. by intros ->.
    + cbn [children]. destruct pa as [|x [|y pa]]; [|cbn [fmap list_fmap concat]; rewrite app_nil_r|cbn in Hpa; lia].
      * exists None, c1. split; [cbn; by case_decide|apply found_nil].
      * cbn [forallb] in Hpok. rewrite andb_true_r in Hpok. apply try_param_spec; [done|by apply Hpp; left|].
        intros c2 path'. apply (Hrec ntParam); [by left|by apply Hpp; left].
    + intros c2. rewrite try_groups_empty by done. exists None, c2. split; [done|apply found_nil].
Qed.

(** What [FindRoute] gives, and the parameters of the request. *)
Definition node_handler (method : Z) (n : node H) : option H :=
  eps ← endpoints (node_info n); ep ← eps !! method; ep_handler ep.

Lemma FindRoute_spec (root : node H) method path :
  plain root = true →
  match first_served method (hits path (tree_routes root)) with
  | Some (vs, x, keys) =>
      ∃ c, FindRoute root method path = Ret (node_handler method x, c) ∧ Values c = vs ∧ Keys c = keys
  | None =>
      ∃ c, FindRoute root method path = Ret (None, c) ∧
        (methodNotAllowed c = true ↔ hits path (tree_routes root) ≠ []) ∧
        (∀ m, m ∈ methodsAllowed c ↔ ∃ x, x ∈ (hits path (tree_routes root)).*2 ∧ m ∈ node_methods x)
  end.
Proof.
  intros Hpl. destruct (findRoute_spec (height root) root method path new_rctx) as (r & c & Hr & Hf); [done..|].
  unfold FindRoute. rewrite Hr. cbn [mbind outcome_bind]. unfold found in Hf.
  destruct (first_served method _) as [[[vs x] keys]|] eqn:Hfs.
  - destruct Hf as (-> & Hv & Hk). exists c. split; [|done].
    unfold first_served in Hfs. apply head_Some_elem_of in Hfs.
    apply list_elem_of_omap in Hfs as ([vs' x'] & _ & Hx). apply fmap_Some in Hx as (keys' & Hk' & Heq). simplify_eq/=.
    unfold served_keys in Hk'. apply bind_Some in Hk' as (eps & He & Hk'). unfold node_handler. rewrite He. cbn.
    destruct (eps !! method) as [[[h|] pat ks]|]; [|done..]. done.
  - destruct Hf as (-> & _ & _ & Hfl & Hm). exists c. split; [done|]. split.
    + rewrite Hfl. cbn. naive_solver.
    + intros m. rewrite Hm. cbn. split; [intros [?%elem_of_nil|?]; done|by right].
Qed.
End Spec.
