(* ===== verification/Routes.v ===== *)
(** * The routes of the server

    The patterns [chiRouter] of [internal/server/server.go] registers, in its order; the tree go-chi builds of them; and
    a table of the same routes that is easy to read.  [chi_routing] shows that the search of [Chi.v]
    in that tree answers as the table says. *)

From S2P Require Import Prelude Strconv Float64 Http Chi ChiSpec.

Open Scope Z_scope.

Inductive endpoint : Type :=
| EUpdate | EValue | EAll | EUpdateJSON | EValueJSON | EUpdatesJSON | EPing.

(** The registrations; a handler is known by its name here. *)
Definition register `{Router.Regexp} {M} (r : Router.Mux (H := endpoint) M) : outcome (Router.Mux (H := endpoint) M) :=
  r ← Router.Post "/update/{type}/{name}/{value}" EUpdate r;
  r ← Router.Get "/value/{type}/{val}" EValue r;
  r ← Router.Get "/" EAll r;
  r ← Router.Post "/update/" EUpdateJSON r;
  r ← Router.Post "/value/" EValueJSON r;
  r ← Router.Post "/updates/" EUpdatesJSON r;
  Router.Get "/ping" EPing r.

(** The tree they give. *)
Definition route_tree `{Router.Regexp} : Router.node endpoint :=
  Eval vm_compute in
    match register (M := ()) Router.NewRouter with Ret r => Router.tree r | _ => Router.empty_node end.

Lemma register_tree `{Router.Regexp} {M} (mws : list M) :
  register (Router.mkMux Router.empty_node mws false) = Ret (Router.mkMux route_tree mws true).
Proof. vm_compute. reflexivity. Qed.

(** ** The table *)

(** A path against a pattern whose parameters have the names [keys]. *)
Definition match_pattern (p : list segment) (keys : list string) (path : string) : option (gmap string string) :=
  Router.url_params keys <$> match_segments p path.

Definition routes : list (string * list segment * list string * endpoint) :=
  [("POST", [Lit "/update/"; Param; Lit "/"; Param; Lit "/"; Param], ["type"; "name"; "value"], EUpdate);
   ("GET", [Lit "/value/"; Param; Lit "/"; Param], ["type"; "val"], EValue);
   ("GET", [Lit "/"], [], EAll);
   ("POST", [Lit "/update/"], [], EUpdateJSON);
   ("POST", [Lit "/value/"], [], EValueJSON);
   ("POST", [Lit "/updates/"], [], EUpdatesJSON);
   ("GET", [Lit "/ping"], [], EPing)].

(** The methods go-chi knows. *)
Definition known_methods : list string := Router.methodMap.*1.

Inductive route_result : Type :=
| Found (e : endpoint) (params : gmap string string)
| MethodNotAllowed (allowed : list string)
| NotFound.

Definition find_route (method path : string) : route_result :=
  let path := if decide (path = "") then "/" else path in
  if decide (method ∉ known_methods) then MethodNotAllowed []
  else
    let hits := omap (λ '(m, p, keys, e), (λ ps, (m, e, ps)) <$> match_pattern p keys path) routes in
    match filter (λ h, h.1.1 = method) hits with
    | (_, e, ps) :: _ => Found e ps
    | [] => match hits with
            | [] => NotFound
            | hits => MethodNotAllowed ((λ h, h.1.1) <$> hits)
            end
    end.

Example find_route_ex :
  find_route "POST" "/update/gauge/Alloc/1.5" = Found EUpdate {[ "type" := "gauge"; "name" := "Alloc"; "value" := "1.5" ]} ∧
  find_route "POST" "/update/gauge//1" = Found EUpdate {[ "type" := "gauge"; "name" := ""; "value" := "1" ]} ∧
  find_route "POST" "/update/gauge/Alloc/" = NotFound ∧ find_route "POST" "/update/gauge/Alloc" = NotFound ∧
  find_route "GET" "/update/" = MethodNotAllowed ["POST"] ∧ find_route "GET" "" = Found EAll ∅ ∧
  find_route "POST" "/updates/" = Found EUpdatesJSON ∅ ∧ find_route "POST" "/updates" = NotFound ∧
  find_route "GET" "/value/counter/PollCount" = Found EValue {[ "type" := "counter"; "val" := "PollCount" ]} ∧
  find_route "BREW" "/" = MethodNotAllowed [].
Proof. vm_compute. done. Qed.

(** ** The tree and the table *)

(** The same answer; of the methods of a 405 the set counts, the search may come upon a node twice. *)
Definition agrees (d : Router.routed (H := endpoint)) (t : route_result) : Prop :=
  match d, t with
  | Router.RServe e ps, Found e' ps' => e = e' ∧ ps = ps'
  | Router.RMethodNotAllowed ms, MethodNotAllowed l => ∀ m, m ∈ (Router.reverseMethodMap <$> ms) ↔ m ∈ l
  | Router.RNotFound, NotFound => True
  | _, _ => False
  end.

Lemma prefix_app s t : String.prefix s (s +:+ t) = true.
Proof. induction s as [|c s IH]; [by destruct t|]. rewrite str_app_cons. simpl. destruct (ascii_dec c c); done. Qed.

Lemma prefix_inv s t : String.prefix s t = true → ∃ r, t = s +:+ r.
Proof.
  revert t. induction s as [|c s IH]; intros t Hp; [by exists t|]. destruct t as [|d t]; [done|]. simpl in Hp.
  destruct (ascii_dec c d) as [->|]; [|done]. destruct (IH t Hp) as [r ->]. by exists r.
Qed.

Lemma match_Lit s p t : match_segments (Lit s :: p) (s +:+ t) = match_segments p t.
Proof. cbn [match_segments]. unfold HasPrefix. by rewrite prefix_app, str_drop_app. Qed.

Lemma match_Lit_inv s p path vs :
  match_segments (Lit s :: p) path = Some vs → ∃ t, path = s +:+ t ∧ match_segments p t = Some vs.
Proof.
  cbn [match_segments]. unfold HasPrefix. destruct (String.prefix s path) eqn:Hp; [|done].
  apply prefix_inv in Hp as [t ->]. rewrite str_drop_app. eauto.
Qed.

(** Two literals one after the other are one. *)
Lemma match_Lit_Lit a b p path :
  match_segments (Lit a :: Lit b :: p) path = match_segments (Lit (a +:+ b) :: p) path.
Proof.
  destruct (match_segments (Lit (a +:+ b) :: p) path) as [vs|] eqn:Hm.
  - apply match_Lit_inv in Hm as (t & -> & Hm). rewrite str_app_assoc. by rewrite !match_Lit.
  - destruct (match_segments (Lit a :: Lit b :: p) path) as [vs|] eqn:Hn; [|done].
    apply match_Lit_inv in Hn as (t & -> & Hn). apply match_Lit_inv in Hn as (t' & -> & Hn).
    rewrite <- str_app_assoc, match_Lit in Hm. congruence.
Qed.

Lemma match_exact s path : match_segments [Lit s] path = if decide (path = s) then Some [] else None.
Proof.
  destruct (match_segments [Lit s] path) as [vs|] eqn:Hm.
  - apply match_Lit_inv in Hm as (t & -> & Hm). cbn in Hm. case_decide; [|done]. subst t.
    rewrite str_app_nil_r. rewrite decide_True by done. congruence.
  - case_decide; [|done]. subst path. rewrite <- (str_app_nil_r s) in Hm at 2. by rewrite match_Lit in Hm.
Qed.

Lemma route_tree_plain `{Router.Regexp} : plain route_tree = true.
Proof. vm_compute. reflexivity. Qed.

(** Neighbouring literals made one. *)
Fixpoint merge (p : list segment) : list segment :=
  match p with
  | [] => []
  | Param :: p => Param :: merge p
  | Lit a :: p => match merge p with Lit b :: q => Lit (a +:+ b) :: q | q => Lit a :: q end
  end.

Lemma match_merge p path : match_segments (merge p) path = match_segments p path.
Proof.
  revert path. induction p as [|[a|] p IH]; intros path; [done| |].
  - assert (match_segments (merge (Lit a :: p)) path = match_segments (Lit a :: merge p) path) as ->.
    { cbn [merge]. destruct (merge p) as [|[b|] q]; [done| |done]. by rewrite match_Lit_Lit. }
    cbn [match_segments]. by rewrite IH.
  - cbn [merge match_segments]. case_decide; [done|]. destruct (until_slash path). by rewrite IH.
Qed.

Section Tree.
Context `{Router.Regexp}.

Lemma hits_merge path (rs : list (list segment * Router.node endpoint)) :
  hits path rs = hits path ((λ x, (merge x.1, x.2)) <$> rs).
Proof.
  unfold hits. induction rs as [|x rs IH]; [done|]. rewrite fmap_cons. cbn [omap list_omap]. cbn [fst snd].
  rewrite match_merge, IH. done.
Qed.

(** The two nodes of routes with parameters. *)
Definition node_at (i : nat) : Router.node endpoint := default Router.empty_node (snd <$> tree_routes route_tree !! i).
Definition update_node : Router.node endpoint := Eval vm_compute in node_at 3.
Definition value_node : Router.node endpoint := Eval vm_compute in node_at 6.

Definition update_segments : list segment := [Lit "/update/"; Param; Lit "/"; Param; Lit "/"; Param].
Definition value_segments : list segment := [Lit "/value/"; Param; Lit "/"; Param].

Definition exact_paths : list string := ["/"; "/ping"; "/update/"; "/updates/"; "/value/"].

Definition hit {A} (p : list segment) (x : A) (path : string) : list (list string * A) :=
  match match_segments p path with Some vs => [(vs, x)] | None => [] end.

(** A path that is none of those without parameters. *)
Lemma hits_other path :
  path ∉ exact_paths →
  hits path (tree_routes route_tree) = hit update_segments update_node path ++ hit value_segments value_node path.
Proof.
  intros Hp. rewrite hits_merge.
  assert (∀ s, s ∈ exact_paths → match_segments [Lit s] path = None) as He.
  { intros s Hs. rewrite match_exact, decide_False; [done|]. by intros ->. }
  assert ((λ x, (merge x.1, x.2)) <$> tree_routes route_tree =
    [([Lit "/"], node_at 0); ([Lit "/ping"], node_at 1); ([Lit "/update/"], node_at 2); (update_segments, update_node);
     ([Lit "/updates/"], node_at 4); ([Lit "/value/"], node_at 5); (value_segments, value_node)]) as ->
    by (vm_compute; reflexivity).
  unfold hits. cbn [omap list_omap]. cbn [fst snd].
  rewrite !He by (apply (bool_decide_unpack _); vm_compute; exact I). cbn [fmap option_fmap option_map].
  unfold hit. by destruct (match_segments update_segments path), (match_segments value_segments path).
Qed.

Lemma update_or_value path vs vs' :
  match_segments update_segments path = Some vs → match_segments value_segments path = Some vs' → False.
Proof. by intros (t & -> & _)%match_Lit_inv (t' & Ht & _)%match_Lit_inv. Qed.

(** The search and the table from a path that is not empty. *)
Definition tree_answer (m : Z) (path : string) : outcome (Router.routed (H := endpoint)) :=
  '(h, c) ← Router.FindRoute route_tree m path;
  match h with
  | Some h => Ret (Router.RServe h (Router.url_params (Router.Keys c) (Router.Values c)))
  | None => if Router.methodNotAllowed c then Ret (Router.RMethodNotAllowed (Router.methodsAllowed c)) else Ret Router.RNotFound
  end.

Definition table_hits (path : string) : list (string * endpoint * gmap string string) :=
  omap (λ '(m, p, keys, e), (λ ps, (m, e, ps)) <$> match_pattern p keys path) routes.

Definition table_answer (method : string) (hits : list (string * endpoint * gmap string string)) : route_result :=
  match filter (λ h, h.1.1 = method) hits with
  | (_, e, ps) :: _ => Found e ps
  | [] => match hits with [] => NotFound | hits => MethodNotAllowed ((λ h, h.1.1) <$> hits) end
  end.

Lemma table_other path :
  path ∉ exact_paths →
  table_hits path =
  match match_segments update_segments path with
  | Some vs => [("POST", EUpdate, Router.url_params ["type"; "name"; "value"] vs)]
  | None =>
      match match_segments value_segments path with
      | Some vs => [("GET", EValue, Router.url_params ["type"; "val"] vs)]
      | None => []
      end
  end.
Proof.
  intros Hp. unfold table_hits, routes, match_pattern. cbn [omap list_omap]. fold update_segments value_segments.
  assert (∀ s, s ∈ exact_paths → match_segments [Lit s] path = None) as He.
  { intros s Hs. rewrite match_exact, decide_False; [done|]. by intros ->. }
  rewrite !He by (apply (bool_decide_unpack _); vm_compute; exact I).
  destruct (match_segments update_segments path) eqn:Hu, (match_segments value_segments path) eqn:Hv; try done.
  exfalso. by eapply update_or_value.
Qed.

Lemma method_cases method m :
  Router.method_of method = Some m → (method, m) ∈ Router.methodMap.
Proof.
  unfold Router.method_of. intros ([i [s x]] & [Hl [Hx _]]%list_find_Some & ->)%fmap_Some. cbn in *. subst s.
  by eapply list_elem_of_lookup_2.
Qed.

(** A node has one method, [M], with these keys and handler. *)
Definition serves (n : Router.node endpoint) (M : string) (keys : list string) (e : endpoint) : Prop :=
  Forall (λ x, if decide (x.1 = M) then served_keys x.2 n = Some keys ∧ node_handler x.2 n = Some e
               else served_keys x.2 n = None) Router.methodMap ∧
  Router.reverseMethodMap <$> node_methods n = [M].

Ltac check_serves := split; [repeat (apply Forall_cons_2; [vm_compute; done|]); constructor|vm_compute; reflexivity].

Lemma serves_update : serves update_node "POST" ["type"; "name"; "value"] EUpdate.
Proof. check_serves. Qed.

Lemma serves_value : serves value_node "GET" ["type"; "val"] EValue.
Proof. check_serves. Qed.

Lemma serves_exact :
  serves (node_at 0) "GET" [] EAll ∧ serves (node_at 1) "GET" [] EPing ∧ serves (node_at 2) "POST" [] EUpdateJSON ∧
  serves (node_at 4) "POST" [] EUpdatesJSON ∧ serves (node_at 5) "POST" [] EValueJSON.
Proof. split_and!; check_serves. Qed.

(** One route matches: it is served, or its method is the one allowed. *)
Lemma answer_one method m path vs (n : Router.node endpoint) M keys e :
  (method, m) ∈ Router.methodMap → hits path (tree_routes route_tree) = [(vs, n)] →
  table_hits path = [(M, e, Router.url_params keys vs)] →
  serves n M keys e →
  ∃ d, tree_answer m path = Ret d ∧ agrees d (table_answer method (table_hits path)).
Proof.
  intros Hm Hh Ht [Hs Hms]. unfold tree_answer. pose proof (FindRoute_spec route_tree m path route_tree_plain) as Hf.
  rewrite Hh in Hf. unfold first_served in Hf. cbn [omap list_omap fst snd] in Hf. rewrite Ht.
  rewrite Forall_forall in Hs. specialize (Hs _ Hm). cbn [fst snd] in Hs.
  unfold table_answer. rewrite filter_cons, filter_nil. cbn [fst snd]. destruct (decide (method = M)) as [Heq|Hne].
  - rewrite (decide_True (P := M = method)) by done. destruct Hs as [Hk Hn]. rewrite Hk in Hf. cbn [fmap option_fmap option_map head] in Hf. destruct Hf as (c & -> & Hv & Hk'). rewrite Hn.
    cbn [mbind outcome_bind]. eexists. split; [done|]. cbn [agrees]. rewrite Hv, Hk'. done.
  - rewrite (decide_False (P := M = method)) by congruence. rewrite Hs in Hf. cbn [fmap option_fmap option_map head list_fmap snd] in Hf. destruct Hf as (c & -> & Hfl & Hall). cbn [mbind outcome_bind].
    rewrite (proj2 Hfl) by done. eexists. split; [done|]. cbn [agrees fmap list_fmap fst].
    intros k. rewrite <- Hms. rewrite !list_elem_of_fmap. split; intros (y & Hk & Hy); exists y; (split; [exact Hk|]).
    + apply Hall in Hy as (x & Hx%list_elem_of_singleton & Hy). by subst x.
    + apply Hall. exists n. split; [by apply list_elem_of_singleton|exact Hy].
Qed.

Lemma answer_other method m path :
  (method, m) ∈ Router.methodMap → path ∉ exact_paths →
  ∃ d, tree_answer m path = Ret d ∧ agrees d (table_answer method (table_hits path)).
Proof.
  intros Hm Hp. pose proof (hits_other path Hp) as Hh. pose proof (table_other path Hp) as Ht. unfold hit in Hh.
  destruct (match_segments update_segments path) as [vs|] eqn:Hu; [|destruct (match_segments value_segments path) as [vs|]].
  - assert (match_segments value_segments path = None) as Hv.
    { destruct (match_segments value_segments path) eqn:Hv; [|done]. exfalso. by eapply update_or_value. }
    rewrite Hv in Hh. exact (answer_one method m path vs _ _ _ _ Hm Hh Ht serves_update).
  - exact (answer_one method m path vs _ _ _ _ Hm Hh Ht serves_value).
  - cbn [app] in Hh. unfold tree_answer. pose proof (FindRoute_spec route_tree m path route_tree_plain) as Hf. rewrite Hh in Hf.
    unfold first_served in Hf. cbn [omap list_omap head] in Hf. destruct Hf as (c & -> & Hfl & _). cbn [mbind outcome_bind]. rewrite Ht.
    destruct (Router.methodNotAllowed c); [by destruct Hfl as [Hfl _]; specialize (Hfl eq_refl)|]. by eexists.
Qed.

Lemma answer_exact method m path :
  (method, m) ∈ Router.methodMap → path ∈ exact_paths →
  ∃ d, tree_answer m path = Ret d ∧ agrees d (table_answer method (table_hits path)).
Proof.
  intros Hm Hp. destruct serves_exact as (S0 & S1 & S2 & S4 & S5).
  unfold exact_paths in Hp. rewrite !elem_of_cons, elem_of_nil in Hp.
  destruct Hp as [->|[->|[->|[->|[->|[]]]]]]; eapply (answer_one method m _ [] _ _ []); try exact Hm;
    [| |exact S0| | |exact S1| | |exact S2| | |exact S4| | |exact S5]; vm_compute; reflexivity.
Qed.

(** The search from any path. *)
Lemma routing_agrees (method path : string) :
  ∃ d, Router.routeHTTP route_tree method path = Ret d ∧ agrees d (find_route method path).
Proof.
  unfold Router.routeHTTP, find_route. set (p := if decide (path = "") then "/" else path). cbv zeta.
  destruct (Router.method_of method) as [m|] eqn:Hm.
  - apply method_cases in Hm. rewrite decide_False.
    + destruct (decide (p ∈ exact_paths)); [by apply answer_exact|by apply answer_other].
    + intros Hn. apply Hn. unfold known_methods. apply list_elem_of_fmap. by exists (method, m).
  - rewrite decide_True; [by eexists|]. unfold known_methods. intros ([s x] & -> & Hin)%list_elem_of_fmap.
    unfold Router.method_of in Hm. apply fmap_None, list_find_None in Hm. rewrite Forall_forall in Hm. by apply (Hm (s, x)).
Qed.
End Tree.

(** ** The update route *)

Definition no_slash (s : string) : Prop := ∀ a b, s ≠ a +:+ String "/" b.

Lemma no_slash_cons c s : no_slash (String c s) ↔ c ≠ "/"%char ∧ no_slash s.
Proof.
  unfold no_slash. split.
  - intros H. split; [intros ->; by apply (H "" s)|]. intros a b ->. by apply (H (String c a) b).
  - intros [Hc H] [|d a] b; rewrite ?str_app_nil_l, ?str_app_cons; [by intros [= -> ->]|].
    intros [= -> ->]. by apply (H a b).
Qed.

Lemma no_slash_nil : no_slash "".
Proof. by intros [|c a] b. Qed.

Lemma until_slash_app v rest :
  no_slash v → (rest = "" ∨ ∃ t, rest = String "/" t) → until_slash (v +:+ rest) = (v, rest).
Proof.
  induction v as [|c v IH]; intros Hv Hr.
  - rewrite str_app_nil_l. destruct Hr as [->|[t ->]]; done.
  - apply no_slash_cons in Hv as [Hc Hv]. rewrite str_app_cons. cbn [until_slash]. rewrite decide_False by done.
    by rewrite IH.
Qed.

Lemma until_slash_spec s v rest :
  until_slash s = (v, rest) → s = v +:+ rest ∧ no_slash v ∧ (rest = "" ∨ ∃ t, rest = String "/" t).
Proof.
  revert v rest. induction s as [|c s IH]; intros v rest; simpl.
  - intros [= <- <-]. split; [done|]. split; [apply no_slash_nil|by left].
  - case_decide as Hc.
    + intros [= <- <-]. split; [done|]. split; [apply no_slash_nil|]. right. exists s. by rewrite Hc.
    + destruct (until_slash s) as [a b]. intros [= <- <-]. destruct (IH a b eq_refl) as (-> & Ha & Hb).
      split; [by rewrite str_app_cons|]. split; [by apply no_slash_cons|done].
Qed.

Lemma match_Param p v rest :
  no_slash v → (rest = "" ∨ ∃ t, rest = String "/" t) → v +:+ rest ≠ "" →
  match_segments (Param :: p) (v +:+ rest) = cons v <$> match_segments p rest.
Proof. intros Hv Hr Hne. cbn [match_segments]. rewrite decide_False by done. by rewrite until_slash_app. Qed.

Lemma match_Param_inv p path vs :
  match_segments (Param :: p) path = Some vs →
  ∃ v rest vs', path = v +:+ rest ∧ path ≠ "" ∧ no_slash v ∧ (rest = "" ∨ ∃ t, rest = String "/" t) ∧
              match_segments p rest = Some vs' ∧ vs = v :: vs'.
Proof.
  cbn [match_segments]. case_decide as Hne; [done|]. destruct (until_slash path) as [v rest] eqn:Hu.
  intros (m & Hm & ->)%fmap_Some. apply until_slash_spec in Hu as (-> & Hv & Hr). eauto 10.
Qed.

Definition update_path (mtype name value : string) : string :=
  "/update/" +:+ (mtype +:+ ("/" +:+ (name +:+ ("/" +:+ (value +:+ ""))))).
Definition update_params (mtype name value : string) : gmap string string :=
  <["type" := mtype]> (<["name" := name]> (<["value" := value]> ∅)).

Lemma slash_ne a b : a +:+ ("/" +:+ b) ≠ "".
Proof. by destruct a. Qed.

Lemma match_update mtype name value :
  no_slash mtype → no_slash name → no_slash value → value ≠ "" →
  match_segments update_segments (update_path mtype name value) = Some [mtype; name; value].
Proof.
  intros Ht Hn Hv Hne. unfold update_segments, update_path.
  rewrite match_Lit, match_Param, match_Lit, match_Param, match_Lit, match_Param; try done;
    try (by apply slash_ne); try (by right; eexists); try (by left).
  by rewrite str_app_nil_r.
Qed.

Lemma match_update_inv path vs :
  match_segments update_segments path = Some vs →
  ∃ mtype name value, no_slash mtype ∧ no_slash name ∧ no_slash value ∧ value ≠ "" ∧
    path = update_path mtype name value ∧ vs = [mtype; name; value].
Proof.
  unfold update_segments. intros (p1 & -> & H)%match_Lit_inv.
  apply match_Param_inv in H as (mtype & r1 & m1 & -> & _ & Ht & _ & H & ->).
  apply match_Lit_inv in H as (p2 & -> & H).
  apply match_Param_inv in H as (name & r2 & m2 & -> & _ & Hn & _ & H & ->).
  apply match_Lit_inv in H as (p3 & -> & H).
  apply match_Param_inv in H as (value & r3 & m3 & -> & Hne & Hv & _ & H & ->).
  cbn [match_segments] in H. case_decide as Hr; [|done]. injection H as <-. subst r3.
  rewrite str_app_nil_r in Hne. exists mtype, name, value. done.
Qed.

Lemma find_update path ps :
  find_route "POST" path = Found EUpdate ps ↔
  ∃ mtype name value, no_slash mtype ∧ no_slash name ∧ no_slash value ∧ value ≠ "" ∧
    path = update_path mtype name value ∧ ps = update_params mtype name value.
Proof.
  unfold find_route. rewrite (decide_False (P := "POST" ∉ known_methods))
    by (intros H; apply H; apply (bool_decide_unpack _); vm_compute; exact I).
  destruct (decide (path = "")) as [->|Hp].
  { split; [done|]. by intros (mtype & name & value & _ & _ & _ & _ & H & _). }
  cbv zeta. fold (table_hits path). destruct (decide (path ∈ exact_paths)) as [He|He].
  - split.
    + unfold exact_paths in He. rewrite !elem_of_cons, elem_of_nil in He.
      by destruct He as [->|[->|[->|[->|[->|[]]]]]].
    + intros (mtype & name & value & Ht & Hn & Hv & Hne & -> & ->). exfalso.
      unfold exact_paths in He. rewrite !elem_of_cons, elem_of_nil in He. pose proof (match_update _ _ _ Ht Hn Hv Hne) as Hm.
      by destruct He as [H|[H|[H|[H|[H|[]]]]]]; rewrite H in Hm.
  - rewrite table_other by done. destruct (match_segments update_segments path) as [vs|] eqn:Hu.
    + cbn. apply match_update_inv in Hu as (mtype & name & value & Ht & Hn & Hv & Hne & -> & ->). split.
      * intros [= <-]. exists mtype, name, value. done.
      * intros (mtype' & name' & value' & Ht' & Hn' & Hv' & Hne' & Heq & ->).
        pose proof (match_update _ _ _ Ht Hn Hv Hne) as Hm. rewrite Heq, match_update in Hm by done.
        by injection Hm as -> -> ->.
    + split.
      * by destruct (match_segments value_segments path).
      * intros (mtype & name & value & Ht & Hn & Hv & Hne & -> & _). by rewrite match_update in Hu.
Qed.

(** [C10] The router: the tree that go-chi builds of the server's patterns, searched the way go-chi
    does, gives for every method and path what the table of routes says: the same handler with the same
    parameters, 405 with the same methods allowed, or 404; and the search never panics or runs out of the tree. *)
Theorem chi_routing `{Router.Regexp} (method path : string) :
  ∃ d, Router.routeHTTP route_tree method path = Ret d ∧ agrees d (find_route method path).
Proof. apply routing_agrees. Qed.

(** The update route: a POST is handed to the update handler exactly for the paths
    [/update/<type>/<name>/<value>] whose parts have no slash and whose value is not empty (type and
    name may be), with those parts as its parameters; no other path reaches that handler. *)
Theorem update_route `{Router.Regexp} (path : string) (ps : gmap string string) :
  Router.routeHTTP route_tree "POST" path = Ret (Router.RServe EUpdate ps) ↔
  ∃ mtype name value, no_slash mtype ∧ no_slash name ∧ no_slash value ∧ value ≠ "" ∧
    path = update_path mtype name value ∧ ps = update_params mtype name value.
Proof.
  rewrite <- find_update. destruct (routing_agrees "POST" path) as (d & -> & Hd). split.
  - intros [= ->]. cbn in Hd. destruct (find_route "POST" path); [|done..]. by destruct Hd as [<- <-].
  - intros Hf. rewrite Hf in Hd. destruct d; [|done..]. by destruct Hd as [-> ->].
Qed.
