(* ===== verification/Middleware.v ===== *)
(** * Compression and logging

    [internal/compression/compression.go] and [internal/logging/logging.go]: the middlewares every route is
    wrapped in.  The gzip format is a parameter: a writer that turns what it is given into bytes, and
    a reader.  Requests have no query string here, so the logged URI is the path. *)

From S2P Require Import Prelude Strconv Float64 GoErrors Metrics MemStorage Json Http.

Open Scope Z_scope.

(** ** Compression *)

Definition allowedCompressTypes : string := "text/html application/json".

(** [compress/gzip]: the bytes a [gzip.Writer] passes on for each [Write] and on [Close]; [gunzip s broken]
    is [None] when [gzip.NewReader] rejects the stream [s] (that ends with a read error if
    [broken]), and otherwise what can be read from it and whether reading ends with an error. *)
Class Gzip : Type := {
  gz_state : Type;
  gz_new : gz_state;
  gz_Write : gz_state → string → string * gz_state;
  gz_Close : gz_state → string;
  gunzip : string → bool → option (string * bool)
}.

Section Compression.
Context `{Gzip}.

(** A call to the wrapped writer, unless there is nothing to write. *)
Definition write_some (d : string) : list wcall := if decide (d = "") then [] else [Write d].

(** [compressWriter], up to and including [Close]. *)
Fixpoint compress_calls (zw : gz_state) (l : list wcall) : list wcall :=
  match l with
  | [] => write_some (gz_Close zw)
  | WriteHeader code :: l =>
      HeaderSet "Content-Encoding" "gzip" :: WriteHeader code :: compress_calls zw l
  | Write d :: l => let '(o, zw) := gz_Write zw d in write_some o ++ compress_calls zw l
  | c :: l => c :: compress_calls zw l
  end.

Definition GzipCompDecomp {S} (h : handler S) : handler S := λ r w,
  let acceptEncoding := header_Get (Header r) "Accept-Encoding" in
  let contentType := header_Get (Header r) "Content-Type" in
  let supportsContentType := bool_decide (contentType ≠ "") && Contains allowedCompressTypes contentType in
  let supportsGzip := Contains acceptEncoding "gzip" in
  let compress := supportsGzip && (bool_decide (Method r = "GET") || supportsContentType) in
  let ow l := if compress then compress_calls gz_new l else l in
  let contentEncoding := header_Get (Header r) "Content-Encoding" in
  if Contains contentEncoding "gzip" then
    match gunzip (Body r) (BodyErr r) with
    | None =>
        Ret (WriteHeader StatusInternalServerError :: (if compress then write_some (gz_Close gz_new) else []), w)
    | Some (content, broken) =>
        '(l, w) ← h (mkRequest (Method r) (Path r) (Header r) (RemoteAddr r) (URLParams r) content broken) w;
        Ret (ow l, w)
    end
  else '(l, w) ← h r w; Ret (ow l, w).
End Compression.

(** ** Logging *)

(** [responseData] of the logging writer. *)
Record responseData : Type := mkData { rd_status : Z; rd_size : Z }.

Definition log_step (d : responseData) (c : wcall) : responseData :=
  match c with
  | Write b => mkData (rd_status d) (rd_size d + Z.of_nat (String.length b))
  | WriteHeader code => mkData code (rd_size d)
  | _ => d
  end.

Definition log_calls (l : list wcall) : responseData := foldl log_step (mkData 0 0) l.

(** The line [Log.Info] writes, without the duration. *)
Record log_entry : Type := mkEntry {
  le_method : string; le_uri : string; le_status : Z; le_length : Z; le_accept : string }.

Definition WriteLogging {S} (h : handler S) :
    request → world S → outcome (list wcall * world S * log_entry) := λ r w,
  let encCheck := header_Get (Header r) "Accept-Encoding" in
  '(l, w) ← h r w;
  let rd := log_calls l in
  Ret (l, w, mkEntry (Method r) (Path r) (rd_status rd) (rd_size rd) encCheck).

(** [bytes.ToLower] on the level names: besides ASCII, the dotted capital I has an ASCII
    lower case. *)
Fixpoint to_lower (s : string) : string :=
  match s with
  | String a s1 =>
      match s1 with
      | String b s2 =>
          if decide (byte a = 196 ∧ byte b = 176) then String "i" (to_lower s2)
          else String (lower a) (to_lower s1)
      | "" => String (lower a) ""
      end
  | "" => ""
  end.

Inductive level : Type := Debug | Info | Warn | Error | DPanic | Panic_ | Fatal_.

Definition level_of (s : string) : option level :=
  if decide (s ∈ ["debug"; "DEBUG"]) then Some Debug
  else if decide (s ∈ ["info"; "INFO"; ""]) then Some Info
  else if decide (s ∈ ["warn"; "WARN"]) then Some Warn
  else if decide (s ∈ ["error"; "ERROR"]) then Some Error
  else if decide (s ∈ ["dpanic"; "DPANIC"]) then Some DPanic
  else if decide (s ∈ ["panic"; "PANIC"]) then Some Panic_
  else if decide (s ∈ ["fatal"; "FATAL"]) then Some Fatal_
  else None.

(** [Setup]: the level of the new logger, [None] for an error. *)
Definition Setup (text : string) : option level :=
  match level_of text with Some l => Some l | None => level_of (to_lower text) end.

(** ** Lemmas *)

Section Transparent.
Context `{Gzip}.

(** What the writer makes of a sequence of writes. *)
Fixpoint gz_run (zw : gz_state) (ds : list string) : string :=
  match ds with
  | [] => gz_Close zw
  | d :: ds => let '(o, zw) := gz_Write zw d in o +:+ gz_run zw ds
  end.

(** What the calls write. *)
Definition written_data (l : list wcall) : list string :=
  omap (λ c, match c with Write d => Some d | _ => None end) l.

Lemma written_data_cons c l :
  written_data (c :: l) = match c with Write d => d :: written_data l | _ => written_data l end.
Proof. by destruct c. Qed.

Lemma concat_written_app a b : concat_str (written_data (a ++ b)) = concat_str (written_data a) +:+ concat_str (written_data b).
Proof.
  unfold written_data. rewrite omap_app. induction (omap _ a) as [|d t IH]; [done|]. simpl. by rewrite IH, str_app_assoc.
Qed.

Lemma written_write_some d : concat_str (written_data (write_some d)) = d.
Proof. unfold write_some. case_decide; [by subst|]. simpl. apply str_app_nil_r. Qed.

Lemma compress_written zw l : concat_str (written_data (compress_calls zw l)) = gz_run zw (written_data l).
Proof.
  revert zw. induction l as [|c l IH]; intros zw; cbn [compress_calls]; [apply written_write_some|].
  destruct c; cbn; [apply IH..|]. destruct (gz_Write zw data) as [o zw']. by rewrite concat_written_app, written_write_some, IH.
Qed.

(** The body of a response is what was written. *)
Lemma body_foldl l r : body (foldl wstep r l) = body r +:+ concat_str (written_data l).
Proof.
  revert r. induction l as [|c l IH]; intros r; [by rewrite str_app_nil_r|]. cbn [foldl]. rewrite IH.
  destruct c; cbn; [done..| |].
  - unfold send_header. by destruct (sent r).
  - unfold send_header. destruct (sent r); cbn; by rewrite str_app_assoc.
Qed.

Lemma reply_body_written l : reply_body l = concat_str (written_data l).
Proof.
  unfold reply_body, respond. assert (body (foldl wstep new_response l) = concat_str (written_data l)) as <-
    by by rewrite body_foldl.
  set (r := foldl wstep new_response l). unfold send_header.
  destruct (sent r) as [[code h]|] eqn:Hs; [by rewrite Hs|done].
Qed.
End Transparent.

(** Documented behaviour of gzip: what was written and closed is read back. *)
Class GzipLaws `{Gzip} : Prop := {
  gunzip_run ds : gunzip (gz_run gz_new ds) false = Some (concat_str ds, false)
}.

(** A stand-in for gzip: the letter G, then the data; the state says whether G was written. *)
Definition toy_Gzip : Gzip := {|
  gz_state := bool; gz_new := false;
  gz_Write := λ zw d, (if zw then d else String "G" d, true);
  gz_Close := λ zw, if zw then "" else "G";
  gunzip := λ s broken, match s with String "G" s => Some (s, broken) | _ => None end
|}.

Lemma toy_GzipLaws : GzipLaws (H := toy_Gzip).
Proof.
  assert (∀ ds, gz_run (H := toy_Gzip) true ds = concat_str ds) as Htrue.
  { induction ds as [|d ds IH]; [done|]. cbn in *. by rewrite IH. }
  split. intros [|d ds]; [done|]. cbn in *. by rewrite Htrue.
Qed.

(** ** What the middlewares promise *)

(** The status is sent before anything is written, as every handler does. *)
Definition status_first_calls (l : list wcall) : Prop :=
  ∃ pre code rest, l = pre ++ WriteHeader code :: rest ∧ Forall header_only pre.

Section Promises.
Context `{Gzip}.

Lemma compress_header_only zw pre rest :
  Forall header_only pre → compress_calls zw (pre ++ rest) = pre ++ compress_calls zw rest.
Proof. induction 1 as [|c pre Hc Hpre IH]; [done|]. destruct c; simpl in *; by rewrite ?IH. Qed.

(** The same reply to a client that undoes the compression it asked for. *)
Definition same_reply (l l' : list wcall) : Prop :=
  status l' = status l ∧
  (l' = l ∨ (reply_header l' "Content-Encoding" = "gzip" ∧ gunzip (reply_body l') false = Some (reply_body l, false))).

Lemma compress_same_reply `{!GzipLaws} l : status_first_calls l → same_reply l (compress_calls gz_new l).
Proof.
  intros (pre & code & rest & -> & Hpre). unfold same_reply.
  rewrite !reply_body_written, compress_written, gunzip_run.
  rewrite compress_header_only by done. cbn [compress_calls]. split.
  - rewrite status_first by done.
    replace (pre ++ HeaderSet "Content-Encoding" "gzip" :: WriteHeader code :: compress_calls gz_new rest)
      with ((pre ++ [HeaderSet "Content-Encoding" "gzip"]) ++ WriteHeader code :: compress_calls gz_new rest)
      by by rewrite <- app_assoc.
    apply status_first, Forall_app_2; [done|by repeat constructor].
  - right. split; [by apply header_before_status|done].
Qed.
End Promises.

(** The request the wrapped handler sees. *)
Definition plain_request `{Gzip} (r : request) : option request :=
  if Contains (header_Get (Header r) "Content-Encoding") "gzip" then
    '(content, broken) ← gunzip (Body r) (BodyErr r);
    Some (mkRequest (Method r) (Path r) (Header r) (RemoteAddr r) (URLParams r) content broken)
  else Some r.

(** [C35] Compression is transparent: a handler behind the middleware gets the decompressed request, and
    if it sends a status before it writes, the client gets the same status and, after undoing the
    compression announced in the headers, the same body; only the announced encoding differs.  A
    request that claims to be gzip and is not is answered with 500 and never reaches the handler. *)
Theorem gzip_transparent `{Gzip} `{!GzipLaws} {S : Type} (h : handler S) (r : request) (w : world S) :
  match plain_request r with
  | None => ∃ l, status l = StatusInternalServerError ∧ ∀ h', GzipCompDecomp (S := S) h' r w = Ret (l, w)
  | Some r' =>
      ∀ l w', h r' w = Ret (l, w') → status_first_calls l →
      ∃ l', GzipCompDecomp h r w = Ret (l', w') ∧ same_reply l l'
  end.
Proof.
  unfold plain_request, GzipCompDecomp. cbv zeta.
  set (compress := Contains _ "gzip" && _).
  assert (∀ l, status_first_calls l → same_reply l (if compress then compress_calls gz_new l else l)) as Hsame.
  { intros l Hl. destruct compress; [by apply compress_same_reply|]. by split; [|left]. }
  destruct (Contains (header_Get (Header r) "Content-Encoding") "gzip").
  - destruct (gunzip (Body r) (BodyErr r)) as [[content broken]|]; cbn [mbind option_bind].
    + intros l w' Hh Hl. rewrite Hh. cbn [mbind outcome_bind]. eauto.
    + eexists. split; [|done]. apply (status_first []). constructor.
  - intros l w' Hh Hl. rewrite Hh. cbn [mbind outcome_bind]. eauto.
Qed.

Lemma gzip_transparent_witness :
  ∃ l', GzipCompDecomp (H := toy_Gzip) (S := unit)
          (λ r w, Ret ([HeaderSet "Content-Type" "text/html"; WriteHeader 200; Write "a"; Write (Body r)], w))
          (mkRequest "GET" "/" {[ "Accept-Encoding" := "gzip, br"; "Content-Encoding" := "gzip" ]} "" ∅ "Gbody" false)
          (World 0 tt) = Ret (l', World 0 tt) ∧
        same_reply (H := toy_Gzip)
          [HeaderSet "Content-Type" "text/html"; WriteHeader 200; Write "a"; Write "body"] l'.
Proof.
  refine (gzip_transparent (H := toy_Gzip) (H0 := toy_GzipLaws)
    (λ r w, Ret ([HeaderSet "Content-Type" "text/html"; WriteHeader 200; Write "a"; Write (Body r)], w))
    (mkRequest "GET" "/" {[ "Accept-Encoding" := "gzip, br"; "Content-Encoding" := "gzip" ]} "" ∅ "Gbody" false)
    (World 0 tt) _ (World 0 tt) _ _).
  - reflexivity.
  - exists [HeaderSet "Content-Type" "text/html"], 200, [Write "a"; Write "body"]. split; [reflexivity|by repeat constructor].
Defined.

Lemma log_size l d : rd_size (foldl log_step d l) = rd_size d + Z.of_nat (String.length (concat_str (written_data l))).
Proof.
  revert d. induction l as [|c l IH]; intros d; [simpl; lia|]. cbn [foldl]. rewrite IH, written_data_cons.
  destruct c; cbn [log_step rd_size concat_str]; rewrite ?length_str_app; lia.
Qed.

Lemma log_status code l d :
  Forall (λ c, match c with WriteHeader x => x = code | _ => True end) l →
  rd_status d = code → rd_status (foldl log_step d l) = code.
Proof.
  intros Hl. revert d. induction Hl as [|c l Hc Hl IH]; intros d Hd; [done|]. cbn [foldl]. apply IH. by destruct c.
Qed.

(** The log tells the truth about a reply of one status: the logged status is the one the client
    gets, and the logged length is the length of the body sent, compressed if it was. *)
Theorem log_matches_reply {S : Type} (h : handler S) (r : request) (w w' : world S) (l : list wcall)
    (Hh : h r w = Ret (l, w')) (Hl : status_first_calls l)
    (Hone : Forall (λ c, match c with WriteHeader code => code = status l | _ => True end) l) :
  ∃ e, WriteLogging h r w = Ret (l, w', e) ∧ le_method e = Method r ∧ le_uri e = Path r ∧
       le_status e = status l ∧ le_length e = Z.of_nat (String.length (reply_body l)).
Proof.
  unfold WriteLogging. cbv zeta. rewrite Hh. cbn [mbind outcome_bind]. eexists. split; [done|].
  cbn [le_method le_uri le_status le_length]. split; [done|]. split; [done|]. unfold log_calls.
  split; [|by rewrite log_size, reply_body_written].
  destruct Hl as (pre & code & rest & -> & Hpre). rewrite status_first in * by done.
  apply Forall_app in Hone as [_ [_ Hrest]%Forall_cons].
  rewrite foldl_app. cbn [foldl]. by apply log_status.
Qed.

Lemma log_matches_reply_witness :
  ∃ e, WriteLogging (S := unit) (λ r w, Ret (http_Error "metric_type not found" 400, w))
         (mkRequest "POST" "/update/x/y/z" ∅ "" ∅ "" false) (World 0 tt) =
         Ret (http_Error "metric_type not found" 400, World 0 tt, e) ∧
       le_method e = "POST" ∧ le_uri e = "/update/x/y/z" ∧
       le_status e = status (http_Error "metric_type not found" 400) ∧
       le_length e = Z.of_nat (String.length (reply_body (http_Error "metric_type not found" 400))).
Proof.
  apply (log_matches_reply (λ r w, Ret (http_Error "metric_type not found" 400, w))).
  - reflexivity.
  - eexists [_; _], _, _. split; [reflexivity|by repeat constructor].
  - by repeat constructor.
Defined.
