(* ===== verification/Netip.v ===== *)
(** * IP addresses and prefixes

    What the server uses of [net/netip] (Go 1.22): [ParseAddr], [ParsePrefix] and
    [Prefix.Contains].  An address is its value as an unsigned integer of 32 or 128 bits. *)

From S2P Require Import Prelude Strconv Float64 Json.

Open Scope Z_scope.

Inductive Addr : Type :=
| Addr4 (n : Z)
| Addr6 (n : Z) (zone : string).

#[export] Instance Addr_eq_dec : EqDecision Addr.
Proof. solve_decision. Defined.

(** ** Parsing *)

(** One octet: at most 255, digits only, no leading zero. *)
Definition octet (s : string) : option Z :=
  match s with
  | "" => None
  | String c s' =>
      if decide (all_digits s = true ∧ (c ≠ "0"%char ∨ s' = "") ∧ digits_val 0 s ≤ 255)
      then Some (digits_val 0 s) else None
  end.

(** [parseIPv4Fields]: four octets separated by dots. *)
Definition ipv4_fields (s : string) : option (list Z) :=
  match Split s "."%char with
  | [a; b; c; d] => w ← octet a; x ← octet b; y ← octet c; z ← octet d; Some [w; x; y; z]
  | _ => None
  end.

Definition of_be (l : list Z) : Z := foldl (λ a b, a * 256 + b) 0 l.

(** Up to four hex digits: their number, value, and what follows. *)
Fixpoint hex_group (n : nat) (acc : Z) (s : string) : option (nat * Z * string) :=
  match s with
  | String c s' =>
      match hex_val c with
      | Some d => if decide (4 ≤ n)%nat then None else hex_group (S n) (acc * 16 + d) s'
      | None => Some (n, acc, s)
      end
  | "" => Some (n, acc, s)
  end.

(** The loop of [parseIPv6]: [ip] are the bytes so far, [ellipsis] the position of the "::".
    The result is the final [ip] and [ellipsis] when the whole string was used. *)
Fixpoint ipv6_loop (fuel : nat) (ip : list Z) (ellipsis : option nat) (s : string) : option (list Z * option nat) :=
  match fuel with
  | O => None
  | S fuel =>
      if decide (16 ≤ length ip)%nat then (if decide (s = "") then Some (ip, ellipsis) else None)
      else
        '(n, acc, rest) ← hex_group 0 0 s;
        if decide (n = 0%nat) then None
        else if HasPrefix rest "." then
          if decide (ellipsis = None ∧ length ip ≠ 12%nat) then None
          else if decide (16 < length ip + 4)%nat then None
          else f ← ipv4_fields s; Some (ip ++ f, ellipsis)
        else
            let ip := ip ++ [acc `div` 256; acc `mod` 256] in
            match rest with
            | "" => Some (ip, ellipsis)
            | String c rest =>
                if decide (c ≠ ":"%char) then None
                else match rest with
                | "" => None
                | String c' rest' =>
                    if decide (c' = ":"%char) then
                      match ellipsis with
                      | Some _ => None
                      | None =>
                          if decide (rest' = "") then Some (ip, Some (length ip))
                          else ipv6_loop fuel ip (Some (length ip)) rest'
                      end
                    else ipv6_loop fuel ip ellipsis rest
                end
            end
  end.

(** Expansion of the "::". *)
Definition ipv6_expand (ip : list Z) (ellipsis : option nat) : option Z :=
  if decide (length ip < 16)%nat then
    match ellipsis with
    | None => None
    | Some e => Some (of_be (take e ip ++ replicate (16 - length ip) 0 ++ drop e ip))
    end
  else match ellipsis with None => Some (of_be ip) | Some _ => None end.

Fixpoint index_of (c : ascii) (s : string) : option nat :=
  match s with
  | "" => None
  | String d s => if decide (d = c) then Some 0%nat else S <$> index_of c s
  end.

(** The value of the address without its zone; each turn of the loop uses at least one byte of
    the sixteen, so seventeen turns are enough. *)
Definition ipv6_value (s : string) : option Z :=
  if HasPrefix s "::" then
    let t := str_drop 2 s in
    if decide (t = "") then Some 0
    else '(ip, e) ← ipv6_loop 17 [] (Some 0%nat) t; ipv6_expand ip e
  else '(ip, e) ← ipv6_loop 17 [] None s; ipv6_expand ip e.

Definition parseIPv6 (s : string) : option Addr :=
  match index_of "%"%char s with
  | Some i =>
      let zone := str_drop (S i) s in
      if decide (zone = "") then None
      else n ← ipv6_value (str_take i s); Some (Addr6 n zone)
  | None => n ← ipv6_value s; Some (Addr6 n "")
  end.

(** [ParseAddr]: the first dot, colon or percent sign decides. *)
Fixpoint ParseAddr_from (whole s : string) : option Addr :=
  match s with
  | "" => None
  | String c s =>
      if decide (c = "."%char) then l ← ipv4_fields whole; Some (Addr4 (of_be l))
      else if decide (c = ":"%char) then parseIPv6 whole
      else if decide (c = "%"%char) then None
      else ParseAddr_from whole s
  end.
Definition ParseAddr (s : string) : option Addr := ParseAddr_from s s.

Record Prefix : Type := mkPrefix { prefix_ip : Addr; prefix_bits : Z }.

#[export] Instance Prefix_eq_dec : EqDecision Prefix.
Proof. solve_decision. Defined.

Definition BitLen (a : Addr) : Z := match a with Addr4 _ => 32 | Addr6 _ _ => 128 end.
Definition addr_value (a : Addr) : Z := match a with Addr4 n => n | Addr6 n _ => n end.
Definition zone_of (a : Addr) : string := match a with Addr4 _ => "" | Addr6 _ z => z end.

(** The parts before and after the last slash. *)
Fixpoint last_slash (s : string) : option (string * string) :=
  match s with
  | "" => None
  | String c s =>
      match last_slash s with
      | Some (a, b) => Some (String c a, b)
      | None => if decide (c = "/"%char) then Some ("", s) else None
      end
  end.

Definition ParsePrefix (s : string) : option Prefix :=
  '(a, bitsStr) ← last_slash s;
  ip ← ParseAddr a;
  if decide (zone_of ip ≠ "") then None
  else if bool_decide (1 < String.length bitsStr)%nat &&
          match bitsStr with String c _ => bool_decide (¬ (49 ≤ byte c ≤ 57)) | "" => false end then None
  else
    bits ← Atoi bitsStr;
    if decide (bits < 0 ∨ BitLen ip < bits) then None else Some (mkPrefix ip bits).

(** [Prefix.Contains]. *)
Definition Prefix_Contains (p : Prefix) (ip : Addr) : bool :=
  bool_decide (zone_of ip = "") && bool_decide (BitLen (prefix_ip p) = BitLen ip) &&
  bool_decide (Z.shiftr (Z.lxor (addr_value ip) (addr_value (prefix_ip p))) (BitLen ip - prefix_bits p) = 0).

Example ParseAddr_ex :
  ParseAddr "192.168.0.1" = Some (Addr4 3232235521) ∧ ParseAddr "1.2.3.04" = None ∧ ParseAddr "1.2.3" = None ∧
  ParseAddr "256.0.0.1" = None ∧ ParseAddr "::1" = Some (Addr6 1 "") ∧ ParseAddr "::" = Some (Addr6 0 "") ∧
  ParseAddr "::ffff:1.2.3.4" = Some (Addr6 (0xffff01020304) "") ∧ ParseAddr "fe80::1%eth0" = Some (Addr6 (0xfe80 * 2 ^ 112 + 1) "eth0") ∧
  ParseAddr "1:2:3:4:5:6:7:8" = Some (Addr6 0x00010002000300040005000600070008 "") ∧
  ParseAddr "1:2:3:4:5:6:7:8::" = None ∧ ParseAddr "1::2::3" = None ∧ ParseAddr "12345::" = None ∧ ParseAddr "[" = None.
Proof. vm_compute. done. Qed.

Example ParsePrefix_ex :
  ParsePrefix "10.0.0.0/8" = Some (mkPrefix (Addr4 167772160) 8) ∧ ParsePrefix "10.0.0.0/08" = None ∧
  ParsePrefix "10.0.0.0/33" = None ∧ ParsePrefix "10.0.0.0" = None ∧ ParsePrefix "::/0" = Some (mkPrefix (Addr6 0 "") 0).
Proof. vm_compute. done. Qed.

(** ** Lemmas *)

Definition Prefix_ok (p : Prefix) : Prop := 0 ≤ prefix_bits p ≤ BitLen (prefix_ip p) ∧ zone_of (prefix_ip p) = "".

Lemma ParsePrefix_ok s p : ParsePrefix s = Some p → Prefix_ok p.
Proof.
  unfold ParsePrefix. intros ([a b] & _ & H)%bind_Some. apply bind_Some in H as (ip & _ & H).
  case_decide; [done|]. case_match; [done|]. apply bind_Some in H as (bits & _ & H).
  case_decide; [done|]. injection H as <-. unfold Prefix_ok; simpl. split; [lia|done].
Qed.

(** An address is in a prefix when it has the same family and no zone, and the two agree on the
    leading bits. *)
Lemma Prefix_Contains_spec p ip :
  Prefix_ok p →
  Prefix_Contains p ip = true ↔
  zone_of ip = "" ∧ BitLen ip = BitLen (prefix_ip p) ∧
  addr_value ip `div` 2 ^ (BitLen ip - prefix_bits p) =
  addr_value (prefix_ip p) `div` 2 ^ (BitLen ip - prefix_bits p).
Proof.
  intros [Hb _]. unfold Prefix_Contains. rewrite !andb_true_iff, !bool_decide_eq_true.
  split.
  - intros [[Hz Hl] Hx]. split; [done|]. split; [done|].
    rewrite <- !Z.shiftr_div_pow2 by lia. rewrite Z.shiftr_lxor in Hx. by apply Z.lxor_eq.
  - intros (Hz & Hl & Hx). split; [done|]. rewrite <- !Z.shiftr_div_pow2 in Hx by lia.
    rewrite Z.shiftr_lxor, Hx. apply Z.lxor_nilpotent.
Qed.
