(* ===== verification/Server.v ===== *)
(** * The HTTP server: subnets and routes

    More of [internal/server/server.go]: [parseSubnetPrefixes], [checkIP] and [chiRouter] with the
    middlewares of every route; the routes themselves are in [Routes.v], the life of the process in
    [ServerRun.v]. *)

From S2P Require Import Prelude Strconv Float64 GoErrors Metrics MemStorage Json MemFile GoRetry Retrier.
From S2P Require Import StoreSpec Http Chi Routes Handlers Codec SignWriter CryptAndSign Middleware Netip.

Open Scope Z_scope.

(** ** Subnets *)

(** The inner option is the nil slice; the outer [None] is an error. *)
Fixpoint parse_all_prefixes (l : list string) : option (list Prefix) :=
  match l with
  | [] => Some []
  | v :: l => network ← ParsePrefix v; ps ← parse_all_prefixes l; Some (network :: ps)
  end.

Definition parseSubnetPrefixes (subnets : string) : option (option (list Prefix)) :=
  if decide (subnets = "") then Some None
  else ps ← parse_all_prefixes (Split subnets ","%char); Some (Some ps).

(** The address a request is judged by. *)
Definition real_ip (r : request) : string :=
  let realIP := header_Get (Header r) "X-Real-IP" in
  if decide (realIP = "") then default "" (head (Split (RemoteAddr r) ":"%char)) else realIP.

Definition checkIP {S A} (subnets : option (list Prefix)) (refuse : list wcall → world S → A)
    (h : request → world S → outcome A) : request → world S → outcome A := λ r w,
  match subnets with
  | None => h r w
  | Some subnets =>
      match ParseAddr (real_ip r) with
      | None => Ret (refuse (http_Error "can't determine client ip" StatusForbidden) w)
      | Some ip =>
          if existsb (λ v, Prefix_Contains v ip) subnets then h r w
          else Ret (refuse (http_Error "client ip does't belong to allowed subnets" StatusForbidden) w)
      end
  end.

(** ** The router with its handlers *)

Section Routing.
Context {S : Type} `{StoreMetrics S} `{Gzip} `{RSA} `{Router.Regexp}.
Context (mh : metricHandlers) (keyenc privkeypath : string).

(** What a request to the server gives: the calls on the writer, the world, the log lines. *)
Definition served : Type := list wcall * world S * list log_entry.

Definition logged_route (h : handler S) (r : request) (w : world S) : outcome served :=
  '(l, w, e) ← WriteLogging h r w; Ret (l, w, [e]).

(** The handler of each route with its middlewares. *)
Definition endpoint_handler (e : endpoint) : handler S :=
  let protected h := GzipCompDecomp (SignCheck (AsymmetricDencryptData h privkeypath) keyenc) in
  match e with
  | EUpdate => protected (updateMetrics mh)
  | EValue => GzipCompDecomp (getMetrics mh)
  | EAll => GzipCompDecomp (getAll mh)
  | EUpdateJSON => protected (updateMetricsJSON mh)
  | EValueJSON => GzipCompDecomp (getMetricsJSON mh)
  | EUpdatesJSON => protected (updateBatchMetricsJSON mh)
  | EPing => GzipCompDecomp (dbPing mh)
  end.

(** [ServeHTTP] past the middlewares: the route found, 405 with the allowed methods, or 404. *)
Definition routeHTTP (tree : Router.node endpoint) (r : request) (w : world S) : outcome served :=
  d ← Router.routeHTTP tree (Method r) (Path r);
  match d with
  | Router.RServe e ps => logged_route (endpoint_handler e) (set_params r ps) w
  | Router.RMethodNotAllowed ms =>
      Ret (((λ m, HeaderAdd "Allow" (Router.reverseMethodMap m)) <$> ms) ++ [WriteHeader StatusMethodNotAllowed; Write ""], w, [])
  | Router.RNotFound => Ret (http_Error "404 page not found" StatusNotFound, w, [])
  end.

Definition chiRouter (subnets : option (list Prefix)) : request → world S → outcome served := λ r w,
  mx ← Router.Use (checkIP subnets (λ l w, (l, w, []))) Router.NewRouter;
  mx ← register mx;
  Router.chain (Router.middlewares mx) (routeHTTP (Router.tree mx)) r w.

Lemma chiRouter_eq subnets r w :
  chiRouter subnets r w = checkIP subnets (λ l w, (l, w, [])) (routeHTTP route_tree) r w.
Proof.
  unfold chiRouter. cbn [Router.Use Router.NewRouter Router.has_handler Router.tree Router.middlewares app mbind outcome_bind].
  by rewrite register_tree.
Qed.
End Routing.

(** ** The subnets *)

(** The address shares the leading bits of the prefix. *)
Definition in_subnet (p : Prefix) (ip : Addr) : Prop :=
  zone_of ip = "" ∧ BitLen ip = BitLen (prefix_ip p) ∧
  addr_value ip `div` 2 ^ (BitLen ip - prefix_bits p) =
  addr_value (prefix_ip p) `div` 2 ^ (BitLen ip - prefix_bits p).

Definition trusted (ps : list Prefix) (r : request) : Prop :=
  ∃ ip p, ParseAddr (real_ip r) = Some ip ∧ p ∈ ps ∧ in_subnet p ip.

Lemma parse_all_prefixes_ok l ps : parse_all_prefixes l = Some ps → Forall Prefix_ok ps.
Proof.
  revert ps. induction l as [|v l IH]; intros ps; [by intros [= <-]|].
  intros (p & Hp & (qs & Hq & [= <-])%bind_Some)%bind_Some. constructor; [by eapply ParsePrefix_ok|by apply IH].
Qed.

Lemma parseSubnetPrefixes_ok subnets ps : parseSubnetPrefixes subnets = Some (Some ps) → Forall Prefix_ok ps.
Proof.
  unfold parseSubnetPrefixes. case_decide; [done|]. intros (qs & Hq & [= <-])%bind_Some. by eapply parse_all_prefixes_ok.
Qed.

Lemma existsb_subnet ps ip :
  Forall Prefix_ok ps → existsb (λ v, Prefix_Contains v ip) ps = true ↔ ∃ p, p ∈ ps ∧ in_subnet p ip.
Proof.
  intros Hps. rewrite Forall_forall in Hps. rewrite existsb_exists. split; intros (p & Hin & Hc); exists p.
  - apply base.list_elem_of_In in Hin. split; [done|]. by apply Prefix_Contains_spec; [apply Hps|].
  - split; [by apply base.list_elem_of_In|]. by apply Prefix_Contains_spec; [apply Hps|].
Qed.

Section Gate.
Context {S A : Type} (ps : list Prefix) (refuse : list wcall → world S → A) (h : request → world S → outcome A).
Context (Hps : Forall Prefix_ok ps).

Lemma checkIP_trusted r w : trusted ps r → checkIP (Some ps) refuse h r w = h r w.
Proof.
  intros (ip & p & Hip & Hin & Hnet). unfold checkIP. rewrite Hip.
  by rewrite (proj2 (existsb_subnet ps ip Hps)) by eauto.
Qed.

Lemma checkIP_untrusted r w :
  ¬ trusted ps r → ∃ msg, checkIP (Some ps) refuse h r w = Ret (refuse (http_Error msg StatusForbidden) w).
Proof.
  intros Hn. unfold checkIP. destruct (ParseAddr (real_ip r)) as [ip|] eqn:Hip; [|by eexists].
  destruct (existsb _ ps) eqn:He; [|by eexists].
  apply existsb_subnet in He as (p & Hp); [|done]. exfalso. apply Hn. by exists ip, p.
Qed.
End Gate.

(** [C16] The subnet gate: with trusted subnets configured, a request whose address (the X-Real-IP
    header, or the peer address up to its first colon) parses and shares the leading bits of one of the configured
    prefixes is served as if there were no gate; every other request is answered with 403,
    no handler runs and the store is not touched. *)
Theorem subnet_gate {S : Type} `{StoreMetrics S} `{Gzip} `{RSA} `{Router.Regexp} (mh : metricHandlers) (keyenc privkeypath subnets : string)
    (ps : list Prefix) (r : request) (w : world S) (Hps : parseSubnetPrefixes subnets = Some (Some ps)) :
  (trusted ps r →
     chiRouter mh keyenc privkeypath (Some ps) r w = chiRouter mh keyenc privkeypath None r w) ∧
  (¬ trusted ps r →
     ∃ l, chiRouter mh keyenc privkeypath (Some ps) r w = Ret (l, w, []) ∧ status l = StatusForbidden).
Proof.
  apply parseSubnetPrefixes_ok in Hps. rewrite !chiRouter_eq. split.
  - by apply checkIP_trusted.
  - intros Hn. destruct (checkIP_untrusted ps (λ l w, (l, w, [])) (routeHTTP mh keyenc privkeypath route_tree) Hps r w Hn) as [msg ->].
    by eexists.
Qed.

Lemma subnet_gate_witness :
  ∃ ps l, parseSubnetPrefixes "10.0.0.0/8,192.168.1.0/24" = Some (Some ps) ∧
  chiRouter (H0 := toy_Gzip) (H1 := toy_RSA) (H2 := Router.no_regexp) started "" "" (Some ps)
    (mkRequest "POST" "/update/gauge/a/1" {[ "X-Real-IP" := "192.168.2.1" ]} "10.0.0.1:80" ∅ "" false)
    (World 0 NewMemStorage) = Ret (l, World 0 NewMemStorage, []) ∧ status l = StatusForbidden.
Proof.
  eexists. destruct (proj2 (subnet_gate (H0 := toy_Gzip) (H1 := toy_RSA) (H2 := Router.no_regexp) started "" "" "10.0.0.0/8,192.168.1.0/24" _
    (mkRequest "POST" "/update/gauge/a/1" {[ "X-Real-IP" := "192.168.2.1" ]} "10.0.0.1:80" ∅ "" false)
    (World 0 NewMemStorage) eq_refl)) as (l & Hl & Hs).
  - intros Ht. apply (checkIP_trusted (S := MemStorage) _ (λ _ _, 1%nat) (λ _ _, Ret 0%nat)
      (parseSubnetPrefixes_ok "10.0.0.0/8,192.168.1.0/24" _ eq_refl) _ (World 0 NewMemStorage)) in Ht. vm_compute in Ht. discriminate Ht.
  - exists l. split; [reflexivity|]. split; [exact Hl|exact Hs].
Defined.

(** A peer with an IPv6 address, "[address]:port", is never trusted unless it sends X-Real-IP: the
    text up to the first colon starts with a bracket, and no address does. *)
Lemma Split_bracket t sep : sep ≠ "["%char → ∃ u us, Split (String "[" t) sep = String "[" u :: us.
Proof.
  intros Hs. cbn [Split]. pose proof (Split_not_nil t sep). destruct (Split t sep) as [|u us]; [done|].
  rewrite decide_False by done. eauto.
Qed.

Lemma ipv4_bracket t : ipv4_fields (String "[" t) = None.
Proof.
  unfold ipv4_fields. destruct (Split_bracket t "."%char) as (u & us & ->); [done|].
  destruct us as [|b [|c [|d [|e us]]]]; done.
Qed.

Lemma ParseAddr_bracket t : ParseAddr (String "[" t) = None.
Proof.
  assert (parseIPv6 (String "[" t) = None) as H6.
  { unfold parseIPv6. cbn [index_of]. rewrite decide_False by done.
    destruct (index_of "%" t) as [i|]; cbn [fmap option_fmap option_map str_take].
    - by case_decide.
    - done. }
  unfold ParseAddr. cbn [ParseAddr_from]. rewrite !decide_False by done.
  revert H6. pose proof (ipv4_bracket t) as H4. revert H4. generalize (String "[" t) as whole. intros whole H4 H6.
  induction t as [|c t IH]; [done|]. cbn [ParseAddr_from]. rewrite H4, H6. by repeat case_decide.
Qed.

Theorem ipv6_peer_refused (ps : list Prefix) (r : request) (t : string) :
  header_Get (Header r) "X-Real-IP" = "" → RemoteAddr r = String "[" t → ¬ trusted ps r.
Proof.
  intros Hx Hr (ip & p & Hip & _). revert Hip. unfold real_ip. rewrite decide_True by done. rewrite Hr.
  destruct (Split_bracket t ":"%char) as (u & us & ->); [done|]. cbn [head default from_option id].
  by rewrite ParseAddr_bracket.
Qed.
