(* ===== verification/StoreSim.v ===== *)
(** * The server does not show which store it has

    The router of [Server.v] over any store that keeps the contract of [StoreSpec.v], against the
    same router over the in-memory maps.  First the middlewares as layers, which pass a request on or
    answer it themselves and rewrite the answer; then a simulation through handlers,
    layers, routes and the subnet check; at last whole histories of requests. *)

From S2P Require Import Prelude Strconv Float64 GoErrors Metrics MemStorage Json GoRetry Retrier.
From S2P Require Import StoreSpec Http Chi Routes Handlers Codec SignWriter CryptAndSign Middleware Netip Server.

Open Scope Z_scope.

(** ** Layers *)

(** A layer answers a request, or passes one on with what it will make of the calls that come back. *)
Definition layer : Type := request → outcome (list wcall + request * (list wcall → outcome (list wcall))).

Definition through {S} (y : layer) (h : handler S) : handler S := λ r w,
  a ← y r;
  match a with
  | inl l => Ret (l, w)
  | inr (r', k) => '(l, w) ← h r' w; l ← k l; Ret (l, w)
  end.

(** [outer] around [inner]. *)
Definition inside (outer inner : layer) : layer := λ r,
  a ← outer r;
  match a with
  | inl l => Ret (inl l)
  | inr (r1, k1) =>
      b ← inner r1;
      match b with
      | inl l => l ← k1 l; Ret (inl l)
      | inr (r2, k2) => Ret (inr (r2, λ l, l ← k2 l; k1 l))
      end
  end.

Lemma through_inside {S} (y1 y2 : layer) (h : handler S) r w :
  through (inside y1 y2) h r w = through y1 (through y2 h) r w.
Proof.
  unfold through, inside. destruct (y1 r) as [[l|[r1 k1]]| | | | |]; [done| |done..]. cbn [mbind outcome_bind].
  destruct (y2 r1) as [[l|[r2 k2]]| | | | |]; [| |done..]; cbn [mbind outcome_bind].
  - by destruct (k1 l).
  - destruct (h r2 w) as [[l w']| | | | |]; [|done..]. cbn [mbind outcome_bind]. by destruct (k2 l).
Qed.

Section Layers.
Context `{Gzip} `{RSA} (keyenc privkeypath : string).

Definition gzip_layer : layer := λ r,
  let contentType := header_Get (Header r) "Content-Type" in
  let supportsContentType := bool_decide (contentType ≠ "") && Contains allowedCompressTypes contentType in
  let compress := Contains (header_Get (Header r) "Accept-Encoding") "gzip" &&
                  (bool_decide (Method r = "GET") || supportsContentType) in
  match plain_request r with
  | None => Ret (inl (WriteHeader StatusInternalServerError :: (if compress then write_some (gz_Close gz_new) else [])))
  | Some r' => Ret (inr (r', λ l, Ret (if compress then compress_calls gz_new l else l)))
  end.

Definition sign_layer : layer := λ r,
  if decide (keyenc = "") then Ret (inr (r, Ret))
  else if decide (header_Get (Header r) signHeaderType ≠ "") then
    if BodyErr r then Ret (inl (http_Error "error read request body" StatusBadRequest))
    else match hex_DecodeString (header_Get (Header r) signHeaderType) with
         | None => Ret (inl (http_Error "can't decode hashSign" StatusBadRequest))
         | Some hashSign =>
             if decide (hashSign = hmac_sha256 keyenc (Body r)) then Ret (inr (r, sign_calls keyenc (Body r)))
             else Ret (inl (http_Error "sign error" StatusBadRequest))
         end
  else Ret (inr (r, sign_calls keyenc "")).

Definition crypt_layer : layer := λ r,
  if decide (privkeypath ≠ "") then
    privateKey ← load_private privkeypath;
    if BodyErr r then Ret (inl (http_Error "error read encrypted request" StatusBadRequest))
    else match b64_DecodeString (Body r) with
         | None => Ret (inl (http_Error "error decode base64 string" StatusBadRequest))
         | Some ciphertext =>
             plaintext ← decryptOAEPbyPart (parts_fuel ciphertext) privateKey ciphertext;
             match plaintext with
             | inl _ => Ret (inl (http_Error "error data dencryption" StatusBadRequest))
             | inr p => Ret (inr (set_body r p, Ret))
             end
         end
  else Ret (inr (r, Ret)).

Lemma gzip_through {S} (h : handler S) r w : GzipCompDecomp h r w = through gzip_layer h r w.
Proof.
  unfold GzipCompDecomp, through, gzip_layer, plain_request. cbv zeta.
  destruct (Contains (header_Get (Header r) "Content-Encoding") "gzip"); [|done].
  by destruct (gunzip (Body r) (BodyErr r)) as [[content broken]|].
Qed.

Lemma sign_through {S} (h : handler S) r w : SignCheck h keyenc r w = through sign_layer h r w.
Proof.
  unfold SignCheck, through, sign_layer. cbv zeta. case_decide; [cbn; by destruct (h r w) as [[l w']| | | | |]|].
  case_decide; [|done]. destruct (BodyErr r) eqn:He; [done|]. rewrite set_body_id by done.
  destruct (hex_DecodeString _); [|done]. by case_decide.
Qed.

Lemma crypt_through {S} (h : handler S) r w : AsymmetricDencryptData h privkeypath r w = through crypt_layer h r w.
Proof.
  unfold AsymmetricDencryptData, through, crypt_layer. case_decide; [|cbn; by destruct (h r w) as [[l w']| | | | |]].
  destruct (load_private privkeypath); [|done..]. cbn [mbind outcome_bind].
  destruct (BodyErr r); [done|]. destruct (b64_DecodeString _); [|done].
  destruct (decryptOAEPbyPart _ _ _) as [[err|p]| | | | |]; [done| |done..]. cbn [mbind outcome_bind].
  by destruct (h _ w) as [[l w']| | | | |].
Qed.

(** The layers of an endpoint, and the handler inside. *)
Definition is_update (e : endpoint) : bool :=
  match e with EUpdate | EUpdateJSON | EUpdatesJSON => true | _ => false end.

Definition endpoint_layer (e : endpoint) : layer :=
  if is_update e then inside gzip_layer (inside sign_layer crypt_layer) else gzip_layer.

Definition bare {S} `{StoreMetrics S} (mh : metricHandlers) (e : endpoint) : handler S :=
  match e with
  | EUpdate => updateMetrics mh
  | EValue => getMetrics mh
  | EAll => getAll mh
  | EUpdateJSON => updateMetricsJSON mh
  | EValueJSON => getMetricsJSON mh
  | EUpdatesJSON => updateBatchMetricsJSON mh
  | EPing => dbPing mh
  end.

Lemma through_ext {S} y (h h' : handler S) r w : (∀ r w, h r w = h' r w) → through y h r w = through y h' r w.
Proof. intros Hh. unfold through. destruct (y r) as [[l|[r' k]]| | | | |]; [done| |done..]. cbn. by rewrite Hh. Qed.

Lemma endpoint_through {S} `{StoreMetrics S} (mh : metricHandlers) e (r : request) (w : world S) :
  endpoint_handler mh keyenc privkeypath e r w = through (endpoint_layer e) (bare mh e) r w.
Proof.
  assert (∀ h : handler S, GzipCompDecomp (SignCheck (AsymmetricDencryptData h privkeypath) keyenc) r w =
    through (inside gzip_layer (inside sign_layer crypt_layer)) h r w) as Hprot.
  { intros h. rewrite gzip_through, through_inside. apply through_ext. intros r1 w1. rewrite sign_through, through_inside.
    apply through_ext. intros r2 w2. apply crypt_through. }
  destruct e; cbn [endpoint_handler endpoint_layer is_update bare]; apply gzip_through || apply Hprot.
Qed.
End Layers.

(** ** Answers that look alike *)

(** The answer of a handler that gave up on its store. *)
Definition declined (l : list wcall) : Prop := status l = StatusNotFound ∨ status l = StatusInternalServerError.

(** Such an answer where it is written: one status, one text. *)
Definition gave_up (l : list wcall) : Prop := simple_reply l ∧ declined l.

Section Alike.
Context {S : Type} `{AbstractStore S} (t : Z) (m : MemStorage).

(** A result over the store as a result over the maps, at the time [t]. *)
Definition over_maps {A B} (o : outcome (A * world S * B)) : outcome (A * world MemStorage * B) :=
  '(x, w, y) ← o; Ret (x, World t (abs (store w)), y).

(** Over the store everything is as over the maps [m], or the answer has [P] and the maps are still [m]. *)
Definition alike {B} (P : list wcall → Prop) (oS : outcome (list wcall * world S * B))
    (oM : outcome (list wcall * world MemStorage * B)) : Prop :=
  (∀ l w' y, oS = Ret (l, w', y) → store_ok (store w')) ∧
  (oM = over_maps oS ∨ ∃ l w' y, oS = Ret (l, w', y) ∧ P l ∧ abs (store w') = m).

(** Handlers have nothing but the calls and the world in their results. *)
Definition unlogged {W : Type} (o : outcome (list wcall * W)) : outcome (list wcall * W * unit) :=
  '(l, w) ← o; Ret (l, w, tt).

Definition handler_alike (P : list wcall → Prop) oS oM : Prop := alike P (unlogged oS) (unlogged oM).

Lemma handler_alike_same P l w' :
  store_ok (store w') → handler_alike P (Ret (l, w')) (Ret (l, World t (abs (store w')))).
Proof. intros Hs. split; [by intros ? ? ? [= <- <- <-]|by left]. Qed.

Lemma handler_alike_gave_up (P : list wcall → Prop) l w' oM :
  store_ok (store w') → P l → abs (store w') = m → handler_alike P (Ret (l, w')) oM.
Proof. intros Hs HP Hm. split; [by intros ? ? ? [= <- <- <-]|right]. by exists l, w', tt. Qed.

(** A storage call and what the handler makes of its result [x]. *)
Lemma call_alike {A} (P : list wcall → Prop) (k : A → list wcall) (oS : outcome (A * world S)) oM kS kM :
  (∀ x w, kS (x, w) = Ret (k x, w)) → (∀ x w, kM (x, w) = Ret (k x, w)) →
  (∃ x w', oS = Ret (x, w') ∧ store_ok (store w') ∧
     (oM = Ret (x, World t (abs (store w'))) ∨ (P (k x) ∧ abs (store w') = m))) →
  handler_alike P (oS ≫= kS) (oM ≫= kM).
Proof.
  intros HkS HkM (x & w' & -> & Hs & [->|[HP Hm]]); cbn [mbind outcome_bind]; rewrite HkS.
  - rewrite HkM. by apply handler_alike_same.
  - by apply handler_alike_gave_up.
Qed.

Lemma through_alike (P Q : list wcall → Prop) (y : layer) hS hM r w :
  store_ok (store w) → abs (store w) = m →
  (∀ r' k l, y r = Ret (inr (r', k)) → P l → ∃ l', k l = Ret l' ∧ Q l') →
  (∀ r' k, y r = Ret (inr (r', k)) → handler_alike P (hS r' w) (hM r' (World t m))) →
  handler_alike Q (through y hS r w) (through y hM r (World t m)).
Proof.
  intros Hs Hm Hk Hh. unfold through. destruct (y r) as [[l|[r' k]]| | | | |]; try by (split; [done|left]).
  { cbn [mbind outcome_bind]. rewrite <- Hm. by apply handler_alike_same. }
  cbn [mbind outcome_bind]. destruct (Hh r' k eq_refl) as [Hok Hcase].
  destruct (hS r' w) as [[l w']| | | | |] eqn:HS; cbn [unlogged over_maps mbind outcome_bind] in *.
  2-6: destruct Hcase as [HM|(? & ? & ? & ? & _)]; [|done]; destruct (hM r' _) as [[]| | | | |]; try discriminate HM;
    simplify_eq; by split; [|left].
  specialize (Hok l w' tt eq_refl). destruct Hcase as [HM|(l' & w'' & ? & [= <- <-] & HP & Ha)].
  - destruct (hM r' (World t m)) as [[l' w'']| | | | |]; try discriminate HM. injection HM as -> ->. cbn [mbind outcome_bind].
    destruct (k l) as [l'| | | | |]; [by apply handler_alike_same|by split; [done|left]..].
  - destruct (Hk r' k l eq_refl HP) as (l' & -> & HQ). by apply handler_alike_gave_up.
Qed.
End Alike.

(** ** The handlers *)

(** The contract of the store covers what the request asks of the handler of an endpoint. *)
Definition covered {S : Type} `{AbstractStore S} (e : endpoint) (r : request) : Prop :=
  match e with
  | EUpdate => ∀ t n v, asks_url r t n v → write_ok t n v
  | EUpdateJSON => ∀ m v, asks_json r m v → write_ok (MType m) (ID m) v
  | EUpdatesJSON => ∀ batch, body_value r ≫= decode_slice = Some batch → batch_ok (default [] batch)
  | _ => True
  end.

Section Bare.
Context {S : Type} `{AbstractStore S} (mh : metricHandlers).
Context (Hm : made (reqRetrier mh)) (Hup : ∀ t, ctx_Err (mh_ctx mh) t = None).
Context (t : Z) (w : world S) (Hs : store_ok (store w)).

Let m : MemStorage := abs (store w).

Lemma write_alike mtype name val (ok : list wcall) (err : goerror → list wcall) kS kM :
  well_typed mtype val = true → write_ok mtype name val → (∀ e, gave_up (err e)) →
  (∀ e w, kS (e, w) = Ret (match e with Some x => err x | None => ok end, w)) →
  (∀ e w, kM (e, w) = Ret (match e with Some x => err x | None => ok end, w)) →
  handler_alike (S := S) t m gave_up (do_WriteMetric mh mtype name val w ≫= kS)
    (do_WriteMetric mh mtype name val (World t m) ≫= kM).
Proof.
  intros Hty Hok Herr HkS HkM. eapply call_alike; [exact HkS|exact HkM|].
  destruct (do_WriteMetric_effect mh Hm mtype name val w Hs Hok) as (e & w' & -> & Hs' & He).
  exists e, w'. split; [done|]. split; [done|]. rewrite do_WriteMetric_mem by done. cbn [store set_store now].
  destruct He as [He|[[x ->] Ha]]; [left|right]; [|by split].
  unfold m. by rewrite <- He.
Qed.

Lemma batch_alike metrics (ok : list wcall) (err : goerror → list wcall) kS kM :
  batch_ok metrics → (∀ e, gave_up (err e)) →
  (∀ e w, kS (e, w) = Ret (match e with Some x => err x | None => ok end, w)) →
  (∀ e w, kM (e, w) = Ret (match e with Some x => err x | None => ok end, w)) →
  handler_alike (S := S) t m gave_up (do_WriteBatchMetrics mh metrics w ≫= kS)
    (do_WriteBatchMetrics mh metrics (World t m) ≫= kM).
Proof.
  intros Hok Herr HkS HkM. eapply call_alike; [exact HkS|exact HkM|].
  destruct (do_WriteBatch_effect mh Hm metrics w Hs Hok) as (e & w' & -> & Hs' & He).
  exists e, w'. split; [done|]. split; [done|]. rewrite do_WriteBatch_mem by done. cbn [store set_store now].
  destruct He as [He|[[x ->] Ha]]; [left|right]; [|by split].
  injection He as -> He. unfold m. by rewrite He.
Qed.

Lemma get_alike mType name (ok : iface → list wcall) (err : goerror → list wcall) kS kM :
  (∀ e, gave_up (err e)) →
  (∀ v e w, kS (v, e, w) = Ret (match e with Some x => err x | None => ok v end, w)) →
  (∀ v e w, kM (v, e, w) = Ret (match e with Some x => err x | None => ok v end, w)) →
  handler_alike (S := S) t m gave_up (do_GetMetric mh mType name w ≫= kS)
    (do_GetMetric mh mType name (World t m) ≫= kM).
Proof.
  intros Herr HkS HkM. apply (call_alike t m gave_up (λ p : iface * option goerror, match p.2 with Some x => err x | None => ok p.1 end));
    [intros [v e] ?; apply HkS|intros [v e] ?; apply HkM|].
  destruct (do_GetMetric_effect mh Hm mType name w Hs) as (v & e & w' & -> & [Hs' Ha] & He).
  exists (v, e), w'. split; [done|]. split; [done|]. rewrite do_GetMetric_mem by done. cbn [store].
  destruct He as [He|[x ->]]; [left|right; split; [apply Herr|done]].
  unfold m. by rewrite <- He, Ha.
Qed.

Lemma get_all_alike (ok : string → list wcall) (err : goerror → list wcall) kS kM :
  (∀ e, gave_up (err e)) →
  (∀ v e w, kS (v, e, w) = Ret (match e with Some x => err x | None => ok v end, w)) →
  (∀ v e w, kM (v, e, w) = Ret (match e with Some x => err x | None => ok v end, w)) →
  handler_alike (S := S) t m gave_up (do_GetAllMetricsTxt mh w ≫= kS)
    (do_GetAllMetricsTxt mh (World t m) ≫= kM).
Proof.
  intros Herr HkS HkM. apply (call_alike t m gave_up (λ p : string * option goerror, match p.2 with Some x => err x | None => ok p.1 end));
    [intros [v e] ?; apply HkS|intros [v e] ?; apply HkM|].
  destruct (do_GetAll_effect mh Hm w Hs) as (v & e & w' & -> & [Hs' Ha] & He).
  exists (v, e), w'. split; [done|]. split; [done|]. rewrite do_GetAll_mem by done. cbn [store].
  destruct He as [He|[x ->]]; [left|right; split; [apply Herr|done]].
  unfold m. by rewrite <- He, Ha.
Qed.
Lemma gave_up_http_Error pre msg code :
  Forall header_only pre → code = StatusNotFound ∨ code = StatusInternalServerError → gave_up (pre ++ http_Error msg code).
Proof.
  intros Hpre Hc. split; [by apply simple_http_Error|]. unfold declined. by rewrite status_http_Error.
Qed.

(** A branch that does not call the store. *)
Lemma same_alike l : handler_alike (S := S) t m gave_up (Ret (l, w)) (Ret (l, World t m)).
Proof. by apply handler_alike_same. Qed.

Ltac gives_up :=
  first [apply (gave_up_http_Error [])|apply (gave_up_http_Error [_])|apply (gave_up_http_Error json_header)];
  [by repeat constructor|by auto].

Lemma update_alike r : covered (S := S) EUpdate r → handler_alike t m gave_up (updateMetrics mh r w) (updateMetrics mh r (World t m)).
Proof.
  intros Hc. unfold updateMetrics. cbv zeta. cbn [metricType metricName metricValue].
  case_decide as Hct; [apply same_alike|].
  assert (header_Get (Header r) "Content-Type" ∈ [""; "text/plain"]) as Hin.
  { rewrite !elem_of_cons. destruct (decide (header_Get (Header r) "Content-Type" = "")); [by left|].
    destruct (decide (header_Get (Header r) "Content-Type" = "text/plain")); [by right; left|tauto]. }
  case_decide as Hg; [|case_decide as Hk; [|apply same_alike]].
  - destruct (ParseFloat _) as [g|] eqn:Hp; [|apply same_alike].
    eapply write_alike; [by rewrite Hg|apply Hc; split_and!; eauto| |by intros [x|] ?|by intros [x|] ?]. intros ?. gives_up.
  - destruct (ParseInt _) as [c|] eqn:Hp; [|apply same_alike].
    eapply write_alike; [by rewrite Hk|apply Hc; split_and!; eauto| |by intros [x|] ?|by intros [x|] ?]. intros ?. gives_up.
Qed.

Lemma update_json_alike r :
  covered (S := S) EUpdateJSON r → handler_alike t m gave_up (updateMetricsJSON mh r w) (updateMetricsJSON mh r (World t m)).
Proof.
  intros Hc. unfold updateMetricsJSON. cbv zeta. case_decide as Hct; [apply same_alike|].
  assert (header_Get (Header r) "Content-Type" = "application/json") as Hct'
    by by destruct (decide (header_Get (Header r) "Content-Type" = "application/json")).
  destruct (body_value r ≫= decode_Metrics) as [x|] eqn:Hd; [|apply same_alike].
  assert (∀ val, well_typed (MType x) val = true → ID x ≠ "" →
    ((∃ g, MType x = GaugeType ∧ Value x = Some g ∧ val = IGauge g) ∨
     (∃ c, MType x = CounterType ∧ Delta x = Some c ∧ val = ICounter c)) → write_ok (MType x) (ID x) val) as Hok.
  { intros val Hty Hid Hval. by apply Hc. }
  destruct (decide (MType x = GaugeType ∧ ID x ≠ "")) as [[Ht Hid]|Hn], (Value x) as [g|] eqn:Hv; [|
    destruct (decide (MType x = CounterType ∧ ID x ≠ "")) as [[Ht' Hid']|Hn'], (Delta x) as [c|] eqn:Hdl; try apply same_alike..].
  - eapply write_alike; [by rewrite Ht|apply Hok; [by rewrite Ht|done|left; eauto]| |by intros [e|] ?|by intros [e|] ?].
    intros ?. gives_up.
  - eapply write_alike; [by rewrite Ht'|apply Hok; [by rewrite Ht'|done|right; eauto]| |by intros [e|] ?|by intros [e|] ?].
    intros ?. gives_up.
  - eapply write_alike; [by rewrite Ht'|apply Hok; [by rewrite Ht'|done|right; eauto]| |by intros [e|] ?|by intros [e|] ?].
    intros ?. gives_up.
  - eapply write_alike; [by rewrite Ht'|apply Hok; [by rewrite Ht'|done|right; eauto]| |by intros [e|] ?|by intros [e|] ?].
    intros ?. gives_up.
Qed.

Lemma update_batch_alike r :
  covered (S := S) EUpdatesJSON r →
  handler_alike t m gave_up (updateBatchMetricsJSON mh r w) (updateBatchMetricsJSON mh r (World t m)).
Proof.
  intros Hc. unfold updateBatchMetricsJSON. cbv zeta. case_decide; [apply same_alike|].
  destruct (body_value r ≫= decode_slice) as [batch|] eqn:Hd; [|apply same_alike].
  eapply batch_alike; [by apply Hc| |by intros [e|] ?|by intros [e|] ?]. intros ?. gives_up.
Qed.

Lemma value_alike r : handler_alike t m gave_up (getMetrics mh r w) (getMetrics mh r (World t m)).
Proof.
  unfold getMetrics. cbv zeta. case_decide; [|case_decide; [|apply same_alike]];
    (eapply get_alike; [|by intros v [e|] ?|by intros v [e|] ?]; intros ?; gives_up).
Qed.
Lemma all_alike r : handler_alike t m gave_up (getAll mh r w) (getAll mh r (World t m)).
Proof. unfold getAll. cbv zeta. eapply get_all_alike; [|by intros v [e|] ?|by intros v [e|] ?]; intros ?; gives_up. Qed.

Lemma value_json_alike r : handler_alike t m gave_up (getMetricsJSON mh r w) (getMetricsJSON mh r (World t m)).
Proof.
  unfold getMetricsJSON. cbv zeta. case_decide; [apply same_alike|].
  destruct (body_value r ≫= decode_Metrics) as [x|]; [|apply same_alike].
  apply (get_alike _ _ (λ v, match with_value x v with
           | Some m' => encode_reply json_header (encode_Metrics m') "can't encode json"
           | None => json_header ++ http_Error "bad metric type" StatusNotFound
           end) (λ e, json_header ++ http_Error (error_text e) StatusNotFound)).
  - intros ?. gives_up.
  - by intros [] [e|] ?.
  - by intros [] [e|] ?.
Qed.

Lemma ping_alike r : handler_alike t m gave_up (dbPing mh r w) (dbPing mh r (World t m)).
Proof.
  unfold dbPing. cbv zeta. cbn [Ping MemStorage_StoreMetrics mem_Ping].
  set (ctx := WithTimeout _ _ _). destruct (abs_Ping ctx w Hs) as [Hs' Ha].
  destruct (Ping ctx w) as [[e|] w']; cbn [snd] in *.
  - apply handler_alike_gave_up; [done| |done]. gives_up.
  - unfold m. rewrite <- Ha. by apply handler_alike_same.
Qed.

Lemma bare_alike e r : covered (S := S) e r → handler_alike t m gave_up (bare mh e r w) (bare mh e r (World t m)).
Proof.
  destruct e; cbn [bare]; intros Hc; [by apply update_alike|apply value_alike|apply all_alike|by apply update_json_alike|
    apply value_json_alike|by apply update_batch_alike|apply ping_alike].
Qed.
End Bare.

(** ** Endpoints *)

Section Endpoints.
Context `{Gzip} `{RSA} (keyenc privkeypath : string).

Lemma gzip_keeps r r' k l :
  gzip_layer r = Ret (inr (r', k)) → simple_reply l → ∃ l', k l = Ret l' ∧ status l' = status l.
Proof.
  unfold gzip_layer. cbv zeta. destruct (plain_request r) as [q|]; [|done]. intros [= <- <-] (pre & code & d & -> & Hpre).
  eexists. split; [done|]. rewrite (status_first pre) by done. case_match; [|by apply status_first].
  rewrite compress_header_only by done. cbn [compress_calls]. rewrite cons_middle, app_assoc.
  apply status_first, Forall_app_2; [done|by repeat constructor].
Qed.

Lemma sign_calls_keeps h l :
  simple_reply l → ∃ l', sign_calls keyenc h l = Ret l' ∧ simple_reply l' ∧ status l' = status l.
Proof.
  intros (pre & code & d & -> & Hpre). rewrite sign_calls_simple by done. eexists. split; [done|].
  assert (Forall header_only (pre ++ [sign_header keyenc (h +:+ d)])) as Hpre'
    by (apply Forall_app_2; [done|by repeat constructor]).
  unfold signed_reply. split.
  - exists (pre ++ [sign_header keyenc (h +:+ d)]), code, d. by rewrite <- app_assoc.
  - rewrite (status_first pre) by done. rewrite cons_middle, app_assoc. by apply status_first.
Qed.

Lemma sign_keeps r r' k l :
  sign_layer keyenc r = Ret (inr (r', k)) → simple_reply l →
  ∃ l', k l = Ret l' ∧ simple_reply l' ∧ status l' = status l.
Proof.
  unfold sign_layer. intros Hk Hl. case_decide; [injection Hk as <- <-; eauto|].
  case_decide; [|injection Hk as <- <-; by apply sign_calls_keeps].
  destruct (BodyErr r); [done|]. destruct (hex_DecodeString _); [|done]. case_decide; [|done].
  injection Hk as <- <-. by apply sign_calls_keeps.
Qed.

Lemma crypt_keeps r r' k : crypt_layer privkeypath r = Ret (inr (r', k)) → k = Ret.
Proof.
  unfold crypt_layer. case_decide; [|by intros [= _ <-]]. destruct (load_private privkeypath); [|done..].
  cbn [mbind outcome_bind]. destruct (BodyErr r); [done|]. destruct (b64_DecodeString _); [|done].
  destruct (decryptOAEPbyPart _ _ _) as [[?|p]| | | | |]; cbn [mbind outcome_bind]; try done. by intros [= _ <-].
Qed.

(** An answer that says the handler gave up says so to the client. *)
Lemma endpoint_keeps e r r' k l :
  endpoint_layer keyenc privkeypath e r = Ret (inr (r', k)) → gave_up l → ∃ l', k l = Ret l' ∧ declined l'.
Proof.
  intros Hk [Hl Hd].
  assert (∃ l', k l = Ret l' ∧ status l' = status l) as (l' & Hl' & Hst); [|exists l'; split; [done|]; unfold declined; by rewrite Hst].
  unfold endpoint_layer in Hk. destruct (is_update e); [|by eapply gzip_keeps].
  unfold inside in Hk. destruct (gzip_layer r) as [[?|[r1 k1]]| | | | |] eqn:Hg; try discriminate Hk. cbn [mbind outcome_bind] in Hk.
  destruct (sign_layer keyenc r1) as [[?|[r2 k2]]| | | | |] eqn:Hsg; cbn [mbind outcome_bind] in Hk; try discriminate Hk.
  { destruct (k1 _); discriminate Hk. }
  destruct (crypt_layer privkeypath r2) as [[?|[r3 k3]]| | | | |] eqn:Hcr; cbn [mbind outcome_bind] in Hk; try discriminate Hk.
  { destruct (k2 _); cbn [mbind outcome_bind] in Hk; [destruct (k1 _)| | | | |]; discriminate Hk. }
  injection Hk as <- <-. apply crypt_keeps in Hcr as ->. cbn [mbind outcome_bind].
  destruct (sign_keeps _ _ _ l Hsg Hl) as (l2 & -> & Hl2 & Hst2). cbn [mbind outcome_bind].
  destruct (gzip_keeps _ _ _ l2 Hg Hl2) as (l' & -> & Hst). exists l'. split; [done|congruence].
Qed.

(** The request that reaches the handler of an endpoint, if any. *)
Definition reaches (e : endpoint) (r r' : request) : Prop :=
  ∃ k, endpoint_layer keyenc privkeypath e r = Ret (inr (r', k)).

Lemma endpoint_alike {S : Type} `{AbstractStore S} (mh : metricHandlers) e r t (w : world S) :
  made (reqRetrier mh) → (∀ t, ctx_Err (mh_ctx mh) t = None) → store_ok (store w) →
  (∀ r', reaches e r r' → covered (S := S) e r') →
  handler_alike t (abs (store w)) declined (endpoint_handler mh keyenc privkeypath e r w)
    (endpoint_handler mh keyenc privkeypath e r (World t (abs (store w)))).
Proof.
  intros Hm Hup Hs Hc. rewrite !endpoint_through. apply (through_alike t (abs (store w)) gave_up); [done|done| |].
  - intros r' k l Hk Hl. by eapply endpoint_keeps.
  - intros r' k Hk. apply bare_alike; [done..|]. apply Hc. by eexists.
Qed.
End Endpoints.

(** ** The in-memory server always answers *)

Section Returns.
Context (mh : metricHandlers) (Hm : made (reqRetrier mh)) (Hup : ∀ t, ctx_Err (mh_ctx mh) t = None).

(** Calls that the signing writer lets through. *)
Definition signable (l : list wcall) : Prop := ∀ key h, ∃ l', sign_calls key h l = Ret l'.

Lemma simple_signable l : simple_reply l → signable l.
Proof. intros (pre & code & d & -> & Hpre) key h. rewrite sign_calls_simple by done. by eexists. Qed.

Lemma encode_signable j msg : signable (encode_reply json_header j msg).
Proof.
  unfold encode_reply. destruct (Encode j) as [line|]; [|intros key h; by eexists].
  apply simple_signable. exists json_header, StatusOK, line. split; [done|by repeat constructor].
Qed.

Lemma error_signable pre msg code : Forall header_only pre → signable (pre ++ http_Error msg code).
Proof. intros. by apply simple_signable, simple_http_Error. Qed.

Definition answers_signed (o : outcome (list wcall * world MemStorage)) : Prop := ∃ l w, o = Ret (l, w) ∧ signable l.

Ltac answer_signed :=
  eexists _, _; split; [done|];
  first [apply encode_signable
        |apply (error_signable []); constructor
        |apply (error_signable json_header); by repeat constructor
        |intros key h; by eexists].

Lemma update_answers r (w : world MemStorage) : answers_signed (updateMetrics mh r w).
Proof.
  unfold updateMetrics. cbv zeta. cbn [metricType metricName metricValue].
  case_decide; [answer_signed|]. case_decide; [|case_decide; [|answer_signed]].
  - destruct (ParseFloat _); [|answer_signed]. rewrite do_WriteMetric_mem by done. cbn [mbind outcome_bind].
    destruct (mem_WriteMetric _ _ _ _).1; answer_signed.
  - destruct (ParseInt _); [|answer_signed]. rewrite do_WriteMetric_mem by done. cbn [mbind outcome_bind].
    destruct (mem_WriteMetric _ _ _ _).1; answer_signed.
Qed.

Lemma update_json_answers r (w : world MemStorage) : answers_signed (updateMetricsJSON mh r w).
Proof.
  unfold updateMetricsJSON, wrong_content_type. cbv zeta. case_decide; [answer_signed|].
  destruct (body_value r ≫= decode_Metrics) as [x|]; [|answer_signed].
  assert (∀ val err, signable err → answers_signed
    ('(e, w) ← do_WriteMetric mh (MType x) (ID x) val w;
     match e with
     | Some _ => Ret (err, w)
     | None => Ret (encode_reply json_header (encode_Metrics x) "can't prepare json answer", w)
     end)) as Hwrite.
  { intros val err Herr. rewrite do_WriteMetric_mem by done. cbn [mbind outcome_bind].
    destruct (mem_WriteMetric _ _ _ _).1; [by eexists _, _|answer_signed]. }
  destruct (decide (MType x = GaugeType ∧ ID x ≠ "")), (Value x),
    (decide (MType x = CounterType ∧ ID x ≠ "")), (Delta x); first [apply Hwrite, (error_signable json_header); by repeat constructor|answer_signed].
Qed.

Lemma update_batch_answers r (w : world MemStorage) : answers_signed (updateBatchMetricsJSON mh r w).
Proof.
  unfold updateBatchMetricsJSON, wrong_content_type. cbv zeta. case_decide; [answer_signed|].
  destruct (body_value r ≫= decode_slice) as [x|]; [|answer_signed].
  rewrite do_WriteBatch_mem by done. answer_signed.
Qed.

Lemma bare_answers e r (w : world MemStorage) :
  ∃ l w', bare mh e r w = Ret (l, w') ∧ (is_update e = true → signable l).
Proof.
  assert (∀ o, answers_signed o → ∃ l w', o = Ret (l, w') ∧ (is_update e = true → signable l)) as Hs
    by (intros o (l & w' & -> & Hl); eauto).
  destruct e; cbn [bare]; try (apply Hs; apply update_answers || apply update_json_answers || apply update_batch_answers).
  - unfold getMetrics. cbv zeta. case_decide; [|case_decide; [|by eexists _, _]];
      rewrite do_GetMetric_mem by done; destruct (mem_GetMetric _ _ _) as [v [e|]]; by eexists _, _.
  - unfold getAll. cbv zeta. rewrite do_GetAll_mem by done. by eexists _, _.
  - unfold getMetricsJSON. cbv zeta. case_decide; [by eexists _, _|].
    destruct (body_value r ≫= decode_Metrics) as [x|]; [|by eexists _, _]. rewrite do_GetMetric_mem by done.
    destruct (mem_GetMetric _ _ _) as [[] [e|]]; by eexists _, _.
  - by eexists _, _.
Qed.

Context `{Gzip} `{RSA} `{Router.Regexp} (keyenc privkeypath : string) (subnets : option (list Prefix)).

(** The key file can be read and holds a key that works. *)
Definition key_works : Prop := ∀ r, ∃ a, crypt_layer privkeypath r = Ret a.

Lemma gzip_layer_returns r : ∃ a, gzip_layer r = Ret a ∧ ∀ r' k l, a = inr (r', k) → ∃ l', k l = Ret l'.
Proof. unfold gzip_layer. cbv zeta. destruct (plain_request r); eexists; (split; [done|]); [intros ? ? ? [= _ <-]; eauto|done]. Qed.

Lemma sign_layer_returns r :
  ∃ a, sign_layer keyenc r = Ret a ∧ ∀ r' k l, a = inr (r', k) → signable l → ∃ l', k l = Ret l'.
Proof.
  unfold sign_layer. repeat (case_decide || case_match); eexists; (split; [done|]); try done; intros ? ? l [= _ <-] Hl; eauto.
Qed.

Lemma crypt_refuses r l : crypt_layer privkeypath r = Ret (inl l) → signable l.
Proof.
  assert (∀ msg code, signable (http_Error msg code)) as He by (intros; apply (error_signable []); constructor).
  unfold crypt_layer. case_decide; [|done]. destruct (load_private privkeypath); [|done..].
  cbn [mbind outcome_bind]. destruct (BodyErr r); [intros [= <-]; apply He|].
  destruct (b64_DecodeString _); [|intros [= <-]; apply He].
  destruct (decryptOAEPbyPart _ _ _) as [[?|p]| | | | |]; cbn [mbind outcome_bind]; try done. intros [= <-]. apply He.
Qed.

Lemma endpoint_answers e r (w : world MemStorage) : key_works → ∃ x, endpoint_handler mh keyenc privkeypath e r w = Ret x.
Proof.
  intros Hkey. rewrite endpoint_through. unfold endpoint_layer. destruct (is_update e) eqn:He.
  - rewrite through_inside. unfold through at 1. destruct (gzip_layer_returns r) as (a & -> & Hk). cbn [mbind outcome_bind].
    destruct a as [l|[r1 k1]]; [by eexists|]. rewrite through_inside. unfold through at 1.
    destruct (sign_layer_returns r1) as (a & -> & Hk2). cbn [mbind outcome_bind].
    destruct a as [l|[r2 k2]]; cbn [mbind outcome_bind].
    { destruct (Hk _ _ l eq_refl) as [l' ->]. by eexists. }
    unfold through. destruct (Hkey r2) as [[l|[r3 k3]] Hc]; rewrite Hc; cbn [mbind outcome_bind].
    + destruct (Hk2 _ _ l eq_refl) as [l1 ->]; [by eapply crypt_refuses|]. cbn [mbind outcome_bind].
      destruct (Hk _ _ l1 eq_refl) as [l' ->]. by eexists.
    + apply crypt_keeps in Hc as ->. destruct (bare_answers e r3 w) as (l & w' & -> & Hl). cbn [mbind outcome_bind].
      destruct (Hk2 _ _ l eq_refl) as [l1 ->]; [by apply Hl|]. cbn [mbind outcome_bind].
      destruct (Hk _ _ l1 eq_refl) as [l' ->]. by eexists.
  - unfold through. destruct (gzip_layer_returns r) as (a & -> & Hk). cbn [mbind outcome_bind].
    destruct a as [l|[r1 k1]]; [by eexists|]. destruct (bare_answers e r1 w) as (l & w' & -> & _). cbn [mbind outcome_bind].
    destruct (Hk _ _ l eq_refl) as [l' ->]. by eexists.
Qed.
End Returns.

(** ** The router *)

Section Server.
Context `{Gzip} `{RSA} `{Router.Regexp} (mh : metricHandlers) (keyenc privkeypath : string) (subnets : option (list Prefix)).

(** The contract of the store covers whatever a request asks of the server. *)
Definition covered_request {S : Type} `{AbstractStore S} (r : request) : Prop :=
  ∀ e ps r', Router.routeHTTP route_tree (Method r) (Path r) = Ret (Router.RServe e ps) →
    reaches keyenc privkeypath e (set_params r ps) r' → covered (S := S) e r'.

Lemma router_alike {S : Type} `{AbstractStore S} r t (w : world S) :
  made (reqRetrier mh) → (∀ t, ctx_Err (mh_ctx mh) t = None) → store_ok (store w) → covered_request (S := S) r →
  alike t (abs (store w)) declined (chiRouter mh keyenc privkeypath subnets r w)
    (chiRouter mh keyenc privkeypath subnets r (World t (abs (store w)))).
Proof.
  intros Hm Hup Hs Hc. rewrite !chiRouter_eq.
  assert (∀ l (g : list log_entry), alike (S := S) t (abs (store w)) declined (Ret (l, w, g)) (Ret (l, World t (abs (store w)), g))) as Hsame.
  { intros l g. split; [by intros ? ? ? [= <- <- <-]|by left]. }
  assert (alike t (abs (store w)) declined (routeHTTP mh keyenc privkeypath route_tree r w)
    (routeHTTP mh keyenc privkeypath route_tree r (World t (abs (store w))))) as Hroute.
  { unfold routeHTTP. destruct (Router.routeHTTP route_tree (Method r) (Path r)) as [d| | | | |] eqn:Hr;
      [|by split; [|left]..]. cbn [mbind outcome_bind].
    destruct d as [e ps|ms|]; [|apply Hsame..]. unfold logged_route, WriteLogging. cbv zeta.
    destruct (endpoint_alike keyenc privkeypath mh e (set_params r ps) t w) as [Hok Hcase]; [done..|by intros; eapply Hc|].
    destruct (endpoint_handler _ _ _ e (set_params r ps) w) as [[l w']| | | | |]; cbn [unlogged over_maps mbind outcome_bind] in *.
    2-6: destruct Hcase as [HM|(? & ? & ? & ? & _)]; [|done];
      destruct (endpoint_handler _ _ _ e _ (World t _)) as [[]| | | | |]; try discriminate HM; try (injection HM as -> ->); try (injection HM as ->); by split; [|left].
    specialize (Hok l w' tt eq_refl). split; [by intros ? ? ? [= <- <- <-]|].
    destruct Hcase as [HM|(l' & w'' & ? & [= <- <-] & HP & Ha)].
    - left. destruct (endpoint_handler _ _ _ e _ (World t _)) as [[l' w'']| | | | |]; try discriminate HM. by injection HM as -> ->.
    - right. eauto 10. }
  unfold checkIP. destruct subnets as [ps|]; [|exact Hroute]. destruct (ParseAddr (real_ip r)); [|apply Hsame].
  destruct (existsb _ ps); [exact Hroute|apply Hsame].
Qed.

Lemma memory_answers r (w : world MemStorage) :
  made (reqRetrier mh) → (∀ t, ctx_Err (mh_ctx mh) t = None) → key_works privkeypath →
  ∃ x, chiRouter mh keyenc privkeypath subnets r w = Ret x.
Proof.
  intros Hm Hup Hkey. rewrite chiRouter_eq.
  assert (∃ x, routeHTTP mh keyenc privkeypath route_tree r w = Ret x) as Hroute.
  { unfold routeHTTP. pose proof (routing_agrees (Method r) (Path r)) as Hd.
    destruct Hd as (d & -> & _). cbn [mbind outcome_bind].
    destruct d as [e ps|ms|]; [|by eexists..]. unfold logged_route, WriteLogging. cbv zeta.
    destruct (endpoint_answers mh Hm Hup keyenc privkeypath e (set_params r ps) w Hkey) as [[l w'] ->]. by eexists. }
  unfold checkIP. destruct subnets as [ps|]; [|exact Hroute]. destruct (ParseAddr (real_ip r)); [|by eexists].
  destruct (existsb _ ps); [exact Hroute|by eexists].
Qed.

#[local] Opaque chiRouter.

(** ** Histories *)

(** A server answers requests one after the other; each comes at some time. *)
Fixpoint serve_all {S} `{StoreMetrics S} (rs : list (Z * request)) (s : S) : outcome (list (list wcall) * S) :=
  match rs with
  | [] => Ret ([], s)
  | (t, r) :: rs =>
      '(l, w, _) ← chiRouter mh keyenc privkeypath subnets r (World t s);
      '(ls, s') ← serve_all rs (store w);
      Ret (l :: ls, s')
  end.

(** What clients may see of a server whose store holds the maps: each request is answered as the in-memory
    server does, or declined with 404 or 500 and then without effect. *)
Inductive answers : MemStorage → list (Z * request) → list (list wcall) → MemStorage → Prop :=
| answers_nil m : answers m [] [] m
| answers_as_memory m t r rs l ls w' logs m' :
    chiRouter mh keyenc privkeypath subnets r (World t m) = Ret (l, w', logs) →
    answers (store w') rs ls m' → answers m ((t, r) :: rs) (l :: ls) m'
| answers_declined m t r rs l ls m' :
    declined l → answers m rs ls m' → answers m ((t, r) :: rs) (l :: ls) m'.

(** [C5] Which store a server has shows in its failures only: a server whose key works, with any store that
    keeps its contract, answers every sequence of requests (to any endpoint, through every
    middleware) whose writes the contract covers, and each answer is byte for byte the one the
    in-memory server gives in the same state of the maps, or it is 404 or 500 and the maps are
    unchanged. *)
Theorem store_refines_memory {S : Type} `{AbstractStore S} (rs : list (Z * request)) (s : S)
    (Hm : made (reqRetrier mh)) (Hup : ∀ t, ctx_Err (mh_ctx mh) t = None) (Hkey : key_works privkeypath) (Hs : store_ok s)
    (Hc : Forall (λ p, covered_request (S := S) p.2) rs) :
  ∃ ls s', serve_all rs s = Ret (ls, s') ∧ store_ok s' ∧ answers (abs s) rs ls (abs s').
Proof.
  revert s Hs. induction rs as [|[t r] rs IH]; intros s Hs; [repeat econstructor; done|].
  apply Forall_cons in Hc as [Hcr Hc].
  destruct (router_alike r t (World t s) Hm Hup Hs Hcr) as [Hok Hcase]. cbn [store] in *. cbn [serve_all fst snd] in *.
  destruct (memory_answers r (World t (abs s)) Hm Hup Hkey) as [[[l' w'] g'] HM]. rewrite HM in Hcase.
  destruct (chiRouter mh keyenc privkeypath subnets r (World t s)) as [[[l w] g]| | | | |];
    cbn [over_maps mbind outcome_bind] in *;
    [|destruct Hcase as [Hx|(? & ? & ? & Hx & _)]; discriminate Hx..].
  specialize (Hok l w g eq_refl). destruct (IH Hc (store w) Hok) as (ls & s' & Hrun & Hs' & Hans).
  exists (l :: ls), s'. cbn [mbind outcome_bind]. rewrite Hrun. split; [done|]. split; [done|].
  destruct Hcase as [[= -> -> ->]|(l1 & w1 & g1 & [= <- <- <-] & Hd & Ha)].
  - by eapply answers_as_memory.
  - apply answers_declined; [done|]. by rewrite <- Ha.
Qed.
End Server.
