(* ===== verification/Agent.v ===== *)
(** * The agent

    [internal/agent/agent.go]: collecting metrics, encoding them, sending them with retries, and the main loop of
    [Run] as a transition system in which the polling goroutines interleave with the reports.
    What the operating system and the runtime report (memory statistics, random numbers, CPU use) and
    the network are arguments. *)

From S2P Require Import Prelude Strconv Float64 GoErrors Metrics MemStorage Json GoRetry Retrier Http.
From S2P Require Import Codec SignWriter CryptAndSign.

Open Scope Z_scope.

Definition workers : nat := 3.
Definition httpProto : string := "http".

Definition rtMonitorSensGauge : list string :=
  ["Alloc"; "BuckHashSys"; "Frees"; "GCSys"; "HeapAlloc"; "HeapIdle"; "HeapInuse";
   "HeapObjects"; "HeapReleased"; "HeapSys"; "LastGC"; "Lookups"; "MCacheInuse";
   "MCacheSys"; "MSpanInuse"; "MSpanSys"; "Mallocs"; "NextGC"; "OtherSys"; "PauseTotalNs";
   "StackInuse"; "StackSys"; "Sys"; "TotalAlloc"; "GCCPUFraction"; "NumForcedGC"; "NumGC"].

(** ** State *)

Record sysMon : Type := mkSysMon { pollCount : Counter; randomValue : Gauge }.

(** The fields of [runtime.MemStats], by name: unsigned integers, floats, and others with the text
    [%v] prints. *)
Inductive memfield : Type :=
| MUint (n : Z)
| MFloat (f : float64)
| MOther (text : string).

Definition MemStats : Type := gmap string memfield.

Record kernelMetrics : Type := mkKern {
  CPUutilization : list Gauge;
  TotalMemory : Gauge;
  FreeMemory : Gauge
}.

(** [metrictypes.JSONModelsMetrics] is its slice of metrics. *)

(** ** Collecting *)

(** [updateMetrics], given what [runtime.ReadMemStats] and the random source deliver. *)
Definition updateMetrics (stats : MemStats) (random : Gauge) (s : sysMon) : MemStats * sysMon :=
  (stats, mkSysMon (wrap64 (pollCount s + 1)) random).

(** The assignments [m.CPUutilization[i] = c]; out of range is a panic. *)
Fixpoint set_cpu (cpu : list Gauge) (i : nat) (cpuU : list float64) : outcome (list Gauge) :=
  match cpuU with
  | [] => Ret cpu
  | c :: cpuU =>
      if decide (i < length cpu)%nat then set_cpu (<[i := c]> cpu) (S i) cpuU
      else Panic "index out of range"
  end.

(** [updateSysKernMetrics]; [vmstat] is nil when reading the memory failed. *)
Definition updateSysKernMetrics (vmstat : option (Z * Z)) (cpuU : list float64) (m : kernelMetrics) :
    outcome kernelMetrics :=
  match vmstat with
  | None => Panic "nil pointer dereference"
  | Some (total, free) =>
      cpu ← set_cpu (CPUutilization m) 0 cpuU;
      Ret (mkKern cpu (float_of_Z total) (float_of_Z free))
  end.

Definition addJSONModel (g : list Metrics) (id mtype : string) (delta : option Z) (value : option float64) :
    list Metrics := g ++ [mkMetrics delta value id mtype].

(** [fmt.Sprintf("%v", rtmVal.FieldByName(name))]. *)
Definition show_field (rtm : MemStats) (name : string) : string :=
  match rtm !! name with
  | Some (MUint n) => show_nonneg n
  | Some (MFloat f) => show_float f
  | Some (MOther text) => text
  | None => "<invalid reflect.Value>"
  end.

(** One turn of the loop of [parseRtm]. *)
Definition parse_field (rtm : MemStats) (g : list Metrics) (name : string) : list Metrics :=
  match ParseFloat (show_field rtm name) with
  | None => g
  | Some fl64 => addJSONModel g name GaugeType None (Some fl64)
  end.

Definition parseRtm (rtm : MemStats) (targetRtm : list string) (g : list Metrics) (s : sysMon) : list Metrics :=
  let g := foldl (parse_field rtm) g targetRtm in
  let g := addJSONModel g "PollCount" CounterType (Some (pollCount s)) None in
  addJSONModel g "RandomValue" GaugeType None (Some (randomValue s)).

Definition parseKernMetrics (km : kernelMetrics) (g : list Metrics) : list Metrics :=
  let g := addJSONModel g "TotalMemory" GaugeType None (Some (TotalMemory km)) in
  let g := addJSONModel g "FreeMemory" GaugeType None (Some (FreeMemory km)) in
  foldl (λ g '(i, v), addJSONModel g ("CPUutilization" +:+ show_nonneg (Z.of_nat i)) GaugeType None (Some v))
    g (zip (seq 0 (length (CPUutilization km))) (CPUutilization km)).

(** ** Sending *)

Record jsonSendString : Type := mkSend {
  jsonString : string;
  keyenc : string;
  pubkeypath : string;
  send_timeout : Z
}.

(** [encodeJSON]: the message is replaced even when the encoding failed. *)
Definition encodeJSON (g : option (list Metrics)) (m : jsonSendString) : jsonSendString * bool :=
  let j := encode_slice g in
  (mkSend (default "" j) (keyenc m) (pubkeypath m) (send_timeout m), bool_decide (is_Some j)).

(** The network: posting a body with headers to a URL. *)
Class Network (N : Type) : Type :=
  post : string → headers → string → world N → (goerror + reply) * world N.

(** [retry.Do] for a function that may panic. *)
Fixpoint DoM {S B} `{Backoff B} (fuel : nat) (ctx : context) (b : B)
    (f : world S → outcome (option goerror * world S)) (w : world S) :
    outcome (option goerror * B * world S) :=
  match fuel with
  | O => NoFuel
  | Datatypes.S fuel =>
      match ctx_Err ctx (now w) with
      | Some e => Ret (Some e, b, w)
      | None =>
          '(err, w) ← f w;
          match err with
          | None => Ret (None, b, w)
          | Some err =>
              match errors_As_retryable err with
              | None => Ret (Some err, b, w)
              | Some rerr =>
                  let '(next, stop, b) := Next b in
                  if stop : bool then Ret (Some rerr, b, w)
                  else match ctx_Err ctx (now w) with
                       | Some e => Ret (Some e, b, w)
                       | None =>
                           let timer := now w + Z.max 0 next in
                           match done_at ctx with
                           | Some d =>
                               if decide (d < timer) then Ret (ctx_Err ctx d, b, World d (store w))
                               else DoM fuel ctx b f (World timer (store w))
                           | None => DoM fuel ctx b f (World timer (store w))
                           end
                       end
              end
          end
      end
  end.

Section Send.
Context {N : Type} `{Network N} `{RSA}.

(** [send]; [fmt.Errorf("ans: %d, %s", ...)] is the error of another status than 200. *)
Definition send : AgentSendFunc (world N) := λ r body serverHost xRealIp w,
  let r := <["X-Real-IP" := xRealIp]> r in
  let '(res, w) := post (serverHost +:+ "/updates/") r body w in
  match res with
  | inl err => Ret (inl err, r, w)
  | inr resp =>
      if decide (StatusCode resp ≠ StatusOK)
      then Ret (inl (ErrMsg ("ans: " +:+ show_int (StatusCode resp) +:+ ", " +:+ ReplyBody resp)), r, w)
      else Ret (inr resp, r, w)
  end.

(** [Send]: the request [r] with its headers is part of the state, since the retries share it. *)
Definition Send (j : jsonSendString) (ctx : context) (serverHost xRealIp : string)
    (w : world (headers * N)) : outcome (option goerror * world (headers * N)) :=
  let ctx2 := WithTimeout ctx (now w) (send_timeout j) in
  b ← NewFibonacci (1 * Second);
  let backoff := WithMaxRetries 3 b in
  let serverHost := if HasPrefix serverHost httpProto then serverHost else "http://" +:+ serverHost in
  let f := λ w : world (headers * N),
    '(res, r, w') ← AsymmetricEncryptData (SignNew send (keyenc j)) (pubkeypath j)
                      (store w).1 (jsonString j) serverHost xRealIp (World (now w) (store w).2);
    let w' := World (now w') (r, store w') in
    match res with
    | inl err => Ret (RetryableError (Some (ErrMsg ("retry failed: " +:+ error_text err))), w')
    | inr _ => Ret (None, w')
    end in
  '(e, _, w) ← DoM (Z.to_nat (left_of backoff)) ctx2 backoff f w; Ret (e, w).
End Send.

(** ** Lemmas on collecting *)

(** For a function that never panics it is the loop of [GoRetry.v]. *)
Lemma DoM_Do {S B} `{Backoff B} fuel ctx (b : B) g (f : op S (option goerror)) w :
  (∀ w, g w = Ret (f w)) → DoM fuel ctx b g w = Do fuel ctx b f w.
Proof.
  intros Hg. revert b w. induction fuel as [|fuel IH]; intros b w; [done|]. cbn [DoM Do].
  destruct (ctx_Err ctx (now w)); [done|]. rewrite Hg. cbn [mbind outcome_bind]. destruct (f w) as [err w']. destruct err as [err|]; [|done].
  destruct (errors_As_retryable err); [|done]. destruct (Next b) as [[next stop] b']. destruct stop; [done|].
  destruct (ctx_Err ctx (now w')); [done|]. destruct (done_at ctx); [case_decide|]; done || apply IH.
Qed.

(** ** The report *)

(** What one report holds: [parseRtm], then [parseKernMetrics], on an empty slice. *)
Definition report (rtm : MemStats) (s : sysMon) (km : kernelMetrics) : list Metrics :=
  parseKernMetrics km (parseRtm rtm rtMonitorSensGauge [] s).

Definition field_value (f : memfield) : option float64 :=
  match f with
  | MUint n => if decide (0 ≤ n < 2 ^ 64) then Some (float_of_Z n) else None
  | MFloat x => if decide (canonical x) then Some x else None
  | MOther _ => None
  end.

(** Every sensor of the list is a number, as it is for [runtime.MemStats]. *)
Definition all_sensors (rtm : MemStats) : Prop :=
  Forall (λ name, is_Some (rtm !! name ≫= field_value)) rtMonitorSensGauge.
#[export] Instance all_sensors_dec rtm : Decision (all_sensors rtm).
Proof. unfold all_sensors. apply _. Defined.

Definition sensor (rtm : MemStats) (name : string) : float64 := default fzero (rtm !! name ≫= field_value).

Definition gauge_model (name : string) (v : float64) : Metrics := mkMetrics None (Some v) name GaugeType.

Definition cpu_name (i : nat) : string := "CPUutilization" +:+ show_nonneg (Z.of_nat i).

Lemma parse_field_sensor rtm g name :
  is_Some (rtm !! name ≫= field_value) →
  parse_field rtm g name = g ++ [gauge_model name (sensor rtm name)].
Proof.
  intros [v Hv]. unfold parse_field, sensor, show_field. rewrite Hv. cbn [default from_option].
  destruct (rtm !! name) as [[n|x|t]|]; cbn [mbind option_bind field_value] in Hv; try done;
    case_decide; try done; injection Hv as <-.
  - by rewrite ParseFloat_show_nonneg.
  - by rewrite ParseFloat_show_float.
Qed.

Lemma parse_fields rtm names g :
  Forall (λ name, is_Some (rtm !! name ≫= field_value)) names →
  foldl (parse_field rtm) g names = g ++ ((λ name, gauge_model name (sensor rtm name)) <$> names).
Proof.
  intros Hn. revert g. induction Hn as [|name names H1 Hn IH]; intros g; [by rewrite app_nil_r|].
  cbn [foldl]. rewrite parse_field_sensor, IH by done. by rewrite <- app_assoc.
Qed.

(** The CPU gauges numbered from [i]. *)
Fixpoint cpu_models (i : nat) (l : list Gauge) : list Metrics :=
  match l with [] => [] | v :: l => gauge_model (cpu_name i) v :: cpu_models (S i) l end.

Lemma parse_cpus l g i :
  foldl (λ g '(i, v), addJSONModel g ("CPUutilization" +:+ show_nonneg (Z.of_nat i)) GaugeType None (Some v)) g
    (zip (seq i (length l)) l) = g ++ cpu_models i l.
Proof.
  revert g i. induction l as [|v l IH]; intros g i; [by rewrite app_nil_r|].
  cbn [length seq zip zip_with foldl]. rewrite IH. unfold addJSONModel. by rewrite <- app_assoc.
Qed.

(** The report in closed form. *)
Lemma report_eq rtm s km :
  all_sensors rtm →
  report rtm s km =
  ((λ name, gauge_model name (sensor rtm name)) <$> rtMonitorSensGauge) ++
  [mkMetrics (Some (pollCount s)) None "PollCount" CounterType; gauge_model "RandomValue" (randomValue s);
   gauge_model "TotalMemory" (TotalMemory km); gauge_model "FreeMemory" (FreeMemory km)] ++
  cpu_models 0 (CPUutilization km).
Proof.
  intros Hs. unfold report, parseKernMetrics, parseRtm. cbv zeta. rewrite parse_fields by done.
  rewrite parse_cpus. unfold addJSONModel. by rewrite <- !app_assoc.
Qed.

Lemma cpu_name_inj i j : cpu_name i = cpu_name j → i = j.
Proof.
  unfold cpu_name. intros H. cut (Z.of_nat i = Z.of_nat j); [lia|].
  rewrite <- (show_nonneg_val (Z.of_nat i)), <- (show_nonneg_val (Z.of_nat j)) by lia. f_equal.
  revert H. rewrite !str_app_cons, !str_app_nil_l. by intros [= ->].
Qed.

(** The names of a report that are not of CPUs. *)
Definition fixed_names : list string :=
  rtMonitorSensGauge ++ ["PollCount"; "RandomValue"; "TotalMemory"; "FreeMemory"].

Lemma report_names rtm s km :
  all_sensors rtm → ID <$> report rtm s km = fixed_names ++ (cpu_name <$> seq 0 (length (CPUutilization km))).
Proof.
  assert (∀ l i, ID <$> cpu_models i l = cpu_name <$> seq i (length l)) as Hc.
  { induction l as [|v l IH]; intros i; [done|]. simpl. f_equal. apply IH. }
  intros Hs. rewrite report_eq by done. rewrite !fmap_app, Hc, <- list_fmap_compose. unfold fixed_names.
  by rewrite <- app_assoc.
Qed.

Lemma names_NoDup n : NoDup (fixed_names ++ (cpu_name <$> seq 0 n)).
Proof.
  apply NoDup_app. split_and!.
  - apply (bool_decide_unpack _). vm_compute. exact I.
  - intros x Hx (i & -> & _)%list_elem_of_fmap.
    assert (Forall (λ n, HasPrefix n "CPUutilization" = false) fixed_names) as Hf
      by (apply (bool_decide_unpack _); vm_compute; exact I).
    rewrite Forall_forall in Hf. specialize (Hf _ Hx). revert Hf.
    unfold cpu_name. rewrite !str_app_cons. generalize ("" +:+ show_nonneg (Z.of_nat i)). intros t.
    destruct t; vm_compute; discriminate.
  - apply NoDup_fmap_2; [|apply NoDup_seq]. intros i j. apply cpu_name_inj.
Qed.

Lemma report_NoDup rtm s km : all_sensors rtm → NoDup (ID <$> report rtm s km).
Proof. intros Hs. rewrite report_names by done. apply names_NoDup. Qed.

(** *** What a batch of distinct names does to a store *)

Lemma last_gauge_unique l v x :
  NoDup (ID <$> l) → v ∈ l → batch_valid v = true → MType v = GaugeType → Value v = Some x →
  last_gauge (ID v) l = Some x.
Proof.
  intros Hnd Hin Hval Ht Hx. unfold last_gauge. induction l as [|u l IH]; [by apply elem_of_nil in Hin|].
  rewrite fmap_cons in Hnd. apply NoDup_cons in Hnd as [Hu Hnd]. apply elem_of_cons in Hin as [<-|Hin].
  - assert (omap (gauge_value (ID v)) l = []) as Hnil.
    { clear -Hu. induction l as [|u l IH]; [done|]. rewrite fmap_cons, not_elem_of_cons in Hu. destruct Hu as [Hne Hu].
      simpl. unfold gauge_value at 1. rewrite decide_False by naive_solver. by apply IH. }
    simpl. unfold gauge_value at 1. rewrite decide_True by done. rewrite Hx.
    change (list_omap _ _ _ l) with (omap (gauge_value (ID v)) l). by rewrite Hnil.
  - simpl. unfold gauge_value at 1. rewrite decide_False; [by apply IH|]. intros (_ & _ & He).
    apply Hu. rewrite He. apply list_elem_of_fmap. eauto.
Qed.

Lemma sum_deltas_unique l v d :
  NoDup (ID <$> l) → v ∈ l → batch_valid v = true → MType v = CounterType → Delta v = Some d →
  existsb (touches_counter (ID v)) l = true ∧ sum_deltas (ID v) l = d.
Proof.
  intros Hnd Hin Hval Ht Hx. induction l as [|u l IH]; [by apply elem_of_nil in Hin|].
  rewrite fmap_cons in Hnd. apply NoDup_cons in Hnd as [Hu Hnd]. apply elem_of_cons in Hin as [<-|Hin].
  - assert (sum_deltas (ID v) l = 0) as H0.
    { clear -Hu. induction l as [|u l IH]; [done|]. rewrite fmap_cons, not_elem_of_cons in Hu. destruct Hu as [Hne Hu].
      unfold sum_deltas in *. simpl. unfold counter_delta at 1. rewrite decide_False by naive_solver. rewrite IH by done. done. }
    unfold sum_deltas in *. simpl. rewrite H0. unfold touches_counter, counter_delta at 1.
    rewrite bool_decide_eq_true_2, decide_True by done. rewrite Hx. simpl. split; [done|lia].
  - destruct (IH Hnd Hin) as [He Hs]. unfold sum_deltas in *. simpl. rewrite Hs, He.
    unfold counter_delta at 1. rewrite decide_False; [split; [apply orb_true_r|lia]|].
    intros (_ & _ & He'). apply Hu. rewrite He'. apply list_elem_of_fmap. eauto.
Qed.

(** The names of a report are ASCII. *)
Lemma ascii_utf8 s : str_all (λ c, byte c < 128) s → valid_utf8 s = true.
Proof.
  unfold valid_utf8. induction s as [|c s IH]; [done|]. intros [Hc Hs]. cbn [String.length valid_utf8_fuel].
  rewrite decide_True by done. by apply IH.
Qed.

Lemma digits_ascii s : all_digits s = true → str_all (λ c, byte c < 128) s.
Proof.
  induction s as [|c s IH]; [done|]. cbn [all_digits]. intros [Hc Hs]%andb_true_iff. split; [|by apply IH].
  revert c Hc. apply digit_cases. repeat constructor; vm_compute; done.
Qed.

Lemma cpu_name_ascii i : str_all (λ c, byte c < 128) (cpu_name i).
Proof. apply str_all_app. split; [vm_compute; by repeat split|]. apply digits_ascii, show_nonneg_digits. Qed.

(** A report of canonical values can be encoded and decoded again. *)
Lemma report_ok rtm s km :
  all_sensors rtm → is_int64 (pollCount s) → canonical (randomValue s) →
  canonical (TotalMemory km) → canonical (FreeMemory km) → Forall canonical (CPUutilization km) →
  Forall Metrics_ok (report rtm s km) ∧ Forall names_ok (report rtm s km).
Proof.
  intros Hs Hp Hr Ht Hf Hc. rewrite report_eq by done.
  assert (∀ name v, canonical v → Metrics_ok (gauge_model name v)) as Hg by (intros; split; simpl; naive_solver).
  assert (∀ i l, Forall canonical l → Forall Metrics_ok (cpu_models i l) ∧ Forall names_ok (cpu_models i l)) as Hcpu.
  { intros i l Hl. revert i. induction Hl as [|v l Hv Hl IH]; intros i; [done|]. destruct (IH (S i)) as [IH1 IH2].
    split; constructor; [by apply Hg|done| |done]. split; [apply ascii_utf8, cpu_name_ascii|done]. }
  rewrite !Forall_app. split_and!.
  - apply Forall_fmap, Forall_impl with (P := λ name, is_Some (rtm !! name ≫= field_value)); [done|].
    intros name [v Hv]. apply Hg. unfold sensor. rewrite Hv. cbn [default from_option].
    destruct (rtm !! name) as [[n|x|t]|]; cbn in Hv; try done; case_decide; try done; injection Hv as <-; [|done].
    apply float_of_Z_canonical.
  - constructor; [split; simpl; [by intros ? [= <-]|done]|]. repeat (constructor; [by apply Hg|]). constructor.
  - by apply Hcpu.
  - apply Forall_fmap. apply (bool_decide_unpack (Forall (λ n, names_ok (gauge_model n fzero)) rtMonitorSensGauge)).
    vm_compute. exact I.
  - repeat (constructor; [split; vm_compute; reflexivity|]). constructor.
  - by apply Hcpu.
Qed.

(** What a report does to the server's poll counter. *)
Lemma report_polls rtm s km m :
  all_sensors rtm →
  counter (mem_WriteBatchMetrics (report rtm s km) m).2 !! "PollCount" =
    Some (wrap64 (default 0 (counter m !! "PollCount") + pollCount s)).
Proof.
  intros Hs. cbn [mem_WriteBatchMetrics snd]. rewrite batch_counter.
  destruct (sum_deltas_unique (report rtm s km) (mkMetrics (Some (pollCount s)) None "PollCount" CounterType)
    (pollCount s) (report_NoDup rtm s km Hs)) as [He Hd]; [|done..|simpl in He, Hd; by rewrite He, Hd].
  rewrite report_eq by done. rewrite !elem_of_app, !elem_of_cons. tauto.
Qed.

(** [C34] A report stored by the server: every runtime sensor reads as the value the agent's runtime
    reported, rounded to the nearest float, the random value, the memory sizes and every CPU
    read as reported, and the poll counter has grown by the number of polls since the last
    acknowledged report; names do not clash, so nothing overwrites anything. *)
Theorem report_stored (rtm : MemStats) (s : sysMon) (km : kernelMetrics) (m : MemStorage) (Hs : all_sensors rtm) :
  let m' := (mem_WriteBatchMetrics (report rtm s km) m).2 in
  (∀ name, name ∈ rtMonitorSensGauge → mem_GetMetric GaugeType name m' = (IGauge (sensor rtm name), None)) ∧
  mem_GetMetric GaugeType "RandomValue" m' = (IGauge (randomValue s), None) ∧
  mem_GetMetric GaugeType "TotalMemory" m' = (IGauge (TotalMemory km), None) ∧
  mem_GetMetric GaugeType "FreeMemory" m' = (IGauge (FreeMemory km), None) ∧
  (∀ i v, CPUutilization km !! i = Some v → mem_GetMetric GaugeType (cpu_name i) m' = (IGauge v, None)) ∧
  mem_GetMetric CounterType "PollCount" m' =
    (ICounter (wrap64 (default 0 (counter m !! "PollCount") + pollCount s)), None).
Proof.
  cbv zeta. pose proof (report_NoDup rtm s km Hs) as Hnd.
  assert (∀ name v, gauge_model name v ∈ report rtm s km → name ≠ "" →
    mem_GetMetric GaugeType name (mem_WriteBatchMetrics (report rtm s km) m).2 = (IGauge v, None)) as Hg.
  { intros name v Hin Hne. rewrite get_gauge. cbn [mem_WriteBatchMetrics snd]. rewrite batch_gauge.
    assert (last_gauge name (report rtm s km) = Some v) as ->; [|done].
    apply (last_gauge_unique _ (gauge_model name v)); try done.
    unfold batch_valid; simpl. by rewrite (bool_decide_eq_true_2 _ Hne). }
  assert (∀ v, v ∈ report rtm s km ↔ v ∈ ((λ name, gauge_model name (sensor rtm name)) <$> rtMonitorSensGauge) ∨
    v ∈ [mkMetrics (Some (pollCount s)) None "PollCount" CounterType; gauge_model "RandomValue" (randomValue s);
         gauge_model "TotalMemory" (TotalMemory km); gauge_model "FreeMemory" (FreeMemory km)] ∨
    v ∈ cpu_models 0 (CPUutilization km)) as Hin by (intros v; rewrite report_eq, !elem_of_app by exact Hs; reflexivity).
  split_and!.
  - intros name Hn. apply Hg.
    + apply Hin. left. apply list_elem_of_fmap. eauto.
    + intros ->. revert Hn. vm_compute. intros Hn. repeat (apply elem_of_cons in Hn as [?|Hn]; [done|]). by apply elem_of_nil in Hn.
  - apply Hg; [|done]. apply Hin. right; left. rewrite !elem_of_cons. tauto.
  - apply Hg; [|done]. apply Hin. right; left. rewrite !elem_of_cons. tauto.
  - apply Hg; [|done]. apply Hin. right; left. rewrite !elem_of_cons. tauto.
  - intros i v Hi. apply Hg; [|done]. apply Hin. right; right.
    assert (∀ l j, l !! i = Some v → gauge_model (cpu_name (j + i)) v ∈ cpu_models j l) as Hc; [|by apply (Hc _ 0%nat)].
    clear. induction i as [|i IH]; intros [|u l] j Hl; simplify_eq/=; apply elem_of_cons.
    + left. by rewrite Nat.add_0_r.
    + right. rewrite <- plus_n_Sm. by apply (IH l (S j)).
  - rewrite get_counter. by rewrite report_polls.
Qed.

(** A runtime that reports 1024 for every sensor. *)
Definition toy_MemStats : MemStats := list_to_map ((λ n, (n, MUint 1024)) <$> rtMonitorSensGauge).

Lemma report_stored_witness :
  all_sensors toy_MemStats ∧
  let m' := (mem_WriteBatchMetrics (report toy_MemStats (mkSysMon 7 fzero) (mkKern [fzero] fzero fzero))
               (mkMem ∅ {[ "PollCount" := 5 ]})).2 in
  mem_GetMetric CounterType "PollCount" m' = (ICounter 12, None).
Proof.
  assert (all_sensors toy_MemStats) as Hs by (apply (bool_decide_unpack _); vm_compute; exact I).
  split; [exact Hs|].
  exact (proj2 (proj2 (proj2 (proj2 (proj2 (report_stored toy_MemStats (mkSysMon 7 fzero) (mkKern [fzero] fzero fzero)
    (mkMem ∅ {[ "PollCount" := 5 ]}) Hs)))))).
Defined.
