(* ===== verification/EndToEnd.v ===== *)
(** * An agent and a server together

    The agent's [Send] against the server's router through every wrapper on the way: encryption
    and signature on one side, subnets, log, compression, signature check, decryption and the batch
    handler on the other.  What lies between them (resty, TCP, net/http) is a parameter. *)

From S2P Require Import Prelude Strconv Float64 GoErrors Metrics MemStorage Json MemFile GoRetry Retrier.
From S2P Require Import StoreSpec Http Chi Routes Handlers Codec SignWriter CryptAndSign Middleware Netip Server StoreSim Agent.

Open Scope Z_scope.

(** The request that arrives when [body] is posted with the headers [r]; Go's client asks for gzip. *)
Definition arriving (peer : string) (r : headers) (body : string) : request :=
  mkRequest "POST" "/updates/" (<["Accept-Encoding" := "gzip"]> r) peer ∅ body false.

(** A network that delivers: a reply of the server comes back with its status, at some later time. *)
Class Connected {S} `{Network S} (server : request → world S → outcome (served (S := S))) (base peer : string) : Prop :=
  delivered r body w l w' logs :
    server (arriving peer r body) w = Ret (l, w', logs) →
    ∃ t text, now w' ≤ t ∧ post (base +:+ "/updates/") r body w = (inr (mkReply (status l) text), World t (store w')).

(** ** The server's side *)

Section ServerSide.
Context `{Gzip} `{RSA} `{Router.Regexp}.

(** A reply of one status, compressed or not. *)
Lemma gzip_status {S} (h : handler S) r w pre code d w' :
  Contains (header_Get (Header r) "Content-Encoding") "gzip" = false → Forall header_only pre →
  h r w = Ret (pre ++ [WriteHeader code; Write d], w') →
  ∃ l, GzipCompDecomp h r w = Ret (l, w') ∧ status l = code.
Proof.
  intros Hce Hpre Hh. unfold GzipCompDecomp. cbv zeta. rewrite Hce, Hh. cbn [mbind outcome_bind].
  eexists. split; [done|]. destruct (_ && _); [|by apply status_first].
  rewrite compress_header_only by done. cbn [compress_calls].
  rewrite cons_middle, app_assoc.
  apply status_first, Forall_app_2; [done|by repeat constructor].
Qed.

(** A signed, encrypted batch of an admitted client, on the in-memory store. *)
Lemma server_takes_batch (mh : metricHandlers) (key privkeypath : string) (subnets : option (list Prefix))
    (ms : list Metrics) (s : string) (req : request) (w : world MemStorage) :
  made (reqRetrier mh) → ctx_Err (mh_ctx mh) (now w) = None →
  Forall Metrics_ok ms → Forall names_ok ms → encode_slice (Some ms) = Some s →
  Method req = "POST" → Path req = "/updates/" → BodyErr req = false →
  header_Get (Header req) "Content-Type" = "application/json" →
  Contains (header_Get (Header req) "Content-Encoding") "gzip" = false →
  match subnets with None => True | Some ps => Forall Prefix_ok ps ∧ trusted ps req end →
  (key ≠ "" → header_Get (Header req) signHeaderType = hex_EncodeToString (hmac_sha256 key (Body req))) →
  (∀ (h : handler MemStorage) req' w, Body req' = Body req → BodyErr req' = false →
     AsymmetricDencryptData h privkeypath req' w = h (set_body req' s) w) →
  ∃ l logs, chiRouter mh key privkeypath subnets req w =
    Ret (l, set_store w (mem_WriteBatchMetrics ms (store w)).2, logs) ∧ status l = StatusOK.
Proof.
  intros Hm Ha Hok Hn Hs Hmeth Hpath He Hct Hce Hnet Hsig Hdec.
  assert (∃ l logs, routeHTTP mh key privkeypath route_tree req w =
    Ret (l, set_store w (mem_WriteBatchMetrics ms (store w)).2, logs) ∧ status l = StatusOK) as Hroute.
  { unfold routeHTTP. rewrite Hmeth, Hpath.
    change (Router.routeHTTP route_tree "POST" "/updates/") with (Ret (Router.RServe EUpdatesJSON ∅)). cbn [mbind outcome_bind].
    unfold logged_route, WriteLogging, endpoint_handler. cbv zeta.
    set (req' := set_params req ∅).
    destruct (SignCheck_accepts (AsymmetricDencryptData (updateBatchMetricsJSON mh) privkeypath) key req' w
      json_header StatusOK (s +:+ nl_str) (set_store w (mem_WriteBatchMetrics ms (store w)).2)) as (pre & Hpre & Hsc); [done|done|by repeat constructor| |].
    { rewrite Hdec by done. by apply batch_mem_reply. }
    destruct (gzip_status (SignCheck (AsymmetricDencryptData (updateBatchMetricsJSON mh) privkeypath) key) req' w
      pre StatusOK (s +:+ nl_str) _ Hce Hpre Hsc) as (l & -> & Hl).
    cbn [mbind outcome_bind]. eauto. }
  rewrite chiRouter_eq. destruct subnets as [ps|]; [|exact Hroute].
  destruct Hnet as [Hps Ht]. by rewrite checkIP_trusted.
Qed.
End ServerSide.

(** ** The agent's side *)

Lemma DoM_first {S B} `{Backoff B} fuel ctx (b : B) f (w w' : world S) :
  ctx_Err ctx (now w) = None → f w = Ret (None, w') → DoM (Datatypes.S fuel) ctx b f w = Ret (None, b, w').
Proof. intros Hc Hf. cbn [DoM]. by rewrite Hc, Hf. Qed.

Lemma WithTimeout_alive ctx t d : ctx_Err ctx t = None → 0 < d → ctx_Err (WithTimeout ctx t d) t = None.
Proof.
  unfold ctx_Err, WithTimeout. destruct ctx as [[dl|] [c|]]; simpl; repeat case_decide; done || lia.
Qed.

(** The headers the agent sends after [SignNew] and [send]. *)
Definition signed_headers (key c xRealIp : string) (r : headers) : headers :=
  <["X-Real-IP" := xRealIp]>
    (if decide (key = "") then r else <[signHeaderType := hex_EncodeToString (hmac_sha256 key c)]> r).

(** The proofs below take the server as it is. *)
#[local] Opaque chiRouter.

Section AgentSide.
Context {S : Type} `{Network S} `{RSA}.

(** One delivered message: when the server at the other end answers 200, [Send] succeeds at once, and
    the state is what the server made of it. *)
Lemma Send_once (server : request → world S → outcome (served (S := S))) (peer : string)
    (j : jsonSendString) ctx serverHost xRealIp r w c l w' logs :
  let base := if HasPrefix serverHost httpProto then serverHost else "http://" +:+ serverHost in
  Connected server base peer →
  (∀ (W : Type) (s : AgentSendFunc W) (r : headers) (serverHost xRealIp : string) (w : W),
     AsymmetricEncryptData s (pubkeypath j) r (jsonString j) serverHost xRealIp w = s r c serverHost xRealIp w) →
  ctx_Err ctx (now w) = None → 0 < send_timeout j →
  server (arriving peer (signed_headers (keyenc j) c xRealIp r) c) w = Ret (l, w', logs) →
  status l = StatusOK →
  ∃ t, now w' ≤ t ∧
    Send j ctx serverHost xRealIp (World (now w) (r, store w)) =
      Ret (None, World t (signed_headers (keyenc j) c xRealIp r, store w')).
Proof.
  cbv zeta. intros Hconn Henc Hctx Hto Hsrv Hst.
  destruct (delivered _ _ _ _ _ _ Hsrv) as (t & text & Ht & Hpost).
  exists t. split; [done|]. unfold Send. cbv zeta. cbn [now store]. unfold NewFibonacci.
  rewrite decide_False by (unfold Second; lia). cbn [mbind outcome_bind].
  change (Z.to_nat (left_of (WithMaxRetries 3 (mkFib 0 (1 * Second))))) with 4%nat.
  erewrite DoM_first; [|by apply WithTimeout_alive|].
  2: { cbn [store now fst snd]. rewrite Henc. unfold SignNew.
       replace (World (now w) (store w)) with w by by destruct w.
       instantiate (1 := World t (signed_headers (keyenc j) c xRealIp r, store w')).
       unfold signed_headers in *. case_decide; unfold send; cbv zeta; rewrite Hpost; cbn [StatusCode];
         rewrite decide_False by (rewrite Hst; tauto); done. }
  done.
Qed.
End AgentSide.

Lemma signed_lookup key c xRealIp r k :
  k ≠ "X-Real-IP" → k ≠ signHeaderType → k ≠ "Accept-Encoding" →
  header_Get (<["Accept-Encoding" := "gzip"]> (signed_headers key c xRealIp r)) k = header_Get r k.
Proof.
  intros H1 H2 H3. unfold header_Get, signed_headers. rewrite !lookup_insert_ne by done.
  case_decide; [done|]. by rewrite lookup_insert_ne by done.
Qed.

Lemma signed_real_ip key c xRealIp r :
  header_Get (<["Accept-Encoding" := "gzip"]> (signed_headers key c xRealIp r)) "X-Real-IP" = xRealIp.
Proof.
  unfold header_Get, signed_headers. rewrite lookup_insert_ne by done. by rewrite lookup_insert_eq.
Qed.

Lemma signed_sign key c xRealIp r :
  key ≠ "" →
  header_Get (<["Accept-Encoding" := "gzip"]> (signed_headers key c xRealIp r)) signHeaderType =
  hex_EncodeToString (hmac_sha256 key c).
Proof.
  intros Hk. unfold header_Get, signed_headers. rewrite (decide_False (P := key = "")) by done.
  rewrite !lookup_insert_ne by done. by rewrite lookup_insert_eq.
Qed.

(** The client is admitted: no subnets, or its address is in one of them. *)
Definition admitted (subnets : string) (xRealIp : string) (ps : option (list Prefix)) : Prop :=
  parseSubnetPrefixes subnets = Some ps ∧
  match ps with
  | None => True
  | Some ps => ∃ ip p, ParseAddr xRealIp = Some ip ∧ p ∈ ps ∧ in_subnet p ip
  end.

(** The request the agent keeps for its reports, whatever headers it has collected. *)
Definition agent_headers (r : headers) : Prop :=
  header_Get r "Content-Type" = "application/json" ∧ header_Get r "Content-Encoding" = "".

Lemma agent_headers_signed key c xRealIp r : agent_headers r → agent_headers (signed_headers key c xRealIp r).
Proof.
  intros [Hct Hce]. unfold agent_headers, header_Get, signed_headers in *. rewrite !lookup_insert_ne by done.
  case_decide; [done|]. by rewrite !lookup_insert_ne by done.
Qed.

(** The server takes the message that the agent sends, whenever it arrives. *)
Lemma server_takes_message `{Gzip} `{RSA} `{Router.Regexp} (mh : metricHandlers)
    (key privkeypath subnets peer xRealIp : string) (ps : option (list Prefix)) (ms : list Metrics) (s c : string) r w :
  made (reqRetrier mh) → ctx_Err (mh_ctx mh) (now w) = None → admitted subnets xRealIp ps → agent_headers r →
  Forall Metrics_ok ms ∧ Forall names_ok ms → encode_slice (Some ms) = Some s →
  (∀ (S : Type) (h : handler S) (req : request) (w : world S),
     Body req = c → BodyErr req = false → AsymmetricDencryptData h privkeypath req w = h (set_body req s) w) →
  ∃ l logs, chiRouter mh key privkeypath ps (arriving peer (signed_headers key c xRealIp r) c) w =
    Ret (l, set_store w (mem_WriteBatchMetrics ms (store w)).2, logs) ∧ status l = StatusOK.
Proof.
  intros Hm Hmh [Hps Hip] [Hct Hce] [Hok Hn] Hs Hdec.
  apply (server_takes_batch mh key privkeypath ps ms s (arriving peer (signed_headers key c xRealIp r) c) w
    Hm Hmh Hok Hn Hs eq_refl eq_refl eq_refl).
  - unfold arriving; cbn [Header]. by rewrite signed_lookup.
  - unfold arriving; cbn [Header]. by rewrite signed_lookup, Hce.
  - destruct ps as [ps|]; [|done]. split; [by eapply parseSubnetPrefixes_ok|].
    destruct Hip as (ip & p & Hparse & Hin & Hnet'). exists ip, p. split; [|done].
    unfold real_ip, arriving; cbn [Header]. rewrite signed_real_ip. rewrite decide_False; [done|].
    intros ->. discriminate Hparse.
  - intros Hk. unfold arriving; cbn [Header Body]. by apply signed_sign.
  - intros h req' w0 Hb He. by apply Hdec.
Qed.

(** The layers give the batch handler the message itself. *)
Lemma message_reaches `{Gzip} `{RSA} (key privkeypath peer xRealIp c s : string) r r' :
  agent_headers r →
  (∀ (S : Type) (h : handler S) (req : request) (w : world S),
     Body req = c → BodyErr req = false → AsymmetricDencryptData h privkeypath req w = h (set_body req s) w) →
  reaches key privkeypath EUpdatesJSON (set_params (arriving peer (signed_headers key c xRealIp r) c) ∅) r' →
  body_value r' = parse_stream s.
Proof.
  intros [_ Hce] Hdec [k Hk]. set (req := set_params _ ∅) in Hk.
  assert (plain_request req = Some req) as Hplain.
  { unfold plain_request, req, arriving; cbn [Header set_params]. by rewrite signed_lookup, Hce by done. }
  unfold endpoint_layer, inside in Hk. cbn [is_update] in Hk. unfold gzip_layer in Hk. rewrite Hplain in Hk. cbn [mbind outcome_bind] in Hk.
  assert (∀ a, sign_layer key req = Ret a → (∃ l, a = inl l) ∨ ∃ k, a = inr (req, k)) as Hsign.
  { intros a. unfold sign_layer. repeat (case_decide || case_match); intros [= <-]; eauto. }
  destruct (sign_layer key req) as [a| | | | |]; [|discriminate Hk..].
  destruct (Hsign a eq_refl) as [[l ->]|[k1 ->]]; cbn [mbind outcome_bind] in Hk; [discriminate Hk|].
  pose proof (Hdec request (λ r w, Ret ([], World 0 r)) req (World 0 req) eq_refl eq_refl) as Hd.
  rewrite crypt_through in Hd. unfold through in Hd.
  destruct (crypt_layer privkeypath req) as [[l|[r2 k2]]| | | | |] eqn:Hc; cbn [mbind outcome_bind] in Hk, Hd; try discriminate Hk.
  { destruct (k1 l); discriminate Hk. }
  apply crypt_keeps in Hc as ->. injection Hk as <- _. cbn in Hd. injection Hd as ->.
  by rewrite body_value_read.
Qed.

(** The same on any store: the batch is stored and answered with 200, or declined and nothing is stored. *)
Lemma store_takes_message `{Gzip} `{RSA} `{Router.Regexp} {S : Type} `{AbstractStore S} (mh : metricHandlers)
    (key privkeypath subnets peer xRealIp : string) (ps : option (list Prefix)) (ms : list Metrics) (s c : string) r (w : world S) :
  made (reqRetrier mh) → (∀ t, ctx_Err (mh_ctx mh) t = None) → admitted subnets xRealIp ps → agent_headers r →
  Forall Metrics_ok ms ∧ Forall names_ok ms → encode_slice (Some ms) = Some s →
  (∀ (S : Type) (h : handler S) (req : request) (w : world S),
     Body req = c → BodyErr req = false → AsymmetricDencryptData h privkeypath req w = h (set_body req s) w) →
  store_ok (store w) → batch_ok ms →
  ∃ l w' logs, chiRouter mh key privkeypath ps (arriving peer (signed_headers key c xRealIp r) c) w = Ret (l, w', logs) ∧
    store_ok (store w') ∧
    ((status l = StatusOK ∧ abs (store w') = (mem_WriteBatchMetrics ms (abs (store w))).2) ∨
     (declined l ∧ abs (store w') = abs (store w))).
Proof.
  intros Hm Hup Hip Hr Hms Hs Hdec Hok Hb. set (req := arriving _ _ _).
  destruct (server_takes_message mh key privkeypath subnets peer xRealIp ps ms s c r (World 0 (abs (store w))))
    as (l & logs & Hmem & Hst); [done..|].
  assert (covered_request key privkeypath (S := S) req) as Hc.
  { intros e ps' r' Hroute Hreach. change (Router.routeHTTP route_tree (Method req) (Path req)) with
      (Ret (Router.RServe EUpdatesJSON ∅)) in Hroute. injection Hroute as <- <-. cbn [covered]. intros batch Hbatch.
    rewrite (message_reaches key privkeypath peer xRealIp c s r r') in Hbatch by done.
    change (parse_stream s ≫= decode_slice) with (Decode_slice s) in Hbatch.
    destruct Hms as [Hms Hn]. rewrite (decode_encode_slice ms) in Hbatch by assumption. by injection Hbatch as <-. }
  destruct (router_alike mh key privkeypath ps req 0 w Hm Hup Hok Hc) as [Hok' Hcase].
  unfold req in *. rewrite Hmem in Hcase. cbn [store set_store] in Hcase.
  destruct (chiRouter mh key privkeypath ps (arriving _ _ _) w) as [[[l' w'] logs']| | | | |];
    cbn [over_maps mbind outcome_bind] in Hcase;
    [|destruct Hcase as [Hx|(? & ? & ? & Hx & _)]; discriminate Hx..].
  exists l', w', logs'. split; [done|]. split; [by eapply Hok'|]. destruct Hcase as [Heq|(l1 & w1 & g & [= <- <- <-] & Hd & Ha)].
  - left. injection Heq as <- Ha _. split; [exact Hst|symmetry; exact Ha].
  - right. split; assumption.
Qed.

(** [C1] From agent to store: an agent and a server with the same signing key (or none) and the two
    halves of one RSA key pair (or none), the agent's address in the trusted subnets (or none
    configured), connected by a network that delivers.  Whatever list of metrics the agent has
    encoded, [Send] returns without error at the first attempt, and the server's store is
    exactly what writing that list to it gives; encryption, signature, compression and logging change
    nothing. *)
Theorem report_delivered `{Gzip} `{RSA} `{Router.Regexp} `{Network MemStorage}
    (mh : metricHandlers) (key pubkeypath privkeypath subnets serverHost peer xRealIp : string) (ps : option (list Prefix))
    (ms : list Metrics) (j0 j : jsonSendString) (r : headers) (ctx : context) (w : world MemStorage)
    (Hnet : Connected (chiRouter mh key privkeypath ps)
              (if HasPrefix serverHost httpProto then serverHost else "http://" +:+ serverHost) peer)
    (Hm : made (reqRetrier mh)) (Hmh : ctx_Err (mh_ctx mh) (now w) = None) (Hctx : ctx_Err ctx (now w) = None)
    (Hkeys : paired pubkeypath privkeypath) (Hip : admitted subnets xRealIp ps)
    (Hj0 : keyenc j0 = key ∧ Agent.pubkeypath j0 = pubkeypath ∧ 0 < send_timeout j0)
    (Hr : header_Get r "Content-Type" = "application/json" ∧ header_Get r "Content-Encoding" = "")
    (Hms : Forall Metrics_ok ms ∧ Forall names_ok ms) (Hj : encodeJSON (Some ms) j0 = (j, true)) :
  ∃ t r', Send j ctx serverHost xRealIp (World (now w) (r, store w)) =
    Ret (None, World t (r', (mem_WriteBatchMetrics ms (store w)).2)).
Proof.
  destruct Hj0 as (<- & <- & Hto).
  unfold encodeJSON in Hj. destruct (encode_slice (Some ms)) as [s|] eqn:Hs; [|discriminate Hj].
  injection Hj as <-. cbn [default from_option id].
  destruct (paired_channel _ _ s Hkeys) as (c & Henc & Hdec).
  destruct (server_takes_message mh (keyenc j0) privkeypath subnets peer xRealIp ps ms s c r w) as (l & logs & Hl & Hst);
    [done..|].
  destruct (Send_once (chiRouter mh (keyenc j0) privkeypath ps) peer
    (mkSend s (keyenc j0) (Agent.pubkeypath j0) (send_timeout j0)) ctx serverHost xRealIp r w c l
    (set_store w (mem_WriteBatchMetrics ms (store w)).2) logs Hnet)
    as (t & _ & Hsend); [exact Henc|exact Hctx|exact Hto|exact Hl|exact Hst|]. eauto.
Qed.

(** A server with a key, a private key and a subnet, and a network that takes five nanoseconds. *)
Definition toy_prefixes : list Prefix := [mkPrefix (Addr4 167772160) 8].

Definition toy_server : request → world MemStorage → outcome (served (S := MemStorage)) :=
  chiRouter (H0 := toy_Gzip) (H1 := toy_RSA) (H2 := Router.no_regexp) started "k" "key.pem" (Some toy_prefixes).

Definition toy_network : Network MemStorage := λ url r body w,
  match toy_server (arriving "10.0.0.7:4000" r body) w with
  | Ret (l, w', _) => (inr (mkReply (status l) (reply_body l)), World (now w' + 5) (store w'))
  | _ => (inl (ErrMsg "connection reset by peer"), w)
  end.

Lemma toy_connected base : Connected (H := toy_network) toy_server base "10.0.0.7:4000".
Proof.
  intros r body w l w' logs Hl. unfold post, toy_network. rewrite Hl.
  exists (now w' + 5), (reply_body l). split; [lia|done].
Qed.

Lemma report_delivered_witness :
  let ms := [mkMetrics (Some 4) None "PollCount" "counter"] in
  let r := {[ "Content-Type" := "application/json" ]} in
  let j := mkSend (jq "[{'delta':4,'id':'PollCount','type':'counter'}]") "k" "key.pem" (30 * Second) in
  ∃ t r', Send (H := toy_network) (H0 := toy_RSA) j Background "srv:8080" "10.1.2.3" (World 0 (r, NewMemStorage)) =
    Ret (None, World t (r', (mem_WriteBatchMetrics ms NewMemStorage).2)).
Proof.
  cbv zeta.
  apply (report_delivered (H := toy_Gzip) (H0 := toy_RSA) (H1 := Router.no_regexp) (H2 := toy_network) started "k" "key.pem" "key.pem" "10.0.0.0/8"
    "srv:8080" "10.0.0.7:4000" "10.1.2.3" (Some toy_prefixes) [mkMetrics (Some 4) None "PollCount" "counter"]
    (mkSend "" "k" "key.pem" (30 * Second)) _ {[ "Content-Type" := "application/json" ]} Background (World 0 NewMemStorage)).
  - apply toy_connected.
  - apply (bool_decide_unpack _). vm_compute. exact I.
  - reflexivity.
  - reflexivity.
  - right. split; [discriminate|]. split; [discriminate|]. exists tt. split; [exact toy_KeyPair|]. split; reflexivity.
  - split; [reflexivity|]. exists (Addr4 167838211), (mkPrefix (Addr4 167772160) 8). split; [reflexivity|].
    split; [by left|]. by vm_compute.
  - split; [reflexivity|]. split; reflexivity.
  - split; reflexivity.
  - split; apply (bool_decide_unpack _); vm_compute; exact I.
  - vm_compute. reflexivity.
Defined.
