(* ===== verification/Grpc.v ===== *)
(** * The gRPC transport

    [internal/agentwithgrpc/agentwgrpc.go] (encoding, sending with the retries of go-grpc-middleware) and
    [internal/server/server_grpc.go] ([SendMetrics]).  The connection itself is a parameter: one
    attempt of a call is a function on the world. *)

From S2P Require Import Prelude Strconv Float64 GoErrors Metrics MemStorage Json MemFile GoRetry Retrier.
From S2P Require Import StoreSpec Http Handlers Codec SignWriter CryptAndSign Middleware Netip Server Agent EndToEnd.

Open Scope Z_scope.

(** ** Messages *)

(** [MetricsRequest_MetricRequest]; a [MetricsRequest] is its list. *)
Record MetricRequest : Type := mkMR { mr_delta : Z; mr_value : float64; mr_id : string; mr_mtype : string }.

(** Proto3 leaves a field that was not set at zero. *)
Definition encode_one (v : Metrics) : option MetricRequest :=
  if decide (MType v = "counter") then (λ d, mkMR d fzero (ID v) (MType v)) <$> Delta v
  else if decide (MType v = "gauge") then (λ x, mkMR 0 x (ID v) (MType v)) <$> Value v
  else None.

(** [EncodeProto]: metrics without their value, or of another type, are left out. *)
Definition EncodeProto (metrics : list Metrics) : list MetricRequest := omap encode_one metrics.

(** The loop of [SendMetrics]: both pointers are set. *)
Definition decode_one (metric : MetricRequest) : Metrics :=
  mkMetrics (Some (mr_delta metric)) (Some (mr_value metric)) (mr_id metric) (mr_mtype metric).

(** ** Status codes and errors *)

Definition code_Canceled : Z := 1.
Definition code_Unknown : Z := 2.
Definition code_DeadlineExceeded : Z := 4.
Definition code_PermissionDenied : Z := 7.
Definition code_ResourceExhausted : Z := 8.
Definition code_Unavailable : Z := 14.

Record status_error : Type := mkStatus { code : Z; message : string }.

(** ** The server: [SendMetrics] *)

Section ServerGrpc.
Context {S : Type} `{StoreMetrics S}.

(** The metadata of a call, with lower-case keys; [None] when the context has none. *)
Abbreviation MD := (gmap string (list string)).

Definition grpc_allowed (subnets : option (list Prefix)) (xrealip : list string) : option status_error :=
  match subnets with
  | None => None
  | Some subnets =>
      match xrealip with
      | [] => Some (mkStatus code_PermissionDenied "cant' find src ip")
      | x :: _ =>
          match ParseAddr x with
          | None => Some (mkStatus code_PermissionDenied "error parse src ip")
          | Some ip =>
              if existsb (λ v, Prefix_Contains v ip) subnets then None
              else Some (mkStatus code_PermissionDenied "src ip not allowed")
          end
      end
  end.

(** The text of the response, and the error the log gets. *)
Definition SendMetrics (mh : metricHandlers) (subnets : option (list Prefix)) (md : option MD)
    (metric : list MetricRequest) (w : world S) :
    outcome ((status_error + string) * option goerror * world S) :=
  let xrealip := match md with Some md => default [] (md !! "x-real-ip") | None => [] end in
  match grpc_allowed subnets xrealip with
  | Some err => Ret (inl err, None, w)
  | None =>
      '(err, w) ← do_WriteBatchMetrics mh (decode_one <$> metric) w;
      Ret (inr "OK", err, w)
  end.
End ServerGrpc.

(** ** The agent: a call with retries *)

Section AgentGrpc.
Context {W : Type}.

(** One attempt of the call: the error, or the response. *)
Context (invoker : world W → (status_error + string) * world W).

(** The options of the interceptor: [WithMax(3)] and [BackoffExponential(1 * time.Second)]. *)
Definition grpc_max : nat := 3.
Definition ExponentBase2 (a : nat) : Z := Z.shiftr (Z.shiftl 1 (Z.of_nat a)) 1.
Definition grpc_backoff (attempt : nat) : Z := 1 * Second * ExponentBase2 attempt.

Definition DefaultRetriableCodes : list Z := [code_ResourceExhausted; code_Unavailable].

Definition isContextError (err : status_error) : bool :=
  bool_decide (code err = code_DeadlineExceeded) || bool_decide (code err = code_Canceled).

Definition isRetriable (err : status_error) : bool :=
  negb (isContextError err) && existsb (λ c, bool_decide (c = code err)) DefaultRetriableCodes.

Definition contextErrToGrpcErr (err : goerror) : status_error :=
  match err with
  | DeadlineExceeded => mkStatus code_DeadlineExceeded (error_text err)
  | Canceled => mkStatus code_Canceled (error_text err)
  | _ => mkStatus code_Unknown (error_text err)
  end.

(** [waitRetryBackoff]: if the context ends at the very instant the timer fires the timer wins. *)
Definition waitRetryBackoff (attempt : nat) (ctx : context) (w : world W) : option status_error * world W :=
  let waitTime := if decide (0 < attempt)%nat then grpc_backoff attempt else 0 in
  if decide (0 < waitTime) then
    let timer := now w + waitTime in
    match done_at ctx with
    | Some d =>
        if decide (d < timer) then
          let t := Z.max (now w) d in
          (contextErrToGrpcErr <$> ctx_Err ctx t, World t (store w))
        else (None, World timer (store w))
    | None => (None, World timer (store w))
    end
  else (None, w).

(** The loop of the interceptor, with [n] attempts left; no timeout per call is set.
    From the second attempt on the metadata also say the number of the attempt, which the server ignores. *)
Fixpoint retry_loop (n attempt : nat) (ctx : context) (lastErr : status_error + string) (w : world W) :
    (status_error + string) * world W :=
  match n with
  | O => (lastErr, w)
  | Datatypes.S n =>
      match waitRetryBackoff attempt ctx w with
      | (Some err, w) => (inl err, w)
      | (None, w) =>
          match invoker w with
          | (inr resp, w) => (inr resp, w)
          | (inl err, w) =>
              if isContextError err && bool_decide (is_Some (ctx_Err ctx (now w))) then (inl err, w)
              else if isRetriable err then retry_loop n (Datatypes.S attempt) ctx (inl err) w
              else (inl err, w)
          end
      end
  end.

Definition UnaryClientInterceptor (ctx : context) (w : world W) : (status_error + string) * world W :=
  retry_loop grpc_max 0 ctx (inr "") w.
End AgentGrpc.

(** [grpcConnector]: [connect] stands for [grpc.NewClient], which tells whether a client can be made for the host;
    [call host md req] is one attempt of the remote call.  A connection makes every call through the
    interceptor with the retries. *)
Definition grpcConnector {W} (connect : string → option status_error)
    (call : string → gmap string (list string) → list MetricRequest → world W → (status_error + string) * world W)
    (grpcServerHost : string) :
    status_error + (context → gmap string (list string) → list MetricRequest → world W → (status_error + string) * world W) :=
  match connect grpcServerHost with
  | Some err => inl err
  | None => inr (λ ctx md req, UnaryClientInterceptor (call grpcServerHost md req) ctx)
  end.

(** [protoSend]. *)
Definition protoSend {W} (connect : string → option status_error)
    (call : string → gmap string (list string) → list MetricRequest → world W → (status_error + string) * world W)
    (ctx : context) (grpcServerHost xRealIp : string) (metricsReq : list MetricRequest) (w : world W) :
    option status_error * world W :=
  match grpcConnector connect call grpcServerHost with
  | inl err => (Some err, w)
  | inr conn =>
      let md := {[ "x-real-ip" := [xRealIp] ]} in
      match conn ctx md metricsReq w with
      | (inl err, w) => (Some err, w)
      | (inr _, w) => (None, w)
      end
  end.

(** [MonMetricReq.Send]: the request is the message. *)
Definition MonMetricReq_Send {W} connect call (m : list MetricRequest) (ctx : context) (serverHost xRealIp : string)
    (w : world W) : option status_error * world W :=
  protoSend connect call ctx serverHost xRealIp m w.

(** ** Lemmas and theorems *)

Lemma encode_one_step v m :
  match encode_one v with Some r => batch_step m (decode_one r) | None => m end = batch_step m v.
Proof.
  unfold encode_one, batch_step. destruct v as [dl vl id ty]; simpl.
  destruct (decide (ty = "counter")) as [->|Hc]; [by destruct dl|].
  destruct (decide (ty = "gauge")) as [->|Hg]; [by destruct vl|].
  by rewrite !decide_False.
Qed.

Lemma grpc_batch ms m : foldl batch_step m (decode_one <$> EncodeProto ms) = foldl batch_step m ms.
Proof.
  unfold EncodeProto. revert m. induction ms as [|v ms IH]; intros m; [done|]. cbn [omap list_omap foldl].
  rewrite <- (encode_one_step v m). destruct (encode_one v) as [r|]; [|apply IH]. cbn. apply IH.
Qed.

(** The caller may send: no subnets, or the first address of the metadata is in one of them. *)
Definition grpc_trusted (subnets : option (list Prefix)) (md : option (gmap string (list string))) : Prop :=
  match subnets with
  | None => True
  | Some ps => ∃ md' x xs ip p, md = Some md' ∧ md' !! "x-real-ip" = Some (x :: xs) ∧
                 ParseAddr x = Some ip ∧ p ∈ ps ∧ in_subnet p ip
  end.

Lemma grpc_allowed_spec subnets md :
  (∀ ps, subnets = Some ps → Forall Prefix_ok ps) →
  let e := grpc_allowed subnets (match md with Some md => default [] (md !! "x-real-ip") | None => [] end) in
  (grpc_trusted subnets md → e = None) ∧
  (¬ grpc_trusted subnets md → ∃ msg, e = Some (mkStatus code_PermissionDenied msg)).
Proof.
  intros Hok. cbv zeta. unfold grpc_allowed, grpc_trusted. destruct subnets as [ps|]; [|by split].
  specialize (Hok ps eq_refl). split.
  - intros (md' & x & xs & ip & p & -> & Hl & Hx & Hin & Hnet). rewrite Hl. cbn [default from_option id]. rewrite Hx.
    by rewrite (proj2 (existsb_subnet ps ip Hok)) by eauto.
  - intros Hn. destruct md as [md|]; [|by eexists].
    destruct (md !! "x-real-ip") as [[|x xs]|] eqn:Hl; cbn [default from_option id]; [by eexists| |by eexists].
    destruct (ParseAddr x) as [ip|] eqn:Hx; [|by eexists].
    destruct (existsb _ ps) eqn:He; [|by eexists].
    apply existsb_subnet in He as (p & Hp & Hq); [|done]. exfalso. apply Hn. eauto 10.
Qed.

(** [C33] A report over gRPC, on any store in a state, and for a batch, its contract covers: for an admitted caller the answer is
    OK; the whole batch of metrics the agent had is applied once, just as over HTTP, or none of it and the
    error goes to the log only.  Any other caller is answered with PermissionDenied and nothing is
    stored. *)
Theorem grpc_report_effect {S : Type} `{AbstractStore S} (mh : metricHandlers) (subnets : string)
    (ps : option (list Prefix)) (md : option (gmap string (list string))) (ms : list Metrics) (w : world S)
    (Hm : made (reqRetrier mh)) (Hps : parseSubnetPrefixes subnets = Some ps)
    (Hs : store_ok (store w)) (Hms : batch_ok (decode_one <$> EncodeProto ms)) :
  (grpc_trusted ps md →
     ∃ err w', SendMetrics mh ps md (EncodeProto ms) w = Ret (inr "OK", err, w') ∧ store_ok (store w') ∧
       ((err = None ∧ abs (store w') = (mem_WriteBatchMetrics ms (abs (store w))).2) ∨
        (is_Some err ∧ abs (store w') = abs (store w)))) ∧
  (¬ grpc_trusted ps md →
     ∃ msg, SendMetrics mh ps md (EncodeProto ms) w = Ret (inl (mkStatus code_PermissionDenied msg), None, w)).
Proof.
  assert (∀ ps', ps = Some ps' → Forall Prefix_ok ps') as Hok by (intros ps' ->; by eapply parseSubnetPrefixes_ok).
  destruct (grpc_allowed_spec ps md Hok) as [Hyes Hno]. unfold SendMetrics. split.
  - intros Ht. cbv zeta. rewrite Hyes by done.
    destruct (do_WriteBatch_effect mh Hm (decode_one <$> EncodeProto ms) w Hs Hms) as (e & w' & -> & Hs' & He).
    cbn [mbind outcome_bind]. exists e, w'. split; [done|]. split; [done|].
    destruct He as [[= -> He]|He]; [left|by right]. by rewrite He, grpc_batch.
  - intros Hn. cbv zeta. destruct (Hno Hn) as [msg ->]. by eexists.
Qed.

Lemma grpc_report_effect_witness :
  ∃ ps err w', parseSubnetPrefixes "10.0.0.0/8" = Some ps ∧
    SendMetrics started ps (Some {[ "x-real-ip" := ["10.2.3.4"] ]})
      (EncodeProto [mkMetrics (Some 4) None "PollCount" "counter"; mkMetrics None None "bad" "gauge"])
      (World 0 NewMemStorage) = Ret (inr "OK", err, w') ∧
    counter (store w') !! "PollCount" = Some 4.
Proof.
  eexists. destruct (proj1 (grpc_report_effect started "10.0.0.0/8" (Some toy_prefixes)
    (Some {[ "x-real-ip" := ["10.2.3.4"] ]})
    [mkMetrics (Some 4) None "PollCount" "counter"; mkMetrics None None "bad" "gauge"] (World 0 NewMemStorage)
    ltac:(apply (bool_decide_unpack _); vm_compute; exact I) eq_refl I I)) as (err & w' & Hs & _).
  - exists {[ "x-real-ip" := ["10.2.3.4"] ]}, "10.2.3.4", [], (Addr4 167904004), (mkPrefix (Addr4 167772160) 8).
    split; [reflexivity|]. split; [reflexivity|]. split; [reflexivity|]. split; [by left|]. by vm_compute.
  - exists err, w'. split; [reflexivity|]. split; [exact Hs|]. vm_compute in Hs. injection Hs as <- <-. reflexivity.
Defined.

(** ** The retries of a call *)

(** The call with a log of its attempts: when each began and what it gave. *)
Definition logged_call {W} (invoker : world W → (status_error + string) * world W)
    (w : world (W * list (Z * (status_error + string)))) :
    (status_error + string) * world (W * list (Z * (status_error + string))) :=
  let '(r, w') := invoker (World (now w) (store w).1) in
  (r, World (now w') (store w', (store w).2 ++ [(now w, r)])).

(** A list of attempts a call may make with [n] left: each but the last failed with a code worth a
    retry; the result is that of the last, or an error of the context that ended during a wait. *)
Inductive attempts_of (ctx : context) : nat → list (Z * (status_error + string)) → status_error + string → Prop :=
| ao_last n t r : attempts_of ctx (Datatypes.S n) [(t, r)] r
| ao_stopped n t err e t' : isRetriable err = true → ctx_Err ctx t' = Some e →
    attempts_of ctx (Datatypes.S (Datatypes.S n)) [(t, inl err)] (inl (contextErrToGrpcErr e))
| ao_again n t err l r : isRetriable err = true → attempts_of ctx n l r →
    attempts_of ctx (Datatypes.S n) ((t, inl err) :: l) r.

Lemma waitRetryBackoff_spec {W} attempt ctx (w : world W) :
  (waitRetryBackoff attempt ctx w).1 = None ∨
  (attempt ≠ 0%nat ∧ ∃ t e, ctx_Err ctx t = Some e ∧ (waitRetryBackoff attempt ctx w).1 = Some (contextErrToGrpcErr e)).
Proof.
  unfold waitRetryBackoff. destruct (decide (0 < attempt)%nat) as [Ha|Ha]; cbv zeta.
  2: { rewrite (decide_False (P := 0 < 0)) by lia. by left. }
  case_decide; [|by left]. destruct (done_at ctx) as [d|] eqn:Hd; [|by left]. case_decide; [|by left].
  right. split; [lia|]. destruct (proj2 (ctx_Err_done ctx (Z.max (now w) d))) as [e He]; [exists d; split; [done|lia]|].
  exists (Z.max (now w) d), e. split; [done|]. cbn. by rewrite He.
Qed.

Lemma waitRetryBackoff_store {W} attempt ctx (w : world W) : store (waitRetryBackoff attempt ctx w).2 = store w.
Proof. unfold waitRetryBackoff. cbv zeta. by repeat (case_decide || case_match). Qed.

Lemma retry_loop_attempts {W} (invoker : world W → (status_error + string) * world W) ctx n attempt last w r w' :
  retry_loop (logged_call invoker) (Datatypes.S n) attempt ctx last w = (r, w') →
  ∃ l, (store w').2 = (store w).2 ++ l ∧
    ((l = [] ∧ attempt ≠ 0%nat ∧ ∃ t e, ctx_Err ctx t = Some e ∧ r = inl (contextErrToGrpcErr e)) ∨
     attempts_of ctx (Datatypes.S n) l r).
Proof.
  revert attempt last w. induction n as [|n IH]; intros attempt last w; cbn [retry_loop];
    pose proof (waitRetryBackoff_spec attempt ctx w) as Hw; pose proof (waitRetryBackoff_store attempt ctx w) as Hst;
    destruct (waitRetryBackoff attempt ctx w) as [[err|] [t [s log]]]; cbn [fst snd store] in Hw, Hst; rewrite <- Hst;
    try (intros [= <- <-]; exists []; split; [by rewrite app_nil_r|]; left; split; [done|];
         destruct Hw as [Hw|(? & t' & e & He & [= ->])]; [done|]; eauto);
    unfold logged_call at 1; cbn [now store fst snd];
    destruct (invoker (World t s)) as [[e|resp] w1]; cbn [fst snd].
  - destruct (_ && _); [|case_match]; intros [= <- <-]; eexists; (split; [done|]); right; constructor.
  - intros [= <- <-]. eexists. split; [done|]. right. constructor.
  - destruct (_ && _); [|destruct (isRetriable e) eqn:Hr].
    + intros [= <- <-]. eexists. split; [done|]. right. constructor.
    + intros Hl'. destruct (IH (Datatypes.S attempt) (inl e) _ Hl') as (l & Hl & Hcase). exists ((t, inl e) :: l). split.
      { rewrite Hl. cbn. by rewrite <- app_assoc. }
      right. destruct Hcase as [(-> & _ & t' & e' & He' & ->)|Ha]; [by eapply ao_stopped|by apply ao_again].
    + intros [= <- <-]. eexists. split; [done|]. right. constructor.
  - intros [= <- <-]. eexists. split; [done|]. right. constructor.
Qed.

Lemma attempts_of_length ctx n l r : attempts_of ctx n l r → (1 ≤ length l ≤ n)%nat.
Proof. induction 1; simpl; lia. Qed.

(** [C38] Sending over gRPC makes at least one and at most three attempts, makes another one only
    after an error whose code is ResourceExhausted or Unavailable, and returns what the last attempt
    gave, or the error of the context when that ended while waiting for the next attempt.  So the argument of
    [grpc_retry.WithMax(3)] counts the attempts, the first included; its documentation calls it the maximum number
    of retries, which would be one more. *)
Theorem grpc_send_attempts {W : Type} (invoker : world W → (status_error + string) * world W) (ctx : context)
    (t : Z) (s : W) :
  let '(r, w') := UnaryClientInterceptor (logged_call invoker) ctx (World t (s, [])) in
  attempts_of ctx 3 (store w').2 r ∧ (1 ≤ length (store w').2 ≤ 3)%nat.
Proof.
  unfold UnaryClientInterceptor, grpc_max.
  destruct (retry_loop _ 3 0 ctx _ _) as [r w'] eqn:Hl.
  apply retry_loop_attempts in Hl as (l & Hl & [(_ & ? & _)|Ha]); [done|]. cbn in Hl. rewrite Hl.
  split; [done|]. by eapply attempts_of_length.
Qed.

(** A server that is away: the attempts are one and two seconds apart. *)
Example grpc_unavailable :
  UnaryClientInterceptor (logged_call (λ w : world unit, (inl (mkStatus code_Unavailable "connection refused"), w)))
    Background (World 0 (tt, [])) =
  (inl (mkStatus code_Unavailable "connection refused"),
   World (3 * Second) (tt, (λ t, (t, inl (mkStatus code_Unavailable "connection refused"))) <$> [0; Second; 3 * Second])).
Proof. vm_compute. reflexivity. Qed.
