(* ===== verification/AgentRun.v ===== *)
(** * The agent's main loop

    [Run] of [internal/agent/agent.go] as a transition system: the main goroutine, the workers ([worker]), the two
    polling goroutines and the cancellation of the context interleave in any order.  Channels are
    bounded queues, a rendezvous when [ratelimit] is zero.  The message of the JSON transport is
    one object, shared between the main goroutine and the workers, as in the code; what a worker
    sends is what that object holds when it sends. *)

From S2P Require Import Prelude Strconv Float64 GoErrors Metrics MemStorage Json GoRetry Retrier Http.
From S2P Require Import Codec SignWriter CryptAndSign Agent Grpc.

Open Scope Z_scope.

(** ** State *)

(** [metrictypes.MetricSender]: the pointer to the one [jsonSendString], or a message of its own. *)
Inductive sender : Type :=
| SJson
| SProto (req : list MetricRequest).

(** What is sent. *)
Inductive payload : Type :=
| PJson (text : string)
| PProto (req : list MetricRequest).

(** Where the main goroutine is. *)
Inductive point : Type :=
| MRtm | MKern | MEncode | MQueue (m : sender) | MWait | MReset | MCheck | MSleep | MStopped.

(** Where a worker is. *)
Inductive wpoint : Type :=
| WIdle | WSend (j : sender) | WReport (err : option goerror) | WStopped.

Record agent : Type := mkAgent {
  at_ : point;
  rtm : MemStats;
  sys : sysMon;
  kern : kernelMetrics;
  started1 : bool;                 (* [startCoordChan1] closed *)
  started2 : bool;                 (* [startCoordChan2] closed *)
  model : list Metrics;            (* [jsonMetricsModel] *)
  mjson : string;                  (* [mJSON.jsonString] *)
  jobsQueue : list sender;
  jobsErr : list (option goerror);
  pool : list wpoint;
  ctx_done : bool
}.

Definition agent_init (cpuCount : nat) : agent :=
  mkAgent MRtm ∅ (mkSysMon 0 fzero) (mkKern (replicate cpuCount fzero) fzero fzero) false false [] "" [] []
    (replicate workers WIdle) false.

(** The start of [Run]: [outbound] is the address of [getOutboundIP], [None] when there is none. *)
Definition Run_start (outbound : option string) (cpuCount : nat) (ReportInterval PollInterval RateLimit : Z) :
    outcome agent :=
  match outbound with
  | None => Fatal "dial"
  | Some _ =>
      if decide (RateLimit < 0) then Panic "makechan: size out of range"
      else if decide (ReportInterval ≤ 0 ∨ PollInterval ≤ 0) then Fatal "wrong intervals"
      else Ret (agent_init cpuCount)
  end.

Definition set_at (s : agent) (p : point) : agent :=
  mkAgent p (rtm s) (sys s) (kern s) (started1 s) (started2 s) (model s) (mjson s) (jobsQueue s) (jobsErr s) (pool s) (ctx_done s).
Definition set_model (s : agent) (p : point) (g : list Metrics) : agent :=
  mkAgent p (rtm s) (sys s) (kern s) (started1 s) (started2 s) g (mjson s) (jobsQueue s) (jobsErr s) (pool s) (ctx_done s).
Definition set_json (s : agent) (p : point) (text : string) : agent :=
  mkAgent p (rtm s) (sys s) (kern s) (started1 s) (started2 s) [] text (jobsQueue s) (jobsErr s) (pool s) (ctx_done s).
Definition set_chans (s : agent) (p : point) (q : list sender) (e : list (option goerror)) (ws : list wpoint) : agent :=
  mkAgent p (rtm s) (sys s) (kern s) (started1 s) (started2 s) (model s) (mjson s) q e ws (ctx_done s).
Definition set_sys (s : agent) (p : point) (r : MemStats) (y : sysMon) (st : bool) : agent :=
  mkAgent p r y (kern s) st (started2 s) (model s) (mjson s) (jobsQueue s) (jobsErr s) (pool s) (ctx_done s).
Definition set_kern (s : agent) (k : kernelMetrics) : agent :=
  mkAgent (at_ s) (rtm s) (sys s) k (started1 s) true (model s) (mjson s) (jobsQueue s) (jobsErr s) (pool s) (ctx_done s).
Definition set_done (s : agent) : agent :=
  mkAgent (at_ s) (rtm s) (sys s) (kern s) (started1 s) (started2 s) (model s) (mjson s) (jobsQueue s) (jobsErr s) (pool s) true.

(** What sending [m] now puts on the wire. *)
Definition wire (s : agent) (m : sender) : payload :=
  match m with SJson => PJson (mjson s) | SProto req => PProto req end.

(** [shutdownCatcher], with what it logs. *)
Definition shutdownCatcher (s : agent) (msg : string) : bool * option string :=
  if ctx_done s then (true, if decide (msg ≠ "") then Some msg else None) else (false, None).

Lemma shutdownCatcher_done s msg : (shutdownCatcher s msg).1 = ctx_done s.
Proof. unfold shutdownCatcher. by destruct (ctx_done s). Qed.

(** ** Steps *)

Inductive label : Type :=
| LPoll (stats : MemStats) (random : Gauge)
| LKernPoll (k : kernelMetrics)
| LCancel
| LRtm (r : MemStats) (y : sysMon)
| LKern (k : kernelMetrics)
| LEncode (p : option payload)
| LQueue | LSkip
| LAck | LNack (err : goerror) | LGiveUp
| LReset | LStop | LGoOn | LSlept
| LTake (i : nat)
| LSent (i : nat) (p : payload) (err : option goerror)
| LReport (i : nat).

Section Steps.
Context (grpc : bool) (ratelimit : nat).

(** The encoding of a report: the message for the queue and what it stands for. *)
Definition encode_report (g : list Metrics) : option (sender * payload) :=
  if grpc then Some (SProto (EncodeProto g), PProto (EncodeProto g))
  else (λ text, (SJson, PJson text)) <$> encode_slice (Some g).

(** The text of the shared object after encoding: untouched over gRPC, replaced otherwise. *)
Definition new_text (s : agent) (g : list Metrics) : string :=
  if grpc then mjson s else default "" (encode_slice (Some g)).

(** The outcome of the wait for [jobsErr]. *)
Definition after_result (err : option goerror) : point := match err with None => MReset | Some _ => MRtm end.
Definition result_label (err : option goerror) : label := match err with None => LAck | Some e => LNack e end.

Inductive step : label → agent → agent → Prop :=
(* the polling goroutines *)
| step_poll s stats random r y :
    updateMetrics stats random (sys s) = (r, y) →
    step (LPoll stats random) s (set_sys s (at_ s) r y true)
| step_kern_poll s vmstat cpuU k :
    updateSysKernMetrics vmstat cpuU (kern s) = Ret k →
    step (LKernPoll k) s (set_kern s k)
| step_cancel s : step LCancel s (set_done s)
(* the main goroutine *)
| step_rtm s :
    at_ s = MRtm → started1 s = true →
    step (LRtm (rtm s) (sys s)) s (set_model s MKern (parseRtm (rtm s) rtMonitorSensGauge (model s) (sys s)))
| step_kern s :
    at_ s = MKern → started2 s = true →
    step (LKern (kern s)) s (set_model s MEncode (parseKernMetrics (kern s) (model s)))
| step_encode s m p :
    at_ s = MEncode → encode_report (model s) = Some (m, p) →
    step (LEncode (Some p)) s (set_json s (MQueue m) (new_text s (model s)))
| step_encode_fails s :
    at_ s = MEncode → encode_report (model s) = None →
    step (LEncode None) s (set_json s MRtm (new_text s (model s)))
| step_queue s m :
    at_ s = MQueue m → (length (jobsQueue s) < ratelimit)%nat →
    step LQueue s (set_chans s MWait (jobsQueue s ++ [m]) (jobsErr s) (pool s))
| step_queue_meet s m i :
    at_ s = MQueue m → ratelimit = 0%nat → pool s !! i = Some WIdle →
    step LQueue s (set_chans s MWait (jobsQueue s) (jobsErr s) (<[i := WSend m]> (pool s)))
| step_skip s m :
    at_ s = MQueue m → ctx_done s = true → step LSkip s (set_at s MWait)
| step_result s err errs :
    at_ s = MWait → jobsErr s = err :: errs →
    step (result_label err) s (set_chans s (after_result err) (jobsQueue s) errs (pool s))
| step_result_meet s err i :
    at_ s = MWait → ratelimit = 0%nat → pool s !! i = Some (WReport err) →
    step (result_label err) s (set_chans s (after_result err) (jobsQueue s) (jobsErr s) (<[i := WIdle]> (pool s)))
| step_give_up s :
    at_ s = MWait → ctx_done s = true → step LGiveUp s (set_at s MReset)
| step_reset s :
    at_ s = MReset → step LReset s (set_sys s MCheck (rtm s) (mkSysMon 0 (randomValue (sys s))) (started1 s))
| step_stop s : at_ s = MCheck → (shutdownCatcher s "GraceFull shutdown").1 = true → step LStop s (set_at s MStopped)
| step_go_on s : at_ s = MCheck → (shutdownCatcher s "GraceFull shutdown").1 = false → step LGoOn s (set_at s MSleep)
| step_slept s : at_ s = MSleep → step LSlept s (set_at s MRtm)
(* the workers *)
| step_take s i j js :
    pool s !! i = Some WIdle → jobsQueue s = j :: js →
    step (LTake i) s (set_chans s (at_ s) js (jobsErr s) (<[i := WSend j]> (pool s)))
| step_sent s i j err :
    pool s !! i = Some (WSend j) → (shutdownCatcher s "worker shutdown").1 = false →
    step (LSent i (wire s j) err) s
      (set_chans s (at_ s) (jobsQueue s) (jobsErr s) (<[i := WReport err]> (pool s)))
| step_sent_stop s i j err :
    pool s !! i = Some (WSend j) → (shutdownCatcher s "worker shutdown").1 = true →
    step (LSent i (wire s j) err) s
      (set_chans s (at_ s) (jobsQueue s) (jobsErr s) (<[i := WStopped]> (pool s)))
| step_report s i err :
    pool s !! i = Some (WReport err) → (length (jobsErr s) < ratelimit)%nat →
    step (LReport i) s
      (set_chans s (at_ s) (jobsQueue s) (jobsErr s ++ [err]) (<[i := WIdle]> (pool s))).

(** An execution and its labels. *)
Inductive run (s0 : agent) : list label → agent → Prop :=
| run_nil : run s0 [] s0
| run_snoc ls l s s' : run s0 ls s → step l s s' → run s0 (ls ++ [l]) s'.
End Steps.

(** ** What an execution has done so far *)

(** The books kept beside an execution, from its labels alone. *)
Record books : Type := mkBooks {
  polls : Z;                              (* polls of the runtime *)
  acked : Z;                              (* sum of PollCount over the acknowledged reports *)
  lost : Z;                               (* polls wiped by a reset without being in an acknowledged report *)
  late : Z;                               (* polls since the last snapshot *)
  snap_rtm : MemStats;                    (* what the last snapshots saw *)
  snap_sys : sysMon;
  snap_kern : kernelMetrics;
  reported : bool;                        (* the last snapshot was acknowledged *)
  encoded : option payload                (* the last message encoded *)
}.

Definition books_init : books := mkBooks 0 0 0 0 ∅ (mkSysMon 0 fzero) (mkKern [] fzero fzero) false None.

Definition book (b : books) (l : label) : books :=
  match l with
  | LPoll _ _ => mkBooks (polls b + 1) (acked b) (lost b) (late b + 1) (snap_rtm b) (snap_sys b) (snap_kern b) (reported b) (encoded b)
  | LRtm r y => mkBooks (polls b) (acked b) (lost b) 0 r y (snap_kern b) false (encoded b)
  | LKern k => mkBooks (polls b) (acked b) (lost b) (late b) (snap_rtm b) (snap_sys b) k (reported b) (encoded b)
  | LEncode p => mkBooks (polls b) (acked b) (lost b) (late b) (snap_rtm b) (snap_sys b) (snap_kern b) (reported b) p
  | LAck => mkBooks (polls b) (acked b + pollCount (snap_sys b)) (lost b) (late b) (snap_rtm b) (snap_sys b) (snap_kern b) true (encoded b)
  | LReset =>
      mkBooks (polls b) (acked b) (lost b + late b + (if reported b then 0 else pollCount (snap_sys b))) 0
        (snap_rtm b) (snap_sys b) (snap_kern b) false (encoded b)
  | _ => b
  end.

Definition books_of (ls : list label) : books := foldl book books_init ls.

Lemma books_snoc ls l : books_of (ls ++ [l]) = book (books_of ls) l.
Proof. unfold books_of. by rewrite foldl_app. Qed.

(** ** Jobs in flight *)

Definition wsum (f : wpoint → nat) (ws : list wpoint) : nat := sum_list (f <$> ws).

Lemma wsum_insert f ws i x y :
  ws !! i = Some x → (wsum f (<[i := y]> ws) + f x = wsum f ws + f y)%nat.
Proof.
  unfold wsum. revert i. induction ws as [|w ws IH]; intros [|i] Hi; simplify_eq/=; [lia|]. specialize (IH i Hi). lia.
Qed.

Lemma wsum_replicate f n x : wsum f (replicate n x) = (n * f x)%nat.
Proof. unfold wsum. rewrite fmap_replicate, sum_list_replicate. lia. Qed.

Definition busy (w : wpoint) : nat := match w with WSend _ | WReport _ => 1 | _ => 0 end.

Definition in_flight (s : agent) : nat := (length (jobsQueue s) + wsum busy (pool s) + length (jobsErr s))%nat.

(** At most one report is on its way, and none while the main goroutine collects or encodes. *)
Definition flight_ok (s : agent) : Prop :=
  match at_ s with
  | MRtm | MKern | MEncode | MQueue _ | MSleep => in_flight s = 0%nat
  | MWait => in_flight s = 1%nat ∨ (ctx_done s = true ∧ in_flight s = 0%nat)
  | MReset | MCheck | MStopped => in_flight s = 0%nat ∨ (ctx_done s = true ∧ in_flight s = 1%nat)
  end.

(** Every message on its way stands for the payload [p]. *)
Definition carries (s : agent) (p : option payload) : Prop :=
  (∀ m, at_ s = MQueue m → p = Some (wire s m)) ∧
  (∀ m, m ∈ jobsQueue s → p = Some (wire s m)) ∧
  (∀ i m, pool s !! i = Some (WSend m) → p = Some (wire s m)).

(** What the model holds while it is filled. *)
Definition model_ok (s : agent) (b : books) : Prop :=
  match at_ s with
  | MKern => model s = parseRtm (snap_rtm b) rtMonitorSensGauge [] (snap_sys b)
  | MEncode => model s = report (snap_rtm b) (snap_sys b) (snap_kern b)
  | _ => model s = []
  end.

(** The poll counter of the agent. *)
Definition polls_ok (s : agent) (b : books) : Prop :=
  0 ≤ late b ∧ 0 ≤ acked b ∧ 0 ≤ lost b ∧ 0 ≤ pollCount (snap_sys b) ∧ 0 ≤ pollCount (sys s) ∧
  (reported b = true → pollCount (snap_sys b) ≤ acked b) ∧
  match at_ s with
  | MKern | MEncode | MQueue _ | MWait => reported b = false ∧ pollCount (sys s) = pollCount (snap_sys b) + late b
  | MReset => pollCount (sys s) = pollCount (snap_sys b) + late b
  | _ => reported b = false
  end ∧
  polls b = acked b + lost b + (if reported b then late b else pollCount (sys s)).

Section Invariants.
Context (grpc : bool) (ratelimit : nat).

Lemma step_flight l s s' : step grpc ratelimit l s s' → flight_ok s → flight_ok s'.
Proof.
  unfold flight_ok, in_flight. destruct 1; rewrite ?shutdownCatcher_done in *; cbn [at_ jobsQueue jobsErr pool ctx_done set_at set_model set_json set_chans
    set_sys set_kern set_done];
    try match goal with
    | H : pool s !! _ = Some ?x |- context [<[_ := ?y]> (pool s)] => pose proof (wsum_insert busy _ _ _ y H) as Hw; cbn [busy] in Hw
    end;
    repeat match goal with H : at_ s = _ |- _ => rewrite H; clear H | H : ctx_done s = _ |- _ => rewrite H; clear H
      | H : jobsErr s = _ |- _ => rewrite H; clear H | H : jobsQueue s = _ |- _ => rewrite H; clear H end;
    cbn [length]; rewrite ?length_app; cbn [length]; try destruct err; cbn [after_result];
    try (destruct (at_ s)); intuition (try congruence; try lia).
Qed.

Lemma in_flight_none s : in_flight s = 0%nat → jobsQueue s = [] ∧ ∀ i m, pool s !! i ≠ Some (WSend m).
Proof.
  unfold in_flight. intros H0. split; [destruct (jobsQueue s); [done|simpl in H0; lia]|].
  intros i m Hi. pose proof (wsum_insert busy _ _ _ WIdle Hi) as Hw. cbn [busy] in Hw. lia.
Qed.

(** A worker's new place that is not sending, or sends what was on its way. *)
Lemma carries_insert (P : sender → Prop) (ws : list wpoint) (i : nat) w :
  (∀ m, w = WSend m → P m) → (∀ (k : nat) m, ws !! k = Some (WSend m) → P m) →
  ∀ (k : nat) m, <[i := w]> ws !! k = Some (WSend m) → P m.
Proof. intros Hw Hws k m. intros [(<- & -> & _)|[_ Hk]]%list_lookup_insert_Some; eauto. Qed.

Lemma encode_report_wire s g m p :
  encode_report grpc g = Some (m, p) → wire (set_json s (MQueue m) (new_text grpc s g)) m = p.
Proof.
  unfold encode_report, wire, new_text. destruct grpc; [by intros [= <- <-]|].
  intros (text & -> & [= -> ->])%fmap_Some. done.
Qed.

Lemma step_carries l s s' b :
  step grpc ratelimit l s s' → flight_ok s → carries s (encoded b) → carries s' (encoded (book b l)).
Proof.
  intros Hstep Hf (Hq & Hj & Hw). unfold flight_ok in Hf. unfold carries.
  destruct Hstep;
    repeat match goal with H : at_ s = _ |- _ => rewrite H in *; cbn beta iota in Hf |- * end;
    try (destruct (in_flight_none s Hf) as [Hnil Hpool]);
    cbn [at_ jobsQueue jobsErr pool ctx_done set_at set_model set_json set_chans set_sys set_kern set_done book encoded];
    unfold wire in *; cbn [mjson set_at set_model set_json set_chans set_sys set_kern set_done] in *;
    try (destruct err; cbn [result_label book encoded after_result]);
    (split; [try done|split; [try done|]]); try done;
    try (apply carries_insert; [|done]); try done.
  all: try match goal with
    | H : encode_report _ _ = Some _ |- _ => intros ? [= <-]; f_equal; symmetry; exact (encode_report_wire _ _ _ _ H)
    | |- context [jobsQueue _ ++ [_]] => intros ? [?|?%list_elem_of_singleton]%elem_of_app; subst; eauto
    | H : jobsQueue _ = _ :: _ |- _ => rewrite H in Hj; set_solver
    end.
  all: try (rewrite Hnil; intros ? ?%elem_of_nil; done).
  all: try (intros i' m' Hm; by destruct (Hpool i' m')).
  all: try (intros ? [= <-]; eauto).
Qed.

Lemma step_model l s s' b :
  step grpc ratelimit l s s' → model_ok s b → model_ok s' (book b l).
Proof.
  unfold model_ok, report. destruct 1; cbn [at_ model set_at set_model set_json set_chans set_sys set_kern set_done book];
    repeat match goal with H : at_ _ = _ |- _ => rewrite H end; cbn [snap_rtm snap_sys snap_kern];
    try (destruct err; cbn [result_label book after_result]); intros Hm; try done; try (rewrite Hm; done);
    try by destruct (at_ s).
Qed.

Lemma step_polls l s s' b :
  step grpc ratelimit l s s' → polls_ok s b → polls (book b l) ≤ max_int64 → polls_ok s' (book b l).
Proof.
  unfold polls_ok. destruct 1; cbn [at_ sys set_at set_model set_json set_chans set_sys set_kern set_done book];
    repeat match goal with H : at_ _ = _ |- _ => rewrite H; clear H end;
    try (destruct err; cbn [result_label book after_result]);
    cbn [polls acked lost late snap_rtm snap_sys snap_kern reported encoded pollCount];
    try match goal with H : updateMetrics _ _ _ = _ |- _ => injection H as <- <-; cbn [pollCount] end.
  1: { intros Hb Hmax. rewrite wrap64_id; [|unfold is_int64, min_int64].
       - destruct (at_ s), (reported b); intuition (try congruence; try lia).
       - destruct (at_ s), (reported b); intuition (try congruence; try lia). }
  all: try (destruct (at_ s)); destruct (reported b); intuition (try congruence; try lia).
Qed.

Lemma book_polls_le b l : polls b ≤ polls (book b l).
Proof. destruct l; simpl; lia. Qed.

(** The invariants hold along every execution. *)
Definition run_ok (s : agent) (b : books) : Prop :=
  flight_ok s ∧ carries s (encoded b) ∧ model_ok s b ∧ (polls b ≤ max_int64 → polls_ok s b).

Lemma run_invariant cpuCount ls s : run grpc ratelimit (agent_init cpuCount) ls s → run_ok s (books_of ls).
Proof.
  induction 1 as [|ls l s s' Hrun IH Hstep].
  - unfold run_ok, flight_ok, carries, model_ok, polls_ok, in_flight, agent_init, books_of; cbn.
    split; [done|]. split; [|split; [done|]].
    + split; [done|]. split; [intros m Hm; by apply elem_of_nil in Hm|].
      intros [|[|[|i]]] m Hm; discriminate Hm.
    + intros _. split_and!; done || lia.
  - rewrite books_snoc. destruct IH as (Hf & Hc & Hm & Hp). split_and!.
    + by eapply step_flight.
    + by eapply step_carries.
    + by eapply step_model.
    + intros Hmax. eapply step_polls; [done| |done]. apply Hp. pose proof (book_polls_le (books_of ls) l). lia.
Qed.

(** While a message waits or travels, it is the encoding of the last snapshots. *)
Definition encoded_ok (s : agent) (b : books) : Prop :=
  match at_ s with
  | MRtm | MKern | MEncode | MSleep => True
  | _ => encoded b = snd <$> encode_report grpc (report (snap_rtm b) (snap_sys b) (snap_kern b))
  end.

Lemma step_encoded l s s' b :
  step grpc ratelimit l s s' → model_ok s b → encoded_ok s b → encoded_ok s' (book b l).
Proof.
  unfold encoded_ok, model_ok.
  destruct 1; cbn [at_ set_at set_model set_json set_chans set_sys set_kern set_done book];
    repeat match goal with H : at_ _ = _ |- _ => rewrite H; clear H end;
    try (destruct err; cbn [result_label book after_result]); cbn [encoded snap_rtm snap_sys snap_kern]; try done.
  intros <- _. match goal with H : encode_report _ _ = _ |- _ => by rewrite H end.
Qed.

Lemma run_encoded cpuCount ls s : run grpc ratelimit (agent_init cpuCount) ls s → encoded_ok s (books_of ls).
Proof.
  induction 1 as [|ls l s s' Hrun IH Hstep]; [done|]. rewrite books_snoc.
  apply run_invariant in Hrun as (_ & _ & Hm & _). by eapply step_encoded.
Qed.

Lemma sending_point s i j : flight_ok s → pool s !! i = Some (WSend j) →
  match at_ s with MWait | MReset | MCheck | MStopped => True | _ => False end.
Proof.
  unfold flight_ok. intros Hf Hi.
  destruct (at_ s); try done; exact (proj2 (in_flight_none s Hf) i j Hi).
Qed.

(** A worker that sends, sends the encoding of the last snapshots. *)
Lemma worker_report cpuCount ls s i j :
  run grpc ratelimit (agent_init cpuCount) ls s → pool s !! i = Some (WSend j) →
  let b := books_of ls in
  snd <$> encode_report grpc (report (snap_rtm b) (snap_sys b) (snap_kern b)) = Some (wire s j) ∧
  match at_ s with MWait | MReset | MCheck | MStopped => True | _ => False end.
Proof.
  intros Hr Hj. cbv zeta.
  pose proof (run_encoded _ _ _ Hr) as Henc. destruct (run_invariant _ _ _ Hr) as (Hf & (_ & _ & Hw) & _ & _).
  pose proof (sending_point _ _ _ Hf Hj) as Hat. split; [|done]. unfold encoded_ok in Henc.
  rewrite (Hw _ _ Hj) in Henc. by destruct (at_ s).
Qed.

Lemma sent_wire i p err s s' : step grpc ratelimit (LSent i p err) s s' → ∃ j, pool s !! i = Some (WSend j) ∧ p = wire s j.
Proof. intros Hstep. inversion Hstep; subst; try (destruct err0; discriminate); eauto. Qed.

Lemma sent_report cpuCount ls s i p err s' :
  run grpc ratelimit (agent_init cpuCount) ls s → step grpc ratelimit (LSent i p err) s s' →
  let b := books_of ls in
  snd <$> encode_report grpc (report (snap_rtm b) (snap_sys b) (snap_kern b)) = Some p ∧
  match at_ s with MWait | MReset | MCheck | MStopped => True | _ => False end.
Proof.
  intros Hr Hstep. destruct (sent_wire _ _ _ _ _ Hstep) as (j & Hj & ->). by eapply worker_report.
Qed.
End Invariants.

(** ** What the loop promises *)

(** [C17] What a worker sends is the last report: in every execution, whenever a worker sends, the payload is
    the encoding of the report built from the last snapshot of the runtime metrics and of the
    poll counter and the last snapshot of the kernel metrics.  So although all workers share one
    message object that the main goroutine overwrites, no message is ever mixed or stale. *)
Theorem sent_is_last_report (grpc : bool) (ratelimit cpuCount : nat) (ls : list label) (i : nat) (p : payload)
    (err : option goerror) (s : agent)
    (Hrun : run grpc ratelimit (agent_init cpuCount) (ls ++ [LSent i p err]) s) :
  let b := books_of ls in
  snd <$> encode_report grpc (report (snap_rtm b) (snap_sys b) (snap_kern b)) = Some p.
Proof.
  cbv zeta. inversion Hrun as [|ls' l' s1 s2 Hr Hstep Heq]; [by destruct ls|].
  apply app_inj_tail in Heq as [-> ->]. subst s2. by eapply sent_report.
Qed.

(** [C11] The poll counter is accounted for: in every execution with fewer than 2^63 polls, every poll of the
    runtime is in exactly one of: an acknowledged report, the agent's counter (to be in the next
    report), or the polls a reset wiped.  A reset that follows an acknowledged report wipes exactly the
    polls made since that report's snapshot; no poll is ever in two acknowledged reports. *)
Theorem poll_accounting (grpc : bool) (ratelimit cpuCount : nat) (ls : list label) (s : agent)
    (Hrun : run grpc ratelimit (agent_init cpuCount) ls s) (Hmax : polls (books_of ls) ≤ max_int64) :
  let b := books_of ls in
  polls b = acked b + lost b + (if reported b then late b else pollCount (sys s)) ∧
  0 ≤ acked b ∧ 0 ≤ lost b ∧ 0 ≤ pollCount (sys s).
Proof.
  cbv zeta. destruct (run_invariant _ _ _ _ _ Hrun) as (_ & _ & _ & Hp). specialize (Hp Hmax).
  unfold polls_ok in Hp. tauto.
Qed.

#[local] Opaque parseRtm parseKernMetrics EncodeProto.

(** An execution over gRPC in which a poll comes between the snapshot and the reset. *)
Definition example_labels : list label :=
  [LPoll toy_MemStats fzero; LKernPoll (mkKern [] fzero fzero);
   LRtm toy_MemStats (mkSysMon 1 fzero); LKern (mkKern [] fzero fzero);
   LEncode (Some (PProto (EncodeProto (report toy_MemStats (mkSysMon 1 fzero) (mkKern [] fzero fzero)))));
   LQueue; LTake 0; LPoll toy_MemStats fzero;
   LSent 0 (PProto (EncodeProto (report toy_MemStats (mkSysMon 1 fzero) (mkKern [] fzero fzero)))) None;
   LReport 0; LAck; LReset].

Definition example_end : agent :=
  mkAgent MCheck toy_MemStats (mkSysMon 0 fzero) (mkKern [] fzero fzero) true true [] "" [] [] [WIdle; WIdle; WIdle] false.

Definition example_sending : agent :=
  mkAgent MWait toy_MemStats (mkSysMon 2 fzero) (mkKern [] fzero fzero) true true [] "" [] []
    [WSend (SProto (EncodeProto (report toy_MemStats (mkSysMon 1 fzero) (mkKern [] fzero fzero)))); WIdle; WIdle] false.

Lemma example_run_sending : run true 1 (agent_init 0) (take 8 example_labels) example_sending.
Proof.
  pose proof (run_nil true 1 (agent_init 0)) as H.
  eapply run_snoc in H; [|apply (step_poll _ _ _ toy_MemStats fzero); reflexivity].
  eapply run_snoc in H; [|apply (step_kern_poll _ _ _ (Some (0, 0)) []); reflexivity].
  eapply run_snoc in H; [|apply step_rtm; reflexivity].
  eapply run_snoc in H; [|apply step_kern; reflexivity].
  eapply run_snoc in H; [|eapply step_encode; reflexivity].
  eapply run_snoc in H; [|eapply step_queue; [reflexivity|cbn; lia]].
  eapply run_snoc in H; [|eapply (step_take _ _ _ 0); reflexivity].
  eapply run_snoc in H; [|apply (step_poll _ _ _ toy_MemStats fzero); reflexivity].
  unfold example_sending, example_labels, report. exact H.
Qed.

Lemma example_run_sent : ∃ s, run true 1 (agent_init 0) (take 8 example_labels ++
  [LSent 0 (PProto (EncodeProto (report toy_MemStats (mkSysMon 1 fzero) (mkKern [] fzero fzero)))) None]) s.
Proof.
  eexists. eapply run_snoc; [exact example_run_sending|].
  by eapply (step_sent _ _ _ 0 (SProto _)).
Qed.

Lemma example_run_end : run true 1 (agent_init 0) example_labels example_end.
Proof.
  pose proof example_run_sending as H.
  eapply run_snoc in H; [|by eapply (step_sent _ _ _ 0 (SProto _) None)].
  eapply run_snoc in H; [|eapply (step_report _ _ _ 0); [reflexivity|cbn; lia]].
  eapply run_snoc in H; [|by eapply (step_result _ _ _ None)].
  eapply run_snoc in H; [|by eapply step_reset].
  exact H.
Qed.

Lemma sent_is_last_report_witness :
  encode_report true (report toy_MemStats (mkSysMon 1 fzero) (mkKern [] fzero fzero)) ≠ None ∧
  let b := books_of (take 8 example_labels) in
  snd <$> encode_report true (report (snap_rtm b) (snap_sys b) (snap_kern b)) =
    Some (PProto (EncodeProto (report toy_MemStats (mkSysMon 1 fzero) (mkKern [] fzero fzero)))).
Proof.
  split; [discriminate|]. destruct example_run_sent as [s Hs].
  exact (sent_is_last_report true 1 0 (take 8 example_labels) 0 _ None s Hs).
Defined.

Lemma poll_accounting_witness :
  let b := books_of example_labels in
  polls b = 2 ∧ acked b = 1 ∧ lost b = 1 ∧
  polls b = acked b + lost b + (if reported b then late b else pollCount (sys example_end)).
Proof.
  cbv zeta. split; [reflexivity|]. split; [reflexivity|]. split; [reflexivity|].
  apply (poll_accounting true 1 0 example_labels example_end).
  - exact example_run_end.
  - unfold max_int64. cbn. lia.
Defined.

(** ** Shutdown *)

Definition is_main (l : label) : bool :=
  match l with
  | LRtm _ _ | LKern _ | LEncode _ | LQueue | LSkip | LAck | LNack _ | LGiveUp | LReset | LStop | LGoOn | LSlept => true
  | _ => false
  end.

Definition reporting (w : wpoint) : nat := match w with WReport _ => 1 | _ => 0 end.

Definition position (p : point) : nat :=
  match p with
  | MSleep => 9 | MRtm => 8 | MKern => 7 | MEncode => 6 | MQueue _ => 5 | MWait => 4 | MReset => 3 | MCheck => 2 | MStopped => 0
  end.

(** How many steps the main goroutine may still make: every result that is still to come can send it
    round once more. *)
Definition rank (s : agent) : nat :=
  (10 * (length (jobsErr s) + wsum reporting (pool s)) + position (at_ s))%nat.

Section Shutdown.
Context (grpc : bool) (ratelimit : nat).

Lemma step_rank l s s' :
  step grpc ratelimit l s s' → ctx_done s = true → l ≠ LEncode None →
  ctx_done s' = true ∧ (rank s' + (if is_main l then 1 else 0) ≤ rank s)%nat.
Proof.
  unfold rank. destruct 1; intros Hd Hl; rewrite ?shutdownCatcher_done in *; cbn [at_ jobsQueue jobsErr pool ctx_done set_at set_model set_json set_chans
    set_sys set_kern set_done is_main]; try congruence;
    try match goal with
    | H : pool s !! _ = Some ?x |- context [<[_ := ?y]> (pool s)] =>
        pose proof (wsum_insert reporting _ _ _ y H) as Hw; cbn [reporting] in Hw
    end;
    repeat match goal with H : at_ s = _ |- _ => rewrite H; clear H | H : jobsErr s = _ |- _ => rewrite H; clear H end;
    try (destruct err; cbn [result_label after_result is_main]);
    cbn [length position]; rewrite ?length_app; cbn [length]; (split; [done|lia]).
Qed.

Lemma run_rank s ls s' :
  run grpc ratelimit s ls s' → ctx_done s = true → LEncode None ∉ ls →
  ctx_done s' = true ∧ (rank s' + length (filter (λ l, is_main l = true) ls) ≤ rank s)%nat.
Proof.
  induction 1 as [|ls l s1 s2 Hrun IH Hstep]; intros Hd Hn; [cbn; split; [done|lia]|].
  rewrite elem_of_app, list_elem_of_singleton in Hn. destruct IH as [Hd1 Hr1]; [done|tauto|].
  destruct (step_rank _ _ _ Hstep Hd1) as [Hd2 Hr2]; [intros ->; tauto|]. split; [done|].
  rewrite filter_app, length_app. cbn [filter list_filter]. destruct (is_main l); cbn [length] in *;
    rewrite ?decide_True, ?decide_False by done; cbn [length]; lia.
Qed.

Lemma rank_bound s : flight_ok s → (rank s ≤ 19)%nat.
Proof.
  intros Hf. assert (in_flight s ≤ 1)%nat as H1 by (unfold flight_ok in Hf; destruct (at_ s); lia).
  assert (∀ ws, wsum reporting ws ≤ wsum busy ws)%nat as Hle.
  { unfold wsum. induction ws as [|w ws IH]; [done|]. rewrite !fmap_cons. destruct w; simpl; lia. }
  specialize (Hle (pool s)). unfold rank, in_flight in *. destruct (at_ s); simpl; lia.
Qed.

Lemma main_enabled s :
  ctx_done s = true → started1 s = true → started2 s = true → at_ s ≠ MStopped →
  ∃ l s', is_main l = true ∧ step grpc ratelimit l s s'.
Proof.
  intros Hd H1 H2 Hn. destruct (at_ s) eqn:Ha; try done.
  - eexists _, _. split; [|by apply step_rtm]. done.
  - eexists _, _. split; [|by apply step_kern]. done.
  - destruct (encode_report grpc (model s)) as [[m p]|] eqn:He.
    + eexists _, _. split; [|by eapply step_encode]. done.
    + eexists _, _. split; [|by apply step_encode_fails]. done.
  - eexists _, _. split; [|by eapply step_skip]. done.
  - eexists _, _. split; [|by apply step_give_up]. done.
  - eexists _, _. split; [|by apply step_reset]. done.
  - eexists _, _. split; [|by apply step_stop; [|rewrite shutdownCatcher_done]]. done.
  - eexists _, _. split; [|by apply step_slept]. done.
Qed.
End Shutdown.

(** [C25] Shutdown: once the context is cancelled, whatever the workers, the network and the polling
    goroutines do, the main goroutine of the agent makes at most 19 more steps as long as its
    reports can be encoded, and until it has stopped it is never blocked (once each polling goroutine has
    polled); so [Run] returns. *)
Theorem agent_shutdown (grpc : bool) (ratelimit cpuCount : nat) (ls ls' : list label) (s s' : agent)
    (Hrun : run grpc ratelimit (agent_init cpuCount) ls s) (Hdone : ctx_done s = true)
    (Hrun' : run grpc ratelimit s ls' s') (Henc : LEncode None ∉ ls') :
  (length (filter (λ l, is_main l = true) ls') ≤ 19)%nat ∧
  (at_ s' ≠ MStopped → started1 s' = true → started2 s' = true →
   ∃ l s'', is_main l = true ∧ step grpc ratelimit l s' s'').
Proof.
  destruct (run_invariant _ _ _ _ _ Hrun) as (Hf & _). pose proof (rank_bound s Hf) as Hb.
  destruct (run_rank _ _ _ _ _ Hrun' Hdone Henc) as [Hd Hr]. split; [lia|].
  intros Hn H1 H2. by apply main_enabled.
Qed.

Lemma agent_shutdown_witness :
  let s := set_done example_sending in
  let s' := set_at s MReset in
  (length (filter (λ l, is_main l = true) [LGiveUp]) ≤ 19)%nat ∧
  (at_ s' ≠ MStopped → started1 s' = true → started2 s' = true →
   ∃ l s'', is_main l = true ∧ step true 1 l s' s'').
Proof.
  cbv zeta.
  apply (agent_shutdown true 1 0 (take 8 example_labels ++ [LCancel]) [LGiveUp] (set_done example_sending)
    (set_at (set_done example_sending) MReset)).
  - eapply run_snoc; [exact example_run_sending|apply step_cancel].
  - reflexivity.
  - apply (run_snoc true 1 (set_done example_sending) [] LGiveUp (set_done example_sending)); [constructor|].
    by apply step_give_up.
  - intros H. apply list_elem_of_singleton in H. discriminate H.
Defined.
