(* ===== verification/Delivery.v ===== *)
(** * What reaches the server over an unreliable network

    The agent's [Send], over HTTP ([internal/agent/agent.go]) and over gRPC
    ([internal/agentwithgrpc/agentwgrpc.go]), against the server when a request or its answer can get lost,
    on a network that others use as well: how often a message takes effect.  The server may have any store of [StoreSpec.v]; over gRPC the
    in-memory store, whose writes never fail. *)

From S2P Require Import Prelude Strconv Float64 GoErrors Metrics MemStorage Json MemFile GoRetry Retrier.
From S2P Require Import StoreSpec Http Chi Routes Handlers Codec SignWriter CryptAndSign Middleware Netip Server StoreSim Agent.
From S2P Require Import EndToEnd Grpc.

Open Scope Z_scope.

(** ** A network that others use as well *)

(** States [N] of a world in which the server's store, with states [S], has a place.  [arrive ok s n]: an exchange
    of the agent with the server, answered with success or not, has left the store in the state [s]. *)
Class Site (N S : Type) : Type := {
  here : N → S;
  arrive : bool → S → N → N;
  here_arrive ok s n : here (arrive ok s n) = s
}.

(** The store by itself. *)
#[export] Instance whole S : Site S S := {| here s := s; arrive _ s _ := s; here_arrive _ _ _ := eq_refl |}.

(** The reply has status 200. *)
Definition answered_ok (l : list wcall) : bool := bool_decide (status l = StatusOK).

(** A network that may lose a request, or the answer to it, while the rest of the world goes on: [others] is what
    can happen without the agent.  The server sees a request at most once, at some later time, and an
    answer that comes back is the server's. *)
Class Lossy {N S} `{Site N S} `{Network N} (others : N → N → Prop) (server : request → world S → outcome (served (S := S)))
    (base peer : string) : Prop :=
  exchanged r body w :
    let '(res, w') := post (base +:+ "/updates/") r body w in
    ∃ n, others (store w) n ∧
    ((store w' = n ∧ ∃ e, res = inl e) ∨
     (∃ t l w1 logs, server (arriving peer r body) (World t (here n)) = Ret (l, w1, logs) ∧
        others (arrive (answered_ok l) (store w1) n) (store w') ∧
        ((∃ e, res = inl e) ∨ ∃ text, res = inr (mkReply (status l) text)))).

(** A network that delivers every request and its answer. *)
Class Reliable {N S} `{Site N S} `{Network N} (others : N → N → Prop) (server : request → world S → outcome (served (S := S)))
    (base peer : string) : Prop :=
  carried r body w :
    let '(res, w') := post (base +:+ "/updates/") r body w in
    ∃ n t, others (store w) n ∧
      ∀ l w1 logs, server (arriving peer r body) (World t (here n)) = Ret (l, w1, logs) →
        others (arrive (answered_ok l) (store w1) n) (store w') ∧ ∃ text, res = inr (mkReply (status l) text).

(** Without others it is the network of [EndToEnd.v]. *)
#[export] Instance connected_reliable {S} `{Network S} server base peer :
  Connected server base peer → Reliable (S := S) eq server base peer.
Proof.
  intros Hnet r body w. destruct (server (arriving peer r body) w) as [[[l w'] logs]| | | | |] eqn:Hs.
  1: { destruct (delivered _ _ _ _ _ _ Hs) as (t & text & _ & Hp). rewrite Hp. exists (store w), (now w). split; [done|].
       intros l1 w1 logs1 H1. replace (World (now w) (here (store w))) with w in H1 by by destruct w.
       rewrite Hs in H1. injection H1 as <- <- <-. split; [done|by eexists]. }
  all: destruct (post _ _ _ _) as [res w1]; exists (store w), (now w); (split; [done|]); intros l1 w2 logs1 H1;
    (replace (World (now w) (here (store w))) with w in H1 by by destruct w); congruence.
Qed.

(** *** What happens while a message is on its way *)

Section Deliveries.
Context {N S : Type} `{Site N S} (others : N → N → Prop) (ex : bool → S → S → Prop).

(** Exchanges of the agent with the server among the steps of the others, [k] of them answered with success. *)
Inductive deliveries : nat → N → N → Prop :=
| dv_others n n' : others n n' → deliveries 0 n n'
| dv_exchange k ok n n1 s n' :
    deliveries k n n1 → ex ok (here n1) s → others (arrive ok s n1) n' → deliveries (k + Nat.b2n ok) n n'.

Context `{!PreOrder others}.

Lemma deliveries_others k n n1 n' : deliveries k n n1 → others n1 n' → deliveries k n n'.
Proof. intros [n2 n3 Ho|j ok n2 n3 s n4 Hd He Ho] Ho'; [apply dv_others|eapply dv_exchange]; try done; by etrans. Qed.

Lemma deliveries_trans j k n n1 n' : deliveries j n n1 → deliveries k n1 n' → deliveries (j + k) n n'.
Proof.
  intros H1. induction 1 as [n2 n3 Ho|k ok n2 n3 s n4 Hd IH He Ho].
  - rewrite Nat.add_0_r. by eapply deliveries_others.
  - rewrite Nat.add_assoc. eapply dv_exchange; [by apply IH|done|done].
Qed.

Lemma deliveries_once ok n n1 s n' : others n n1 → ex ok (here n1) s → others (arrive ok s n1) n' → deliveries (Nat.b2n ok) n n'.
Proof. intros Ho. apply (dv_exchange 0). by apply dv_others. Qed.
End Deliveries.

(** [n] deliveries of a batch. *)
Definition copies (n : nat) (ms : list Metrics) (m : MemStorage) : MemStorage :=
  Nat.iter n (λ m, (mem_WriteBatchMetrics ms m).2) m.

(** ** One message *)

Section Attempts.
Context {S : Type} `{Network S} `{RSA}.

(** One attempt of [Send] with the encrypted message [c]. *)
Definition try_send (key c base xRealIp : string) : op (headers * S) (option goerror) := λ w,
  let r := signed_headers key c xRealIp (store w).1 in
  let '(res, w') := post (base +:+ "/updates/") r c (World (now w) (store w).2) in
  (match res with
   | inl err => RetryableError (Some (ErrMsg ("retry failed: " +:+ error_text err)))
   | inr resp =>
       if decide (StatusCode resp ≠ StatusOK)
       then RetryableError (Some (ErrMsg ("retry failed: ans: " +:+ show_int (StatusCode resp) +:+ ", " +:+ ReplyBody resp)))
       else None
   end, World (now w') (r, store w')).

(** [Send] is the retry loop over the attempts. *)
Lemma Send_Do (j : jsonSendString) ctx serverHost xRealIp c w :
  (∀ (W : Type) (s : AgentSendFunc W) (r : headers) (serverHost xRealIp : string) (w : W),
     AsymmetricEncryptData s (pubkeypath j) r (jsonString j) serverHost xRealIp w = s r c serverHost xRealIp w) →
  Send j ctx serverHost xRealIp w =
  '(e, _, w) ← Do 4 (WithTimeout ctx (now w) (send_timeout j)) (WithMaxRetries 3 (mkFib 0 (1 * Second)))
                 (try_send (keyenc j) c (if HasPrefix serverHost httpProto then serverHost else "http://" +:+ serverHost) xRealIp) w;
  Ret (e, w).
Proof.
  intros Henc. unfold Send. cbv zeta. unfold NewFibonacci. rewrite decide_False by (unfold Second; lia).
  cbn [mbind outcome_bind].
  change (Z.to_nat (left_of (WithMaxRetries 3 (mkFib 0 (1 * Second))))) with 4%nat. erewrite DoM_Do; [done|].
  intros [t [r s]]. cbn [store now fst snd]. rewrite Henc. unfold SignNew, try_send, signed_headers. cbn [store now fst snd].
  case_decide; unfold send; cbv zeta; destruct (post _ _ _ _) as [[err|resp] w']; cbn; try done; by case_decide.
Qed.
End Attempts.

(** *** One attempt *)

(** What the server does to its store in an exchange about the batch [ms]: answered with success it has
    taken the batch, otherwise nothing. *)
Definition stored {S : Type} `{AbstractStore S} (ms : list Metrics) (ok : bool) (s s' : S) : Prop :=
  store_ok s' ∧ abs s' = if ok then (mem_WriteBatchMetrics ms (abs s)).2 else abs s.

(** An exchange: the server handles a request with the message [c]. *)
Definition http_exchange {S : Type} (server : request → world S → outcome (served (S := S))) (key c xRealIp peer : string)
    (ok : bool) (s s' : S) : Prop :=
  ∃ r t l w logs, agent_headers r ∧
    server (arriving peer (signed_headers key c xRealIp r) c) (World t s) = Ret (l, w, logs) ∧
    s' = store w ∧ ok = answered_ok l.

(** What others do keeps the store in a state that its contract covers. *)
Definition keeps_ok {N S : Type} `{Site N S} `{AbstractStore S} (others : N → N → Prop) : Prop :=
  ∀ n n', others n n' → store_ok (here n) → store_ok (here n').

(** One attempt: one exchange at most, one answered with success when the attempt succeeds, and none such when it
    fails if the network is [exact]. *)
Definition attempt_delivers {N S : Type} `{Site N S} `{AbstractStore S} (others : N → N → Prop) (ex : bool → S → S → Prop)
    (exact : Prop) (f : op (headers * N) (option goerror)) : Prop :=
  ∀ w e w', agent_headers (store w).1 → store_ok (here (store w).2) → f w = (e, w') →
    agent_headers (store w').1 ∧ store_ok (here (store w').2) ∧
    ∃ k, (k ≤ 1)%nat ∧ (e = None → k = 1%nat) ∧ (exact → e ≠ None → k = 0%nat) ∧
         deliveries others ex k (store w).2 (store w').2.

Section Attempt.
Context {N S : Type} `{Site N S} `{AbstractStore S} `{Network N} `{RSA} (others : N → N → Prop) `{!PreOrder others}.
Context (server : request → world S → outcome (served (S := S))) (base peer key xRealIp c : string).
Hypothesis keeps : keeps_ok others.
Hypothesis takes : ∀ r w, agent_headers r → store_ok (store w) →
  ∃ l w' logs, server (arriving peer (signed_headers key c xRealIp r) c) w = Ret (l, w', logs) ∧ store_ok (store w').

Lemma exchange_keeps r t n l w logs n' :
  agent_headers r → store_ok (here n) → server (arriving peer (signed_headers key c xRealIp r) c) (World t (here n)) = Ret (l, w, logs) →
  others (arrive (answered_ok l) (store w) n) n' → store_ok (here n').
Proof using keeps takes.
  intros Hr Hs Hsrv Ho. destruct (takes r (World t (here n)) Hr Hs) as (l' & w' & logs' & Hsrv' & Hok).
  rewrite Hsrv in Hsrv'. injection Hsrv' as <- <- <-. eapply keeps; [exact Ho|]. by rewrite here_arrive.
Qed.

Lemma lossy_attempt :
  Lossy others server base peer →
  attempt_delivers others (http_exchange server key c xRealIp peer) False (try_send key c base xRealIp).
Proof using keeps takes PreOrder0.
  intros Hnet w e w' Hr Hs. unfold try_send.
  pose proof (exchanged (signed_headers key c xRealIp (store w).1) c (World (now w) (store w).2)) as Hx.
  destruct (post _ _ _ _) as [res w1]. cbn [store] in Hx. intros [= <- <-]. cbn [store fst snd].
  split; [by apply agent_headers_signed|].
  destruct Hx as (n & Ho & [[-> [err ->]]|(t & l & w2 & logs & Hsrv & Ho' & Hres)]).
  - split; [by eapply keeps|]. exists 0%nat. split_and!; [lia|done|done|by apply dv_others].
  - split; [eapply (exchange_keeps _ t n); [exact Hr|by eapply keeps|exact Hsrv|exact Ho']|].
    exists (Nat.b2n (answered_ok l)). split; [destruct (answered_ok l); simpl; lia|]. split; [|split; [done|]].
    + destruct Hres as [[err ->]|[text ->]]; [done|]. cbn [StatusCode]. case_decide as Hd; [done|]. intros _.
      unfold answered_ok. by rewrite bool_decide_true.
    + eapply deliveries_once; [exact Ho| |exact Ho']. by exists (store w).1, t, l, w2, logs.
Qed.

Lemma reliable_attempt :
  Reliable others server base peer →
  attempt_delivers others (http_exchange server key c xRealIp peer) True (try_send key c base xRealIp).
Proof using keeps takes PreOrder0.
  intros Hnet w e w' Hr Hs. unfold try_send.
  pose proof (carried (signed_headers key c xRealIp (store w).1) c (World (now w) (store w).2)) as Hx.
  destruct (post _ _ _ _) as [res w1]. cbn [store] in Hx. intros [= <- <-]. cbn [store fst snd].
  destruct Hx as (n & t & Ho & Hx). split; [by apply agent_headers_signed|].
  destruct (takes (store w).1 (World t (here n)) Hr) as (l & w2 & logs & Hsrv & _); [by eapply keeps|].
  destruct (Hx _ _ _ Hsrv) as [Ho' [text ->]]. cbn [StatusCode].
  split; [eapply (exchange_keeps _ t n); [exact Hr|by eapply keeps|exact Hsrv|exact Ho']|].
  exists (Nat.b2n (answered_ok l)). split; [destruct (answered_ok l); simpl; lia|]. split; [|split].
  - case_decide as Hd; [done|]. intros _. unfold answered_ok. by rewrite bool_decide_true.
  - intros _. case_decide; [|done]. intros _. unfold answered_ok. by rewrite bool_decide_false.
  - eapply deliveries_once; [exact Ho| |exact Ho']. by exists (store w).1, t, l, w2, logs.
Qed.
End Attempt.

(** Every attempt is one exchange at most, so [Send] returns after at most four, at least one of them with success
    when it returns no error; on an exact network, one or none. *)
Lemma attempts_deliver {N S : Type} `{Site N S} `{AbstractStore S} (others : N → N → Prop) `{!PreOrder others} (ex : bool → S → S → Prop)
    (exact : Prop) (f : op (headers * N) (option goerror)) ctx r n t0 :
  attempt_delivers others ex exact f → agent_headers r → store_ok (here n) →
  ∃ e b t r' n' k, Do 4 ctx (WithMaxRetries 3 (mkFib 0 (1 * Second))) f (World t0 (r, n)) = Ret (e, b, World t (r', n')) ∧
    agent_headers r' ∧ store_ok (here n') ∧ deliveries others ex k n n' ∧
    (k ≤ 4)%nat ∧ (e = None → 1 ≤ k)%nat ∧ (exact → k = match e with None => 1 | Some _ => 0 end)%nat.
Proof.
  intros Hf Hr Hs. set (b0 := WithMaxRetries 3 (mkFib 0 (1 * Second))).
  destruct (Do_limited f ctx fibonacci_never_stops 4 b0 (World t0 ((r, n), []))) as (e & b & [t [[r' n'] l]] & l' & HD & Hl & Hleg).
  { unfold left_of. simpl. lia. }
  cbn [store snd] in Hl. rewrite app_nil_l in Hl. subst l'.
  set (inv := λ (P : nat → Prop) (x : (headers * N) * attempt_log),
    agent_headers x.1.1 ∧ store_ok (here x.1.2) ∧ ∃ k, (k ≤ length x.2)%nat ∧ P k ∧ deliveries others ex k n x.1.2).
  assert (match e with None => inv (λ k, 1 ≤ k ∧ (exact → k = 1))%nat | Some _ => inv (λ k, exact → k = 0)%nat end ((r', n'), l)) as Hinv.
  { eapply (Do_outcome _ _ (logged f)) in HD; [exact HD| |].
    - intros [u [[ru nu] lu]] (Hru & Hsu & k & Hk & Hex & Hdu). cbn [store fst snd] in *. unfold logged.
      cbn [store now fst snd]. destruct (f (World u (ru, nu))) as [err w'] eqn:Hw.
      apply Hf in Hw as (Hr' & Hs' & k1 & Hk1 & Hone & Hnone & Hd); [|done..]. cbn [store fst snd] in *.
      pose proof (deliveries_trans others ex _ _ _ _ _ Hdu Hd) as Hdd.
      destruct err; (split; [done|]; split; [done|]; exists (k + k1)%nat; cbn [fst snd]; rewrite length_app; cbn [length];
        split; [lia|]; split; [|done]).
      + intros Hx. rewrite Hex, Hnone by done. lia.
      + rewrite Hone by done. split; [lia|]. intros Hx. by rewrite Hex.
    - split; [done|]. split; [done|]. exists 0%nat. split; [done|]. split; [done|]. by apply dv_others. }
  pose proof (Do_logged f ctx 4 b0 (World t0 ((r, n), []))) as Hview. rewrite HD in Hview. unfold view in Hview; cbn in Hview.
  destruct Hleg as [Hcount _ _ _]. unfold left_of, b0 in Hcount. simpl in Hcount.
  destruct e; destruct Hinv as (Hr' & Hs' & k & Hk & Hex & Ha); cbn [fst snd] in *;
    (eexists _, b, t, r', n', k; split; [exact Hview|]; split_and!; [done|done|done|lia|naive_solver|naive_solver]).
Qed.

Lemma deliveries_mono {N S : Type} `{Site N S} (others : N → N → Prop) (ex ex' : bool → S → S → Prop) k n n' :
  (∀ ok s s', ex ok s s' → ex' ok s s') → deliveries others ex k n n' → deliveries others ex' k n n'.
Proof. intros Hex. induction 1; [by apply dv_others|]. eapply dv_exchange; eauto. Qed.

(** Exchanges about a batch are deliveries of it. *)
Lemma deliveries_stored {N S : Type} `{Site N S} `{AbstractStore S} (others : N → N → Prop) ms (ex : bool → S → S → Prop) k n n' :
  keeps_ok others → (∀ ok s s', store_ok s → ex ok s s' → stored ms ok s s') → deliveries others ex k n n' → store_ok (here n) →
  deliveries others (stored ms) k n n'.
Proof.
  intros Hkeep Hex Hd Hs. cut (deliveries others (stored ms) k n n' ∧ store_ok (here n')); [by intros []|].
  induction Hd as [n n' Ho|k ok n n1 s n' Hd IH He Ho]; [by split; [apply dv_others|eapply Hkeep]|].
  destruct (IH Hs) as [Hd' Hs1]. pose proof (Hex _ _ _ Hs1 He) as Hst. split; [by eapply dv_exchange|].
  eapply Hkeep; [exact Ho|]. rewrite here_arrive. apply Hst.
Qed.

(** What the deliveries of a batch make of a store that nobody else uses. *)
Lemma deliveries_copies {S : Type} `{AbstractStore S} ms (ex : bool → S → S → Prop) k s s' :
  (∀ ok s s', store_ok s → ex ok s s' → stored ms ok s s') → deliveries eq ex k s s' → store_ok s →
  store_ok s' ∧ abs s' = copies k ms (abs s).
Proof.
  intros Hex. induction 1 as [s s' <-|k ok s s1 s2 s' Hd IH He <-]; intros Hs; [done|]. cbn in *.
  destruct (IH Hs) as [Hs1 Ha]. destruct (Hex _ _ _ Hs1 He) as [Hs2 Ha2]. split; [done|]. rewrite Ha2, Ha.
  destruct ok; cbn [Nat.b2n]; [by rewrite Nat.add_1_r|by rewrite Nat.add_0_r].
Qed.

(** An agent configured for a server that is up: keys that match, an address the server admits. *)
Record linked `{Gzip} `{RSA} `{Router.Regexp} (mh : metricHandlers)
    (pubkeypath privkeypath subnets xRealIp : string) (ps : option (list Prefix)) : Prop := {
  linked_retrier : made (reqRetrier mh);
  linked_up : ∀ t, ctx_Err (mh_ctx mh) t = None;
  linked_keys : paired pubkeypath privkeypath;
  linked_admitted : admitted subnets xRealIp ps
}.

(** The message the agent sends for a text. *)
Definition encrypted `{RSA} (pubkeypath text c : string) : Prop :=
  ∀ (W : Type) (s : AgentSendFunc W) (r : headers) (serverHost xRealIp : string) (w : W),
    AsymmetricEncryptData s pubkeypath r text serverHost xRealIp w = s r c serverHost xRealIp w.

Lemma encrypted_unique `{RSA} pubkeypath text c c' : encrypted pubkeypath text c → encrypted pubkeypath text c' → c = c'.
Proof.
  intros H1 H2. set (s := λ r c (_ _ : string) (_ : string), Ret (inl (ErrMsg c), r, c) : outcome ((goerror + reply) * headers * string)).
  pose proof (H1 string s ∅ "" "" "") as H1s. rewrite (H2 string s ∅ "" "" "") in H1s. by injection H1s.
Qed.

Section Message.
Context `{Gzip} `{RSA} `{Router.Regexp} {S : Type} `{AbstractStore S} (mh : metricHandlers).
Context (key pubkeypath privkeypath subnets serverHost peer xRealIp : string) (ps : option (list Prefix)) (timeout : Z).
Let base : string := if HasPrefix serverHost httpProto then serverHost else "http://" +:+ serverHost.
Hypothesis link : linked mh pubkeypath privkeypath subnets xRealIp ps.

(** An exchange with this server about the encoded batch [ms]. *)
Lemma http_stored ms text c ok (s s' : S) :
  Forall Metrics_ok ms ∧ Forall names_ok ms → encode_slice (Some ms) = Some text → encrypted pubkeypath text c → batch_ok ms →
  store_ok s → http_exchange (chiRouter mh key privkeypath ps) key c xRealIp peer ok s s' → stored ms ok s s'.
Proof using link.
  intros Hms Htext Hc Hb Hs (r & t & l & w & logs & Hr & Hsrv & -> & ->). destruct link as [Hm Hup Hkeys Hip].
  destruct (paired_channel _ _ text Hkeys) as (c' & Henc & Hdec). rewrite (encrypted_unique _ _ _ _ Hc Henc) in *.
  destruct (store_takes_message mh key privkeypath subnets peer xRealIp ps ms text c' r (World t s))
    as (l' & w' & logs' & Hsrv' & Hok & Hcase); [done..|].
  rewrite Hsrv in Hsrv'. injection Hsrv' as <- <- <-. split; [done|]. unfold answered_ok.
  destruct Hcase as [[Hst Ha]|[[Hd|Hd] Ha]]; [by rewrite bool_decide_true|by rewrite bool_decide_false by by rewrite Hd..].
Qed.

Context {N : Type} `{Site N S} `{Network N} (others : N → N → Prop) `{!PreOrder others}.

(** [Send] among others. *)
Lemma message_deliveries (exact : Prop) ms text ctx r n t0 :
  keeps_ok others →
  Lossy others (chiRouter mh key privkeypath ps) base peer ∧ ¬ exact ∨ Reliable others (chiRouter mh key privkeypath ps) base peer →
  agent_headers r → Forall Metrics_ok ms ∧ Forall names_ok ms → encode_slice (Some ms) = Some text →
  store_ok (here n) → batch_ok ms →
  ∃ c, encrypted pubkeypath text c ∧
  ∃ e t r' n' k, Send (mkSend text key pubkeypath timeout) ctx serverHost xRealIp (World t0 (r, n)) = Ret (e, World t (r', n')) ∧
    agent_headers r' ∧ store_ok (here n') ∧
    deliveries others (http_exchange (chiRouter mh key privkeypath ps) key c xRealIp peer) k n n' ∧
    (k ≤ 4)%nat ∧ (e = None → 1 ≤ k)%nat ∧ (exact → k = match e with None => 1 | Some _ => 0 end)%nat.
Proof using link PreOrder0.
  intros Hkeep Hnet Hr Hms Htext Hs Hb. pose proof link as [Hm Hup Hkeys Hip].
  destruct (paired_channel _ _ text Hkeys) as (c & Henc & Hdec). exists c. split; [exact Henc|].
  assert (∀ r (w : world S), agent_headers r → store_ok (store w) →
    ∃ l w' logs, chiRouter mh key privkeypath ps (arriving peer (signed_headers key c xRealIp r) c) w = Ret (l, w', logs) ∧
      store_ok (store w')) as Htakes.
  { intros r0 w Hr0 Hw. destruct (store_takes_message mh key privkeypath subnets peer xRealIp ps ms text c r0 w)
      as (l & w' & logs & Hsrv & Hok & _); [done..|]. exists l, w', logs. split; [exact Hsrv|exact Hok]. }
  assert (attempt_delivers others (http_exchange (chiRouter mh key privkeypath ps) key c xRealIp peer) exact
    (try_send key c base xRealIp)) as Hatt.
  { destruct Hnet as [[Hnet Hex]|Hnet].
    - pose proof (lossy_attempt others _ base peer key xRealIp c Hkeep Htakes Hnet) as Hl.
      intros w e w' Ha Hb' Hc. destruct (Hl w e w' Ha Hb' Hc) as (? & ? & k & ? & ? & _ & ?). split; [done|]. split; [done|].
      exists k. by repeat split.
    - pose proof (reliable_attempt others _ base peer key xRealIp c Hkeep Htakes Hnet) as Hl.
      intros w e w' Ha Hb' Hc. destruct (Hl w e w' Ha Hb' Hc) as (? & ? & k & ? & ? & ? & ?). split; [done|]. split; [done|].
      exists k. by repeat split; auto. }
  destruct (attempts_deliver others _ exact _ (WithTimeout ctx t0 timeout) r n t0 Hatt Hr Hs) as (e & b & t & r' & n' & k & HD & Hk).
  exists e, t, r', n', k. split; [|done]. rewrite (Send_Do _ _ _ _ c) by exact Henc. cbn [now send_timeout keyenc].
  change (try_send _ _ _ _) with (try_send key c base xRealIp). by rewrite HD.
Qed.
End Message.

(** A server with a single client. *)
Lemma message_copies {S : Type} `{AbstractStore S} `{Gzip} `{RSA} `{Router.Regexp} `{Network S} (mh : metricHandlers)
    (key pubkeypath privkeypath subnets serverHost peer xRealIp : string) (ps : option (list Prefix)) (timeout : Z)
    (exact : Prop) ms text ctx r s t0 :
  let base := if HasPrefix serverHost httpProto then serverHost else "http://" +:+ serverHost in
  linked mh pubkeypath privkeypath subnets xRealIp ps →
  Lossy (S := S) eq (chiRouter mh key privkeypath ps) base peer ∧ ¬ exact ∨ Connected (chiRouter mh key privkeypath ps) base peer →
  agent_headers r → Forall Metrics_ok ms ∧ Forall names_ok ms → encode_slice (Some ms) = Some text →
  store_ok s → batch_ok ms →
  ∃ e t r' s' k, Send (mkSend text key pubkeypath timeout) ctx serverHost xRealIp (World t0 (r, s)) =
      Ret (e, World t (r', s')) ∧
    agent_headers r' ∧ store_ok s' ∧ abs s' = copies k ms (abs s) ∧
    (k ≤ 4)%nat ∧ (e = None → 1 ≤ k)%nat ∧ (exact → k = match e with None => 1 | Some _ => 0 end)%nat.
Proof.
  cbv zeta. intros Hlink Hnet Hr Hms Htext Hs Hb.
  destruct (message_deliveries mh key pubkeypath privkeypath subnets serverHost peer xRealIp ps timeout Hlink eq exact ms text ctx r s t0)
    as (c & Hc & e & t & r' & s' & k & HS & Hr' & Hs' & Hd & Hk); [by intros n n' <-| |done..|].
  { destruct Hnet as [Hnet|Hnet]; [by left|right]. by apply connected_reliable. }
  exists e, t, r', s', k. split; [exact HS|]. split; [done|]. split; [done|]. split; [|done].
  eapply deliveries_copies; [|exact Hd|exact Hs]. intros ok s1 s2 Hs1. by eapply http_stored.
Qed.

(** [C19] At least once: a message sent over a network that may lose requests and answers, whatever it loses and
    whatever [others] do to the server in the meantime, to a server with any store that keeps its contract.
    [Send] returns, and meanwhile the server has taken the batch some number [k] of times, in between steps of
    the others: at most four times, at least once if [Send] returned without an error.  More than once
    is possible: the answer to the first was lost and the agent tried again, so the counters of the batch are
    added again.  Over a network that loses nothing [k] is one or zero, as [Send] says. *)
Theorem at_least_once_delivery {N S : Type} `{Site N S} `{AbstractStore S} `{Gzip} `{RSA} `{Router.Regexp} `{Network N}
    (others : N → N → Prop) (mh : metricHandlers)
    (key pubkeypath privkeypath subnets serverHost peer xRealIp text : string) (ps : option (list Prefix)) (timeout t0 : Z)
    (ms : list Metrics) (ctx : context) (r : headers) (n : N)
    (Hothers : PreOrder others) (Hkeep : keeps_ok others) (Hlink : linked mh pubkeypath privkeypath subnets xRealIp ps)
    (Hr : agent_headers r) (Hms : Forall Metrics_ok ms ∧ Forall names_ok ms) (Htext : encode_slice (Some ms) = Some text)
    (Hs : store_ok (here n)) (Hb : batch_ok ms) :
  let base := if HasPrefix serverHost httpProto then serverHost else "http://" +:+ serverHost in
  (Lossy others (chiRouter mh key privkeypath ps) base peer →
   ∃ e t r' n' k, Send (mkSend text key pubkeypath timeout) ctx serverHost xRealIp (World t0 (r, n)) =
       Ret (e, World t (r', n')) ∧
     deliveries others (stored ms) k n n' ∧ (k ≤ 4)%nat ∧ (e = None → 1 ≤ k)%nat) ∧
  (Reliable others (chiRouter mh key privkeypath ps) base peer →
   ∃ e t r' n', Send (mkSend text key pubkeypath timeout) ctx serverHost xRealIp (World t0 (r, n)) =
       Ret (e, World t (r', n')) ∧
     deliveries others (stored ms) (match e with None => 1 | Some _ => 0 end) n n').
Proof.
  cbv zeta. set (P := λ exact : Prop, message_deliveries mh key pubkeypath privkeypath subnets serverHost peer xRealIp ps timeout Hlink
    others exact ms text ctx r n t0 Hkeep). split; intros Hnet.
  - destruct (P False) as (c & Hc & e & t & r' & n' & k & HS & _ & _ & Hd & Hk & Hone & _); [left; split; [exact Hnet|by intros []]|done..|].
    exists e, t, r', n', k. split; [exact HS|]. split; [|done]. eapply deliveries_stored; [done|..|exact Hd|exact Hs].
    intros ok s1 s2 Hs1. by eapply http_stored.
  - destruct (P True) as (c & Hc & e & t & r' & n' & k & HS & _ & _ & Hd & Hk & _ & Hex); [by right|done..|].
    exists e, t, r', n'. split; [exact HS|]. rewrite <- (Hex I). eapply deliveries_stored; [done|..|exact Hd|exact Hs].
    intros ok s1 s2 Hs1. by eapply http_stored.
Qed.

(** ** Over gRPC *)

(** The call was answered without an error. *)
Definition accepted (r : status_error + string) : bool := match r with inr _ => true | inl _ => false end.

(** A connection that may lose a call, or the answer to it, while the rest of the world goes on. *)
Class LossyCall {N S : Type} `{Site N S} `{StoreMetrics S} (others : N → N → Prop) (mh : metricHandlers) (subnets : option (list Prefix))
    (call : string → gmap string (list string) → list MetricRequest → world N → (status_error + string) * world N) : Prop :=
  called host md req w :
    let '(res, w') := call host md req w in
    ∃ n, others (store w) n ∧
    ((store w' = n ∧ ∃ e, res = inl e) ∨
     (∃ t r log w1, SendMetrics mh subnets (Some md) req (World t (here n)) = Ret (r, log, w1) ∧
        others (arrive (accepted r) (store w1) n) (store w') ∧ ((∃ e, res = inl e) ∨ res = r))).

(** A connection that delivers every call and its answer. *)
Class ReliableCall {N S : Type} `{Site N S} `{StoreMetrics S} (others : N → N → Prop) (mh : metricHandlers) (subnets : option (list Prefix))
    (call : string → gmap string (list string) → list MetricRequest → world N → (status_error + string) * world N) : Prop :=
  replied host md req w :
    let '(res, w') := call host md req w in
    ∃ n t, others (store w) n ∧
      ∀ r log w1, SendMetrics mh subnets (Some md) req (World t (here n)) = Ret (r, log, w1) →
        others (arrive (accepted r) (store w1) n) (store w') ∧ res = r.

(** The same without others. *)
Class ConnectedCall {S : Type} `{StoreMetrics S} (mh : metricHandlers) (subnets : option (list Prefix))
    (call : string → gmap string (list string) → list MetricRequest → world S → (status_error + string) * world S) : Prop :=
  answered host md req w r log w1 :
    SendMetrics mh subnets (Some md) req w = Ret (r, log, w1) → ∃ t, call host md req w = (r, World t (store w1)).

#[export] Instance connected_reliable_call {S} `{StoreMetrics S} mh subnets call :
  ConnectedCall mh subnets call → ReliableCall (S := S) eq mh subnets call.
Proof.
  intros Hnet host md req w. destruct (SendMetrics mh subnets (Some md) req w) as [[[r log] w1]| | | | |] eqn:Hs.
  1: { destruct (answered host md req w _ _ _ Hs) as [t Hc]. rewrite Hc. exists (store w), (now w). split; [done|].
       intros r1 log1 w2 H1. replace (World (now w) (here (store w))) with w in H1 by by destruct w.
       rewrite Hs in H1. by injection H1 as <- <- <-. }
  all: destruct (call host md req w) as [res w2]; exists (store w), (now w); (split; [done|]); intros r1 log1 w3 H1;
    (replace (World (now w) (here (store w))) with w in H1 by by destruct w); congruence.
Qed.

(** What failed calls keep and what the last, successful one establishes; [i] counts the calls. *)
Lemma retry_loop_outcome {W} (I J : nat → W → Prop) (invoker : world W → (status_error + string) * world W) ctx n attempt last j w r w' :
  (∀ i w, I i (store w) → match (invoker w).1 with inl _ => I | inr _ => J end (S i) (store (invoker w).2)) →
  retry_loop invoker n attempt ctx last w = (r, w') → I j (store w) → (∃ e, last = inl e) ∨ n ≠ 0%nat →
  ∃ i, (i ≤ j + n)%nat ∧ match r with inl _ => I | inr _ => J end i (store w').
Proof.
  intros Hf. revert attempt last j w. induction n as [|n IH]; intros attempt last j w; cbn [retry_loop].
  { intros [= <- <-] Hj [[e ->]|?]; [|done]. exists j. split; [lia|done]. }
  pose proof (waitRetryBackoff_store attempt ctx w) as Hst. destruct (waitRetryBackoff attempt ctx w) as [[err|] w1]; cbn [snd] in Hst.
  { intros [= <- <-] Hj _. exists j. rewrite Hst. split; [lia|done]. }
  rewrite <- Hst. intros Hrun Hj _. specialize (Hf j w1 Hj). destruct (invoker w1) as [[err|resp] w2]; cbn [fst snd] in *.
  2: { injection Hrun as <- <-. exists (S j). split; [lia|done]. }
  destruct (_ && _); [injection Hrun as <- <-; exists (S j); split; [lia|done]|].
  destruct (isRetriable err); [|injection Hrun as <- <-; exists (S j); split; [lia|done]].
  destruct (IH _ _ (S j) _ Hrun Hf) as (i & Hi & Hr); [by left; eexists|]. exists i. split; [lia|done].
Qed.

(** A server that is up and admits the agent. *)
Record grpc_linked (mh : metricHandlers) (subnets xRealIp : string) (ps : option (list Prefix)) : Prop := {
  grpc_retrier : made (reqRetrier mh);
  grpc_up : ∀ t, ctx_Err (mh_ctx mh) t = None;
  grpc_admitted : admitted subnets xRealIp ps
}.

(** An exchange: a call with the request [req] at the server. *)
Definition grpc_exchange {S : Type} `{StoreMetrics S} (mh : metricHandlers) (ps : option (list Prefix)) (xRealIp : string)
    (req : list MetricRequest) (ok : bool) (s s' : S) : Prop :=
  ∃ t r log w, SendMetrics mh ps (Some {[ "x-real-ip" := [xRealIp] ]}) req (World t s) = Ret (r, log, w) ∧
    s' = store w ∧ ok = accepted r.

Section Calls.
Context (mh : metricHandlers) (subnets xRealIp : string) (ps : option (list Prefix)).
Hypothesis link : grpc_linked mh subnets xRealIp ps.

Lemma grpc_takes ms (w : world MemStorage) :
  SendMetrics mh ps (Some {[ "x-real-ip" := [xRealIp] ]}) (EncodeProto ms) w =
  Ret (inr "OK", None, set_store w (mem_WriteBatchMetrics ms (store w)).2).
Proof using link.
  destruct link as [Hm Hup [Hps Hip]]. unfold SendMetrics. cbv zeta.
  assert (∀ ps', ps = Some ps' → Forall Prefix_ok ps') as Hok by (intros ps' ->; by eapply parseSubnetPrefixes_ok).
  rewrite (proj1 (grpc_allowed_spec ps (Some {[ "x-real-ip" := [xRealIp] ]}) Hok)).
  - rewrite do_WriteBatch_mem by done. cbn [mbind outcome_bind]. by rewrite grpc_batch.
  - unfold grpc_trusted. destruct ps as [l|]; [|done]. destruct Hip as (ip & p & Hx & Hp & Hnet).
    exists {[ "x-real-ip" := [xRealIp] ]}, xRealIp, [], ip, p. rewrite lookup_singleton_eq. by split_and!.
Qed.

Lemma grpc_stored ms ok (s s' : MemStorage) : grpc_exchange mh ps xRealIp (EncodeProto ms) ok s s' → stored ms ok s s'.
Proof using link.
  intros (t & r & log & w & Hsrv & -> & ->). rewrite grpc_takes in Hsrv. injection Hsrv as <- <- <-. by split.
Qed.

Context {N : Type} `{Site N MemStorage} (others : N → N → Prop) `{!PreOrder others}.
Context (connect : string → option status_error).
Context (call : string → gmap string (list string) → list MetricRequest → world N → (status_error + string) * world N).

Abbreviation among ms := (deliveries others (grpc_exchange mh ps xRealIp (EncodeProto ms))).

(** One to three exchanges for a success; exactly one over a connection that delivers. *)
Lemma call_deliveries (exact : Prop) ms ctx host t0 n e w' :
  LossyCall others mh ps call ∧ ¬ exact ∨ ReliableCall others mh ps call →
  MonMetricReq_Send connect call (EncodeProto ms) ctx host xRealIp (World t0 n) = (e, w') →
  ∃ k, deliveries others (grpc_exchange mh ps xRealIp (EncodeProto ms)) k n (store w') ∧ (k ≤ 3)%nat ∧ (e = None → 1 ≤ k)%nat ∧
       (exact → k = match e with None => 1 | Some _ => 0 end)%nat.
Proof using link PreOrder0.
  intros Hnet. unfold MonMetricReq_Send, protoSend, grpcConnector. destruct (connect host) as [err|].
  { intros [= <- <-]. exists 0%nat. split; [by apply dv_others|]. split; [lia|]. by split. }
  set (md := {[ "x-real-ip" := [xRealIp] ]}). unfold UnaryClientInterceptor, grpc_max.
  destruct (retry_loop (call host md (EncodeProto ms)) 3 0 ctx (inr "") (World t0 n)) as [r w1] eqn:Hrun.
  assert (∀ n1 n2 t s, others n1 n2 → others (arrive true s n2) t → s = (mem_WriteBatchMetrics ms (here n2)).2 → among ms 1 n1 t) as Hone.
  { intros n1 n2 t s Ho Ho' ->. eapply (deliveries_once _ _ true); [exact Ho| |exact Ho'].
    exists 0, (inr "OK"), None, (World 0 (mem_WriteBatchMetrics ms (here n2)).2). by rewrite grpc_takes. }
  apply (retry_loop_outcome
    (λ i n', ∃ k, (k ≤ i)%nat ∧ among ms k n n' ∧ (exact → k = 0)%nat)
    (λ i n', ∃ k, (1 ≤ k ≤ i)%nat ∧ among ms k n n' ∧ (exact → k = 1)%nat) _ _ _ _ _ 0%nat) in Hrun as (i & Hi & Hr).
  - destruct r as [err|resp]; destruct Hr as (k & Hk & Hs & Hex); intros [= <- <-]; exists k;
      (split; [exact Hs|]; split; [lia|]; split; [done || lia|exact Hex]).
  - intros j w (k & Hk & Hs & Hex). destruct Hnet as [[Hnet Hnex]|Hnet].
    + pose proof (called host md (EncodeProto ms) w) as Hc. destruct (call host md (EncodeProto ms) w) as [res w2]. cbn [fst snd].
      destruct Hc as (n1 & Ho & [[-> [err ->]]|(t & r1 & log & w3 & Hsrv & Ho' & Hres)]).
      * exists k. split; [lia|]. split; [by eapply deliveries_others|done].
      * rewrite grpc_takes in Hsrv. injection Hsrv as <- <- <-. cbn [store set_store accepted] in Ho'.
        pose proof (deliveries_trans _ _ _ _ _ _ _ Hs (Hone _ _ _ _ Ho Ho' eq_refl)) as Hd. rewrite Nat.add_1_r in Hd.
        destruct Hres as [[err ->]| ->]; (exists (S k); split; [lia|]; split; [exact Hd|tauto]).
    + pose proof (replied host md (EncodeProto ms) w) as Hc. destruct (call host md (EncodeProto ms) w) as [res w2]. cbn [fst snd].
      destruct Hc as (n1 & t & Ho & Hc). destruct (Hc _ _ _ (grpc_takes ms (World t (here n1)))) as [Ho' ->].
      cbn [store set_store accepted] in Ho'.
      pose proof (deliveries_trans _ _ _ _ _ _ _ Hs (Hone _ _ _ _ Ho Ho' eq_refl)) as Hd. rewrite Nat.add_1_r in Hd.
      exists (S k). split; [lia|]. split; [exact Hd|]. intros Hx. by rewrite Hex.
  - exists 0%nat. split; [lia|]. split; [by apply dv_others|done].
  - by right.
Qed.
End Calls.

(** A server with a single client. *)
Lemma call_copies (mh : metricHandlers) (subnets xRealIp : string) (ps : option (list Prefix)) (connect : string → option status_error)
    (call : string → gmap string (list string) → list MetricRequest → world MemStorage → (status_error + string) * world MemStorage)
    (exact : Prop) ms ctx host t0 m e w' :
  grpc_linked mh subnets xRealIp ps →
  LossyCall (S := MemStorage) eq mh ps call ∧ ¬ exact ∨ ConnectedCall mh ps call →
  MonMetricReq_Send connect call (EncodeProto ms) ctx host xRealIp (World t0 m) = (e, w') →
  ∃ k, store w' = copies k ms m ∧ (k ≤ 3)%nat ∧ (e = None → 1 ≤ k)%nat ∧
       (exact → k = match e with None => 1 | Some _ => 0 end)%nat.
Proof.
  intros Hlink Hnet HS. apply (call_deliveries mh subnets xRealIp ps Hlink eq connect call exact) in HS as (k & Hd & Hk).
  - exists k. split; [|exact Hk]. refine (proj2 (deliveries_copies (S := MemStorage) ms _ k m (store w') _ Hd I)).
    intros ok s s' _. by eapply grpc_stored.
  - destruct Hnet as [Hnet|Hnet]; [by left|right]. by apply connected_reliable_call.
Qed.

(** ** A network that loses the answers of the first second *)

Abbreviation plain_server :=
  (chiRouter (H0 := toy_Gzip) (H1 := toy_RSA) (H2 := Router.no_regexp) started "" "" None).

Definition lossy_network : Network MemStorage := λ url r body w,
  match plain_server (arriving "10.0.0.7:4000" r body) w with
  | Ret (l, w', _) =>
      (if decide (now w < Second) then inl (ErrMsg "EOF") else inr (mkReply (status l) (reply_body l)),
       World (now w' + 5) (store w'))
  | _ => (inl (ErrMsg "connection reset by peer"), w)
  end.

Lemma lossy_lossy base : Lossy (H := whole MemStorage) (H0 := lossy_network) eq plain_server base "10.0.0.7:4000".
Proof.
  intros r body w. unfold post, lossy_network.
  destruct (plain_server (arriving "10.0.0.7:4000" r body) w) as [[[l w'] logs]| | | | |] eqn:Hs.
  1: { exists (store w). split; [done|]. right. exists (now w), l, w', logs.
       replace (World (now w) (here (store w))) with w by by destruct w.
       split; [done|]. split; [done|]. case_decide; [left|right]; eauto. }
  all: exists (store w); (split; [done|]); left; eauto.
Qed.

Lemma plain_linked :
  linked (H := toy_Gzip) (H0 := toy_RSA) (H1 := Router.no_regexp) started "" "" "" "10.1.2.3" None.
Proof. split; [apply (bool_decide_unpack _); vm_compute; exact I|done|by left|by split]. Qed.

Definition json_headers : headers := {[ "Content-Type" := "application/json" ]}.

Definition lossy_send (text : string) (m : MemStorage) : outcome (option goerror * world (headers * MemStorage)) :=
  Send (H := lossy_network) (H0 := toy_RSA) (mkSend text "" "" (30 * Second)) Background "srv:8080" "10.1.2.3"
    (World 0 (json_headers, m)).

(** Four polls reported once count eight. *)
Example counted_twice :
  (λ '(err, w), (err, now w, counter (store w).2 !! "PollCount")) <$>
    lossy_send (jq "[{'delta':4,'id':'PollCount','type':'counter'}]") NewMemStorage = Ret (None, Second + 10, Some 8).
Proof. vm_compute. reflexivity. Qed.

(** The same network while another client increments a counter of its own after every exchange. *)
Definition other_clients (m m' : MemStorage) : Prop := counter m' !! "PollCount" = counter m !! "PollCount".

#[export] Instance other_clients_preorder : PreOrder other_clients.
Proof. split; [done|]. intros m1 m2 m3 H1 H2. unfold other_clients in *. congruence. Qed.

Lemma other_adds m : other_clients m (add_counter "Other" 1 m).
Proof. unfold other_clients; simpl. by rewrite lookup_insert_ne. Qed.

Definition busy_network : Network MemStorage := λ url r body w,
  let '(res, w') := lossy_network url r body w in (res, World (now w') (add_counter "Other" 1 (store w'))).

#[local] Opaque chiRouter Send lossy_network.

Lemma busy_lossy base : Lossy (H := whole MemStorage) (H0 := busy_network) other_clients plain_server base "10.0.0.7:4000".
Proof.
  intros r body w. pose proof (lossy_lossy base r body w) as Hx.
  change (@post _ busy_network) with busy_network. change (@post _ lossy_network) with lossy_network in Hx. unfold busy_network.
  destruct (lossy_network (base +:+ "/updates/") r body w) as [res w1].
  pose proof other_adds as Ho.
  destruct Hx as (n & <- & [[Hn Hres]|(t & l & w2 & logs & Hs & Hn & Hres)]).
  - exists (add_counter "Other" 1 (store w)). split; [apply Ho|]. left. by rewrite Hn.
  - exists (store w). split; [done|]. right. exists t, l, w2, logs. split; [exact Hs|]. split; [|exact Hres].
    rewrite <- Hn. apply Ho.
Qed.

Lemma at_least_once_delivery_witness :
  ∃ e t r' m' k, Send (H := busy_network) (H0 := toy_RSA)
      (mkSend (jq "[{'delta':4,'id':'PollCount','type':'counter'}]") "" "" (30 * Second)) Background "srv:8080" "10.1.2.3"
      (World 0 (json_headers, NewMemStorage)) = Ret (e, World t (r', m')) ∧
    deliveries other_clients (stored [mkMetrics (Some 4) None "PollCount" "counter"]) k NewMemStorage m' ∧
    (k ≤ 4)%nat ∧ (e = None → 1 ≤ k)%nat.
Proof.
  exact (proj1 (at_least_once_delivery (H := whole MemStorage) (H2 := toy_Gzip) (H3 := toy_RSA) (H4 := Router.no_regexp) (H5 := busy_network)
    other_clients started "" "" "" "" "srv:8080" "10.0.0.7:4000" "10.1.2.3" (jq "[{'delta':4,'id':'PollCount','type':'counter'}]") None
    (30 * Second) 0 [mkMetrics (Some 4) None "PollCount" "counter"] Background json_headers NewMemStorage
    other_clients_preorder (λ _ _ _ _, I) plain_linked (conj eq_refl eq_refl)
    ltac:(split; apply (bool_decide_unpack _); vm_compute; exact I) eq_refl I I) (busy_lossy _)).
Defined.
