(* ===== verification/Polls.v ===== *)
(** * The agent's loop and its server

    The whole loop of the agent ([AgentRun.v]) with a server at the other end ([Delivery.v]), over HTTP with
    any store and over gRPC with the in-memory store: what the server has counted against what the
    agent believes delivered. *)

From S2P Require Import Prelude Strconv Float64 GoErrors Metrics MemStorage Json MemFile GoRetry Retrier.
From S2P Require Import StoreSpec Http Chi Routes Handlers Codec SignWriter CryptAndSign Middleware Netip Server StoreSim Agent.
From S2P Require Import EndToEnd Grpc AgentRun Delivery.

Open Scope Z_scope.

(** ** The whole loop *)

(** The batch as the server's store gets it. *)
Definition received (grpc : bool) (ms : list Metrics) : list Metrics := if grpc then decode_one <$> EncodeProto ms else ms.

(** What sending a payload did to the server's store, as far as the agent's result tells: [may err k] when
    [k] copies are possible with the result [err]. *)
Class Delivers {S : Type} `{AbstractStore S} (grpc : bool) (sent : payload → option goerror → S → S → Prop)
    (may : option goerror → nat → Prop) : Prop :=
  delivers ms m p err s s' :
    Forall Metrics_ok ms ∧ Forall names_ok ms → batch_ok (received grpc ms) → encode_report grpc ms = Some (m, p) →
    store_ok s → sent p err s s' →
    store_ok s' ∧ ∃ k, may err k ∧ abs s' = copies k ms (abs s).

(** The contract of the store covers every report. *)
Class ReportsOk {S : Type} `{AbstractStore S} (grpc : bool) : Prop :=
  reports_ok rtm y km :
    all_sensors rtm → Forall Metrics_ok (report rtm y km) → batch_ok (received grpc (report rtm y km)).

#[export] Instance memory_ReportsOk grpc : ReportsOk (S := MemStorage) grpc.
Proof. done. Qed.

Definition is_sent (l : label) : bool := match l with LSent _ _ _ => true | _ => false end.

Section Loop.
Context {S : Type} (grpc : bool) (ratelimit : nat) (sent : payload → option goerror → S → S → Prop).

(** An execution of the agent and of the store of its server. *)
Inductive served_run (s0 : agent) (m0 : S) : list label → agent → S → Prop :=
| served_nil : served_run s0 m0 [] s0 m0
| served_other ls l s s' m :
    served_run s0 m0 ls s m → step grpc ratelimit l s s' → is_sent l = false →
    served_run s0 m0 (ls ++ [l]) s' m
| served_sent ls i p err s s' m m' :
    served_run s0 m0 ls s m → step grpc ratelimit (LSent i p err) s s' → sent p err m m' →
    served_run s0 m0 (ls ++ [LSent i p err]) s' m'.

Lemma served_run_run s0 m0 ls s m : served_run s0 m0 ls s m → run grpc ratelimit s0 ls s.
Proof. induction 1; [constructor|by eapply run_snoc..]. Qed.

(** Until something is sent, the store stays. *)
Lemma run_served s0 ls s m0 : run grpc ratelimit s0 ls s → Forall (λ l, is_sent l = false) ls → served_run s0 m0 ls s m0.
Proof.
  induction 1 as [|ls l s s' Hrun IH Hs]; [constructor|]. intros [Hls [Hl _]%Forall_cons]%Forall_app.
  eapply served_other; [by apply IH|done|done].
Qed.
End Loop.

(** *** Values that can be encoded *)

Definition kern_ok (k : kernelMetrics) : Prop :=
  canonical (TotalMemory k) ∧ canonical (FreeMemory k) ∧ Forall canonical (CPUutilization k).

(** What the runtime and the system reported: every sensor is a number. *)
Definition measured (l : label) : Prop :=
  match l with
  | LPoll stats random => all_sensors stats ∧ canonical random
  | LKernPoll k => kern_ok k
  | _ => True
  end.

Definition sys_ok (y : sysMon) : Prop := is_int64 (pollCount y) ∧ canonical (randomValue y).

Definition values_ok (s : agent) (b : books) : Prop :=
  (started1 s = true → all_sensors (rtm s)) ∧ sys_ok (sys s) ∧ kern_ok (kern s) ∧ kern_ok (snap_kern b) ∧
  match at_ s with
  | MRtm | MSleep => True
  | _ => all_sensors (snap_rtm b) ∧ sys_ok (snap_sys b)
  end.

(** [#f] is the float zero. *)
Lemma fzero_canonical : canonical fzero.
Proof. apply (float_of_Z_canonical 0). Qed.

Lemma step_measured grpc ratelimit l s s' b :
  step grpc ratelimit l s s' → measured l → values_ok s b → values_ok s' (book b l).
Proof.
  unfold values_ok. intros Hstep Hl (Hr & Hy & Hk & Hsk & Hat). revert Hl Hat.
  destruct Hstep; cbn [at_ rtm sys kern started1 set_at set_model set_json set_chans set_sys set_kern set_done book];
    repeat match goal with H : at_ _ = _ |- _ => rewrite H; clear H end;
    try (destruct err; cbn [result_label book after_result]); cbn [snap_rtm snap_sys snap_kern]; intros Hl Hat;
    try tauto.
  - injection H as <- <-. destruct Hl. split_and!; try done. split; [apply wrap64_range|done].
  - assert (sys_ok (mkSysMon 0 (randomValue (sys s)))) by (split; [done|apply Hy]). tauto.
Qed.

Lemma run_measured grpc ratelimit cpuCount ls s :
  run grpc ratelimit (agent_init cpuCount) ls s → Forall measured ls → values_ok s (books_of ls).
Proof.
  induction 1 as [|ls l s s' Hrun IH Hstep]; intros Hms.
  - unfold values_ok; cbn. pose proof fzero_canonical. split_and!; try done. split_and!; [done..|by apply Forall_replicate].
  - apply Forall_app in Hms as [Hms [Hl _]%Forall_cons]. rewrite books_snoc.
    by eapply step_measured; [| |apply IH].
Qed.

(** A worker that sends has the encoding of a report of values that were measured. *)
Lemma sending_report grpc ratelimit cpuCount ls s i j :
  run grpc ratelimit (agent_init cpuCount) ls s → pool s !! i = Some (WSend j) → Forall measured ls →
  let b := books_of ls in let R := report (snap_rtm b) (snap_sys b) (snap_kern b) in
  all_sensors (snap_rtm b) ∧ (Forall Metrics_ok R ∧ Forall names_ok R) ∧ snd <$> encode_report grpc R = Some (wire s j).
Proof.
  intros Hrun Hj Hms. cbv zeta. destruct (worker_report _ _ _ _ _ _ _ Hrun Hj) as [Henc Hat].
  destruct (run_measured _ _ _ _ _ Hrun Hms) as (_ & _ & _ & Hk & Hv).
  assert (all_sensors (snap_rtm (books_of ls)) ∧ sys_ok (snap_sys (books_of ls))) as [Hs [Hi Hr]] by (by destruct (at_ s)).
  split; [done|]. split; [|done]. exact (report_ok _ _ _ Hs Hi Hr (proj1 Hk) (proj1 (proj2 Hk)) (proj2 (proj2 Hk))).
Qed.

(** *** What is delivered but not yet acknowledged *)

Definition success (w : wpoint) : nat := match w with WReport None => 1 | _ => 0 end.
Definition success_of (err : option goerror) : nat := match err with None => 1 | Some _ => 0 end.

(** Successful sends whose result the main goroutine has not read. *)
Definition awaiting (s : agent) : nat := (wsum success (pool s) + sum_list (success_of <$> jobsErr s))%nat.

Lemma awaiting_in_flight s : (awaiting s ≤ in_flight s)%nat.
Proof.
  assert (∀ ws, wsum success ws ≤ wsum AgentRun.busy ws)%nat as Hw.
  { unfold wsum. induction ws as [|w ws IH]; [done|]. rewrite !fmap_cons. destruct w as [| |[]|]; simpl; lia. }
  assert (∀ l, sum_list (success_of <$> l) ≤ length l)%nat as Hl.
  { induction l as [|err l IH]; [done|]. rewrite fmap_cons. destruct err; simpl; lia. }
  unfold awaiting, in_flight. specialize (Hw (pool s)). specialize (Hl (jobsErr s)). lia.
Qed.

(** How a step changes the number of unread successes and of acknowledged polls. *)
Lemma step_awaiting grpc ratelimit l s s' b :
  step grpc ratelimit l s s' → flight_ok s →
  let p := pollCount (snap_sys b) in let p' := pollCount (snap_sys (book b l)) in
  match l with
  | LSent _ _ err =>
      (if ctx_done s then awaiting s' = awaiting s else awaiting s' = awaiting s + success_of err)%nat ∧
      acked (book b l) = acked b ∧ p' = p
  | _ => acked (book b l) + Z.of_nat (awaiting s') * p' = acked b + Z.of_nat (awaiting s) * p
  end.
Proof.
  intros Hstep Hf. cbv zeta. pose proof (awaiting_in_flight s) as Hin. unfold flight_ok in Hf. revert Hf.
  destruct Hstep; intros Hf; rewrite ?shutdownCatcher_done in *; unfold awaiting in *; cbn [pool jobsErr set_at set_model set_json set_chans set_sys set_kern set_done book
    acked snap_sys]; try done;
    try match goal with
    | H : pool s !! _ = Some ?x |- context [<[_ := ?y]> (pool s)] =>
        pose proof (wsum_insert success _ _ _ y H) as Hw; cbn [success] in Hw
    end;
    repeat match goal with H : at_ s = _ |- _ => rewrite H in Hf; clear H | H : ctx_done s = _ |- _ => rewrite H; clear H
      | H : jobsErr s = _ |- _ => rewrite H in *; clear H end;
    try (destruct err; cbn [result_label success success_of book acked snap_sys] in *);
    rewrite ?fmap_app, ?fmap_cons, ?sum_list_with_app in *;
    cbn [sum_list_with success_of fmap list_fmap] in *; unfold id in *; try nia.
  match goal with |- context [Z.of_nat ?n * _] => assert (n = 0)%nat as -> by lia end. lia.
Qed.

(** *** The server's poll counter *)

Definition polled (m : MemStorage) : Z := default 0 (counter m !! "PollCount").

Lemma polled_copies k rtm y km m :
  all_sensors rtm → is_int64 (polled m) →
  polled (copies k (report rtm y km) m) = wrap64 (polled m + Z.of_nat k * pollCount y).
Proof.
  intros Hs Hm. induction k as [|k IH].
  - change (copies 0 _ m) with m. by rewrite Z.add_0_r, wrap64_id.
  - change (copies (S k) (report rtm y km) m) with (mem_WriteBatchMetrics (report rtm y km) (copies k (report rtm y km) m)).2.
    unfold polled at 1. rewrite report_polls by done. cbn [default from_option].
    change (default 0 _) with (polled (copies k (report rtm y km) m)). rewrite IH, wrap64_add_l. unfold id. f_equal. lia.
Qed.

Lemma mem_ok_polled m : mem_ok m → is_int64 (polled m).
Proof.
  intros [_ Hc]. unfold polled. destruct (counter m !! "PollCount") eqn:Hk; [by apply (Hc _ _ Hk)|].
  unfold is_int64, min_int64, max_int64; simpl; lia.
Qed.

(** *** What an execution has sent, and what the server made of it *)

(** A message whose call of [Send] has ended: the snapshots it carried, and the result. *)
Record message : Type := mkMessage { content : books; told : option goerror }.

Definition batch_of (x : message) : list Metrics := report (snap_rtm (content x)) (snap_sys (content x)) (snap_kern (content x)).
Definition polls_of (x : message) : Z := pollCount (snap_sys (content x)).

Definition sent_by (b : books) (l : label) : list message := match l with LSent _ _ err => [mkMessage b err] | _ => [] end.

Fixpoint sends_from (b : books) (ls : list label) : list message :=
  match ls with [] => [] | l :: ls => sent_by b l ++ sends_from (book b l) ls end.
Definition sends (ls : list label) : list message := sends_from books_init ls.

Lemma sends_snoc ls l : sends (ls ++ [l]) = sends ls ++ sent_by (books_of ls) l.
Proof.
  unfold sends, books_of. generalize books_init. induction ls as [|l' ls IH]; intros b; cbn; [by rewrite app_nil_r|].
  by rewrite IH, app_assoc.
Qed.

(** With each message how many times the server has taken it: the store this makes, and the polls that have
    arrived. *)
Definition store_after (ds : list (message * nat)) (m0 : MemStorage) : MemStorage :=
  foldl (λ m d, copies d.2 (batch_of d.1) m) m0 ds.
Definition polls_taken (ds : list (message * nat)) : Z := sum ((λ d, Z.of_nat d.2 * polls_of d.1) <$> ds).

Definition arrived (ls : list label) (m0 m : MemStorage) (ds : list (message * nat)) : Prop :=
  ds.*1 = sends ls ∧ m = store_after ds m0 ∧ polled m = wrap64 (polled m0 + polls_taken ds).

Definition counts (may : option goerror → nat → Prop) (m0 : MemStorage) (ls : list label) (s : agent) (m : MemStorage) : Prop :=
  ∃ ds, arrived ls m0 m ds ∧ Forall (λ d, may (told d.1) d.2) ds ∧
    let known := acked (books_of ls) + Z.of_nat (awaiting s) * pollCount (snap_sys (books_of ls)) in
    known ≤ polls_taken ds ∧ ((∀ err k, may err k → k = success_of err) → ctx_done s = false → polls_taken ds = known).

Lemma ctx_done_step grpc ratelimit l s s' : step grpc ratelimit l s s' → ctx_done s' = false → ctx_done s = false.
Proof. by destruct 1. Qed.

Section Counts.
Context {S : Type} `{AbstractStore S} (grpc : bool) (ratelimit cpuCount : nat) (sent : payload → option goerror → S → S → Prop).
Context (may : option goerror → nat → Prop) `{!Delivers grpc sent may} `{!ReportsOk (S := S) grpc}.
Hypothesis acknowledged : ∀ k, may None k → (1 ≤ k)%nat.

Lemma counts_other m0 s m ls l s' :
  step grpc ratelimit l s s' → is_sent l = false → flight_ok s → counts may m0 ls s m → counts may m0 (ls ++ [l]) s' m.
Proof.
  intros Hstep Hl Hf (ds & (Hds & Hm & Hp) & Hmay & Hle & Heq). set (b := books_of ls) in *.
  pose proof (step_awaiting _ _ _ _ _ b Hstep Hf) as Hk. cbv zeta in Hk.
  pose proof (ctx_done_step _ _ _ _ _ Hstep) as Hd.
  assert (acked (book b l) + Z.of_nat (awaiting s') * pollCount (snap_sys (book b l)) =
          acked b + Z.of_nat (awaiting s) * pollCount (snap_sys b)) as Hknown by (by destruct l).
  exists ds. split; [split; [|done]; rewrite sends_snoc, Hds; destruct l; try done; by rewrite app_nil_r|].
  cbv zeta. rewrite books_snoc. fold b. rewrite Hknown. auto.
Qed.

Lemma counts_sent m0 ls i p err s s' st st' :
  let b := books_of ls in let l := LSent i p err in
  run grpc ratelimit (agent_init cpuCount) ls s → step grpc ratelimit l s s' → Forall measured ls →
  0 ≤ pollCount (snap_sys b) → is_int64 (polled m0) → store_ok st → sent p err st st' →
  counts may m0 ls s (abs st) → store_ok st' ∧ counts may m0 (ls ++ [l]) s' (abs st').
Proof.
  cbv zeta. intros Hrun Hstep Hms Hp Hm0 Hst Hsent (ds & (Hds & Hm & Hpol) & Hall & Hle & Heq).
  assert (∃ j, pool s !! i = Some (WSend j) ∧ p = wire s j) as (j & Hj & Hwire) by by eapply sent_wire.
  destruct (sending_report _ _ _ _ _ _ _ Hrun Hj Hms) as (Hs & Hok & Henc). rewrite <- Hwire in Henc.
  destruct (encode_report grpc (report (snap_rtm (books_of ls)) (snap_sys (books_of ls)) (snap_kern (books_of ls))))
    as [[m q]|] eqn:Ht; [|done]. injection Henc as ->.
  destruct (delivers _ _ _ _ _ _ Hok (reports_ok _ _ _ Hs (proj1 Hok)) Ht Hst Hsent) as (Hst' & k & Hmay & Ha).
  split; [done|].
  destruct (run_invariant _ _ _ _ _ Hrun) as (Hf & _).
  destruct (step_awaiting _ _ _ _ _ (books_of ls) Hstep Hf) as (Haw & Hack & Hsnap).
  assert (polls_taken (ds ++ [(mkMessage (books_of ls) err, k)]) = polls_taken ds + Z.of_nat k * pollCount (snap_sys (books_of ls))) as Hpt.
  { unfold polls_taken. rewrite fmap_app, sum_app. unfold sum at 2. cbn. unfold polls_of. cbn. lia. }
  exists (ds ++ [(mkMessage (books_of ls) err, k)]). split; [split_and!|split].
  - rewrite fmap_app, Hds, sends_snoc. done.
  - unfold store_after. rewrite foldl_snoc. cbn [fst snd]. fold (store_after ds m0). rewrite <- Hm. exact Ha.
  - rewrite Ha, Hpt, polled_copies; [|done|rewrite Hpol; apply wrap64_range]. rewrite Hpol, wrap64_add_l. f_equal. lia.
  - apply Forall_app. split; [done|]. by constructor.
  - cbv zeta. rewrite Hpt, books_snoc, Hack, Hsnap. split.
    + assert (err = None → 1 ≤ k)%nat as Hone by (intros ->; by apply acknowledged).
      destruct (ctx_done s); [rewrite Haw; nia|]. rewrite Haw. destruct err; simpl; [nia|]. specialize (Hone eq_refl). nia.
    + intros Hexact Hd. apply (ctx_done_step _ _ _ _ _ Hstep) in Hd. rewrite Hd in Haw. rewrite Haw.
      rewrite (Heq Hexact Hd), (Hexact _ _ Hmay). lia.
Qed.

Lemma served_counts st0 ls s st :
  served_run grpc ratelimit sent (agent_init cpuCount) st0 ls s st → Forall measured ls → is_int64 (polled (abs st0)) →
  store_ok st0 → polls (books_of ls) ≤ max_int64 → store_ok st ∧ counts may (abs st0) ls s (abs st).
Proof.
  intros Hrun Hms Hm0 Hst0. induction Hrun as [|ls l s s' st Hrun IH Hstep Hl|ls i p err s s' st st' Hrun IH Hstep Hsent]; intros Hmax.
  - split; [done|]. exists []. by split; [split_and!; [..|rewrite Z.add_0_r, wrap64_id]|].
  - rewrite books_snoc in *. apply Forall_app in Hms as [Hms _]. pose proof (book_polls_le (books_of ls) l).
    apply served_run_run, run_invariant in Hrun as (Hf & _). destruct IH as [? ?]; [done|lia|]. split; [done|].
    by eapply counts_other.
  - rewrite books_snoc in *. apply Forall_app in Hms as [Hms _].
    pose proof (served_run_run _ _ _ _ _ _ _ _ Hrun) as Hr. destruct (run_invariant _ _ _ _ _ Hr) as (_ & _ & _ & Hp).
    cbn [book] in *. destruct IH as [? ?]; [done..|]. eapply counts_sent; [done..| |done|done|done|done].
    destruct (Hp Hmax) as (_ & _ & _ & ? & _). done.
Qed.
End Counts.

(** ** What the deliveries promise *)

Definition at_least_once (err : option goerror) (k : nat) : Prop := (k ≤ 4)%nat ∧ (err = None → 1 ≤ k)%nat.
Definition exactly_once (err : option goerror) (k : nat) : Prop := k = success_of err.

Section Sent.
Context {S : Type} `{AbstractStore S} `{Gzip} `{RSA} `{Router.Regexp} `{Network S} (mh : metricHandlers).
Context (key pubkeypath privkeypath subnets serverHost peer xRealIp : string) (ps : option (list Prefix)) (timeout : Z).
Let base : string := if HasPrefix serverHost httpProto then serverHost else "http://" +:+ serverHost.

(** Some call of [Send] with the text, at any time, with the request the agent shares among its
    calls, had the result [err] and took the store from [s] to [s']. *)
Definition json_sent (p : payload) (err : option goerror) (s s' : S) : Prop :=
  ∃ text ctx t0 r t r', p = PJson text ∧ agent_headers r ∧
    Send (mkSend text key pubkeypath timeout) ctx serverHost xRealIp (World t0 (r, s)) = Ret (err, World t (r', s')).

Hypothesis link : linked mh pubkeypath privkeypath subnets xRealIp ps.

Lemma json_delivers (exact : Prop) :
  Lossy (S := S) eq (chiRouter mh key privkeypath ps) base peer ∧ ¬ exact ∨ Connected (chiRouter mh key privkeypath ps) base peer →
  Delivers false json_sent (λ err k, at_least_once err k ∧ (exact → exactly_once err k)).
Proof using link.
  intros Hnet ms m p err s s' Hms Hb Henc Hs (text & ctx & t0 & r & t & r' & -> & Hr & HS).
  unfold encode_report in Henc. destruct (encode_slice (Some ms)) as [q|] eqn:Htext; [|done]. injection Henc as <- ->.
  destruct (message_copies mh key pubkeypath privkeypath subnets serverHost peer xRealIp ps timeout exact ms text ctx r s t0)
    as (e & t1 & r1 & s1 & k & HS' & _ & Hs1 & Ha & Hk & Hone & Hex); [done..|]. rewrite HS in HS'. injection HS' as -> -> -> ->.
  split; [done|]. exists k. split; [|done]. split; [by split|by destruct e].
Qed.

End Sent.

(** Some call of [MonMetricReq.Send], at any time; the agent learns whether there was an error. *)
Definition grpc_sent {S : Type} (serverHost xRealIp : string) (connect : string → option status_error)
    (call : string → gmap string (list string) → list MetricRequest → world S → (status_error + string) * world S)
    (p : payload) (err : option goerror) (s s' : S) : Prop :=
  ∃ req ctx t0 t e, p = PProto req ∧ (err = None ↔ e = None) ∧
    MonMetricReq_Send connect call req ctx serverHost xRealIp (World t0 s) = (e, World t s').

Section SentGrpc.
Context (mh : metricHandlers) (subnets serverHost xRealIp : string) (ps : option (list Prefix)).
Context (connect : string → option status_error).
Context (call : string → gmap string (list string) → list MetricRequest → world MemStorage → (status_error + string) * world MemStorage).
Hypothesis link : grpc_linked mh subnets xRealIp ps.

Lemma grpc_delivers (exact : Prop) :
  LossyCall (S := MemStorage) eq mh ps call ∧ ¬ exact ∨ ConnectedCall mh ps call →
  Delivers true (grpc_sent serverHost xRealIp connect call) (λ err k, at_least_once err k ∧ (exact → exactly_once err k)).
Proof using link.
  intros Hnet ms m p err s s' Hms Hb Henc Hs (req & ctx & t0 & t & e & -> & He & HS).
  injection Henc as <- <-. split; [done|].
  destruct (call_copies mh subnets xRealIp ps connect call exact ms ctx serverHost t0 s e _ link Hnet HS)
    as (k & Hk & Hk3 & Hone & Hex). exists k. split; [|exact Hk].
  split; [|intros Hx; rewrite (Hex Hx); unfold exactly_once, success_of; destruct err, e; naive_solver].
  split; [lia|]. intros ->. by apply Hone, He.
Qed.
End SentGrpc.

(** What the counting gives for a kind of delivery. *)
Lemma polls_arrive {S : Type} `{AbstractStore S} (exact : Prop) grpc ratelimit cpuCount sent ls s (st0 st : S) :
  Delivers grpc sent (λ err k, at_least_once err k ∧ (exact → exactly_once err k)) → ReportsOk (S := S) grpc →
  served_run grpc ratelimit sent (agent_init cpuCount) st0 ls s st → Forall measured ls → store_ok st0 →
  is_int64 (polled (abs st0)) → polls (books_of ls) ≤ max_int64 →
  ∃ ds, arrived ls (abs st0) (abs st) ds ∧ Forall (λ d, at_least_once (told d.1) d.2 ∧ (exact → exactly_once (told d.1) d.2)) ds ∧
    acked (books_of ls) ≤ polls_taken ds ∧
    (exact → ctx_done s = false →
     polls_taken ds = acked (books_of ls) + Z.of_nat (awaiting s) * pollCount (snap_sys (books_of ls))).
Proof.
  intros Hd Hrep Hrun Hms Hst Hi Hmax. destruct (run_invariant _ _ _ _ _ (served_run_run _ _ _ _ _ _ _ _ Hrun)) as (_ & _ & _ & Hp).
  destruct (Hp Hmax) as (_ & _ & _ & Hsnap & _).
  destruct (served_counts grpc ratelimit cpuCount sent (λ err k, at_least_once err k ∧ (exact → exactly_once err k))
      ltac:(intros k [[_ Hk] _]; by apply Hk) _ _ _ _ Hrun Hms Hi Hst Hmax)
    as (_ & ds & Ha & Hall & Hle & Heq). exists ds. split_and!; [done|done|nia|].
  intros Hx Hctx. apply Heq; [|done]. intros err k [_ Hk]. by apply Hk.
Qed.

(** [C4] No acknowledged poll is missing on the server: run the agent's whole loop against a server with any store
    that keeps its contract, over a network that may lose requests and answers, in any interleaving of the
    agent's goroutines.  At every moment the server's store is what it was at the start with the messages sent so far
    ([sends]: those whose [Send] has ended) written to it, each a number of times that is at most four and, if the agent
    was told success, at least one ([ds]).  So its PollCount has grown by the polls of these copies
    ([polls_taken], the sum wrapped to an [int64]), and they are at least the polls in the reports the agent holds for
    acknowledged.  If the network always delivers, every message was written once or not at all, as the agent
    was told, and until the shutdown begins the polls that have arrived are exactly the acknowledged ones, plus the
    report whose good result the main goroutine has not read yet. *)
Theorem acknowledged_polls_arrive {S : Type} `{AbstractStore S} `{Gzip} `{RSA} `{Router.Regexp} `{Network S} (mh : metricHandlers)
    (key pubkeypath privkeypath subnets serverHost peer xRealIp : string) (ps : option (list Prefix)) (timeout : Z)
    (ratelimit cpuCount : nat) (ls : list label) (s : agent) (st0 st : S)
    (Hlink : linked mh pubkeypath privkeypath subnets xRealIp ps) (Hrep : ReportsOk (S := S) false)
    (Hrun : served_run false ratelimit (json_sent key pubkeypath serverHost xRealIp timeout) (agent_init cpuCount) st0 ls s st)
    (Hms : Forall measured ls) (Hst0 : store_ok st0) (Hm0 : is_int64 (polled (abs st0)))
    (Hmax : polls (books_of ls) ≤ max_int64) :
  let base := if HasPrefix serverHost httpProto then serverHost else "http://" +:+ serverHost in
  let b := books_of ls in
  (Lossy (S := S) eq (chiRouter mh key privkeypath ps) base peer →
   ∃ ds, arrived ls (abs st0) (abs st) ds ∧ Forall (λ d, at_least_once (told d.1) d.2) ds ∧ acked b ≤ polls_taken ds) ∧
  (Connected (chiRouter mh key privkeypath ps) base peer →
   ∃ ds, arrived ls (abs st0) (abs st) ds ∧ Forall (λ d, exactly_once (told d.1) d.2) ds ∧ acked b ≤ polls_taken ds ∧
     (ctx_done s = false → polls_taken ds = acked b + Z.of_nat (awaiting s) * pollCount (snap_sys b))).
Proof.
  cbv zeta. split; intros Hnet.
  - edestruct (polls_arrive False) as (ds & Ha & Hall & Hle & _); [|done..|].
    + eapply json_delivers; [exact Hlink|left; split; [exact Hnet|by intros []]].
    + exists ds. split_and!; [done| |done]. eapply Forall_impl; [exact Hall|]. by intros d [? _].
  - edestruct (polls_arrive True) as (ds & Ha & Hall & Hle & Heq); [|done..|].
    + eapply json_delivers; [exact Hlink|right; exact Hnet].
    + exists ds. split_and!; [done| |done|by apply Heq]. eapply Forall_impl; [exact Hall|]. intros d [_ Hd]. by apply Hd.
Qed.

(** The same over gRPC with the in-memory store: over a connection that may lose calls and answers, with the
    retries of the client's interceptor, no acknowledged poll is missing; over one that delivers, until the
    shutdown, none is counted twice. *)
Theorem grpc_polls_arrive (mh : metricHandlers) (subnets serverHost xRealIp : string) (ps : option (list Prefix))
    (connect : string → option status_error)
    (call : string → gmap string (list string) → list MetricRequest → world MemStorage → (status_error + string) * world MemStorage)
    (ratelimit cpuCount : nat) (ls : list label) (s : agent) (m0 m : MemStorage)
    (Hlink : grpc_linked mh subnets xRealIp ps)
    (Hrun : served_run true ratelimit (grpc_sent serverHost xRealIp connect call) (agent_init cpuCount) m0 ls s m)
    (Hms : Forall measured ls) (Hm0 : mem_ok m0) (Hmax : polls (books_of ls) ≤ max_int64) :
  let b := books_of ls in
  (LossyCall (S := MemStorage) eq mh ps call →
   ∃ ds, arrived ls m0 m ds ∧ Forall (λ d, at_least_once (told d.1) d.2) ds ∧ acked b ≤ polls_taken ds) ∧
  (ConnectedCall mh ps call →
   ∃ ds, arrived ls m0 m ds ∧ Forall (λ d, exactly_once (told d.1) d.2) ds ∧ acked b ≤ polls_taken ds ∧
     (ctx_done s = false → polls_taken ds = acked b + Z.of_nat (awaiting s) * pollCount (snap_sys b))).
Proof.
  cbv zeta. pose proof (mem_ok_polled m0 Hm0) as Hi. split; intros Hnet.
  - edestruct (polls_arrive (H0 := MemStorage_AbstractStore) False) as (ds & Ha & Hall & Hle & _); [|done..|].
    + eapply grpc_delivers; [exact Hlink|left; split; [exact Hnet|by intros []]].
    + exists ds. split_and!; [done| |done]. eapply Forall_impl; [exact Hall|]. by intros d [? _].
  - edestruct (polls_arrive (H0 := MemStorage_AbstractStore) True) as (ds & Ha & Hall & Hle & Heq); [|done..|].
    + eapply grpc_delivers; [exact Hlink|right; exact Hnet].
    + exists ds. split_and!; [done| |done|by apply Heq]. eapply Forall_impl; [exact Hall|]. intros d [_ Hd]. by apply Hd.
Qed.

(** ** Examples *)

(** A call that begins before its context ends delivers the message and succeeds. *)
Lemma connected_send `{Gzip} `{RSA} `{Router.Regexp} `{Network MemStorage} (mh : metricHandlers)
    (key pubkeypath privkeypath subnets serverHost peer xRealIp : string) (ps : option (list Prefix)) (timeout : Z) ms text ctx r m t0 :
  let base := if HasPrefix serverHost httpProto then serverHost else "http://" +:+ serverHost in
  linked mh pubkeypath privkeypath subnets xRealIp ps →
  0 < timeout → Connected (chiRouter mh key privkeypath ps) base peer → agent_headers r → ctx_Err ctx t0 = None →
  Forall Metrics_ok ms ∧ Forall names_ok ms → encode_slice (Some ms) = Some text →
  ∃ t r', Send (mkSend text key pubkeypath timeout) ctx serverHost xRealIp (World t0 (r, m)) =
    Ret (None, World t (r', (mem_WriteBatchMetrics ms m).2)).
Proof.
  cbv zeta. intros link Hto Hnet Hr Hctx Hms Htext. destruct link as [Hm Hup Hkeys Hip].
  destruct (paired_channel _ _ text Hkeys) as (c & Henc & Hdec).
  destruct (server_takes_message mh key privkeypath subnets peer xRealIp ps ms text c r (World t0 m)) as (l & logs & Hl & Hst);
    [done..|].
  destruct (Send_once (chiRouter mh key privkeypath ps) peer (mkSend text key pubkeypath timeout) ctx serverHost xRealIp r
    (World t0 m) c l (set_store (World t0 m) (mem_WriteBatchMetrics ms m).2) logs Hnet) as (t1 & _ & HS);
    [exact Henc|exact Hctx|exact Hto|exact Hl|exact Hst|]. eauto.
Qed.

#[local] Opaque chiRouter Send.

(** One report of one poll. *)
Definition example_report : list Metrics := report toy_MemStats (mkSysMon 1 fzero) (mkKern [] fzero fzero).
Definition example_text : string := default "" (encode_slice (Some example_report)).

Lemma example_encoded : encode_slice (Some example_report) = Some example_text.
Proof. vm_compute. reflexivity. Qed.

(** The report sent as [p]. *)
Definition example_labels_of (p : payload) : list label :=
  [LPoll toy_MemStats fzero; LKernPoll (mkKern [] fzero fzero);
   LRtm toy_MemStats (mkSysMon 1 fzero); LKern (mkKern [] fzero fzero);
   LEncode (Some p); LQueue; LTake 0; LSent 0 p None; LReport 0; LAck].

Definition json_labels : list label := example_labels_of (PJson example_text).

(** The same server over a network that delivers. *)
Definition direct_network : Network MemStorage := λ url r body w,
  match plain_server (arriving "10.0.0.7:4000" r body) w with
  | Ret (l, w', _) => (inr (mkReply (status l) (reply_body l)), World (now w' + 5) (store w'))
  | _ => (inl (ErrMsg "connection reset by peer"), w)
  end.

Lemma direct_connected base : Connected (H := direct_network) plain_server base "10.0.0.7:4000".
Proof.
  intros r body w l w' logs Hl. unfold post, direct_network. rewrite Hl.
  exists (now w' + 5), (reply_body l). split; [lia|done].
Qed.

Definition direct_sent : payload → option goerror → MemStorage → MemStorage → Prop :=
  json_sent (H2 := toy_RSA) (H4 := direct_network) "" "" "srv:8080" "10.1.2.3" (30 * Second).

(** The agent of the example between its steps. *)
Definition example_agent (at_ : point) (model : list Metrics) (text : string) (pool : list wpoint) : agent :=
  mkAgent at_ toy_MemStats (mkSysMon 1 fzero) (mkKern [] fzero fzero) true true model text [] [] pool false.

Definition idle : list wpoint := [WIdle; WIdle; WIdle].

Lemma example_report_ok : Forall Metrics_ok example_report ∧ Forall names_ok example_report.
Proof. apply report_ok; try apply fzero_canonical; try done. apply (bool_decide_unpack _). vm_compute. exact I. Qed.

Lemma example_sent : direct_sent (PJson example_text) None NewMemStorage (mem_WriteBatchMetrics example_report NewMemStorage).2.
Proof.
  destruct (connected_send (H := toy_Gzip) (H0 := toy_RSA) (H1 := Router.no_regexp) (H2 := direct_network) started "" "" "" "" "srv:8080"
    "10.0.0.7:4000" "10.1.2.3" None (30 * Second) example_report example_text Background json_headers NewMemStorage 0
    plain_linked eq_refl (direct_connected _) (conj eq_refl eq_refl) eq_refl example_report_ok example_encoded) as (t & r' & HS).
  exists example_text, Background, 0, json_headers, t, r'. split; [reflexivity|]. split; [split; reflexivity|exact HS].
Qed.

#[local] Opaque example_text.
#[local] Opaque parseRtm parseKernMetrics.

(** The example up to where a worker sends, with either transport. *)
Lemma example_taken grpc (j : sender) (p : payload) (text : string) :
  encode_report grpc example_report = Some (j, p) → (∀ s, mjson s = "" → new_text grpc s example_report = text) →
  run grpc 1 (agent_init 0) (take 7 (example_labels_of p)) (example_agent MWait [] text [WSend j; WIdle; WIdle]).
Proof.
  intros Henc Htext. pose proof (run_nil grpc 1 (agent_init 0)) as H.
  eapply run_snoc in H; [|apply (step_poll _ _ _ toy_MemStats fzero); reflexivity].
  eapply run_snoc in H; [|apply (step_kern_poll _ _ _ (Some (0, 0)) []); reflexivity].
  eapply run_snoc in H; [|apply step_rtm; reflexivity].
  eapply run_snoc in H; [|apply step_kern; reflexivity].
  match type of H with run _ _ _ ?ls _ => change (run grpc 1 (agent_init 0) ls (example_agent MEncode example_report "" idle)) in H end.
  eapply run_snoc in H; [|exact (step_encode grpc 1 (example_agent MEncode example_report "" idle) j p eq_refl Henc)].
  set (a := example_agent MEncode example_report "" idle) in H.
  assert (new_text grpc a (model a) = text) as Ht by exact (Htext a eq_refl). rewrite Ht in H.
  match type of H with run _ _ _ ?ls _ => change (run grpc 1 (agent_init 0) ls (example_agent (MQueue j) [] text idle)) in H end.
  eapply run_snoc in H; [|eapply step_queue; [reflexivity|cbn; lia]].
  eapply run_snoc in H; [|eapply (step_take _ _ _ 0); reflexivity].
  exact H.
Qed.

(** The whole example. *)
Lemma example_served {S : Type} grpc sent (j : sender) (p : payload) (text : string) (st st' : S) :
  encode_report grpc example_report = Some (j, p) → (∀ s, mjson s = "" → new_text grpc s example_report = text) →
  (∀ s, mjson s = text → wire s j = p) →
  sent p None st st' →
  served_run grpc 1 sent (agent_init 0) st (example_labels_of p) (example_agent MReset [] text idle) st'.
Proof.
  intros Henc Htext Hwire Hsent. pose proof (run_served grpc 1 sent _ _ _ st (example_taken grpc j p text Henc Htext)) as H.
  specialize (H ltac:(by repeat constructor)).
  pose proof (step_sent grpc 1 (example_agent MWait [] text [WSend j; WIdle; WIdle]) 0 j None eq_refl eq_refl) as Hstep.
  rewrite (Hwire (example_agent MWait [] text [WSend j; WIdle; WIdle]) eq_refl) in Hstep.
  eapply (served_sent _ _ _ _ _ _ 0 p) in H; [|exact Hstep|exact Hsent].
  eapply served_other in H; [|eapply (step_report _ _ _ 0); [reflexivity|cbn; lia]|done].
  eapply served_other in H; [|by eapply (step_result _ _ _ None)|done].
  exact H.
Qed.

Lemma json_served :
  served_run false 1 direct_sent (agent_init 0) NewMemStorage json_labels (example_agent MReset [] example_text idle)
    (mem_WriteBatchMetrics example_report NewMemStorage).2.
Proof.
  apply (example_served false _ SJson).
  - unfold encode_report. by rewrite example_encoded.
  - intros s _. unfold new_text. by rewrite example_encoded.
  - intros s Hs. unfold wire. by rewrite Hs.
  - exact example_sent.
Qed.

Lemma example_measured p : Forall measured (example_labels_of p).
Proof.
  constructor; [split; [apply (bool_decide_unpack _); vm_compute; exact I|apply fzero_canonical]|].
  constructor; [split_and!; try apply fzero_canonical; done|]. by repeat constructor.
Qed.

Lemma acknowledged_polls_arrive_witness :
  acked (books_of json_labels) = 1 ∧
  ∃ ds, arrived json_labels NewMemStorage (mem_WriteBatchMetrics example_report NewMemStorage).2 ds ∧
    Forall (λ d, exactly_once (told d.1) d.2) ds ∧ polls_taken ds = 1 + 0 * 1.
Proof.
  split; [reflexivity|].
  destruct (proj2 (acknowledged_polls_arrive (H1 := toy_Gzip) (H2 := toy_RSA) (H3 := Router.no_regexp) (H4 := direct_network) started
    "" "" "" "" "srv:8080" "10.0.0.7:4000" "10.1.2.3" None (30 * Second) 1 0 json_labels (example_agent MReset [] example_text idle) NewMemStorage
    (mem_WriteBatchMetrics example_report NewMemStorage).2 plain_linked (memory_ReportsOk false) json_served (example_measured _) I
    (mem_ok_polled NewMemStorage mem_ok_new) ltac:(unfold max_int64; cbn; lia)) (direct_connected _)) as (ds & Ha & Hall & _ & Heq).
  exists ds. split; [exact Ha|]. split; [exact Hall|]. exact (Heq eq_refl).
Defined.

(** The same over a connection that delivers every call. *)
Definition direct_call {S : Type} `{StoreMetrics S} (host : string) (md : gmap string (list string))
    (req : list MetricRequest) (w : world S) : (status_error + string) * world S :=
  match SendMetrics started None (Some md) req w with
  | Ret (r, _, w') => (r, w')
  | _ => (inl (mkStatus code_Unavailable "connection closed"), w)
  end.

Lemma direct_call_connected {S : Type} `{StoreMetrics S} : ConnectedCall (S := S) started None direct_call.
Proof. intros host md req w r log w1 Hs. unfold direct_call. rewrite Hs. exists (now w1). by destruct w1. Qed.

Lemma grpc_plain_linked : grpc_linked started "" "10.1.2.3" None.
Proof. split; [apply (bool_decide_unpack _); vm_compute; exact I|done|by split]. Qed.

Definition grpc_direct : payload → option goerror → MemStorage → MemStorage → Prop :=
  grpc_sent "srv:3200" "10.1.2.3" (λ _, None) direct_call.

Definition grpc_labels : list label := example_labels_of (PProto (EncodeProto example_report)).

Lemma grpc_served :
  served_run true 1 grpc_direct (agent_init 0) NewMemStorage grpc_labels (example_agent MReset [] "" idle)
    (mem_WriteBatchMetrics example_report NewMemStorage).2.
Proof.
  apply (example_served true _ (SProto (EncodeProto example_report))); [done..|].
  exists (EncodeProto example_report), Background, 0, 0, None. split; [done|]. split; [done|].
  unfold MonMetricReq_Send, protoSend, grpcConnector, UnaryClientInterceptor, grpc_max. cbn [retry_loop].
  change (waitRetryBackoff 0 Background (World 0 NewMemStorage)) with (@None status_error, World 0 NewMemStorage).
  cbv iota beta. unfold direct_call.
  by rewrite (grpc_takes started "" "10.1.2.3" None grpc_plain_linked).
Qed.

Lemma grpc_polls_arrive_witness :
  acked (books_of grpc_labels) = 1 ∧
  ∃ ds, arrived grpc_labels NewMemStorage (mem_WriteBatchMetrics example_report NewMemStorage).2 ds ∧
    Forall (λ d, exactly_once (told d.1) d.2) ds ∧ polls_taken ds = 1 + 0 * 1.
Proof.
  split; [reflexivity|].
  destruct (proj2 (grpc_polls_arrive started "" "srv:3200" "10.1.2.3" None (λ _, None) direct_call 1 0 grpc_labels
    (example_agent MReset [] "" idle) NewMemStorage (mem_WriteBatchMetrics example_report NewMemStorage).2
    grpc_plain_linked grpc_served (example_measured _) mem_ok_new ltac:(unfold max_int64; cbn; lia)) direct_call_connected) as (ds & Ha & Hall & _ & Heq).
  exists ds. split; [exact Ha|]. split; [exact Hall|]. exact (Heq eq_refl).
Defined.
