(* ===== verification/Fleet.v ===== *)
(** * Many agents and one server

    Any number of agents ([AgentRun.v]), over HTTP or gRPC, with one server and whoever else uses it, as one
    transition system.  Their steps interleave freely: while the message of one agent is on its way the
    others go on and the server answers them.  A handler of the server is one step.  [Delivery.v] says
    what a call of [Send] does among others; here it is a path of the system ([send_is_fleet_path]). *)

From S2P Require Import Prelude Strconv Float64 GoErrors Metrics MemStorage Json MemFile GoRetry Retrier.
From S2P Require Import StoreSpec Http Chi Routes Handlers Codec SignWriter CryptAndSign Middleware Netip Server StoreSim Agent.
From S2P Require Import EndToEnd Grpc AgentRun Delivery Polls.

Open Scope Z_scope.

Section Fleet.
Context {S : Type} `{AbstractStore S}.

(** ** Agents of a fleet *)

(** An agent: its transport and settings, what one exchange about a payload can do to the server's store, answered
    with success or not, and with which result a call of [Send] may end after so many successful ones. *)
Record member : Type := mkMember {
  over_grpc : bool;
  rate : nat;
  cpus : nat;
  exchange : payload → bool → S → S → Prop;
  may : option goerror → nat → Prop
}.

(** An exchange about a report takes it when it is answered with success, and an agent that is told success has had
    one. *)
Class Contract (m : member) : Prop := {
  exchange_stored ms j p ok s s' :
    Forall Metrics_ok ms ∧ Forall names_ok ms → batch_ok (received (over_grpc m) ms) →
    encode_report (over_grpc m) ms = Some (j, p) → store_ok s → exchange m p ok s s' → stored ms ok s s';
  may_success k : may m None k → (1 ≤ k)%nat;
  contract_reports :: ReportsOk (S := S) (over_grpc m)
}.

(** The network loses nothing. *)
Definition exact (m : member) : Prop := ∀ err k, may m err k → k = success_of err.

(** ** The system *)

(** Each agent with the number of successful exchanges of the message it is sending, and the store. *)
Record fleet : Type := mkFleet { crew : list (agent * nat); site : S }.

Inductive fevent : Type :=
| FStep (i : nat) (l : label)
| FExchange (i w : nat) (ok : bool)
| FSent (i w : nat) (p : payload) (err : option goerror)
| FOther.

Context (other : S → S → Prop) (ms : list member).

Definition fleet_init (st : S) : fleet := mkFleet ((λ m, (agent_init (cpus m), 0%nat)) <$> ms) st.

Inductive fstep : fevent → fleet → fleet → Prop :=
(* any step of an agent but the end of a call of Send *)
| f_step i l m s k s' f :
    ms !! i = Some m → crew f !! i = Some (s, k) → step (over_grpc m) (rate m) l s s' → is_sent l = false →
    fstep (FStep i l) f (mkFleet (<[i := (s', k)]> (crew f)) (site f))
(* the server handles a request of a worker that is sending *)
| f_exchange i w ok m s k j st f :
    ms !! i = Some m → crew f !! i = Some (s, k) → pool s !! w = Some (WSend j) →
    exchange m (wire s j) ok (site f) st →
    fstep (FExchange i w ok) f (mkFleet (<[i := (s, (k + Nat.b2n ok)%nat)]> (crew f)) st)
(* a call of Send ends *)
| f_sent i w p err m s k s' f :
    ms !! i = Some m → crew f !! i = Some (s, k) → step (over_grpc m) (rate m) (LSent w p err) s s' → may m err k →
    fstep (FSent i w p err) f (mkFleet (<[i := (s', 0%nat)]> (crew f)) (site f))
(* other clients *)
| f_other st f : other (site f) st → fstep FOther f (mkFleet (crew f) st).

Inductive fpath (f0 : fleet) : list fevent → fleet → Prop :=
| fpath_nil : fpath f0 [] f0
| fpath_snoc es e f f' : fpath f0 es f → fstep e f f' → fpath f0 (es ++ [e]) f'.

Lemma fpath_trans f es f1 es' f2 : fpath f es f1 → fpath f1 es' f2 → fpath f (es ++ es') f2.
Proof. intros H1. induction 1; [by rewrite app_nil_r|]. rewrite app_assoc. by eapply fpath_snoc. Qed.

Lemma fpath_one e f f' : fstep e f f' → fpath f [e] f'.
Proof. intros Hs. by apply (fpath_snoc f [] e f f' (fpath_nil f)). Qed.

(** *** The history of one agent *)

Definition event_of (i : nat) (e : fevent) : list label :=
  match e with
  | FStep j l => if decide (j = i) then [l] else []
  | FSent j w p err => if decide (j = i) then [LSent w p err] else []
  | _ => []
  end.

Definition history (i : nat) (es : list fevent) : list label := es ≫= event_of i.

Lemma history_app i es es' : history i (es ++ es') = history i es ++ history i es'.
Proof. apply bind_app. Qed.

Lemma history_snoc i es e : history i (es ++ [e]) = history i es ++ event_of i e.
Proof. rewrite history_app. unfold history at 2. cbn. by rewrite app_nil_r. Qed.

(** What the machines measured, and not too many polls to count. *)
Definition tame (es : list fevent) : Prop :=
  ∀ i, Forall measured (history i es) ∧ polls (books_of (history i es)) ≤ max_int64.

Lemma tame_prefix es es' : tame (es ++ es') → tame es.
Proof.
  intros Ht i. destruct (Ht i) as [Hm Hp]. rewrite history_app in Hm, Hp. apply Forall_app in Hm as [Hm _]. split; [done|].
  etrans; [|exact Hp]. unfold books_of. rewrite foldl_app. fold (books_of (history i es)).
  clear. generalize (books_of (history i es)). induction (history i es') as [|l ls IH]; intros b; [done|]. cbn [foldl].
  etrans; [apply (book_polls_le b l)|apply IH].
Qed.

(** ** What an agent knows, and what has arrived *)

(** The polls an agent holds for acknowledged, will once it has read the results on their way, or has had taken for
    the message it is sending. *)
Definition known (b : books) (x : agent * nat) : Z :=
  acked b + (Z.of_nat (awaiting x.1) + Z.of_nat x.2) * pollCount (snap_sys b).

Definition sending (s : agent) : Prop := ∃ w j, pool s !! w = Some (WSend j).

(** The polls of an agent that have arrived: those of the report it is sending, for every exchange about it that the
    server answered with success. *)
Definition gain (i : nat) (b : books) (e : fevent) : Z :=
  match e with FExchange j _ true => if decide (j = i) then pollCount (snap_sys b) else 0 | _ => 0 end.

Fixpoint taken_from (i : nat) (b : books) (es : list fevent) : Z :=
  match es with [] => 0 | e :: es => gain i b e + taken_from i (foldl book b (event_of i e)) es end.
Definition taken (i : nat) (es : list fevent) : Z := taken_from i books_init es.

Lemma taken_snoc i es e : taken i (es ++ [e]) = taken i es + gain i (books_of (history i es)) e.
Proof.
  unfold taken, books_of. generalize books_init. induction es as [|e' es IH]; intros b; cbn -[gain]; [lia|].
  rewrite IH. unfold history. cbn [mbind list_bind]. rewrite foldl_app. lia.
Qed.

Lemma gain_other i b e : (∀ w, e ≠ FExchange i w true) → gain i b e = 0.
Proof. intros He. destruct e as [|j w []| |]; cbn; try done. case_decide as Hj; [|done]. subst. by destruct (He w). Qed.

Definition all_taken (es : list fevent) : Z := sum ((λ i, taken i es) <$> seq 0 (length ms)).

Lemma all_taken_snoc es e i :
  (i < length ms)%nat → (∀ j w, j ≠ i → e ≠ FExchange j w true) →
  all_taken (es ++ [e]) = all_taken es + gain i (books_of (history i es)) e.
Proof.
  intros Hi He. unfold all_taken.
  assert (∀ n, sum ((λ j, taken j (es ++ [e])) <$> seq 0 n) =
    sum ((λ j, taken j es) <$> seq 0 n) + if decide (i < n)%nat then gain i (books_of (history i es)) e else 0) as Hn.
  { induction n as [|n IH]; [done|]. rewrite seq_S, !fmap_app, !sum_app, IH. unfold sum at 2 4. cbn [fmap list_fmap foldr Nat.add].
    rewrite taken_snoc. destruct (decide (n = i)) as [->|Hne].
    - rewrite decide_False, decide_True by lia. lia.
    - rewrite (gain_other n) by (intros w; by apply He). repeat case_decide; lia. }
  rewrite Hn, decide_True by done. done.
Qed.

(** What has arrived from an agent, against what it knows. *)
Definition arrived_ok (m : member) (ls : list label) (x : agent * nat) (n : Z) : Prop :=
  known (books_of ls) x ≤ n ∧ (exact m → ctx_done x.1 = false → n = known (books_of ls) x).

Lemma sending_busy s w j : pool s !! w = Some (WSend j) → (1 ≤ in_flight s)%nat.
Proof. intros Hw. unfold in_flight. pose proof (wsum_insert AgentRun.busy _ _ _ WIdle Hw) as Hs. cbn in Hs. lia. Qed.

Lemma step_sending grpc rl l s s' : step grpc rl l s s' → is_sent l = false → sending s → sending s'.
Proof.
  intros Hstep Hl (w & j & Hw). exists w, j. revert Hl.
  destruct Hstep; cbn [pool set_at set_model set_json set_chans set_sys set_kern set_done]; try done; intros _;
    (rewrite list_lookup_insert_ne; [done|intros ->; congruence]).
Qed.

(** The last snapshot stays while a message is on its way. *)
Lemma step_snap grpc rl l s s' b :
  step grpc rl l s s' → flight_ok s → sending s → pollCount (snap_sys (book b l)) = pollCount (snap_sys b).
Proof.
  intros Hstep Hf (w & j & Hw). apply sending_busy in Hw. unfold flight_ok in Hf.
  destruct Hstep; cbn [book snap_sys]; try done; try (destruct err; done).
  rewrite H1 in Hf. lia.
Qed.

(** Each agent does what it does by itself; only a message on its way has had exchanges. *)
Definition agents_ok (es : list fevent) (f : fleet) : Prop :=
  ∀ i m x, ms !! i = Some m → crew f !! i = Some x →
    run (over_grpc m) (rate m) (agent_init (cpus m)) (history i es) x.1 ∧ (x.2 = 0%nat ∨ sending x.1).

Lemma agents_ok_insert es e f i m x x' st :
  agents_ok es f → ms !! i = Some m → crew f !! i = Some x → (∀ j, j ≠ i → event_of j e = []) →
  run (over_grpc m) (rate m) (agent_init (cpus m)) (history i es ++ event_of i e) x'.1 ∧ (x'.2 = 0%nat ∨ sending x'.1) →
  agents_ok (es ++ [e]) (mkFleet (<[i := x']> (crew f)) st).
Proof.
  intros Hf Hm Hx He Hx' j m' y Hm' Hy. cbn [crew] in Hy. rewrite history_snoc. destruct (decide (j = i)) as [->|Hj].
  - apply list_lookup_insert_Some in Hy as [(_ & <- & _)|[Hne _]]; [|done]. rewrite Hm in Hm'. by injection Hm' as <-.
  - rewrite list_lookup_insert_ne in Hy by done. rewrite He, app_nil_r by done. by eapply Hf.
Qed.

Lemma path_agents st0 es f : fpath (fleet_init st0) es f → agents_ok es f.
Proof.
  induction 1 as [|es e f f' Hp IH Hstep].
  - intros i m x Hm Hx. unfold fleet_init in Hx. cbn [crew] in Hx. rewrite list_lookup_fmap, Hm in Hx. injection Hx as <-.
    split; [constructor|by left].
  - destruct Hstep as [i l m s k s' f Hm Hx Hs Hl|i w ok m s k j st f Hm Hx Hw Hex|i w p err m s k s' f Hm Hx Hs Hmay|st f Ho];
      try (destruct (IH _ _ _ Hm Hx) as [Hrun Hsend]; cbn [fst snd] in Hrun, Hsend; eapply agents_ok_insert; [done..| |]);
      cbn [event_of fst snd]; try (intros j' Hj; by rewrite ?decide_False by done); rewrite ?decide_True, ?app_nil_r by done.
    + split; [by eapply run_snoc|]. destruct Hsend as [Hz|Hsend]; [by left|right]. by eapply step_sending.
    + split; [done|]. right. by exists w, j.
    + split; [by eapply run_snoc|by left].
    + intros i m x Hm Hx. rewrite history_snoc. cbn [event_of]. rewrite app_nil_r. by apply IH.
Qed.

Lemma known_step grpc rl l s s' k b :
  step grpc rl l s s' → is_sent l = false → flight_ok s → k = 0%nat ∨ sending s → known (book b l) (s', k) = known b (s, k).
Proof.
  intros Hstep Hl Hf Hk. pose proof (step_awaiting _ _ _ _ _ b Hstep Hf) as Ha. cbv zeta in Ha.
  assert (Z.of_nat k * pollCount (snap_sys (book b l)) = Z.of_nat k * pollCount (snap_sys b)) as Hsnap
    by (destruct Hk as [->|Hs]; [lia|by rewrite (step_snap _ _ _ _ _ b Hstep Hf Hs)]).
  unfold known. cbn [fst snd]. destruct l; try done; cbn [is_sent] in Hl; lia.
Qed.

(** When [Send] returns, what was taken for the message becomes a result on its way. *)
Lemma known_sent grpc rl w p err s s' k b :
  step grpc rl (LSent w p err) s s' → flight_ok s → 0 ≤ pollCount (snap_sys b) → (err = None → 1 ≤ k)%nat →
  known (book b (LSent w p err)) (s', 0%nat) ≤ known b (s, k) ∧
  (ctx_done s = false → k = success_of err → known (book b (LSent w p err)) (s', 0%nat) = known b (s, k)).
Proof.
  intros Hstep Hf Hp Hk. destruct (step_awaiting _ _ _ _ _ b Hstep Hf) as (Ha & Hack & Hsnap). unfold known. cbn [fst snd].
  rewrite Hack, Hsnap. split.
  - destruct (ctx_done s); rewrite Ha; [nia|]. destruct err; cbn [success_of]; [nia|]. specialize (Hk eq_refl). nia.
  - intros Hd ->. rewrite Hd in Ha. rewrite Ha. lia.
Qed.

(** *** What an exchange does to the server's count *)

Lemma exchange_polled m ls s w j ok st st' :
  Contract m → run (over_grpc m) (rate m) (agent_init (cpus m)) ls s → pool s !! w = Some (WSend j) → Forall measured ls →
  store_ok st → is_int64 (polled (abs st)) → exchange m (wire s j) ok st st' →
  store_ok st' ∧ polled (abs st') = wrap64 (polled (abs st) + Z.of_nat (Nat.b2n ok) * pollCount (snap_sys (books_of ls))).
Proof.
  intros Hm Hrun Hw Hms Hst Hi Hex. destruct (sending_report _ _ _ _ _ _ _ Hrun Hw Hms) as (Hs & Hok & Henc).
  set (R := report (snap_rtm (books_of ls)) (snap_sys (books_of ls)) (snap_kern (books_of ls))) in *.
  destruct (encode_report (over_grpc m) R) as [[j' q]|] eqn:Ht; [|done]. injection Henc as ->.
  destruct (exchange_stored R j' _ ok st st' Hok (reports_ok _ _ _ Hs (proj1 Hok)) Ht Hst Hex) as [Hst' Ha]. split; [done|].
  rewrite Ha. destruct ok; cbn [Nat.b2n]; [|by rewrite Z.add_0_r, wrap64_id].
  exact (polled_copies 1 (snap_rtm (books_of ls)) (snap_sys (books_of ls)) (snap_kern (books_of ls)) (abs st) Hs Hi).
Qed.

(** ** The whole fleet *)

Definition fleet_ok (st0 : S) (es : list fevent) (f : fleet) : Prop :=
  store_ok (site f) ∧ polled (abs (site f)) = wrap64 (polled (abs st0) + all_taken es) ∧
  ∀ i m x, ms !! i = Some m → crew f !! i = Some x → arrived_ok m (history i es) x (taken i es).

(** One agent of the fleet has moved on. *)
Lemma fleet_ok_insert st0 es e f i m x x' st :
  let more := gain i (books_of (history i es)) e in
  fleet_ok st0 es f → ms !! i = Some m → crew f !! i = Some x →
  (∀ j, j ≠ i → event_of j e = [] ∧ ∀ w, e ≠ FExchange j w true) →
  arrived_ok m (history i (es ++ [e])) x' (taken i es + more) →
  store_ok st → polled (abs st) = wrap64 (polled (abs (site f)) + more) →
  fleet_ok st0 (es ++ [e]) (mkFleet (<[i := x']> (crew f)) st).
Proof.
  cbv zeta. intros (_ & Hp & Hall) Hm Hx He Hx' Hst Hpst. split; [done|]. split.
  - cbn [site]. rewrite Hpst, Hp, wrap64_add_l, (all_taken_snoc es e i); [f_equal; lia|by eapply lookup_lt_Some|].
    intros j w Hj. by apply He.
  - intros j m' y Hm' Hy. cbn [crew] in Hy. destruct (decide (j = i)) as [->|Hj].
    + apply list_lookup_insert_Some in Hy as [(_ & <- & _)|[Hne _]]; [|done]. rewrite Hm in Hm'. injection Hm' as <-.
      by rewrite taken_snoc.
    + rewrite list_lookup_insert_ne in Hy by done. destruct (He j Hj) as [Hev Hex].
      rewrite history_snoc, taken_snoc, Hev, app_nil_r, gain_other, Z.add_0_r by done. by apply Hall.
Qed.

Hypothesis contracts : ∀ i m, ms !! i = Some m → Contract m.
Hypothesis others_leave : ∀ s s', store_ok s → other s s' → store_ok s' ∧ polled (abs s') = polled (abs s).

Lemma init_ok st0 : store_ok st0 → is_int64 (polled (abs st0)) → fleet_ok st0 [] (fleet_init st0).
Proof.
  intros Hst Hi. split; [done|]. split.
  - cbn [site fleet_init]. assert (all_taken [] = 0) as ->.
    { unfold all_taken. generalize (seq 0 (length ms)). intros l. induction l as [|j l IH]; [done|]. unfold sum in *. cbn in *. lia. }
    by rewrite Z.add_0_r, wrap64_id.
  - intros i m x Hm Hx. unfold fleet_init in Hx. cbn [crew] in Hx. rewrite list_lookup_fmap, Hm in Hx. injection Hx as <-.
    by split.
Qed.

Lemma step_ok st0 es e f f' :
  agents_ok es f → fleet_ok st0 es f → is_int64 (polled (abs st0)) → tame (es ++ [e]) → fstep e f f' →
  fleet_ok st0 (es ++ [e]) f'.
Proof.
  intros Hag Hf Hi Ht Hstep. pose proof (tame_prefix _ _ Ht) as Ht0. pose proof Hf as (Hst & Hp & Hall).
  assert (is_int64 (polled (abs (site f)))) as Hpi by (rewrite Hp; apply wrap64_range).
  destruct Hstep as [i l m s k s' f Hm Hx Hs Hl|i w ok m s k j st f Hm Hx Hw Hex|i w p err m s k s' f Hm Hx Hs Hmay|st f Ho];
    try (destruct (Hag _ _ _ Hm Hx) as [Hrun Hsend]; destruct (run_invariant _ _ _ _ _ Hrun) as (Hfl & _ & _ & Hpo);
         destruct (Hall _ _ _ Hm Hx) as [Hk He]; cbn [fst snd] in *; eapply fleet_ok_insert; [done..| | | |]);
    try (intros j' Hj'; cbn; rewrite ?decide_False by done; by split); cbn [gain]; rewrite ?Z.add_0_r, ?wrap64_id by done; try done.
  - rewrite history_snoc. cbn [event_of]. rewrite decide_True by done.
    unfold arrived_ok. cbn [fst]. rewrite books_snoc, (known_step _ _ _ _ _ _ _ Hs Hl Hfl Hsend). split; [done|].
    intros Hx0 Hd. apply He; [done|]. by eapply ctx_done_step.
  - intros j' Hj'. split; [done|]. by intros w' [= ->].
  - rewrite history_snoc. cbn [event_of]. rewrite app_nil_r. unfold arrived_ok. cbn [fst].
    assert (known (books_of (history i es)) (s, (k + Nat.b2n ok)%nat) =
      known (books_of (history i es)) (s, k) + (if ok then if decide (i = i) then pollCount (snap_sys (books_of (history i es))) else 0 else 0)) as Hkn
      by (unfold known; cbn [fst snd]; destruct ok; rewrite ?decide_True by done; cbn [Nat.b2n]; lia).
    split; [lia|]. intros Hx0 Hd. by rewrite Hkn, <- He.
  - by destruct (exchange_polled m _ s w j ok (site f) st (contracts _ _ Hm) Hrun Hw (proj1 (Ht0 i)) Hst Hpi Hex).
  - destruct (exchange_polled m _ s w j ok (site f) st (contracts _ _ Hm) Hrun Hw (proj1 (Ht0 i)) Hst Hpi Hex) as [_ ->].
    f_equal. destruct ok; rewrite ?decide_True by done; cbn [Nat.b2n]; lia.
  - destruct (Hpo (proj2 (Ht0 i))) as (_ & _ & _ & Hpos & _).
    destruct (known_sent _ _ _ _ _ _ _ k _ Hs Hfl Hpos) as [Hle Heq].
    { intros ->. by eapply (may_success (Contract := contracts _ _ Hm)). }
    rewrite history_snoc. cbn [event_of]. unfold arrived_ok. rewrite decide_True, books_snoc by done. split; [lia|].
    intros Hx0 Hd. cbn [fst] in Hd. apply (ctx_done_step _ _ _ _ _ Hs) in Hd. rewrite Heq; [by apply He|done|by apply Hx0].
  - destruct (others_leave _ _ Hst Ho) as [Hst' Hp']. split; [done|].
    assert (∀ i, taken i (es ++ [FOther]) = taken i es) as Htk by (intros i; rewrite taken_snoc; cbn; lia).
    split; [cbn [site]; rewrite Hp', Hp; f_equal; f_equal; unfold all_taken; f_equal; by apply list_fmap_ext|].
    intros i m x Hm Hx. rewrite history_snoc, Htk. cbn [event_of]. rewrite app_nil_r. by eapply Hall.
Qed.

Lemma path_ok st0 es f :
  fpath (fleet_init st0) es f → tame es → store_ok st0 → is_int64 (polled (abs st0)) → fleet_ok st0 es f.
Proof.
  intros Hp Ht Hst Hi. induction Hp as [|es e f f' Hp IH Hs]; [by apply init_ok|].
  pose proof (IH (tame_prefix _ _ Ht)) as Hf. apply path_agents in Hp. by eapply step_ok.
Qed.
End Fleet.

#[global] Arguments member S : clear implicits.
#[global] Arguments fleet S : clear implicits.

(** ** What arrives from a fleet *)

(** [C2] Any number of agents, over HTTP or gRPC, report to one server with any store that keeps its contract, while
    other clients use it as well and leave PollCount alone.  At every moment of every execution [es] the server's
    PollCount is where it started plus what has arrived from each agent (in [int64] arithmetic), where [taken i es] is read
    off the execution: for every exchange of agent [i] that the server answered with success, the polls of the
    report that agent was sending.  From each agent at least the polls it holds for acknowledged have arrived, whatever
    its network loses; and if its network loses nothing, until its shutdown begins exactly these, those of the result on
    its way to its main goroutine, and those of the message it is sending if the server has taken it.  So
    agents neither hide nor add to each other's polls. *)
Theorem fleet_polls_arrive {S : Type} `{AbstractStore S} (other : S → S → Prop) (ms : list (member S))
    (st0 : S) (es : list fevent) (f : fleet S)
    (Hms : ∀ i m, ms !! i = Some m → Contract m)
    (Hother : ∀ s s', store_ok s → other s s' → store_ok s' ∧ polled (abs s') = polled (abs s))
    (Hrun : fpath other ms (fleet_init ms st0) es f) (Htame : tame es) (Hst : store_ok st0) (Hi : is_int64 (polled (abs st0))) :
  polled (abs (site f)) = wrap64 (polled (abs st0) + sum ((λ i, taken i es) <$> seq 0 (length ms))) ∧
  ∀ i m s k, ms !! i = Some m → crew f !! i = Some (s, k) →
    acked (books_of (history i es)) ≤ taken i es ∧
    (exact m → ctx_done s = false → taken i es = known (books_of (history i es)) (s, k)).
Proof.
  destruct (path_ok other ms Hms Hother st0 es f Hrun Htame Hst Hi) as (_ & Hp & Hall).
  split; [exact Hp|]. intros i m s k Hm Hx. destruct (Hall _ _ _ Hm Hx) as [Hk He]. split; [|by apply He].
  destruct (path_agents other ms _ _ _ Hrun _ _ _ Hm Hx) as [Hr _]. destruct (run_invariant _ _ _ _ _ Hr) as (_ & _ & _ & Hpo).
  destruct (Hpo (proj2 (Htame i))) as (_ & _ & _ & Hpos & _). unfold known in Hk. cbn [fst snd] in Hk. nia.
Qed.

(** ** Agents over HTTP *)

Section Http.
Context {S : Type} `{AbstractStore S} `{Gzip} `{RSA} `{Router.Regexp} (mh : metricHandlers).
Context (key pubkeypath privkeypath subnets peer xRealIp : string) (ps : option (list Prefix)).

(** An exchange about a payload: the server handles a request with the text, encrypted. *)
Definition json_exchange (p : payload) (ok : bool) (s s' : S) : Prop :=
  ∃ text c, p = PJson text ∧ encrypted pubkeypath text c ∧
    http_exchange (chiRouter mh key privkeypath ps) key c xRealIp peer ok s s'.

Definition json_member (rate cpus : nat) (lossless : Prop) : member S :=
  mkMember false rate cpus json_exchange (λ err k, at_least_once err k ∧ (lossless → exactly_once err k)).

Hypothesis link : linked mh pubkeypath privkeypath subnets xRealIp ps.

Lemma json_contract rate cpus lossless : ReportsOk (S := S) false → Contract (json_member rate cpus lossless).
Proof using link.
  intros Hrep. split; cbn [over_grpc exchange may json_member].
  - intros ms j p ok s s' Hms Hb Henc Hs (text & c & -> & Hc & Hex). unfold encode_report in Henc.
    destruct (encode_slice (Some ms)) as [q|] eqn:Htext; [|done]. injection Henc as <- ->.
    exact (http_stored mh key pubkeypath privkeypath subnets peer xRealIp ps link ms text c ok s s' Hms Htext Hc Hb Hs Hex).
  - intros k [[_ Hk] _]. by apply Hk.
  - exact Hrep.
Qed.
End Http.

(** ** Agents over gRPC, with the in-memory store *)

Definition grpc_member (mh : metricHandlers) (xRealIp : string) (ps : option (list Prefix)) (rate cpus : nat) (lossless : Prop) :
    member MemStorage :=
  mkMember true rate cpus (λ p ok s s', ∃ req, p = PProto req ∧ grpc_exchange mh ps xRealIp req ok s s')
    (λ err k, at_least_once err k ∧ (lossless → exactly_once err k)).

Lemma grpc_contract mh subnets xRealIp ps rate cpus lossless :
  grpc_linked mh subnets xRealIp ps → Contract (grpc_member mh xRealIp ps rate cpus lossless).
Proof.
  intros Hlink. split; cbn [over_grpc exchange may grpc_member].
  - intros ms j p ok s s' Hms Hb Henc Hs (req & -> & Hex). injection Henc as <- <-. by eapply grpc_stored.
  - intros k [[_ Hk] _]. by apply Hk.
  - apply memory_ReportsOk.
Qed.

(** ** A call of Send is a path of the fleet *)

Section Paths.
Context {S : Type} `{AbstractStore S} (other : S → S → Prop) (ms : list (member S)) (i : nat).

(** The store in the fleet, as the agent [i] finds it. *)
#[export] Instance fleet_site : Site (fleet S) S := {|
  here f := site f;
  arrive ok s f :=
    mkFleet (match crew f !! i with Some (a, k) => <[i := (a, (k + Nat.b2n ok)%nat)]> (crew f) | None => crew f end) s;
  here_arrive _ _ _ := eq_refl
|}.

(** Not about the message that the agent [i] is sending. *)
Definition not_of (e : fevent) : Prop :=
  match e with FExchange j _ _ | FSent j _ _ _ => j ≠ i | FStep _ _ | FOther => True end.

(** What happens without the sender: steps of the others and of its other goroutines. The store stays in a state its
    contract covers, as it does on every path from a start ([path_ok]). *)
Definition without (f f' : fleet S) : Prop :=
  (∃ es, fpath other ms f es f' ∧ Forall not_of es) ∧ (store_ok (site f) → store_ok (site f')).

#[export] Instance without_preorder : PreOrder without.
Proof.
  split.
  - intros f. split; [|done]. exists []. by split; [constructor|].
  - intros f1 f2 f3 [(es & Hp & Hn) Hs] [(es' & Hp' & Hn') Hs']. split; [|auto]. exists (es ++ es').
    split; [by eapply fpath_trans|by apply Forall_app].
Qed.

Lemma without_keeps : keeps_ok without.
Proof. intros f f' [_ Hs]. exact Hs. Qed.

Context (m : member S) (Hm : ms !! i = Some m).

(** The agent [i] in the middle of a call of [Send], with [k] successful exchanges so far. *)
Definition at_send (w : nat) (p : payload) (k : nat) (f : fleet S) : Prop :=
  ∃ s j, crew f !! i = Some (s, k) ∧ pool s !! w = Some (WSend j) ∧ wire s j = p ∧ flight_ok s.

Lemma step_wire grpc rl l s s' w j :
  step grpc rl l s s' → is_sent l = false → flight_ok s → pool s !! w = Some (WSend j) →
  pool s' !! w = Some (WSend j) ∧ wire s' j = wire s j.
Proof.
  intros Hstep Hl Hf Hw. pose proof (sending_busy s w j Hw) as Hb. unfold flight_ok in Hf. revert Hl.
  destruct Hstep; cbn [pool set_at set_model set_json set_chans set_sys set_kern set_done]; try done; intros _;
    try (rewrite list_lookup_insert_ne; [done|intros ->; congruence]);
    match goal with Ha : at_ s = _ |- _ => rewrite Ha in Hf; lia end.
Qed.

Lemma at_send_step w p k e f f' : fstep other ms e f f' → not_of e → at_send w p k f → at_send w p k f'.
Proof using Hm.
  intros Hstep He (s & j & Hc & Hw & Hp & Hf).
  destruct Hstep as [i' l m' s1 k1 s1' f Hm' Hx Hs Hl|i' w' ok m' s1 k1 j' st f Hm' Hx Hw' Hex|i' w' p' err m' s1 k1 s1' f Hm' Hx Hs Hmay|st f Ho];
    cbn [not_of] in He; unfold at_send; cbn [crew].
  - destruct (decide (i' = i)) as [->|Hi]; [|exists s, j; by rewrite list_lookup_insert_ne].
    rewrite Hc in Hx. injection Hx as <- <-. destruct (step_wire _ _ _ _ _ w j Hs Hl Hf Hw) as [Hw1 Hp1].
    exists s1', j. rewrite list_lookup_insert_eq by (by eapply lookup_lt_Some). split_and!; [done|done|by rewrite Hp1|by eapply step_flight].
  - exists s, j. by rewrite list_lookup_insert_ne.
  - exists s, j. by rewrite list_lookup_insert_ne.
  - by exists s, j.
Qed.

Lemma at_send_path w p k es f f' : fpath other ms f es f' → Forall not_of es → at_send w p k f → at_send w p k f'.
Proof using Hm.
  induction 1 as [|es e f1 f2 Hp IH Hs]; [done|]. intros [Hes [He _]%Forall_cons]%Forall_app Ha. eapply at_send_step; [done..|by apply IH].
Qed.

(** The exchanges of a call among the steps of the others are a path. *)
Lemma deliveries_path w p k0 k f f' :
  deliveries without (exchange m p) k f f' → at_send w p k0 f → (∃ es, fpath other ms f es f') ∧ at_send w p (k0 + k) f'.
Proof using Hm.
  induction 1 as [f f' [(es & Hp & Hn) _]|k ok f f1 s f' Hd IH He [(es & Hp & Hn) _]]; intros Ha.
  - rewrite Nat.add_0_r. split; [by exists es|]. by eapply at_send_path.
  - destruct (IH Ha) as [[es1 Hp1] (a & j & Hc & Hw & Hwire & Hf)].
    assert (fstep other ms (FExchange i w ok) f1 (arrive ok s f1)) as Hx.
    { unfold arrive, fleet_site. rewrite Hc. eapply f_exchange; [exact Hm|exact Hc|exact Hw|]. by rewrite Hwire. }
    split; [exists (es1 ++ [FExchange i w ok] ++ es); eapply fpath_trans; [exact Hp1|]; eapply fpath_trans; [by apply fpath_one|exact Hp]|].
    eapply at_send_path; [exact Hp|exact Hn|]. unfold at_send, arrive, fleet_site. rewrite Hc. cbn [crew]. exists a, j.
    rewrite list_lookup_insert_eq by (by eapply lookup_lt_Some). by rewrite Nat.add_assoc.
Qed.

(** Then the worker has the result. *)
Lemma send_ends w p k err f :
  at_send w p k f → may m err k →
  ∃ s, fpath other ms f [FSent i w p err] (mkFleet (<[i := (s, 0%nat)]> (crew f)) (site f)).
Proof using Hm.
  intros (s & j & Hc & Hw & <- & _) Hmay.
  assert (∃ s', step (over_grpc m) (rate m) (LSent w (wire s j) err) s s') as [s' Hs].
  { destruct ((shutdownCatcher s "worker shutdown").1) eqn:Hd; eexists; [by eapply step_sent_stop|by eapply step_sent]. }
  exists s'. apply fpath_one. by eapply f_sent.
Qed.

Lemma send_path w p k err f f' :
  deliveries without (exchange m p) k f f' → at_send w p 0 f → may m err k →
  ∃ es s, fpath other ms f (es ++ [FSent i w p err]) (mkFleet (<[i := (s, 0%nat)]> (crew f')) (site f')).
Proof using Hm.
  intros Hd Hsend Hmay. destruct (deliveries_path w p 0 k f f' Hd Hsend) as [[es Hp] Hat].
  destruct (send_ends w p _ err _ Hat Hmay) as [s Hend]. exists es, s. by eapply fpath_trans.
Qed.
End Paths.

(** [C3] The code's [Send] in a fleet: let the worker [w] of the agent [i] be about to send the text of a report, in
    any state the fleet can come to, over a network that may lose requests and answers while everything else
    goes on.  Then [Send] returns, and what has happened to the fleet in the meantime, with the worker's
    result, is a path of the fleet: exchanges with the server among steps of the others, and a result that
    the agent may get after that many.  So the executions of the programs are among those of
    [fleet_polls_arrive]. *)
Theorem send_is_fleet_path {S : Type} `{AbstractStore S} `{Gzip} `{RSA} `{Router.Regexp} (other : S → S → Prop) (ms : list (member S))
    (i : nat) `{Network (fleet S)} (mh : metricHandlers)
    (key pubkeypath privkeypath subnets serverHost peer xRealIp text : string) (ps : option (list Prefix)) (timeout t0 : Z)
    (rate cpus w : nat) (lossless : Prop) (st0 : S) (es0 : list fevent) (f : fleet S) (ctx : context) (r : headers)
    (Hms : ∀ i m, ms !! i = Some m → Contract m)
    (Hother : ∀ s s', store_ok s → other s s' → store_ok s' ∧ polled (abs s') = polled (abs s))
    (Hi : ms !! i = Some (json_member mh key pubkeypath privkeypath peer xRealIp ps rate cpus lossless))
    (Hlink : linked mh pubkeypath privkeypath subnets xRealIp ps)
    (Hrun : fpath other ms (fleet_init ms st0) es0 f) (Htame : tame es0) (Hst : store_ok st0) (Hpolled : is_int64 (polled (abs st0)))
    (Hsend : at_send i w (PJson text) 0 f) (Hr : agent_headers r) :
  let base := if HasPrefix serverHost httpProto then serverHost else "http://" +:+ serverHost in
  Lossy (H := fleet_site i) (without other ms i) (chiRouter mh key privkeypath ps) base peer ∧ ¬ lossless ∨
    Reliable (H := fleet_site i) (without other ms i) (chiRouter mh key privkeypath ps) base peer →
  ∃ err t r' f', Send (mkSend text key pubkeypath timeout) ctx serverHost xRealIp (World t0 (r, f)) = Ret (err, World t (r', f')) ∧
    agent_headers r' ∧
    ∃ es s, fpath other ms f (es ++ [FSent i w (PJson text) err]) (mkFleet (<[i := (s, 0%nat)]> (crew f')) (site f')).
Proof.
  cbv zeta. intros Hnet. pose proof Hsend as (s & j & Hc & Hw & Hwire & Hf).
  destruct (path_agents other ms _ _ _ Hrun _ _ _ Hi Hc) as [Hrun_i _]. cbn [fst over_grpc] in Hrun_i.
  destruct (sending_report _ _ _ _ _ _ _ Hrun_i Hw (proj1 (Htame i))) as (Hs & Hok & Henc). rewrite Hwire in Henc. cbn [over_grpc json_member] in Henc.
  destruct (path_ok other ms Hms Hother st0 es0 f Hrun Htame Hst Hpolled) as [Hstore _].
  set (R := report _ _ _) in *. unfold encode_report in Henc. destruct (encode_slice (Some R)) as [q|] eqn:Htext; [|done].
  injection Henc as ->.
  destruct (message_deliveries mh key pubkeypath privkeypath subnets serverHost peer xRealIp ps timeout Hlink (N := fleet S)
    (H4 := fleet_site i) (without other ms i) lossless R text ctx r f t0 (without_keeps other ms i) Hnet Hr Hok Htext Hstore)
    as (c & Hcrypt & err & t & r' & f' & k & HS & Hr' & _ & Hd & Hk & Hone & Hex).
  { pose proof (contract_reports (Contract := Hms _ _ Hi)) as Hrep. exact (Hrep _ _ _ Hs (proj1 Hok)). }
  exists err, t, r', f'. split; [exact HS|]. split; [exact Hr'|].
  eapply (send_path other ms i _ Hi); [|exact Hsend|].
  - eapply deliveries_mono; [|exact Hd]. intros ok s1 s2 Hx. exists text, c. by split.
  - split; [|intros Hx; specialize (Hex Hx); unfold exactly_once, success_of; by destruct err].
    by split.
Qed.

(** The same for a call over gRPC, on the in-memory store. *)
Lemma grpc_send_is_fleet_path (other : MemStorage → MemStorage → Prop) (ms : list (member MemStorage)) (i : nat)
    (mh : metricHandlers) (subnets serverHost xRealIp : string) (ps : option (list Prefix)) (connect : string → option status_error)
    (call : string → gmap string (list string) → list MetricRequest → world (fleet MemStorage) →
            (status_error + string) * world (fleet MemStorage))
    (rate cpus w : nat) (lossless : Prop) (R : list Metrics) (f : fleet MemStorage) (ctx : context) t0 e w' :
  ms !! i = Some (grpc_member mh xRealIp ps rate cpus lossless) → grpc_linked mh subnets xRealIp ps →
  at_send i w (PProto (EncodeProto R)) 0 f →
  LossyCall (H := fleet_site i) (without other ms i) mh ps call ∧ ¬ lossless ∨
    ReliableCall (H := fleet_site i) (without other ms i) mh ps call →
  MonMetricReq_Send connect call (EncodeProto R) ctx serverHost xRealIp (World t0 f) = (e, w') →
  ∀ err, (err = None ↔ e = None) →
  ∃ es s, fpath other ms f (es ++ [FSent i w (PProto (EncodeProto R)) err])
    (mkFleet (<[i := (s, 0%nat)]> (crew (store w'))) (site (store w'))).
Proof.
  intros Hi Hlink Hsend Hnet HS err He.
  destruct (call_deliveries mh subnets xRealIp ps Hlink (H := fleet_site i) (without other ms i) connect call lossless R ctx
    serverHost t0 f e w' Hnet HS) as (k & Hd & Hk & Hone & Hex).
  eapply (send_path other ms i _ Hi); [|exact Hsend|].
  - eapply deliveries_mono; [|exact Hd]. intros ok s1 s2 Hx. by exists (EncodeProto R).
  - split; [|intros Hx; rewrite (Hex Hx); unfold exactly_once, success_of; destruct He as [He1 He2], err, e; [done|by discriminate He2|by discriminate He1|done]].
    split; [lia|]. intros ->. by apply Hone, He.
Qed.

(** ** An example *)

(** What an agent does without sending is a path of the fleet. *)
Lemma run_path {S : Type} `{AbstractStore S} (other : S → S → Prop) (ms : list (member S)) i m s0 k ls s f :
  ms !! i = Some m → crew f !! i = Some (s0, k) → run (over_grpc m) (rate m) s0 ls s → Forall (λ l, is_sent l = false) ls →
  fpath other ms f (FStep i <$> ls) (mkFleet (<[i := (s, k)]> (crew f)) (site f)).
Proof.
  intros Hm Hc. induction 1 as [|ls l s s' Hrun IH Hs]; intros Hls.
  - rewrite list_insert_id by done. destruct f. constructor.
  - apply Forall_app in Hls as [Hls [Hl _]%Forall_cons]. rewrite fmap_app. eapply fpath_snoc; [by apply IH|].
    pose proof (f_step other ms i l m s k s' (mkFleet (<[i := (s, k)]> (crew f)) (site f)) Hm
      (list_lookup_insert_eq _ _ _ (lookup_lt_Some _ _ _ Hc)) Hs Hl) as Hx. cbn [crew site] in Hx.
    by rewrite list_insert_insert_eq in Hx.
Qed.

#[local] Opaque chiRouter Send SendMetrics example_text parseRtm parseKernMetrics.

(** An agent over HTTP and one over gRPC. *)
Definition example_members (lossless : Prop) : list (member MemStorage) :=
  [json_member (H1 := toy_Gzip) (H2 := toy_RSA) (H3 := Router.no_regexp) started "" "" "" "10.0.0.7:4000" "10.1.2.3" None 1 0 lossless;
   grpc_member started "10.1.2.3" None 1 0 lossless].

Definition proto_payload : payload := PProto (EncodeProto example_report).

Lemma example_contracts lossless i m : example_members lossless !! i = Some m → Contract m.
Proof.
  destruct i as [|[|i]]; [intros [= <-]|intros [= <-]|done].
  - eapply json_contract; [exact plain_linked|apply memory_ReportsOk].
  - eapply grpc_contract; exact grpc_plain_linked.
Qed.

Lemma other_clients_leave (s s' : MemStorage) : store_ok s → other_clients s s' → store_ok s' ∧ polled (abs s') = polled (abs s).
Proof. intros _ Ho. split; [exact I|]. unfold polled. cbn. by rewrite Ho. Qed.

(** The workers of both have a message. *)
Definition json_sending : agent := example_agent MWait [] example_text [WSend SJson; WIdle; WIdle].
Definition grpc_sending : agent := example_agent MWait [] "" [WSend (SProto (EncodeProto example_report)); WIdle; WIdle].

Definition taking (i : nat) (p : payload) : list fevent := FStep i <$> take 7 (example_labels_of p).

Lemma json_taken : run false 1 (agent_init 0) (take 7 json_labels) json_sending.
Proof.
  apply example_taken.
  - unfold encode_report. by rewrite example_encoded.
  - intros s _. unfold new_text. by rewrite example_encoded.
Qed.

Lemma grpc_taken : run true 1 (agent_init 0) (take 7 grpc_labels) grpc_sending.
Proof. by apply example_taken. Qed.

(** The agent over gRPC is still about to poll. *)
Definition json_ahead : fleet MemStorage := mkFleet [(json_sending, 0%nat); (agent_init 0, 0%nat)] NewMemStorage.

Lemma json_ahead_path lossless :
  fpath other_clients (example_members lossless) (fleet_init (example_members lossless) NewMemStorage) (taking 0 (PJson example_text)) json_ahead.
Proof. exact (run_path other_clients (example_members lossless) 0 _ _ 0 _ _ (fleet_init (example_members lossless) NewMemStorage) eq_refl eq_refl json_taken ltac:(by repeat constructor)). Qed.

(** Then both transports are on their way, and another client writes. *)
Definition both_sending : fleet MemStorage := mkFleet [(json_sending, 0%nat); (grpc_sending, 0%nat)] NewMemStorage.

Lemma both_sending_path : fpath other_clients (example_members True) json_ahead (taking 1 proto_payload) both_sending.
Proof. exact (run_path other_clients (example_members True) 1 _ _ 0 _ _ json_ahead eq_refl eq_refl grpc_taken ltac:(by repeat constructor)). Qed.

Lemma json_exchanged m :
  json_exchange (H1 := toy_Gzip) (H2 := toy_RSA) (H3 := Router.no_regexp) started "" "" "" "10.0.0.7:4000" "10.1.2.3" None
    (PJson example_text) true m (mem_WriteBatchMetrics example_report m).2.
Proof.
  destruct plain_linked as [Hm Hup Hkeys Hip]. destruct (paired_channel _ _ example_text Hkeys) as (c & Henc & Hdec).
  destruct (server_takes_message (H := toy_Gzip) (H0 := toy_RSA) (H1 := Router.no_regexp) started "" "" "" "10.0.0.7:4000" "10.1.2.3" None
    example_report example_text c json_headers (World 0 m) Hm (Hup _) Hip (conj eq_refl eq_refl) example_report_ok example_encoded
    (λ S h req w Hb He, Hdec S h req w Hb He)) as (l & logs & Hl & Hst).
  exists example_text, c. split; [reflexivity|]. split; [exact Henc|].
  exists json_headers, 0, l, (set_store (World 0 m) (mem_WriteBatchMetrics example_report m).2), logs.
  split; [by split|]. split; [exact Hl|]. split; [reflexivity|]. unfold answered_ok. by rewrite bool_decide_true.
Qed.

Lemma grpc_exchanged m :
  grpc_exchange started None "10.1.2.3" (EncodeProto example_report) true m (mem_WriteBatchMetrics example_report m).2.
Proof.
  eexists 0, _, _, _. split; [exact (grpc_takes started "" "10.1.2.3" None grpc_plain_linked example_report (World 0 m))|]. by split.
Qed.

Definition after_report (m : MemStorage) : MemStorage := (mem_WriteBatchMetrics example_report m).2.

(** Both messages are handled while they are on their way, with another client in between, and one of the agents has
    its result. *)
Definition example_events : list fevent :=
  taking 0 (PJson example_text) ++ taking 1 proto_payload ++
  [FExchange 1 0 true; FOther; FExchange 0 0 true; FSent 0 0 (PJson example_text) None].

Definition json_sent_state : agent := example_agent MWait [] example_text [WReport None; WIdle; WIdle].

Definition example_end : fleet MemStorage :=
  mkFleet [(json_sent_state, 0%nat); (grpc_sending, 1%nat)] (after_report (add_counter "Other" 1 (after_report NewMemStorage))).

Lemma example_path : fpath other_clients (example_members True) (fleet_init (example_members True) NewMemStorage) example_events example_end.
Proof.
  unfold example_events. eapply fpath_trans; [exact (json_ahead_path True)|]. eapply fpath_trans; [exact both_sending_path|].
  apply (fpath_snoc _ _ _ [FExchange 1 0 true; FOther; FExchange 0 0 true] _
    (mkFleet [(json_sending, 1%nat); (grpc_sending, 1%nat)] (site example_end))).
  1: apply (fpath_snoc _ _ _ [FExchange 1 0 true; FOther] _
    (mkFleet [(json_sending, 0%nat); (grpc_sending, 1%nat)] (add_counter "Other" 1 (after_report NewMemStorage)))).
  1: apply (fpath_snoc _ _ _ [FExchange 1 0 true] _ (mkFleet [(json_sending, 0%nat); (grpc_sending, 1%nat)] (after_report NewMemStorage))).
  1: apply fpath_one.
  - eapply (f_exchange other_clients (example_members True) 1 0 true _ grpc_sending 0 (SProto (EncodeProto example_report)) _ both_sending);
      [reflexivity..|]. eexists. split; [reflexivity|]. exact (grpc_exchanged NewMemStorage).
  - apply (f_other _ _ (add_counter "Other" 1 (after_report NewMemStorage))
      (mkFleet [(json_sending, 0%nat); (grpc_sending, 1%nat)] (after_report NewMemStorage))).
    apply other_adds.
  - eapply (f_exchange other_clients (example_members True) 0 0 true _ json_sending 0 SJson _
      (mkFleet [(json_sending, 0%nat); (grpc_sending, 1%nat)] (add_counter "Other" 1 (after_report NewMemStorage)))); [reflexivity..|].
    apply json_exchanged.
  - eapply (f_sent other_clients (example_members True) 0 0 (PJson example_text) None _ json_sending 1 json_sent_state
      (mkFleet [(json_sending, 1%nat); (grpc_sending, 1%nat)] (site example_end))); [reflexivity..| |].
    + exact (step_sent false 1 json_sending 0 SJson None eq_refl eq_refl).
    + split; [split; [lia|done]|done].
Qed.

Lemma example_tame : tame example_events.
Proof.
  assert (∀ i, history i example_events =
    if decide (i = 0%nat) then take 7 json_labels ++ [LSent 0 (PJson example_text) None]
    else if decide (i = 1%nat) then take 7 grpc_labels else []) as Hh.
  { intros [|[|i]]; reflexivity. }
  intros i. rewrite Hh. pose proof (example_measured (PJson example_text)) as Hj. pose proof (example_measured proto_payload) as Hg.
  repeat case_decide; (split; [|vm_compute; by intros ?]).
  - apply Forall_app. split; [by apply Forall_take|]. by repeat constructor.
  - by apply Forall_take.
  - constructor.
Qed.

(** One poll from each: the result of one is on its way, the message of the other is. *)
Lemma fleet_polls_arrive_witness :
  polled (site example_end) = wrap64 (0 + sum [taken 0 example_events; taken 1 example_events]) ∧
  taken 0 example_events = 1 ∧ taken 1 example_events = 1.
Proof.
  destruct (fleet_polls_arrive other_clients (example_members True) NewMemStorage example_events example_end (example_contracts True)
    other_clients_leave example_path example_tame I (mem_ok_polled NewMemStorage mem_ok_new)) as [Hp Hall].
  split; [exact Hp|]. split.
  - rewrite (proj2 (Hall 0%nat _ json_sent_state 0%nat eq_refl eq_refl)); [reflexivity|by intros err k [_ Hx]; exact (Hx I)|reflexivity].
  - rewrite (proj2 (Hall 1%nat _ grpc_sending 1%nat eq_refl eq_refl)); [reflexivity|by intros err k [_ Hx]; exact (Hx I)|reflexivity].
Defined.

(** The network of the agent over HTTP, in the fleet: answers of the first second get lost, and another client
    writes after every message. *)
Definition fleet_network : Network (fleet MemStorage) := λ url r body w,
  match plain_server (arriving "10.0.0.7:4000" r body) (World (now w) (site (store w))) with
  | Ret (l, w', _) =>
      let f := arrive (Site := fleet_site 0) (answered_ok l) (store w') (store w) in
      (if decide (now w < Second) then inl (ErrMsg "EOF") else inr (mkReply (status l) (reply_body l)),
       World (now w' + 5) (mkFleet (crew f) (add_counter "Other" 1 (site f))))
  | _ => (inl (ErrMsg "connection reset by peer"), w)
  end.

Lemma fleet_network_lossy ms base :
  Lossy (H := fleet_site 0) (H0 := fleet_network) (without other_clients ms 0) plain_server base "10.0.0.7:4000".
Proof.
  intros r body w. unfold post, fleet_network.
  destruct (plain_server (arriving "10.0.0.7:4000" r body) (World (now w) (site (store w)))) as [[[l w'] logs]| | | | |] eqn:Hs.
  1: { exists (store w). split; [reflexivity|]. right. exists (now w), l, w', logs. split; [exact Hs|]. split.
       - split; [|by intros _]. exists [FOther]. split; [|by constructor]. apply fpath_one. cbn [store]. constructor. apply other_adds.
       - case_decide; [left|right]; eauto. }
  all: exists (store w); (split; [reflexivity|]); left; eauto.
Qed.

Lemma send_is_fleet_path_witness :
  ∃ err t r' f', Send (H := fleet_network) (H0 := toy_RSA) (mkSend example_text "" "" (30 * Second)) Background "srv:8080" "10.1.2.3"
      (World 0 (json_headers, json_ahead)) = Ret (err, World t (r', f')) ∧ agent_headers r' ∧
    ∃ es s, fpath other_clients (example_members False) json_ahead (es ++ [FSent 0 0 (PJson example_text) err])
      (mkFleet (<[0%nat := (s, 0%nat)]> (crew f')) (site f')).
Proof.
  refine (send_is_fleet_path (H1 := toy_Gzip) (H2 := toy_RSA) (H3 := Router.no_regexp) (H4 := fleet_network) other_clients (example_members False) 0
    started "" "" "" "" "srv:8080" "10.0.0.7:4000" "10.1.2.3" example_text None (30 * Second) 0 1 0 0 False NewMemStorage
    (taking 0 (PJson example_text)) json_ahead Background json_headers (example_contracts False) other_clients_leave eq_refl plain_linked
    (json_ahead_path False) _ I (mem_ok_polled NewMemStorage mem_ok_new) _ (conj eq_refl eq_refl) _).
  - exact (tame_prefix _ _ example_tame).
  - exists json_sending, SJson. repeat split. by left.
  - left. split; [apply fleet_network_lossy|by intros []].
Defined.
