(* ===== verification/PgDB.v ===== *)
(** * The Postgres store

    [internal/storage/pgdb.go].  The table [monitoring] is a map from ids (its primary key) to rows, and each of the
    program's SQL statements is a function on it.  The server, the connection and the driver are
    parameters: every statement is a round trip that takes time and may fail before or after
    the statement took effect; which texts a varchar column takes and how [ORDER BY] sorts belong to the
    server as well. *)

From S2P Require Import Prelude Strconv Float64 GoErrors Metrics MemStorage GoRetry Retrier StoreSpec.

Open Scope Z_scope.

(** ** The table and the statements *)

(** The columns besides the id; [None] is NULL. *)
Record row : Type := mkRow { mtype : string; delta : option Z; value : option float64 }.

Abbreviation table := (gmap string row).

(** What a round trip gives: the statement ran, or an error, and then whether it took effect. *)
Inductive trip : Type :=
| TripOk
| TripFails (err : goerror) (applied : bool).

Class Postgres (E : Type) : Type := {
  roundtrip : context → op E trip;
  varchar_ok : nat → string → bool;        (* the text fits varchar(n) in the encoding of the database *)
  order_by_id : list string → list string
}.

Record PgState (E : Type) : Type := mkPg { monitoring : table; conn : E }.
Arguments mkPg {E} monitoring conn.
Arguments monitoring {E} _.
Arguments conn {E} _.

Section Statements.
Context {E : Type} `{Postgres E}.

(** The columns of a row to insert fit their types. *)
Definition columns_ok (id mt : string) : bool := varchar_ok 64 id && varchar_ok 16 mt.

Definition too_long : goerror := ErrMsg "ERROR: value too long for type character varying (SQLSTATE 22001)".
Definition out_of_range : goerror := ErrMsg "ERROR: bigint out of range (SQLSTATE 22003)".

(** [insertGaugePrep]: the type of an existing row is kept. *)
Definition insertGauge (id mt : string) (v : float64) (t : table) : goerror + table :=
  if columns_ok id mt then
    inr (<[id := match t !! id with
                 | None => mkRow mt None (Some v)
                 | Some r => mkRow (mtype r) (delta r) (Some v)
                 end]> t)
  else inl too_long.

(** [insertCounterPrep]: NULL plus anything is NULL; a sum outside of bigint is an error. *)
Definition insertCounter (id mt : string) (d : Z) (t : table) : goerror + table :=
  if columns_ok id mt then
    match t !! id with
    | None => inr (<[id := mkRow mt (Some d) None]> t)
    | Some r =>
        match delta r with
        | None => inr (<[id := mkRow (mtype r) None (value r)]> t)
        | Some old =>
            if decide (is_int64 (d + old)) then inr (<[id := mkRow (mtype r) (Some (d + old)) (value r)]> t)
            else inl out_of_range
        end
    end
  else inl too_long.

(** [getGaugePrep], [getCounterPrep]: no row, a NULL, or a value. *)
Definition getGauge (id : string) (t : table) : option (option float64) := value <$> t !! id.
Definition getCounter (id : string) (t : table) : option (option Z) := delta <$> t !! id.

(** [getAllGaugePrep], [getAllCounterPrep]. *)
Definition ids_of (mt : string) (t : table) : list string :=
  order_by_id (keys (filter (λ p : string * row, mtype p.2 = mt) t)).

Definition getAllGauge (t : table) : list (string * option float64) :=
  (λ id, (id, t !! id ≫= value)) <$> ids_of "gauge" t.
Definition getAllCounter (t : table) : list (string * option Z) :=
  (λ id, (id, t !! id ≫= delta)) <$> ids_of "counter" t.

(** ** Round trips *)

Definition trip_of (ctx : context) (w : world (PgState E)) : trip * world E :=
  roundtrip ctx (World (now w) (conn (store w))).

(** A statement outside of a transaction. *)
Definition exec (ctx : context) (stmt : table → goerror + table) : op (PgState E) (option goerror) := λ w,
  let t := monitoring (store w) in
  let '(r, w') := trip_of ctx w in
  match r, stmt t with
  | TripOk, inr t' => (None, World (now w') (mkPg t' (store w')))
  | TripOk, inl err => (Some err, World (now w') (mkPg t (store w')))
  | TripFails err true, inr t' => (Some err, World (now w') (mkPg t' (store w')))
  | TripFails err _, _ => (Some err, World (now w') (mkPg t (store w')))
  end.

Definition query {A} (ctx : context) (q : table → A) : op (PgState E) (goerror + A) := λ w,
  let '(r, w') := trip_of ctx w in
  let w' := World (now w') (mkPg (monitoring (store w)) (store w')) in
  match r with TripOk => (inr (q (monitoring (store w))), w') | TripFails err _ => (inl err, w') end.

(** A statement in a transaction works on the transaction's copy [t]. *)
Definition exec_tx (ctx : context) (stmt : table → goerror + table) (t : table) (w : world (PgState E)) :
    (goerror + table) * world (PgState E) :=
  let '(r, w') := trip_of ctx w in
  let w' := World (now w') (mkPg (monitoring (store w)) (store w')) in
  match r with TripOk => (stmt t, w') | TripFails err _ => (inl err, w') end.

(** ** The methods *)

Definition fail_with (what : string) (err : goerror) : goerror := ErrMsg (what +:+ error_text err).

Definition pg_WriteMetric (ctx : context) (mt name : string) (val : iface) : op (PgState E) (option goerror) := λ w,
  if decide (mt = GaugeType) then
    match val with
    | IGauge metric =>
        let '(err, w) := exec ctx (insertGauge name "gauge" metric) w in
        (fail_with "write gauge to db failed: " <$> err, w)
    | _ => (Some ErrWrongMetricValueType, w)
    end
  else if decide (mt = CounterType) then
    match val with
    | ICounter metric =>
        let '(err, w) := exec ctx (insertCounter name "counter" metric) w in
        (fail_with "write counter to db failed: " <$> err, w)
    | _ => (Some ErrWrongMetricValueType, w)
    end
  else (Some ErrWrongMetricType, w).

(** One metric of a batch in the transaction. *)
Definition tx_step (ctx : context) (v : Metrics) (t : table) (w : world (PgState E)) :
    (goerror + table) * world (PgState E) :=
  if decide (MType v = GaugeType) then
    match Value v with
    | None => (inr t, w)
    | Some x =>
        if decide (ID v = "") then (inr t, w)
        else match exec_tx ctx (insertGauge (ID v) (MType v) x) t w with
             | (inl err, w) => (inl (fail_with "write gauge to db failed: " err), w)
             | r => r
             end
    end
  else if decide (MType v = CounterType) then
    match Delta v with
    | None => (inr t, w)
    | Some d =>
        if decide (ID v = "") then (inr t, w)
        else match exec_tx ctx (insertCounter (ID v) (MType v) d) t w with
             | (inl err, w) => (inl (fail_with "write counter to db failed: " err), w)
             | r => r
             end
    end
  else (inr t, w).

Fixpoint tx_loop (ctx : context) (metrics : list Metrics) (t : table) (w : world (PgState E)) :
    (goerror + table) * world (PgState E) :=
  match metrics with
  | [] => (inr t, w)
  | v :: metrics =>
      match tx_step ctx v t w with
      | (inl err, w) => (inl err, w)
      | (inr t, w) => tx_loop ctx metrics t w
      end
  end.

(** [tx.Rollback()]: a round trip whose result is ignored. *)
Definition rollback (w : world (PgState E)) : world (PgState E) :=
  let w' := (trip_of Background w).2 in World (now w') (mkPg (monitoring (store w)) (store w')).

Definition pg_WriteBatchMetrics (ctx : context) (metrics : list Metrics) : op (PgState E) (option goerror) := λ w,
  match query Background id w with                                  (* Begin *)
  | (inl err, w) => (Some (fail_with "can't start tx to db: " err), w)
  | (inr t, w) =>
      match tx_loop ctx metrics t w with
      | (inl err, w) => (Some err, rollback w)
      | (inr t, w) => exec Background (λ _, inr t) w                 (* Commit *)
      end
  end.

Definition scan_null (col : string) : goerror := ErrMsg ("sql: Scan error: converting NULL to " +:+ col +:+ " is unsupported").

(** The loop over the rows of [GetAllMetricsTxt]; a second round trip stands for fetching them. *)
Fixpoint scan_rows {A} (show : A → string) (ty : string) (rows : list (string * option A)) : goerror + string :=
  match rows with
  | [] => inr ""
  | (id, None) :: _ => inl (scan_null ty)
  | (id, Some x) :: rows =>
      match scan_rows show ty rows with inl err => inl err | inr s => inr (text_line id (show x) +:+ s) end
  end.

Definition list_rows {A} (ctx : context) (q : table → list (string * option A)) (show : A → string) (ty : string) :
    op (PgState E) (goerror + string) := λ w,
  match query ctx q w with
  | (inl err, w) => (inl err, w)
  | (inr rows, w) =>
      match scan_rows show ty rows with
      | inl err => (inl err, w)
      | inr s => match query ctx (λ _, tt) w with (inl err, w) => (inl err, w) | (inr _, w) => (inr s, w) end
      end
  end.

Definition pg_GetAllMetricsTxt (ctx : context) : op (PgState E) (string * option goerror) := λ w,
  match list_rows ctx getAllCounter show_int "int64" w with
  | (inl err, w) => (("", Some err), w)
  | (inr c, w) =>
      match list_rows ctx getAllGauge show_float "float64" w with
      | (inl err, w) => (("", Some err), w)
      | (inr g, w) =>
          (("---Counters---" +:+ nl_str +:+ c +:+ "---Gauge---" +:+ nl_str +:+ g, None), w)
      end
  end.

(** [row.Scan] after [QueryRowContext]. *)
Definition scan_row {A} (ty : string) (r : goerror + option (option A)) : goerror + A :=
  match r with
  | inl err => inl err
  | inr None => inl ErrNoRows
  | inr (Some None) => inl (scan_null ty)
  | inr (Some (Some x)) => inr x
  end.

Definition no_rows (err : goerror) : goerror := if errors_Is (Some err) (Some ErrNoRows) then ErrNoVal else err.

Definition pg_GetMetric (ctx : context) (mType name : string) : op (PgState E) (iface * option goerror) := λ w,
  if decide (mType = GaugeType) then
    let '(r, w) := query ctx (getGauge name) w in
    match scan_row "float64" r with inl err => ((INil, Some (no_rows err)), w) | inr v => ((IGauge v, None), w) end
  else if decide (mType = CounterType) then
    let '(r, w) := query ctx (getCounter name) w in
    match scan_row "int64" r with inl err => ((INil, Some (no_rows err)), w) | inr d => ((ICounter d, None), w) end
  else ((INil, Some ErrBadMetricType), w).

Definition pg_Ping (ctx : context) : op (PgState E) (option goerror) := λ w,
  match query ctx (λ _, tt) w with (inl err, w) => (Some err, w) | (inr _, w) => (None, w) end.

#[export] Instance PgState_StoreMetrics : StoreMetrics (PgState E) := {
  WriteMetric := pg_WriteMetric;
  WriteBatchMetrics := pg_WriteBatchMetrics;
  GetAllMetricsTxt := pg_GetAllMetricsTxt;
  GetMetric := pg_GetMetric;
  Ping := pg_Ping
}.
End Statements.

(** ** Starting *)

(** The database before [PopulateDB]: the table may not exist, and no statement is prepared. *)
Record RawDB (E : Type) : Type := mkRaw { created : option table; prepared : bool; raw_conn : E }.
Arguments mkRaw {E} created prepared raw_conn.
Arguments created {E} _.
Arguments prepared {E} _.
Arguments raw_conn {E} _.

Section Populate.
Context {E : Type} `{Postgres E}.

(** [sql_open] is [sql.Open("pgx", _)]; an open handle may be given instead. *)
Definition NewPgDB (sql_open : string → goerror + RawDB E) (dsn : string) (edb : option (RawDB E)) : goerror + RawDB E :=
  match edb with
  | Some db => inr db
  | None => match sql_open dsn with inl err => inl err | inr db => inr db end
  end.

Definition raw_trip (ctx : context) (w : world (RawDB E)) : trip * world (RawDB E) :=
  let '(r, w') := roundtrip ctx (World (now w) (raw_conn (store w))) in
  (r, World (now w') (mkRaw (created (store w)) (prepared (store w)) (store w'))).

(** The six statements of [prepareStatements], one after the other. *)
Fixpoint prepare (n : nat) (w : world (RawDB E)) : option goerror * world (RawDB E) :=
  match n with
  | O => (None, w)
  | S n =>
      match raw_trip Background w with
      | (TripFails err _, w) => (Some err, w)
      | (TripOk, w) => prepare n w
      end
  end.

Definition prepareStatements : op (RawDB E) (option goerror) := λ w,
  match created (store w) with
  | None => (Some (ErrMsg "ERROR: relation does not exist (SQLSTATE 42P01)"), w)
  | Some _ =>
      let '(err, w) := prepare 6 w in
      (err, set_store w (mkRaw (created (store w)) (bool_decide (err = None)) (raw_conn (store w))))
  end.

Definition create_table (s : RawDB E) : RawDB E :=
  mkRaw (Some (default ∅ (created s))) (prepared s) (raw_conn s).

Definition PopulateDB (ctx : context) : op (RawDB E) (option goerror) := λ w,
  match raw_trip ctx w with
  | (TripFails err applied, w) =>
      (Some (fail_with "populate failed: " err),
       set_store w (if applied then create_table (store w) else store w))
  | (TripOk, w) => prepareStatements (set_store w (create_table (store w)))
  end.
End Populate.

(** ** The view of a table as a pair of maps *)

Definition pg_abs (t : table) : MemStorage := mkMem (omap value t) (omap delta t).

(** Every id has one type, and its row has the value of that type only. *)
Definition typed (ty : string → string) (t : table) : Prop :=
  ∀ id r, t !! id = Some r →
    mtype r = ty id ∧
    ((mtype r = GaugeType ∧ is_Some (value r) ∧ delta r = None) ∨
     (mtype r = CounterType ∧ value r = None ∧ ∃ d, delta r = Some d ∧ is_int64 d)).

Section Views.
Context {E : Type} `{Postgres E}.

Lemma abs_put_gauge id r v t :
  value r = Some v → delta r = (t !! id ≫= delta) → pg_abs (<[id := r]> t) = set_gauge id v (pg_abs t).
Proof.
  intros Hv Hd. unfold pg_abs, set_gauge; cbn [gauge counter]. f_equal.
  - by rewrite (omap_insert_Some _ _ _ _ v).
  - apply map_eq. intros i. rewrite !lookup_omap. destruct (decide (i = id)) as [->|Hi].
    + rewrite lookup_insert_eq. exact Hd.
    + by rewrite lookup_insert_ne.
Qed.

Lemma abs_put_counter id r d t :
  delta r = Some d → value r = (t !! id ≫= value) → pg_abs (<[id := r]> t) = set_counter id d (pg_abs t).
Proof.
  intros Hd Hv. unfold pg_abs, set_counter; cbn [gauge counter]. f_equal.
  - apply map_eq. intros i. rewrite !lookup_omap. destruct (decide (i = id)) as [->|Hi].
    + rewrite lookup_insert_eq. exact Hv.
    + by rewrite lookup_insert_ne.
  - by rewrite (omap_insert_Some _ _ _ _ d).
Qed.

Lemma typed_insert ty t id r :
  typed ty t → mtype r = ty id →
  ((mtype r = GaugeType ∧ is_Some (value r) ∧ delta r = None) ∨
   (mtype r = CounterType ∧ value r = None ∧ ∃ d, delta r = Some d ∧ is_int64 d)) →
  typed ty (<[id := r]> t).
Proof.
  intros Ht Hm Hr i r'. destruct (decide (i = id)) as [->|Hi].
  - rewrite lookup_insert_eq. intros [= <-]. done.
  - rewrite lookup_insert_ne by done. apply Ht.
Qed.

(** A gauge written under an id of that type. *)
Lemma insertGauge_typed ty id v t t' :
  typed ty t → ty id = GaugeType → insertGauge id GaugeType v t = inr t' →
  typed ty t' ∧ pg_abs t' = set_gauge id v (pg_abs t).
Proof.
  intros Ht Hty. unfold insertGauge. destruct (columns_ok _ _); [|done]. intros [= <-].
  destruct (t !! id) as [r|] eqn:Hr.
  - destruct (Ht id r Hr) as [Hm [(Hg & _ & Hd)|(Hc & _)]]; [|rewrite Hc, Hty in Hm; discriminate Hm]. split.
    + apply typed_insert; [done..|]. left. simpl. eauto.
    + apply abs_put_gauge; [done|]. by rewrite Hr.
  - split.
    + apply typed_insert; [done..|]. left. simpl. eauto.
    + apply abs_put_gauge; [done|]. by rewrite Hr.
Qed.

(** A counter written under an id of that type. *)
Lemma insertCounter_typed ty id d t t' :
  typed ty t → ty id = CounterType → is_int64 d → insertCounter id CounterType d t = inr t' →
  typed ty t' ∧ pg_abs t' = add_counter id d (pg_abs t).
Proof.
  intros Ht Hty Hd. unfold insertCounter, add_counter. destruct (columns_ok _ _); [|done].
  unfold pg_abs at 2; cbn [counter]. rewrite lookup_omap.
  destruct (t !! id) as [r|] eqn:Hr; cbn [mbind option_bind].
  - destruct (Ht id r Hr) as [Hm [(Hg & _)|(Hc & Hv & old & Hold & _)]]; [rewrite Hg, Hty in Hm; discriminate Hm|].
    rewrite Hold. case_decide as Hsum; [|done]. intros [= <-]. simpl default. split.
    + apply typed_insert; [done..|]. right. simpl. eauto.
    + rewrite (Z.add_comm old), wrap64_id by done. apply abs_put_counter; [done|].
      by rewrite Hr.
  - intros [= <-]. simpl default. rewrite wrap64_id by done. split.
    + apply typed_insert; [done..|]. right. simpl. eauto.
    + apply abs_put_counter; [done|]. by rewrite Hr.
Qed.
End Views.

(** ** What is relied on *)

(** Errors of the driver are not the program's own sentinels. *)
Class ForeignErrors {E} `{Postgres E} : Prop :=
  trip_foreign ctx w err a w' : roundtrip ctx w = (TripFails err a, w') →
    skipped NewRetrier err = false ∧ error_is err ErrNoRows = false.

(** Besides that, [ORDER BY] gives every row once, in the order of the database's collation.  An error
    says nothing about whether the statement took effect: the answer to a commit can get lost. *)
Class PostgresLaws {E} `{Postgres E} : Prop := {
  laws_foreign :: ForeignErrors;
  order_rows l : order_by_id l ≡ₚ l
}.

(** Some round trip fails after its statement took effect. *)
Definition answer_lost {E} `{Postgres E} : Prop := ∃ ctx (w : world E) err w', roundtrip ctx w = (TripFails err true, w').

(** A statement outside of a transaction, whatever happens to it. *)
Lemma exec_cases {E} `{Postgres E} ctx stmt (w : world (PgState E)) :
  let '(e, w') := exec ctx stmt w in
  (e = None ∧ stmt (monitoring (store w)) = inr (monitoring (store w'))) ∨
  (is_Some e ∧ (monitoring (store w') = monitoring (store w) ∨
                (stmt (monitoring (store w)) = inr (monitoring (store w')) ∧ answer_lost (E := E)))).
Proof.
  unfold exec, trip_of. destruct (roundtrip _ _) as [[|err a] w'] eqn:Hr.
  - destruct (stmt (monitoring (store w))) as [err|t'] eqn:Hs; [right; split; [by eexists|by left]|by left].
  - destruct a, (stmt (monitoring (store w))) eqn:Hs; right; (split; [by eexists|]); auto.
    right. split; [done|]. by repeat eexists.
Qed.

Lemma fail_transient what err : transient (Some (fail_with what err)).
Proof. eexists. split; [done|]. done. Qed.

Lemma foreign_transient {E} `{ForeignErrors E} ctx w err a w' :
  roundtrip ctx w = (TripFails err a, w') → transient (Some err).
Proof. intros Hr. apply trip_foreign in Hr as [Hr _]. by eexists. Qed.

(** ** Batches are atomic *)

(** The statements of a batch with nothing failing in between. *)
Definition stmt_of (v : Metrics) (t : table) `{Postgres E} : goerror + table :=
  if decide (MType v = GaugeType) then
    match Value v with
    | Some x => if decide (ID v = "") then inr t else insertGauge (ID v) (MType v) x t
    | None => inr t
    end
  else if decide (MType v = CounterType) then
    match Delta v with
    | Some d => if decide (ID v = "") then inr t else insertCounter (ID v) (MType v) d t
    | None => inr t
    end
  else inr t.

Fixpoint apply_all `{Postgres E} (metrics : list Metrics) (t : table) : goerror + table :=
  match metrics with
  | [] => inr t
  | v :: metrics => match stmt_of v t with inl err => inl err | inr t => apply_all metrics t end
  end.

Section Atomic.
Context {E : Type} `{ForeignErrors E}.

Lemma query_table {A} ctx (q : table → A) w :
  let '(r, w') := query ctx q w in
  monitoring (store w') = monitoring (store w) ∧ ∀ x, r = inr x → x = q (monitoring (store w)).
Proof.
  unfold query. destruct (trip_of ctx w) as [[|err a] w']; simpl; (split; [done|]); [by intros x [= <-]|done].
Qed.

Lemma exec_tx_table ctx stmt t w :
  let '(r, w') := exec_tx ctx stmt t w in
  monitoring (store w') = monitoring (store w) ∧ ∀ t', r = inr t' → stmt t = inr t'.
Proof. unfold exec_tx. destruct (trip_of ctx w) as [[|err a] w']; simpl; by split. Qed.

Lemma exec_tx_wrapped what ctx stmt t w :
  let '(r, w') := match exec_tx ctx stmt t w with (inl err, w) => (inl (fail_with what err), w) | r => r end in
  monitoring (store w') = monitoring (store w) ∧ (∀ err, r = inl err → transient (Some err)) ∧
  ∀ t', r = inr t' → stmt t = inr t'.
Proof.
  pose proof (exec_tx_table ctx stmt t w) as Hx. destruct (exec_tx ctx stmt t w) as [[err|t1] w1]; destruct Hx as [Hx1 Hx2].
  - split; [done|]. split; [intros e [= <-]; apply fail_transient|done].
  - split; [done|]. split; [done|exact Hx2].
Qed.

Lemma tx_step_table ctx v t w :
  let '(r, w') := tx_step ctx v t w in
  monitoring (store w') = monitoring (store w) ∧ (∀ err, r = inl err → transient (Some err)) ∧
  ∀ t', r = inr t' → stmt_of v t = inr t'.
Proof.
  unfold tx_step, stmt_of.
  destruct (decide (MType v = GaugeType)); [|destruct (decide (MType v = CounterType)); [|by split]].
  - destruct (Value v); [|by split]. destruct (decide (ID v = "")); [by split|]. apply exec_tx_wrapped.
  - destruct (Delta v); [|by split]. destruct (decide (ID v = "")); [by split|]. apply exec_tx_wrapped.
Qed.

Lemma tx_loop_table ctx metrics t w :
  let '(r, w') := tx_loop ctx metrics t w in
  monitoring (store w') = monitoring (store w) ∧ (∀ err, r = inl err → transient (Some err)) ∧
  ∀ t', r = inr t' → apply_all metrics t = inr t'.
Proof.
  revert t w. induction metrics as [|v metrics IH]; intros t w; cbn [tx_loop apply_all]; [split; [done|split; congruence]|].
  pose proof (tx_step_table ctx v t w) as Hv. destruct (tx_step ctx v t w) as [[err|t1] w1].
  - destruct Hv as (Hv & Herr & _). split; [done|]. split; [intros e [= <-]; by apply Herr|done].
  - destruct Hv as (Hv & _ & Hs). rewrite (Hs t1) by done. specialize (IH t1 w1).
    destruct (tx_loop ctx metrics t1 w1) as [r w2]. destruct IH as [IH1 IH2]. split; [congruence|done].
Qed.

Lemma pg_batch_cases ctx metrics w :
  let '(e, w') := pg_WriteBatchMetrics ctx metrics w in
  let t := monitoring (store w) in
  let t' := monitoring (store w') in
  (e = None ∧ apply_all metrics t = inr t') ∨
  (transient e ∧ (t' = t ∨ (apply_all metrics t = inr t' ∧ answer_lost))).
Proof.
  unfold pg_WriteBatchMetrics. pose proof (query_table Background (λ t, t) w) as Hb.
  change (λ t, t) with (@id table) in Hb. destruct (query Background id w) as [[err|t] w1]; destruct Hb as [Hb Hx].
  { right. split; [apply fail_transient|]. by left. }
  specialize (Hx t eq_refl). subst t. pose proof (tx_loop_table ctx metrics (id (monitoring (store w))) w1) as Hl.
  destruct (tx_loop _ _ _ w1) as [[err|t] w2]; destruct Hl as (Hl & Herr & Hall).
  - right. split; [by apply Herr|]. left. unfold rollback; cbn. congruence.
  - specialize (Hall t eq_refl). cbn [id] in Hall. unfold exec, trip_of.
    destruct (roundtrip Background _) as [[|err []] w3] eqn:Hr; cbn [monitoring store].
    + by left.
    + right. split; [by eapply foreign_transient|right]. split; [done|]. by repeat eexists.
    + right. split; [by eapply foreign_transient|]. left. congruence.
Qed.

End Atomic.

(** ** The store refines the pair of maps *)

Section Refines.
Context {E : Type} `{PostgresLaws E}.

(** An operation gives what the operation on maps gives, or an error that is worth a retry and then no change,
    or, only if the answer to a statement that took effect can get lost, the change of the operation on maps all the
    same; types are kept. *)
Definition simulates (ty : string → string) (t : table) (r : option goerror * MemStorage)
    (e : option goerror) (t' : table) : Prop :=
  typed ty t' ∧
  ((e, pg_abs t') = r ∨
   (transient e ∧ (pg_abs t' = pg_abs t ∨ ((None, pg_abs t') = r ∧ answer_lost (E := E))))).

Lemma exec_simulates ty ctx stmt what m (w : world (PgState E)) :
  typed ty (monitoring (store w)) →
  (∀ t', stmt (monitoring (store w)) = inr t' → typed ty t' ∧ pg_abs t' = m) →
  let '(e, w') := exec ctx stmt w in
  simulates ty (monitoring (store w)) (None, m) (fail_with what <$> e) (monitoring (store w')).
Proof.
  intros Ht Hst. pose proof (exec_cases ctx stmt w) as Hx. destruct (exec ctx stmt w) as [e w'].
  destruct Hx as [[-> Hs]|[[err ->] [->|[Hs Hlost]]]].
  - destruct (Hst _ Hs) as [? <-]. split; [done|by left].
  - split; [done|right]. split; [apply fail_transient|by left].
  - destruct (Hst _ Hs) as [? <-]. split; [done|right]. split; [apply fail_transient|by right].
Qed.

Lemma pg_write_simulates ty ctx mt name val w :
  typed ty (monitoring (store w)) → mt = ty name → (∀ d, val = ICounter d → is_int64 d) →
  let '(e, w') := pg_WriteMetric ctx mt name val w in
  simulates ty (monitoring (store w)) (mem_WriteMetric mt name val (pg_abs (monitoring (store w)))) e (monitoring (store w')).
Proof.
  intros Ht -> Hval. unfold pg_WriteMetric, mem_WriteMetric.
  destruct (decide (ty name = GaugeType)) as [Hg|Hg].
  { destruct val as [g| | |]; try (split; [done|by left]).
    pose proof (exec_simulates ty ctx (insertGauge name "gauge" g) "write gauge to db failed: " _ w Ht
      (λ t', insertGauge_typed ty name g _ t' Ht Hg)) as Hx. by destruct (exec _ _ w) as [e w']. }
  destruct (decide (ty name = CounterType)) as [Hc|Hc]; [|split; [done|by left]].
  destruct val as [|c| |]; try (split; [done|by left]).
  pose proof (exec_simulates ty ctx (insertCounter name "counter" c) "write counter to db failed: " _ w Ht
    (λ t', insertCounter_typed ty name c _ t' Ht Hc (Hval c eq_refl))) as Hx. by destruct (exec _ _ w) as [e w'].
Qed.

(** A batch in which every metric has the type of its id. *)
Definition batch_typed (ty : string → string) (metrics : list Metrics) : Prop :=
  Forall (λ v, Metrics_ok v ∧ (batch_valid v = true → MType v = ty (ID v))) metrics.

Lemma stmt_of_typed ty v t t' :
  typed ty t → Metrics_ok v → (batch_valid v = true → MType v = ty (ID v)) → stmt_of v t = inr t' →
  typed ty t' ∧ pg_abs t' = batch_step (pg_abs t) v.
Proof.
  intros Ht Hok Hty. unfold stmt_of, batch_step, batch_valid in *. destruct v as [dl vl id mt]; simpl in *.
  destruct (decide (mt = GaugeType)) as [->|Hg].
  { destruct vl as [x|]; [|by intros [= <-]]. destruct (decide (id = "")) as [->|Hid]; [by intros [= <-]|].
    rewrite (bool_decide_eq_true_2 _ Hid) in Hty. specialize (Hty eq_refl). by apply insertGauge_typed. }
  destruct (decide (mt = CounterType)) as [->|Hc]; [|by intros [= <-]].
  destruct dl as [d|]; [|by intros [= <-]]. destruct (decide (id = "")) as [->|Hid]; [by intros [= <-]|].
  rewrite (bool_decide_eq_true_2 _ Hid) in Hty. specialize (Hty eq_refl).
  apply insertCounter_typed; [done..|]. destruct Hok as [Hd _]. by apply Hd.
Qed.

Lemma apply_all_typed ty metrics t t' :
  typed ty t → batch_typed ty metrics → apply_all metrics t = inr t' →
  typed ty t' ∧ pg_abs t' = foldl batch_step (pg_abs t) metrics.
Proof.
  intros Ht Hb. revert t Ht. induction Hb as [|v metrics [Hok Hv] Hb IH]; intros t Ht; cbn [apply_all foldl]; [by intros [= <-]|].
  destruct (stmt_of v t) as [err|t1] eqn:Hs; [done|]. intros Hall.
  destruct (stmt_of_typed ty v t t1 Ht Hok Hv Hs) as [Ht1 Ha1]. destruct (IH t1 Ht1 Hall) as [Ht' Ha']. by rewrite Ha', Ha1.
Qed.

Lemma pg_batch_simulates ty ctx metrics w :
  typed ty (monitoring (store w)) → batch_typed ty metrics →
  let '(e, w') := pg_WriteBatchMetrics ctx metrics w in
  simulates ty (monitoring (store w)) (mem_WriteBatchMetrics metrics (pg_abs (monitoring (store w)))) e (monitoring (store w')).
Proof.
  intros Ht Hb. pose proof (pg_batch_cases ctx metrics w) as Hc. destruct (pg_WriteBatchMetrics ctx metrics w) as [e w'].
  destruct Hc as [[-> Hall]|[He [->|[Hall Hlost]]]].
  - destruct (apply_all_typed ty _ _ _ Ht Hb Hall) as [Ht' Ha]. split; [done|left]. by rewrite Ha.
  - split; [done|right]. split; [done|by left].
  - destruct (apply_all_typed ty _ _ _ Ht Hb Hall) as [Ht' Ha]. split; [done|right]. split; [done|right]. by rewrite Ha.
Qed.

Lemma no_rows_foreign ctx w err a w' : roundtrip ctx w = (TripFails err a, w') → no_rows err = err ∧ transient (Some err).
Proof.
  intros Hr. split; [|by eapply foreign_transient]. apply trip_foreign in Hr as [_ Hr]. unfold no_rows, errors_Is. by rewrite Hr.
Qed.

Lemma query_foreign {A} ctx (q : table → A) w :
  (∃ w', query ctx q w = (inr (q (monitoring (store w))), w') ∧ monitoring (store w') = monitoring (store w)) ∨
  (∃ err w', query ctx q w = (inl err, w') ∧ no_rows err = err ∧ transient (Some err) ∧
             monitoring (store w') = monitoring (store w)).
Proof.
  unfold query, trip_of. destruct (roundtrip _ _) as [[|err a] w'] eqn:Hr; [left; eexists; by split|right].
  apply no_rows_foreign in Hr as [? ?]. eexists _, _. split; [done|]. split_and!; done.
Qed.

Lemma pg_get_simulates ctx mType name w :
  let '((v, e), w') := pg_GetMetric ctx mType name w in
  ((v, e) = mem_GetMetric mType name (pg_abs (monitoring (store w))) ∨ transient e) ∧
  monitoring (store w') = monitoring (store w).
Proof.
  unfold pg_GetMetric, mem_GetMetric, pg_abs; cbn [gauge counter]. rewrite !lookup_omap.
  destruct (decide (mType = GaugeType)); [|destruct (decide (mType = CounterType)); [|split; [by left|done]]].
  - destruct (query_foreign ctx (getGauge name) w) as [(w' & -> & Hw)|(err & w' & -> & Hn & He & Hw)]; simpl.
    + unfold getGauge. destruct (_ !! name) as [r|]; simpl; [|split; [by left|done]].
      destruct (value r); simpl; (split; [|done]); [by left|right; by eexists].
    + split; [right|done]. by rewrite Hn.
  - destruct (query_foreign ctx (getCounter name) w) as [(w' & -> & Hw)|(err & w' & -> & Hn & He & Hw)]; simpl.
    + unfold getCounter. destruct (_ !! name) as [r|]; simpl; [|split; [by left|done]].
      destruct (delta r); simpl; (split; [|done]); [by left|right; by eexists].
    + split; [right|done]. by rewrite Hn.
Qed.

(** The rows of one type are the keys of that view. *)
Lemma ids_of_view {A} (col : row → option A) mt t :
  (∀ id r, t !! id = Some r → mtype r = mt ↔ is_Some (col r)) →
  ids_of mt t ≡ₚ keys (omap col t).
Proof.
  intros Hcol. unfold ids_of. rewrite order_rows.
  apply NoDup_Permutation; [apply keys_NoDup..|]. intros k. rewrite !keys_lookup, lookup_omap. split.
  - intros [r Hr]. apply map_lookup_filter_Some in Hr as [Hr Hm]. rewrite Hr. cbn. by apply (Hcol k).
  - intros [x Hx]. apply bind_Some in Hx as (r & Hr & Hx). exists r. apply map_lookup_filter_Some. split; [done|].
    cbn. apply (Hcol k r Hr). by eexists.
Qed.

Lemma scan_rows_view {A} (show : A → string) (ty : string) (z : A) (col : string → option A) ids :
  (∀ id, id ∈ ids → is_Some (col id)) →
  scan_rows show ty ((λ id, (id, col id)) <$> ids) = inr (concat_str ((λ id, text_line id (show (default z (col id)))) <$> ids)).
Proof.
  induction ids as [|id ids IH]; intros Hall; [done|]. rewrite !fmap_cons. cbn [scan_rows concat_str].
  destruct (Hall id) as [x Hx]; [by left|]. rewrite Hx. cbn [default from_option]. rewrite IH; [done|].
  intros id' Hid. apply Hall. by right.
Qed.

Lemma list_rows_view {A} ctx (show : A → string) (ty : string) (z : A) mt (col : row → option A) w :
  (∀ id r, monitoring (store w) !! id = Some r → mtype r = mt ↔ is_Some (col r)) →
  (∃ w', list_rows ctx (λ t, (λ id, (id, t !! id ≫= col)) <$> ids_of mt t) show ty w =
     (inr (concat_str ((λ id, text_line id (show (default z (omap col (monitoring (store w)) !! id)))) <$>
        ids_of mt (monitoring (store w)))), w') ∧ monitoring (store w') = monitoring (store w)) ∨
  (∃ err w', list_rows ctx (λ t, (λ id, (id, t !! id ≫= col)) <$> ids_of mt t) show ty w = (inl err, w') ∧
     transient (Some err) ∧ monitoring (store w') = monitoring (store w)).
Proof.
  intros Hcol. unfold list_rows.
  destruct (query_foreign ctx (λ t, (λ id, (id, t !! id ≫= col)) <$> ids_of mt t) w)
    as [(w1 & -> & Hw1)|(err & w1 & -> & _ & He & Hw1)]; [|right; eauto].
  rewrite (scan_rows_view show ty z (λ id, monitoring (store w) !! id ≫= col)).
  2: { intros id Hid. by rewrite (ids_of_view col), keys_lookup, lookup_omap in Hid. }
  destruct (query_foreign ctx (λ _, tt) w1) as [(w2 & -> & Hw2)|(err & w2 & -> & _ & He & Hw2)].
  - left. exists w2. split; [|congruence]. do 3 f_equal. apply list_fmap_ext. intros i id Hi. by rewrite lookup_omap.
  - right. exists err, w2. split; [done|]. split; [done|congruence].
Qed.

(** The page with the lines of the two maps in a given order. *)
Definition page_in (cks gks : list string) (m : MemStorage) : string :=
  "---Counters---" +:+ nl_str +:+
  concat_str ((λ k, text_line k (show_int (default 0 (counter m !! k)))) <$> cks) +:+
  "---Gauge---" +:+ nl_str +:+
  concat_str ((λ k, text_line k (show_float (default fzero (gauge m !! k)))) <$> gks).

Lemma typed_counters ty t id r : typed ty t → t !! id = Some r → mtype r = "counter" ↔ is_Some (delta r).
Proof.
  intros Ht Hr. destruct (Ht id r Hr) as [_ [(Hg & _ & Hd)|(Hc & _ & d & Hd & _)]]; rewrite Hd.
  - split; [intros Hx; rewrite Hg in Hx; discriminate Hx|by intros [? ?]].
  - split; [by eexists|done].
Qed.

Lemma typed_gauges ty t id r : typed ty t → t !! id = Some r → mtype r = "gauge" ↔ is_Some (value r).
Proof.
  intros Ht Hr. destruct (Ht id r Hr) as [_ [(Hg & Hv & _)|(Hc & Hv & _)]].
  - by split.
  - split; [intros Hx; rewrite Hc in Hx; discriminate Hx|rewrite Hv; by intros [? ?]].
Qed.

(** The rows of a typed table are the keys of its two maps. *)
Lemma typed_ids ty t :
  typed ty t → ids_of "counter" t ≡ₚ keys (counter (pg_abs t)) ∧ ids_of "gauge" t ≡ₚ keys (gauge (pg_abs t)).
Proof. intros Ht. split; apply ids_of_view; intros id r Hr; [by eapply typed_counters|by eapply typed_gauges]. Qed.

Lemma pg_get_all_cases ty ctx w :
  typed ty (monitoring (store w)) →
  let t := monitoring (store w) in
  let '((s, e), w') := pg_GetAllMetricsTxt ctx w in
  ((s, e) = (page_in (ids_of "counter" t) (ids_of "gauge" t) (pg_abs t), None) ∨ transient e) ∧ monitoring (store w') = t.
Proof.
  intros Ht t. unfold t, pg_GetAllMetricsTxt.
  destruct (list_rows_view ctx show_int "int64" 0 "counter" delta w) as [(w1 & Hl & Hw1)|(err & w1 & Hl & He & Hw1)].
  { intros id r. by apply (typed_counters ty). }
  2: { unfold getAllCounter. rewrite Hl. split; [by right|done]. }
  unfold getAllCounter. rewrite Hl.
  destruct (list_rows_view ctx show_float "float64" fzero "gauge" value w1) as [(w2 & Hl2 & Hw2)|(err & w2 & Hl2 & He & Hw2)].
  { rewrite Hw1. intros id r. by apply (typed_gauges ty). }
  2: { unfold getAllGauge. rewrite Hl2. split; [by right|congruence]. }
  unfold getAllGauge. rewrite Hl2. split; [left|congruence]. by rewrite Hw1.
Qed.

(** With the collation C the lines come as the in-memory store sorts them. *)
Lemma page_in_sorted ty t :
  typed ty t → (∀ l, order_by_id l = sort_strings l) →
  (page_in (ids_of "counter" t) (ids_of "gauge" t) (pg_abs t), None) = mem_GetAllMetricsTxt (pg_abs t).
Proof.
  intros Ht Hsort. destruct (typed_ids ty t Ht) as [Hc Hg]. unfold mem_GetAllMetricsTxt, mem_GetAllMetricsTxt_in, page_in.
  unfold ids_of in *. rewrite !Hsort in *. unfold sort_strings in Hc, Hg.
  rewrite merge_sort_Permutation in Hc, Hg. by rewrite (sort_strings_perm _ _ Hc), (sort_strings_perm _ _ Hg).
Qed.

Lemma pg_ping_keeps ctx w : monitoring (store (pg_Ping ctx w).2) = monitoring (store w).
Proof. unfold pg_Ping. pose proof (query_table ctx (λ _, tt) w) as Hq. by destruct (query _ _ w) as [[] ?], Hq. Qed.
End Refines.

(** [C13] The Postgres store refines the pair of maps, as long as every id is used with one type, whatever the
    database and the connection do.  A write gives exactly what the write to the maps gives, or an error
    the retrier will retry; with that error the maps are as before (a counter that would leave the range of
    bigint is such an error, it never wraps around); only if the answer to a statement that took effect can
    get lost ([answer_lost]) may they instead be as after the write.  Reading never changes anything and gives what reading the maps gives,
    or an error that will be retried; the page of all metrics has exactly the lines of the two maps, each once and the
    counters first, in the order of the database's collation, so with bytewise collation it is the page of the
    in-memory store.  Ids keep their types. *)
Theorem pg_refines_maps {E : Type} `{PostgresLaws E} (ty : string → string) (ctx : context) (w : world (PgState E))
    (Ht : typed ty (monitoring (store w))) :
  let t := monitoring (store w) in
  (∀ name val, (∀ d, val = ICounter d → is_int64 d) →
     let '(e, w') := WriteMetric ctx (ty name) name val w in
     simulates ty t (mem_WriteMetric (ty name) name val (pg_abs t)) e (monitoring (store w'))) ∧
  (∀ metrics, batch_typed ty metrics →
     let '(e, w') := WriteBatchMetrics ctx metrics w in
     simulates ty t (mem_WriteBatchMetrics metrics (pg_abs t)) e (monitoring (store w'))) ∧
  (∀ mType name,
     let '((v, e), w') := GetMetric ctx mType name w in
     ((v, e) = mem_GetMetric mType name (pg_abs t) ∨ transient e) ∧ monitoring (store w') = t) ∧
  (let '((s, e), w') := GetAllMetricsTxt ctx w in
     ((∃ cks gks, cks ≡ₚ keys (counter (pg_abs t)) ∧ gks ≡ₚ keys (gauge (pg_abs t)) ∧
         (s, e) = (page_in cks gks (pg_abs t), None) ∧
         ((∀ l, order_by_id l = sort_strings l) → (s, e) = mem_GetAllMetricsTxt (pg_abs t)))
      ∨ transient e) ∧ monitoring (store w') = t).
Proof.
  cbv zeta. split_and!.
  - intros name val Hval. by apply pg_write_simulates.
  - intros metrics Hb. by apply pg_batch_simulates.
  - intros mType name. apply pg_get_simulates.
  - pose proof (pg_get_all_cases ty ctx w Ht) as Hg. cbn [GetAllMetricsTxt PgState_StoreMetrics].
    destruct (pg_GetAllMetricsTxt ctx w) as [[s e] w']. destruct Hg as [[Hg|Hg] Hw]; (split; [|done]); [left|by right].
    destruct (typed_ids ty _ Ht) as [Hc Hk]. eexists _, _. split_and!; [exact Hc|exact Hk|exact Hg|].
    intros Hsort. rewrite Hg. by eapply page_in_sorted.
Qed.

(** A server that refuses the first statement, then works. *)
Definition toy_Postgres : Postgres bool := {|
  roundtrip := λ (ctx : context) (w : world bool),
    if store w then (TripOk, w) else (TripFails (ErrMsg "connection refused") false, World (now w + 1) true);
  varchar_ok := λ n s, bool_decide (String.length s ≤ n)%nat;
  order_by_id := sort_strings
|}.

Lemma toy_PostgresLaws : PostgresLaws (H := toy_Postgres).
Proof.
  split.
  - intros ctx [t [|]] err a w' Hr; [discriminate Hr|]. by injection Hr as <- <- <-.
  - intros l. apply merge_sort_Permutation.
Qed.

(** A server that loses the answer to the first statement. *)
Definition lossy_Postgres : Postgres bool := {|
  roundtrip := λ (ctx : context) (w : world bool),
    if store w then (TripOk, w) else (TripFails (ErrMsg "connection reset") true, World (now w + 1) true);
  varchar_ok := λ n s, bool_decide (String.length s ≤ n)%nat;
  order_by_id := sort_strings
|}.

Lemma lossy_PostgresLaws : PostgresLaws (H := lossy_Postgres).
Proof.
  split.
  - intros ctx [t [|]] err a w' Hr; [discriminate Hr|]. by injection Hr as <- <- <-.
  - intros l. apply merge_sort_Permutation.
Qed.

(** Names of counters start with "c". *)
Definition toy_types (id : string) : string := if HasPrefix id "c" then CounterType else GaugeType.

(** The answer to the first write is lost: an error, and the counter is incremented. *)
Lemma pg_refines_maps_witness :
  let t : table := {[ "c1" := mkRow "counter" (Some 5) None ]} in
  let w : world (PgState bool) := World 0 (mkPg t false) in
  typed toy_types t ∧
  let '(e, w') := WriteMetric (StoreMetrics := PgState_StoreMetrics (H := lossy_Postgres)) Background (toy_types "c1") "c1" (ICounter 7) w in
  e ≠ None ∧ counter (pg_abs (monitoring (store w'))) !! "c1" = Some 12 ∧
  simulates (H := lossy_Postgres) toy_types t (mem_WriteMetric (toy_types "c1") "c1" (ICounter 7) (pg_abs t)) e (monitoring (store w')).
Proof.
  cbv zeta.
  assert (typed toy_types {[ "c1" := mkRow "counter" (Some 5) None ]}) as Ht.
  { intros id r [<- <-]%lookup_singleton_Some. split; [reflexivity|]. right. split; [reflexivity|]. split; [reflexivity|].
    exists 5. split; [reflexivity|]. unfold is_int64, min_int64, max_int64. lia. }
  split; [exact Ht|].
  pose proof (proj1 (pg_refines_maps (H := lossy_Postgres) (H0 := lossy_PostgresLaws) toy_types Background
    (World 0 (mkPg {[ "c1" := mkRow "counter" (Some 5) None ]} false)) Ht) "c1" (ICounter 7)) as Hp.
  destruct (WriteMetric _ _ _ _ _) as [e w'] eqn:Hw. vm_compute in Hw. injection Hw as <- <-.
  split; [discriminate|]. split; [reflexivity|]. apply Hp.
  intros d [= <-]. unfold is_int64, min_int64, max_int64. lia.
Defined.

(** [C27] A batch in Postgres is all or nothing, whatever fails and when: without an error the table is
    the one all statements of the batch give, one after the other; with an error, which the retrier will
    retry, it is the table from before, unless the answer to a statement that took effect can get
    lost, and then the batch may have been applied completely (and is applied again by the retry). *)
Theorem pg_batch_atomic {E : Type} `{ForeignErrors E} (ctx : context) (metrics : list Metrics) (w : world (PgState E)) :
  let '(e, w') := pg_WriteBatchMetrics ctx metrics w in
  let t := monitoring (store w) in
  let t' := monitoring (store w') in
  (e = None ∧ apply_all metrics t = inr t') ∨
  (transient e ∧ (t' = t ∨ (apply_all metrics t = inr t' ∧ answer_lost (E := E)))).
Proof. apply pg_batch_cases. Qed.

Lemma pg_batch_atomic_witness :
  let '(e, w') := pg_WriteBatchMetrics (H := toy_Postgres) Background
    [mkMetrics (Some 1) None "c1" "counter"; mkMetrics (Some max_int64) None "c1" "counter"]
    (World 0 (mkPg ∅ true)) in
  transient e ∧ monitoring (store w') = ∅.
Proof.
  pose proof (pg_batch_atomic (H := toy_Postgres) (H0 := laws_foreign (PostgresLaws := toy_PostgresLaws)) Background
    [mkMetrics (Some 1) None "c1" "counter"; mkMetrics (Some max_int64) None "c1" "counter"]
    (World 0 (mkPg ∅ true))) as Hp.
  destruct (pg_WriteBatchMetrics _ _ _) as [e w'] eqn:Hw. vm_compute in Hw. injection Hw as <- <-.
  destruct Hp as [[Hp _]|[Ht [Hp|[Hp _]]]]; [discriminate Hp| |discriminate Hp].
  split; [exact Ht|exact Hp].
Defined.

(** ** What happens outside of the contract *)

(** A counter written to an id that holds a gauge is lost without an error, and reading it fails. *)
Example counter_on_gauge :
  let pg := toy_Postgres in
  let w := World 0 (mkPg {[ "x" := mkRow "gauge" None (Some fzero) ]} true) in
  let '(e, w') := pg_WriteMetric (H := pg) Background CounterType "x" (ICounter 7) w in
  e = None ∧ w' = w ∧ (pg_GetMetric (H := pg) Background CounterType "x" w').1 = (INil, Some (scan_null "int64")).
Proof. vm_compute. done. Qed.

(** Through the retrier an increment is then applied twice and reported as a success. *)
Example counter_applied_twice :
  let pg := lossy_Postgres in
  match UseRetrierWM NewRetrier (pg_WriteMetric (H := pg)) with
  | Ret (b, call) =>
      match call b Background CounterType "c" (ICounter 5) (World 0 (mkPg ∅ false)) with
      | Ret (e, _, w') => e = None ∧ getCounter "c" (monitoring (store w')) = Some (Some 10)
      | _ => False
      end
  | _ => False
  end.
Proof. vm_compute. done. Qed.
