(* ===== verification/PgServer.v ===== *)
(** * A server on Postgres

    The Postgres store of [PgDB.v] keeps the contract of [StoreSpec.v] as long as every id has one type, no
    answer of the database gets lost and ids are ordered bytewise, so under these conditions what [StoreSim.v] and
    [Handlers.v] show of any store holds for it; and the reports of an agent respect the types.  What retried writes
    do when answers do get lost is shown at the end. *)

From S2P Require Import Prelude Strconv Float64 GoErrors Metrics MemStorage Json GoRetry Retrier StoreSpec Http.
From S2P Require Import Chi Routes Handlers Codec SignWriter CryptAndSign Middleware Netip Server StoreSim Agent EndToEnd Grpc AgentRun.
From S2P Require Import Delivery Polls PgDB.

Open Scope Z_scope.

(** The conditions under which the contract holds; they are no promise of Postgres: the database has the collation C,
    and no connection breaks between a commit and its answer. *)
Class Steady {E : Type} `{Postgres E} : Prop := {
  steady_laws :: PostgresLaws;
  answers_kept : ¬ answer_lost (E := E);
  bytewise l : order_by_id l = sort_strings l
}.

Lemma simulates_steady {E : Type} `{Steady E} ty t r e t' :
  simulates ty t r e t' → typed ty t' ∧ ((e, pg_abs t') = r ∨ (transient e ∧ pg_abs t' = pg_abs t)).
Proof. intros [Ht [Hr|[He [Ha|[_ Hl]]]]]; [by split; [|left]|by split; [|right]|by destruct (answers_kept Hl)]. Qed.

(** The contract, for tables in which ids have the types [ty]: a metric is written with the type of its id and a
    counter is a 64-bit integer. *)
#[local] Instance Pg_AbstractStore {E : Type} `{Steady E} (ty : string → string) : AbstractStore (PgState E).
Proof.
  refine (Build_AbstractStore (PgState E) _ (λ s, pg_abs (monitoring s)) (λ s, typed ty (monitoring s))
    (λ mtype name val, mtype = ty name ∧ ∀ d, val = ICounter d → is_int64 d) (batch_typed ty) _ _ _ _ _).
  - intros ctx mtype name val w Hs [Hty Hval]. pose proof (pg_write_simulates ty ctx mtype name val w Hs Hty Hval) as Hx.
    cbn [WriteMetric PgState_StoreMetrics]. destruct (pg_WriteMetric ctx mtype name val w). by apply simulates_steady.
  - intros ctx metrics w Hs Hb. pose proof (pg_batch_simulates ty ctx metrics w Hs Hb) as Hx.
    cbn [WriteBatchMetrics PgState_StoreMetrics]. destruct (pg_WriteBatchMetrics ctx metrics w). by apply simulates_steady.
  - intros ctx mType name w Hs. pose proof (pg_get_simulates ctx mType name w) as Hg. cbn [GetMetric PgState_StoreMetrics].
    destruct (pg_GetMetric ctx mType name w) as [[v e] w']. by destruct Hg as [? ->].
  - intros ctx w Hs. pose proof (pg_get_all_cases ty ctx w Hs) as Hg. cbn [GetAllMetricsTxt PgState_StoreMetrics].
    cbv zeta in Hg. rewrite (page_in_sorted ty _ Hs bytewise) in Hg.
    destruct (pg_GetAllMetricsTxt ctx w) as [[v e] w']. by destruct Hg as [? ->].
  - intros ctx w Hs. cbn [Ping PgState_StoreMetrics]. by rewrite pg_ping_keeps.
Defined.

(** ** The types of an agent's metrics *)

Definition agent_types (id : string) : string := if decide (id = "PollCount") then CounterType else GaugeType.

Lemma report_typed rtm s km :
  all_sensors rtm → Forall Metrics_ok (report rtm s km) → batch_typed agent_types (report rtm s km).
Proof.
  intros Hs Hok. unfold batch_typed. rewrite Forall_forall in Hok. apply Forall_forall. intros v Hv. split; [by apply Hok|].
  intros _. assert (∀ name x, name ≠ "PollCount" → MType (gauge_model name x) = agent_types (ID (gauge_model name x))) as Hg.
  { intros name x Hn. unfold agent_types. by rewrite decide_False. }
  rewrite report_eq in Hv by done. rewrite !elem_of_app in Hv. destruct Hv as [Hv|[Hv|Hv]].
  - apply list_elem_of_fmap in Hv as (name & -> & Hn). apply Hg. intros ->. revert Hn. by apply (bool_decide_unpack _).
  - rewrite !elem_of_cons, elem_of_nil in Hv. destruct Hv as [->|[->|[->|[->|[]]]]]; [done|by apply Hg..].
  - assert (∀ l i, v ∈ cpu_models i l → ∃ j x, v = gauge_model (cpu_name j) x) as Hc.
    { induction l as [|x l IH]; intros i Hi; [by apply elem_of_nil in Hi|]. apply elem_of_cons in Hi as [->|Hi]; eauto. }
    apply Hc in Hv as (j & x & ->). apply Hg. unfold cpu_name. rewrite str_app_cons. discriminate.
Qed.

(** A metric as the gRPC server rebuilds it has its type and is in range. *)
Lemma received_typed ty grpc ms : batch_typed ty ms → batch_typed ty (received grpc ms).
Proof.
  intros Hms. destruct grpc; [|done]. unfold received, EncodeProto, batch_typed in *.
  induction Hms as [|v ms [[Hd Hv] Hty] Hms IH]; [done|]. cbn [omap list_omap].
  assert (∀ r, encode_one v = Some r → Metrics_ok (decode_one r) ∧ (batch_valid (decode_one r) = true → MType (decode_one r) = ty (ID (decode_one r)))) as Hone.
  { intros r. unfold encode_one. destruct v as [dl vl id mt]; simpl in *. unfold batch_valid in *; simpl in *.
    destruct (decide (mt = "counter")) as [->|Hc].
    - intros (d & -> & ->)%fmap_Some. simpl. split; [split; simpl; [intros ? [= <-]; by apply Hd|intros ? [= <-]; apply fzero_canonical]|].
      exact Hty.
    - destruct (decide (mt = "gauge")) as [->|Hg]; [|done]. intros (x & -> & ->)%fmap_Some. simpl.
      split; [split; simpl; [by intros ? [= <-]|intros ? [= <-]; by apply Hv]|exact Hty]. }
  destruct (encode_one v) as [r|]; [|done]. constructor; [by apply Hone|done].
Qed.

(** So the contract covers the reports of any agent, over either transport. *)
#[local] Instance pg_ReportsOk {E : Type} `{Steady E} grpc :
  ReportsOk (H0 := Pg_AbstractStore agent_types) (S := PgState E) grpc.
Proof. intros rtm y km Hs Hok. by apply received_typed, report_typed. Qed.

(** ** The server over Postgres, on a request *)

Lemma toy_Steady : Steady (H := toy_Postgres).
Proof.
  split; [exact toy_PostgresLaws| |done]. intros (ctx & [t [|]] & err & w' & Hr); discriminate Hr.
Qed.

Definition pg_url_server (rs : list (Z * request)) (s : PgState bool) : outcome (list (list wcall) * PgState bool) :=
  serve_all (H := toy_Gzip) (H0 := toy_RSA) (H1 := Router.no_regexp)
    (H2 := PgState_StoreMetrics (H := toy_Postgres)) started "" "" None rs s.

Definition count_requests : list (Z * request) :=
  [(0, url_request CounterType "c1" "7"); (5, url_request "no_such_type" "c1" "7")].

Lemma store_refines_memory_witness :
  ∃ ls s', pg_url_server count_requests (mkPg {[ "c1" := mkRow "counter" (Some 5) None ]} false) = Ret (ls, s') ∧
    typed toy_types (monitoring s') ∧
    answers (H := toy_Gzip) (H0 := toy_RSA) (H1 := Router.no_regexp) started "" "" None
      (pg_abs {[ "c1" := mkRow "counter" (Some 5) None ]}) count_requests ls (pg_abs (monitoring s')).
Proof.
  refine (store_refines_memory (H := toy_Gzip) (H0 := toy_RSA) (H1 := Router.no_regexp) started "" "" None
    (H2 := PgState_StoreMetrics (H := toy_Postgres))
    (H3 := Pg_AbstractStore (H := toy_Postgres) (H0 := toy_Steady) toy_types)
    count_requests (mkPg {[ "c1" := mkRow "counter" (Some 5) None ]} false) _ _ _ _ _).
  - apply (bool_decide_unpack _). vm_compute. exact I.
  - reflexivity.
  - intros r. by eexists.
  - intros id r Hr. cbn [monitoring] in Hr. apply lookup_singleton_Some in Hr as [<- <-]. split; [reflexivity|]. right.
    split; [reflexivity|]. split; [reflexivity|].
    exists 5. split; [reflexivity|]. unfold is_int64, min_int64, max_int64. lia.
  - assert (∀ t, t ∈ ["counter"; "no_such_type"] → covered_request (H := toy_Gzip) (H0 := toy_RSA) (H1 := Router.no_regexp) "" ""
      (H2 := PgState_StoreMetrics (H := toy_Postgres))
      (H3 := Pg_AbstractStore (H := toy_Postgres) (H0 := toy_Steady) toy_types) (url_request t "c1" "7")) as Hc.
    { intros t Ht e ps r' Hroute [k Hk].
      assert (e = EUpdate ∧ ps = URLParams (url_request t "c1" "7")) as [-> ->].
      { revert Hroute. rewrite !elem_of_cons, elem_of_nil in Ht. destruct Ht as [->|[->|[]]]; vm_compute; by intros [= <- <-]. }
      injection Hk as <- _. intros t' n v (_ & <- & <- & [(g & Hg & _)|(c & Hg & Hp & ->)]).
      - revert Hg. rewrite !elem_of_cons, elem_of_nil in Ht. destruct Ht as [->|[->|[]]]; discriminate.
      - split; [rewrite Hg; reflexivity|]. intros d [= <-]. apply (f_equal (default 0)) in Hp. cbn [default from_option id] in Hp.
        rewrite <- Hp. apply (bool_decide_unpack _). vm_compute. exact I. }
    repeat constructor; apply Hc; rewrite !elem_of_cons; tauto.
Defined.

(** ** Reports over gRPC to a database that is down *)

Definition down_Postgres : Postgres unit := {|
  roundtrip := λ (ctx : context) w, (TripFails (ErrMsg "connection refused") false, w);
  varchar_ok := λ n s, bool_decide (String.length s ≤ n)%nat;
  order_by_id := sort_strings
|}.

(** The server answers OK although nothing was stored, so the agent holds its poll for acknowledged and
    resets its counter, and no database has it. *)
Lemma grpc_loses_polls :
  let call := direct_call (H := PgState_StoreMetrics (H := down_Postgres)) in
  let sent := grpc_sent "srv:3200" "10.1.2.3" (λ _, None) call in
  ConnectedCall (H := PgState_StoreMetrics (H := down_Postgres)) started None call ∧
  served_run true 1 sent (agent_init 0) (mkPg ∅ tt) grpc_labels (example_agent MReset [] "" idle) (mkPg ∅ tt) ∧
  acked (books_of grpc_labels) = 1.
Proof.
  cbv zeta. split; [apply direct_call_connected|]. split; [|reflexivity].
  apply (example_served true _ (SProto (EncodeProto example_report))); [done..|].
  exists (EncodeProto example_report), Background, 0. eexists _, None. split; [done|]. split; [done|].
  vm_compute. reflexivity.
Qed.

(** ** Retries when the answers of the database can get lost *)

Section LostAnswers.
Context {E : Type} `{Postgres E} (ty : string → string).

(** [n] copies of an increment. *)
Definition increments (n : nat) (name : string) (d : Z) (m : MemStorage) : MemStorage := Nat.iter n (add_counter name d) m.

Lemma set_gauge_twice name g m : set_gauge name g (set_gauge name g m) = set_gauge name g m.
Proof. unfold set_gauge; cbn [gauge counter]. by rewrite insert_insert_eq. Qed.

Lemma gauge_call name g m ctx (w : world (PgState E)) :
  ty name = GaugeType → typed ty (monitoring (store w)) →
  pg_abs (monitoring (store w)) = m ∨ pg_abs (monitoring (store w)) = set_gauge name g m →
  let '(e, w') := pg_WriteMetric ctx GaugeType name (IGauge g) w in
  typed ty (monitoring (store w')) ∧
  (pg_abs (monitoring (store w')) = set_gauge name g m ∨ (is_Some e ∧ pg_abs (monitoring (store w')) = m)).
Proof.
  intros Hty Ht Ha. unfold pg_WriteMetric. rewrite decide_True by done.
  assert (∀ t', insertGauge name "gauge" g (monitoring (store w)) = inr t' → typed ty t' ∧ pg_abs t' = set_gauge name g m) as Hst.
  { intros t' Hs. destruct (insertGauge_typed ty name g _ _ Ht Hty Hs) as [? ->]. split; [done|].
    destruct Ha as [-> | ->]; [done|apply set_gauge_twice]. }
  pose proof (exec_cases ctx (insertGauge name "gauge" g) w) as Hx. destruct (exec _ _ w) as [e w'].
  destruct Hx as [[-> Hs]|[[err ->] [Hs|[Hs _]]]].
  - destruct (Hst _ Hs). by split; [|left].
  - rewrite Hs. split; [done|]. destruct Ha as [Ha|Ha]; [right; by split; [eexists|]|by left].
  - destruct (Hst _ Hs). by split; [|left].
Qed.

Lemma counter_call name d m n ctx (w : world (PgState E)) :
  ty name = CounterType → is_int64 d → typed ty (monitoring (store w)) → pg_abs (monitoring (store w)) = increments n name d m →
  let '(e, w') := pg_WriteMetric ctx CounterType name (ICounter d) w in
  typed ty (monitoring (store w')) ∧
  (pg_abs (monitoring (store w')) = increments (S n) name d m ∨
   (is_Some e ∧ pg_abs (monitoring (store w')) = increments n name d m)).
Proof.
  intros Hty Hd Ht Ha. unfold pg_WriteMetric. rewrite decide_False, decide_True by done.
  assert (∀ t', insertCounter name "counter" d (monitoring (store w)) = inr t' →
    typed ty t' ∧ pg_abs t' = increments (S n) name d m) as Hst.
  { intros t' Hs. destruct (insertCounter_typed ty name d _ _ Ht Hty Hd Hs) as [? ->]. split; [done|]. by rewrite Ha. }
  pose proof (exec_cases ctx (insertCounter name "counter" d) w) as Hx. destruct (exec _ _ w) as [e w'].
  destruct Hx as [[-> Hs]|[[err ->] [Hs|[Hs _]]]].
  - destruct (Hst _ Hs). by split; [|left].
  - rewrite Hs. split; [done|]. right. by split; [eexists|].
  - destruct (Hst _ Hs). by split; [|left].
Qed.
End LostAnswers.

(** [C22] Retried writes when the database's answers can get lost: whatever is lost, the wrapped write returns.  A
    gauge is idempotent, as the comment in the source says: it is written, or the call reports an error and
    the maps are as before or have the gauge.  A counter is not: it has grown by the increment [k]
    times, with [k] at most the number of attempts, and at least one if no error is reported. *)
Theorem pg_retried_writes {E : Type} `{Postgres E} (ty : string → string) (mh : metricHandlers) (name : string)
    (w : world (PgState E)) (Hm : made (reqRetrier mh)) (Ht : typed ty (monitoring (store w))) :
  let m := pg_abs (monitoring (store w)) in
  (∀ g, ty name = GaugeType →
     ∃ e w', do_WriteMetric mh GaugeType name (IGauge g) w = Ret (e, w') ∧ typed ty (monitoring (store w')) ∧
       (pg_abs (monitoring (store w')) = set_gauge name g m ∨ (is_Some e ∧ pg_abs (monitoring (store w')) = m))) ∧
  (∀ d, ty name = CounterType → is_int64 d →
     ∃ e w' k, do_WriteMetric mh CounterType name (ICounter d) w = Ret (e, w') ∧ typed ty (monitoring (store w')) ∧
       pg_abs (monitoring (store w')) = increments k name d m ∧
       Z.of_nat k ≤ maxRetries (reqRetrier mh) + 1 ∧ (e = None → 1 ≤ k)%nat).
Proof.
  cbv zeta. destruct (new_bf_made _ Hm) as (b & Hb & Hleft & _). split.
  - intros g Hty.
    destruct (retry_call_outcome (reqRetrier mh)
      (λ _ s, typed ty (monitoring s) ∧ (pg_abs (monitoring s) = pg_abs (monitoring (store w)) ∨
                pg_abs (monitoring s) = set_gauge name g (pg_abs (monitoring (store w)))))
      (λ _ s, typed ty (monitoring s) ∧ pg_abs (monitoring s) = set_gauge name g (pg_abs (monitoring (store w))))
      (λ ctx, pg_WriteMetric ctx GaugeType name (IGauge g)) b (mh_ctx mh) w Hm) as (e & b' & w' & n & Hr & _ & Ho).
    + intros ? ctx w1 [Ht1 Ha1]. pose proof (gauge_call ty name g _ ctx w1 Hty Ht1 Ha1) as Hc.
      destruct (pg_WriteMetric ctx GaugeType name (IGauge g) w1) as [[err|] w2]; cbn [fst snd];
        destruct Hc as [? [?|[Hx ?]]]; auto. by destruct Hx.
    + by split; [|left].
    + exists e, w'. unfold do_WriteMetric, UseRetrierWM. rewrite Hb. cbn. rewrite Hr. split; [done|].
      destruct e; destruct Ho as [? Ho]; [|by split; [|left]]. split; [done|]. destruct Ho; [right|by left]. by split; [eexists|].
  - intros d Hty Hd.
    destruct (retry_call_outcome (reqRetrier mh)
      (λ n s, typed ty (monitoring s) ∧ ∃ k, (k ≤ n)%nat ∧ pg_abs (monitoring s) = increments k name d (pg_abs (monitoring (store w))))
      (λ n s, typed ty (monitoring s) ∧ ∃ k, (1 ≤ k ≤ n)%nat ∧ pg_abs (monitoring s) = increments k name d (pg_abs (monitoring (store w))))
      (λ ctx, pg_WriteMetric ctx CounterType name (ICounter d)) b (mh_ctx mh) w Hm) as (e & b' & w' & n & Hr & Hn & Ho).
    + intros n ctx w1 (Ht1 & k & Hk & Ha1). pose proof (counter_call ty name d _ k ctx w1 Hty Hd Ht1 Ha1) as Hc.
      destruct (pg_WriteMetric ctx CounterType name (ICounter d) w1) as [[err|] w2]; cbn [fst snd];
        destruct Hc as [? [Ha|[Hx Ha]]]; (split; [done|]).
      * exists (S k). split; [lia|done].
      * exists k. split; [lia|done].
      * exists (S k). split; [lia|done].
      * by destruct Hx.
    + split; [done|]. exists 0%nat. by split.
    + assert (∃ k, (k ≤ n)%nat ∧ (e = None → 1 ≤ k)%nat ∧ typed ty (monitoring (store w')) ∧
        pg_abs (monitoring (store w')) = increments k name d (pg_abs (monitoring (store w)))) as (k & Hk & Hone & Ht' & Ha)
        by (destruct e; destruct Ho as (? & k & ? & ?); exists k; split_and!; done || lia).
      exists e, w', k. unfold do_WriteMetric, UseRetrierWM. rewrite Hb. cbn. rewrite Hr. split_and!; [done..|lia|done].
Qed.

Lemma pg_retried_writes_witness :
  ∃ e w' k, do_WriteMetric (H := PgState_StoreMetrics (H := lossy_Postgres)) started CounterType "c1" (ICounter 5) (World 0 (mkPg ∅ false)) =
      Ret (e, w') ∧ typed toy_types (monitoring (store w')) ∧
    pg_abs (monitoring (store w')) = increments k "c1" 5 (pg_abs ∅) ∧ Z.of_nat k ≤ 3 + 1 ∧ (e = None → 1 ≤ k)%nat.
Proof.
  refine (proj2 (pg_retried_writes (H := lossy_Postgres) toy_types started "c1" (World 0 (mkPg ∅ false)) _ _) 5 eq_refl _).
  - apply (bool_decide_unpack _). vm_compute. exact I.
  - intros id r Hr. exfalso. revert Hr. cbn [monitoring store]. by rewrite lookup_empty.
  - unfold is_int64, min_int64, max_int64. lia.
Defined.
