(* ===== verification/PgConcurrent.v ===== *)
(** * Transactions of several connections

    The handlers of [internal/server/server.go] run at the same time and share the pool of [internal/storage/pgdb.go], so
    their statements overlap.  At the isolation level Postgres starts with, READ COMMITTED, a
    statement reads what was committed when it began and what its own transaction has written, while
    [ON CONFLICT DO UPDATE] changes the row as it is when its turn comes, after any transaction that has
    written the row and has not ended.  The upsert of a counter reads the old value in a subselect: what
    that does to counters when two upserts overlap. *)

From S2P Require Import Prelude Strconv Float64 GoErrors Metrics MemStorage GoRetry Retrier StoreSpec PgDB.

Open Scope Z_scope.

(** ** Statements with their snapshots *)

(** A write statement with its parameters; [WriteMetric] executes one, which is a transaction of its own. *)
Inductive stmt : Type :=
| SGauge (id mt : string) (v : float64)
| SCounter (id mt : string) (d : Z).

Definition stmt_id (s : stmt) : string := match s with SGauge id _ _ | SCounter id _ _ => id end.

(** The statements [WriteBatchMetrics] executes for a batch. *)
Definition stmt_of (v : Metrics) : option stmt :=
  if decide (MType v = GaugeType) then
    match Value v with
    | None => None
    | Some x => if decide (ID v = "") then None else Some (SGauge (ID v) (MType v) x)
    end
  else if decide (MType v = CounterType) then
    match Delta v with
    | None => None
    | Some d => if decide (ID v = "") then None else Some (SCounter (ID v) (MType v) d)
    end
  else None.

Definition stmts_of (metrics : list Metrics) : list stmt := omap stmt_of metrics.

Section Concurrent.
Context {E : Type} `{Postgres E}.

(** [insertCounterPrep] on the table [t], its subselect on the table [snap] of the moment it began. *)
Definition insertCounter_at (snap : table) (id mt : string) (d : Z) (t : table) : goerror + table :=
  if columns_ok id mt then
    match t !! id with
    | None => inr (<[id := mkRow mt (Some d) None]> t)
    | Some r =>
        match snap !! id ≫= delta with
        | None => inr (<[id := mkRow (mtype r) None (value r)]> t)
        | Some old =>
            if decide (is_int64 (d + old)) then inr (<[id := mkRow (mtype r) (Some (d + old)) (value r)]> t)
            else inl out_of_range
        end
    end
  else inl too_long.

Definition finish (snap : table) (s : stmt) (t : table) : goerror + table :=
  match s with
  | SGauge id mt v => insertGauge id mt v t
  | SCounter id mt d => insertCounter_at snap id mt d t
  end.

(** A connection: with transactions to execute; between two statements of one, having executed [done_] and
    written the rows [mine], with [rest] left; or with the statement [s] running, begun at [snap]. *)
Inductive connection : Type :=
| CIdle (todo : list (list stmt))
| COpen (mine : table) (done_ rest : list stmt) (todo : list (list stmt))
| CRunning (snap mine : table) (done_ : list stmt) (s : stmt) (rest : list stmt) (todo : list (list stmt)).

(** The rows a connection has written and not committed: it holds their locks. *)
Definition mine_of (c : connection) : table :=
  match c with CIdle _ => ∅ | COpen mine _ _ _ | CRunning _ mine _ _ _ _ => mine end.

Definition done_of (c : connection) : list stmt :=
  match c with CIdle _ => [] | COpen _ l _ _ | CRunning _ _ l _ _ _ => l end.

Definition todo_of (c : connection) : list (list stmt) :=
  match c with CIdle todo | COpen _ _ _ todo | CRunning _ _ _ _ _ todo => todo end.

(** It has written the row of [id], or is about to. *)
Definition on_id (id : string) (c : connection) : Prop :=
  is_Some (mine_of c !! id) ∨ match c with CRunning _ _ _ s _ _ => stmt_id s = id | _ => False end.

(** The row of [id] in [t'], added to the rows of a transaction. *)
Definition written (id : string) (t' mine : table) : table :=
  match t' !! id with Some r => <[id := r]> mine | None => mine end.

(** The table and what each connection is at. *)
Record pool_state : Type := mkPool { conns : list connection; tab : table }.

(** No other connection holds the lock of the row. *)
Definition row_free (i : nat) (id : string) (cs : list connection) : Prop :=
  ∀ j c, j ≠ i → cs !! j = Some c → mine_of c !! id = None.

Inductive event : Type :=
| EBegin (i : nat) | EStart (i : nat) | EWrite (i : nat) | EError (i : nat) (err : goerror)
| ECommit (i : nat) (l : list stmt) | EAbort (i : nat).

(** [exclusive id]: a statement on [id] begins only when no other connection is on that row.  A connection may
    fail at any moment, which rolls its transaction back; so does an error of a statement. *)
Inductive pool_step (exclusive : string → Prop) : event → pool_state → pool_state → Prop :=
| step_begin i b todo cs t :
    cs !! i = Some (CIdle (b :: todo)) →
    pool_step exclusive (EBegin i) (mkPool cs t) (mkPool (<[i := COpen ∅ [] b todo]> cs) t)
| step_start i mine l s rest todo cs t :
    cs !! i = Some (COpen mine l (s :: rest) todo) →
    (exclusive (stmt_id s) → ∀ j c, j ≠ i → cs !! j = Some c → ¬ on_id (stmt_id s) c) →
    pool_step exclusive (EStart i) (mkPool cs t) (mkPool (<[i := CRunning t mine l s rest todo]> cs) t)
| step_write i snap mine l s rest todo cs t t' :
    cs !! i = Some (CRunning snap mine l s rest todo) → row_free i (stmt_id s) cs →
    finish (mine ∪ snap) s (mine ∪ t) = inr t' →
    pool_step exclusive (EWrite i) (mkPool cs t)
      (mkPool (<[i := COpen (written (stmt_id s) t' mine) (l ++ [s]) rest todo]> cs) t)
| step_error i snap mine l s rest todo cs t err :
    cs !! i = Some (CRunning snap mine l s rest todo) → row_free i (stmt_id s) cs →
    finish (mine ∪ snap) s (mine ∪ t) = inl err →
    pool_step exclusive (EError i err) (mkPool cs t) (mkPool (<[i := CIdle todo]> cs) t)
| step_commit i mine l todo cs t :
    cs !! i = Some (COpen mine l [] todo) →
    pool_step exclusive (ECommit i l) (mkPool cs t) (mkPool (<[i := CIdle todo]> cs) (mine ∪ t))
| step_abort i c cs t :
    cs !! i = Some c → (∀ todo, c ≠ CIdle todo) →
    pool_step exclusive (EAbort i) (mkPool cs t) (mkPool (<[i := CIdle (todo_of c)]> cs) t).

(** An execution. *)
Inductive pool_run (exclusive : string → Prop) (p0 : pool_state) : list event → pool_state → Prop :=
| pool_nil : pool_run exclusive p0 [] p0
| pool_snoc es e p p' : pool_run exclusive p0 es p → pool_step exclusive e p p' → pool_run exclusive p0 (es ++ [e]) p'.

(** The statements of the transactions that were committed. *)
Definition committed_by (e : event) : list stmt := match e with ECommit _ l => l | _ => [] end.
Definition committed (es : list event) : list stmt := es ≫= committed_by.

Lemma committed_snoc es e : committed (es ++ [e]) = committed es ++ committed_by e.
Proof. unfold committed. rewrite bind_app. cbn. by rewrite app_nil_r. Qed.

Lemma committed_app es es' : committed (es ++ es') = committed es ++ committed es'.
Proof. apply bind_app. Qed.

Lemma pool_run_trans exclusive p es q es' r :
  pool_run exclusive p es q → pool_run exclusive q es' r → pool_run exclusive p (es ++ es') r.
Proof. intros Hp Hq. induction Hq; [by rewrite app_nil_r|]. rewrite app_assoc. by eapply pool_snoc. Qed.

(** The increments of the counter [id] among statements. *)
Definition stored (id : string) (s : stmt) : list Z :=
  match s with SCounter i _ d => if decide (i = id) then [d] else [] | _ => [] end.

Definition all_idle (cs : list connection) : Prop := ∀ i c, cs !! i = Some c → ∃ todo, c = CIdle todo.

(** ** One after the other *)

(** A statement that nothing overlaps is the statement of [PgDB.v]. *)
Lemma insertCounter_alone id mt d t : insertCounter_at t id mt d t = insertCounter id mt d t.
Proof. unfold insertCounter_at, insertCounter. destruct (columns_ok _ _); [|done]. by destruct (t !! id). Qed.

(** Statements one after the other on a table of their own. *)
Fixpoint alone (l : list stmt) (t : table) : goerror + table :=
  match l with
  | [] => inr t
  | s :: l => match finish t s t with inl err => inl err | inr t' => alone l t' end
  end.

Lemma exec_tx_alone ctx f t (w : world (PgState E)) :
  (∀ w : world E, (roundtrip ctx w).1 = TripOk) → (exec_tx ctx f t w).1 = f t.
Proof. intros Hok. unfold exec_tx, trip_of. specialize (Hok (World (now w) (conn (store w)))). by destruct (roundtrip ctx _) as [[]]. Qed.

(** A batch over a connection that does not fail is its statements, one after the other. *)
Lemma tx_loop_alone ctx metrics t (w : world (PgState E)) :
  (∀ w : world E, (roundtrip ctx w).1 = TripOk) →
  match (tx_loop ctx metrics t w).1, alone (stmts_of metrics) t with
  | inr t1, inr t2 => t1 = t2
  | inl _, inl _ => True
  | _, _ => False
  end.
Proof.
  intros Hok. revert t w. induction metrics as [|v ms IH]; intros t w; [done|].
  assert (match (tx_step ctx v t w).1, stmt_of v with
          | r, None => r = inr t
          | inr t', Some s => finish t s t = inr t'
          | inl _, Some s => ∃ err, finish t s t = inl err
          end) as Hstep.
  { unfold tx_step, stmt_of. repeat (case_decide || case_match); simplify_eq/=; try done;
      match goal with He : exec_tx ctx ?f t w = _ |- _ => pose proof (exec_tx_alone ctx f t w Hok) as Hx; rewrite He in Hx end;
      cbn in Hx; rewrite ?insertCounter_alone; by eauto. }
  cbn [tx_loop]. unfold stmts_of. cbn [omap list_omap]. fold (stmts_of ms).
  destruct (tx_step ctx v t w) as [[err|t'] w1]; cbn [fst] in Hstep |- *.
  - destruct (stmt_of v); [|done]. destruct Hstep as [err' Hf]. cbn [alone]. by rewrite Hf.
  - destruct (stmt_of v); [cbn [alone]; rewrite Hstep; apply IH|]. injection Hstep as <-. apply IH.
Qed.

(** ** What a statement does to a row *)

(** The value of a counter, [None] for NULL. *)
Definition counter_of (id : string) (t : table) : option Z := t !! id ≫= delta.

(** A statement writes its own row. *)
Lemma finish_lookup snap s t t' :
  finish snap s t = inr t' → ∃ r, t' = <[stmt_id s := r]> t ∧ (∀ i mt v, s = SGauge i mt v → ∀ r0, t !! i = Some r0 → delta r = delta r0).
Proof.
  destruct s as [i mt v|i mt d]; cbn [finish stmt_id].
  - unfold insertGauge. destruct (columns_ok _ _); [|done]. intros [= <-]. eexists. split; [done|].
    intros ? ? ? [= <- <- <-] r0 Hr. by rewrite Hr.
  - unfold insertCounter_at. destruct (columns_ok _ _); [|done]. destruct (t !! i).
    + destruct (snap !! i ≫= delta); [case_decide; [|done]|]; intros [= <-]; by eexists.
    + intros [= <-]. by eexists.
Qed.

(** A transaction on a connection of its own commits what its statements do one after the other. *)
Lemma lone_statements exclusive mine l b t t' :
  alone b (mine ∪ t) = inr t' →
  ∃ es mine', pool_run exclusive (mkPool [COpen mine l b []] t) es (mkPool [COpen mine' (l ++ b) [] []] t) ∧
    mine' ∪ t = t' ∧ committed es = [].
Proof.
  revert mine l. induction b as [|s b IH]; intros mine l Hb.
  - injection Hb as <-. exists [], mine. rewrite app_nil_r. split_and!; [constructor|done|done].
  - cbn [alone] in Hb. destruct (finish (mine ∪ t) s (mine ∪ t)) as [|t1] eqn:Hf; [done|].
    destruct (finish_lookup _ _ _ _ Hf) as (r & Ht1 & _).
    assert (written (stmt_id s) t1 mine ∪ t = t1) as Hw by (unfold written; by rewrite Ht1, lookup_insert_eq, insert_union_l).
    destruct (IH (written (stmt_id s) t1 mine) (l ++ [s])) as (es & mine' & Hrun & Hm & Hc); [by rewrite Hw|].
    exists (([] ++ [EStart 0]) ++ [EWrite 0] ++ es), mine'. rewrite <- app_assoc in Hrun. split_and!; [|done|].
    + rewrite app_assoc. eapply pool_run_trans; [|exact Hrun].
      eapply pool_snoc; [eapply pool_snoc; [constructor|]|].
      * apply (step_start exclusive 0 mine l s b [] [COpen mine l (s :: b) []] t); [done|].
        intros _ [|j] c Hj Hc'; [done|]. by destruct j.
      * apply (step_write exclusive 0 t mine l s b [] [CRunning t mine l s b []] t t1); [done| |exact Hf].
        intros [|j] c Hj Hc'; [done|]. by destruct j.
    + rewrite app_assoc, committed_app, Hc. done.
Qed.

Lemma lone_transaction exclusive b t t' :
  alone b t = inr t' →
  ∃ es, pool_run exclusive (mkPool [CIdle [b]] t) es (mkPool [CIdle []] t') ∧ committed es = b.
Proof.
  intros Hb. rewrite <- (map_empty_union t) in Hb. destruct (lone_statements exclusive ∅ [] b t t' Hb) as (es & mine & Hrun & <- & Hc).
  exists (([] ++ [EBegin 0]) ++ es ++ [ECommit 0 b]). split.
  - rewrite app_assoc. eapply pool_snoc; [|by apply (step_commit exclusive 0 mine b [] [COpen mine b [] []] t)].
    eapply pool_run_trans; [|exact Hrun]. eapply pool_snoc; [constructor|].
    by apply (step_begin exclusive 0 b [] [CIdle [b]] t).
  - rewrite !committed_app, Hc. cbn. by rewrite app_nil_r.
Qed.

(** An increment of an existing counter: what the subselect saw plus the increment, or NULL. *)
Lemma finish_increment snap i mt d t t' r :
  t !! i = Some r → finish snap (SCounter i mt d) t = inr t' → counter_of i t' = Z.add d <$> counter_of i snap.
Proof.
  intros Hr. cbn [finish]. unfold insertCounter_at, counter_of. destruct (columns_ok _ _); [|done]. rewrite Hr.
  destruct (snap !! i ≫= delta); [case_decide; [|done]|]; intros [= <-]; by rewrite lookup_insert_eq.
Qed.

(** ** What holds of a row wherever it is seen *)

Section Everywhere.
Context (id : string) (R : list stmt → option row → Prop).
Hypothesis R_mono : ∀ ls ls' o, ls `sublist_of` ls' → R ls o → R ls' o.
Hypothesis R_write : ∀ ls snap s t t', stmt_id s = id →
  R ls (snap !! id) → R ls (t !! id) → finish snap s t = inr t' → R (ls ++ [s]) (t' !! id).

(** In the table, and in what a connection has seen and written; [ls] are the statements committed. *)
Definition seen_ok (ls : list stmt) (c : connection) : Prop :=
  (∀ r, mine_of c !! id = Some r → R (ls ++ done_of c) (Some r)) ∧
  match c with CRunning snap _ _ _ _ _ => R ls (snap !! id) | _ => True end.

Definition everywhere (ls : list stmt) (p : pool_state) : Prop :=
  R ls (tab p !! id) ∧ ∀ i c, conns p !! i = Some c → seen_ok ls c.

Lemma idle_everywhere cs t : all_idle cs → R [] (t !! id) → everywhere [] (mkPool cs t).
Proof. intros Hcs Ht. split; [done|]. intros i c Hi. destruct (Hcs _ _ Hi) as [todo ->]. by split. Qed.

Lemma seen_mono ls l c : seen_ok ls c → seen_ok (ls ++ l) c.
Proof.
  intros [Hm Hs]. split.
  - intros r Hr. eapply R_mono; [|by apply Hm]. by apply sublist_app; [apply sublist_inserts_r|].
  - destruct c; try done. eapply R_mono; [by apply sublist_inserts_r|done].
Qed.

(** What a transaction sees: its own row, or the one of the table underneath. *)
Lemma seen_over ls l (mine t : table) :
  (∀ r, mine !! id = Some r → R (ls ++ l) (Some r)) → R ls (t !! id) → R (ls ++ l) ((mine ∪ t) !! id).
Proof.
  intros Hm Ht. destruct (mine !! id) as [r|] eqn:Hr; [rewrite (lookup_union_Some_l _ _ _ _ Hr); by apply Hm|].
  rewrite lookup_union_r by done. eapply R_mono; [by apply sublist_inserts_r|done].
Qed.

Lemma step_everywhere exclusive ls e p p' :
  pool_step exclusive e p p' → everywhere ls p → everywhere (ls ++ committed_by e) p'.
Proof.
  intros Hstep [Ht Hcs].
  assert (∀ (i : nat) (c c' : connection) (cs : list connection), (∀ (j : nat) x, cs !! j = Some x → seen_ok ls x) → cs !! i = Some c → seen_ok (ls ++ committed_by e) c' →
    ∀ (j : nat) x, <[i := c']> cs !! j = Some x → seen_ok (ls ++ committed_by e) x) as Hins.
  { intros i c c' cs Hall Hi Hc' j x [(_ & <- & _)|[_ Hj]]%list_lookup_insert_Some; [done|]. apply seen_mono. by eapply Hall. }
  destruct Hstep as [i b todo cs t Hi|i mine l s rest todo cs t Hi _|i snap mine l s rest todo cs t t' Hi _ Hf
    |i snap mine l s rest todo cs t err Hi _ _|i mine l todo cs t Hi|i c cs t Hi _];
    pose proof (Hcs _ _ Hi) as Hc; cbn [tab conns] in *;
    (split; [|eapply Hins; [exact Hcs|exact Hi|]]); cbn [tab conns committed_by]; rewrite ?app_nil_r; try done.
  - destruct Hc as [Hm _]. by split.
  - destruct Hc as [Hm Hs]. split; [|done]. cbn [mine_of done_of] in *. rewrite app_assoc. intros r. unfold written.
    destruct (decide (stmt_id s = id)) as [Hid|Hne].
    + pose proof (R_write (ls ++ l) (mine ∪ snap) s (mine ∪ t) t' Hid) as Hw. rewrite Hid.
      destruct (t' !! id) as [r'|]; [rewrite lookup_insert_eq; intros [= <-]; apply Hw; [by apply seen_over..|done]|].
      intros Hr. eapply R_mono; [by apply sublist_inserts_r|]. by apply Hm.
    + intros Hr. eapply R_mono; [by apply sublist_inserts_r|]. apply Hm.
      destruct (t' !! stmt_id s); [by rewrite lookup_insert_ne in Hr|done].
  - destruct Hc as [Hm _]. by apply seen_over.
Qed.

Lemma run_everywhere exclusive p0 es p : everywhere [] p0 → pool_run exclusive p0 es p → everywhere (committed es) p.
Proof.
  intros H0 Hrun. induction Hrun as [|es e p p' Hrun IH Hstep]; [done|]. rewrite committed_snoc. by eapply step_everywhere.
Qed.
End Everywhere.

(** *** Some of the increments *)

(** The row is there, and its counter is [v0] and a sum of some of the increments. *)
Definition some_of (v0 : Z) (id : string) (ls : list stmt) (o : option row) : Prop :=
  ∃ r l, o = Some r ∧ l `sublist_of` (ls ≫= stored id) ∧ delta r = Some (v0 + sum l).

Lemma bind_sublist {A B} (f : A → list B) l l' : l `sublist_of` l' → (l ≫= f) `sublist_of` (l' ≫= f).
Proof.
  induction 1 as [|x l l' _ IH|x l l' _ IH]; [done| |].
  - rewrite !bind_cons. by apply sublist_app.
  - rewrite bind_cons. by apply sublist_inserts_l.
Qed.

Lemma some_of_mono v0 id ls ls' o : ls `sublist_of` ls' → some_of v0 id ls o → some_of v0 id ls' o.
Proof. intros Hl (r & l & -> & Hs & Hd). exists r, l. split_and!; [done| |done]. etrans; [done|by apply bind_sublist]. Qed.

Lemma stored_gauge id i mt v : [SGauge i mt v] ≫= stored id = [].
Proof. done. Qed.
Lemma stored_counter id mt d : [SCounter id mt d] ≫= stored id = [d].
Proof. cbn. by rewrite decide_True. Qed.
Lemma stored_other id s : stmt_id s ≠ id → [s] ≫= stored id = [].
Proof. destruct s; cbn; [done|]. intros. by rewrite decide_False. Qed.

(** Writing a row with a counter: a gauge leaves the counter alone. *)
Lemma finish_row snap s t t' r :
  t !! stmt_id s = Some r → finish snap s t = inr t' →
  ∃ r', t' !! stmt_id s = Some r' ∧
    delta r' = match s with SGauge _ _ _ => delta r | SCounter i _ d => Z.add d <$> counter_of i snap end.
Proof.
  intros Hr Hf. destruct (finish_lookup _ _ _ _ Hf) as (r' & Ht' & Hg). exists r'. rewrite Ht', lookup_insert_eq. split; [done|].
  destruct s as [i mt v|i mt d]; cbn [stmt_id] in *; [by eapply Hg|].
  rewrite <- (finish_increment _ _ _ _ _ _ _ Hr Hf), Ht'. unfold counter_of. by rewrite lookup_insert_eq.
Qed.

Lemma some_of_write v0 id ls snap s t t' :
  stmt_id s = id → some_of v0 id ls (snap !! id) → some_of v0 id ls (t !! id) → finish snap s t = inr t' →
  some_of v0 id (ls ++ [s]) (t' !! id).
Proof.
  intros <- (rs & ks & Hs & Hks & Hds) (rt & kt & Ht & Hkt & Hdt) Hf.
  destruct (finish_row _ _ _ _ _ Ht Hf) as (r & Hr & Hd). destruct s as [i mt v|i mt d]; cbn [stmt_id] in *.
  - exists r, kt. split_and!; [done| |congruence]. rewrite bind_app, stored_gauge. by rewrite app_nil_r.
  - exists r, (ks ++ [d]). split_and!; [done| |].
    + rewrite bind_app, stored_counter. by apply sublist_app.
    + rewrite Hd. unfold counter_of. rewrite Hs. cbn. rewrite Hds. cbn. f_equal. rewrite sum_app. unfold sum. simpl. lia.
Qed.

Lemma some_increments exclusive v0 id cs t es p :
  all_idle cs → counter_of id t = Some v0 → pool_run exclusive (mkPool cs t) es p →
  ∃ l, l `sublist_of` (committed es ≫= stored id) ∧ counter_of id (tab p) = Some (v0 + sum l).
Proof.
  intros Hcs Hv Hrun. apply (run_everywhere id (some_of v0 id)) in Hrun as [(r & l & Hr & Hl & Hd) _].
  - exists l. split; [done|]. unfold counter_of. by rewrite Hr.
  - intros ls ls' o. apply some_of_mono.
  - intros ls snap s t1 t2. apply some_of_write.
  - apply idle_everywhere; [done|]. unfold counter_of in Hv. destruct (t !! id) as [r|]; [|done].
    exists r, []. rewrite Z.add_0_r. split_and!; [done|apply sublist_nil_l|done].
Qed.

(** *** A counter that is NULL *)

Definition null_row (ls : list stmt) (o : option row) : Prop := ∃ r, o = Some r ∧ delta r = None.

Lemma null_row_write id ls snap s t t' :
  stmt_id s = id → null_row ls (snap !! id) → null_row ls (t !! id) → finish snap s t = inr t' →
  null_row (ls ++ [s]) (t' !! id).
Proof.
  intros <- (rs & Hs & Hds) (rt & Ht & Hdt) Hf. destruct (finish_row _ _ _ _ _ Ht Hf) as (r & Hr & Hd). exists r.
  split; [done|]. rewrite Hd. destruct s as [|i mt d]; [done|]. cbn [stmt_id] in Hs. unfold counter_of. rewrite Hs. cbn. by rewrite Hds.
Qed.

(** *** All of the increments *)

Section Exclusive.
Context (v0 : Z) (id : string).

Definition total (ls : list stmt) : option Z := Some (v0 + sum (ls ≫= stored id)).

(** What a transaction has written to the row is the sum of everything committed and of its own increments; a
    statement that is running on the row has seen its last committed value. *)
Definition tx_total (ls : list stmt) (t : table) (c : connection) : Prop :=
  match mine_of c !! id with
  | Some r => delta r = total (ls ++ done_of c)
  | None => done_of c ≫= stored id = []
  end ∧
  match c with CRunning snap _ _ s _ _ => stmt_id s = id → counter_of id snap = counter_of id t | _ => True end.

Definition all_counted (ls : list stmt) (p : pool_state) : Prop :=
  counter_of id (tab p) = total ls ∧
  (∀ i j c c', conns p !! i = Some c → conns p !! j = Some c' → on_id id c → on_id id c' → i = j) ∧
  ∀ i c, conns p !! i = Some c → tx_total ls (tab p) c.

Lemma total_app ls l : l ≫= stored id = [] → total (ls ++ l) = total ls.
Proof. intros Hl. unfold total. by rewrite bind_app, Hl, app_nil_r. Qed.

Lemma idle_counted cs t : all_idle cs → counter_of id t = Some v0 → all_counted [] (mkPool cs t).
Proof.
  intros Hcs Hv. unfold all_counted, total. cbn. rewrite Hv, Z.add_0_r. split_and!; [done| |].
  - intros i j c c' Hi _ [[r Hr]|Hc] _; destruct (Hcs _ _ Hi) as [? ->]; done.
  - intros i c Hi. by destruct (Hcs _ _ Hi) as [? ->].
Qed.

(** The state after one connection has moved on. *)
Lemma counted_insert ls ls' t t' cs (i : nat) c c' :
  all_counted ls (mkPool cs t) → cs !! i = Some c → counter_of id t' = total ls' →
  (on_id id c' → on_id id c ∨ ∀ j x, j ≠ i → cs !! j = Some x → ¬ on_id id x) →
  tx_total ls' t' c' → (∀ j x, j ≠ i → cs !! j = Some x → tx_total ls t x → tx_total ls' t' x) →
  all_counted ls' (mkPool (<[i := c']> cs) t').
Proof.
  intros (Hv & Hone & Hall) Hi Hv' Hon Hc' Hothers. cbn [tab conns] in *. split_and!; [done| |]; cbn [tab conns].
  - assert (∀ (j : nat) x, j ≠ i → cs !! j = Some x → on_id id c' → on_id id x → False) as Hx.
    { intros j x Hj Hjx Hc Hxc. destruct (Hon Hc) as [Hc0|Hno]; [|by eapply Hno]. apply Hj. by eapply Hone. }
    intros j k x y Hj Hk Hxj Hyk.
    apply list_lookup_insert_Some in Hj as [(<- & <- & _)|[Hj1 Hj]]; apply list_lookup_insert_Some in Hk as [(<- & <- & _)|[Hk1 Hk]].
    + done.
    + by destruct (Hx k y).
    + by destruct (Hx j x).
    + by eapply Hone.
  - intros j x [(<- & <- & _)|[Hj Hjx]]%list_lookup_insert_Some; [done|]. eapply Hothers; [by apply not_eq_sym|done|]. by eapply Hall.
Qed.

(** Writing the row. *)
Lemma write_counted ls snap mine l s rest todo t t' :
  tx_total ls t (CRunning snap mine l s rest todo) → counter_of id t = total ls → finish (mine ∪ snap) s (mine ∪ t) = inr t' →
  tx_total ls t (COpen (written (stmt_id s) t' mine) (l ++ [s]) rest todo).
Proof.
  intros [Hm Hs] Hv Hf. cbn [mine_of done_of] in *. split; [|done]. cbn [mine_of done_of]. unfold written.
  destruct (finish_lookup _ _ _ _ Hf) as (r & Ht' & _). rewrite Ht', lookup_insert_eq. destruct (decide (stmt_id s = id)) as [Hid|Hid].
  - rewrite Hid, lookup_insert_eq.
    assert (∃ r0, (mine ∪ t) !! id = Some r0 ∧ delta r0 = total (ls ++ l) ∧ counter_of id (mine ∪ snap) = total (ls ++ l)) as (r0 & Hr0 & Hd0 & Hs0).
    { unfold counter_of in *. destruct (mine !! id) as [r0|] eqn:Hr0.
      - exists r0. rewrite !(lookup_union_Some_l _ _ _ _ Hr0). by split_and!.
      - rewrite !lookup_union_r by done. rewrite total_app, Hs by done. rewrite <- Hv.
        destruct (t !! id) as [r0|]; [by exists r0|done]. }
    rewrite <- Hid in Hr0. destruct (finish_row _ _ _ _ _ Hr0 Hf) as (r' & Hr' & Hd').
    rewrite Ht', lookup_insert_eq in Hr'. injection Hr' as <-. rewrite Hd', app_assoc. destruct s as [i mt v|i mt d]; cbn [stmt_id] in *.
    + by rewrite total_app.
    + subst i. rewrite Hs0. unfold total. rewrite (bind_app _ (ls ++ l)), stored_counter, sum_app. unfold sum. simpl. f_equal. lia.
  - rewrite lookup_insert_ne by done. destruct (mine !! id).
    + rewrite app_assoc, total_app by by apply stored_other. done.
    + rewrite bind_app, stored_other by done. by rewrite Hm.
Qed.

Lemma step_counted exclusive ls e p p' :
  exclusive id → pool_step exclusive e p p' → all_counted ls p → all_counted (ls ++ committed_by e) p'.
Proof.
  intros Hex Hstep Hall. pose proof Hall as (Hv & Hone & Htx).
  destruct Hstep as [i b todo cs t Hi|i mine l s rest todo cs t Hi Hfree|i snap mine l s rest todo cs t t' Hi _ Hf
    |i snap mine l s rest todo cs t err Hi _ _|i mine l todo cs t Hi|i c cs t Hi _];
    cbn [committed_by tab conns] in *; rewrite ?app_nil_r; pose proof (Htx _ _ Hi) as Hc.
  - eapply counted_insert; [done|done|done| |done|done]. by intros [[? ?]|?].
  - eapply counted_insert; [done|done|done| | |done].
    + intros [Hc'|Hs]; [by left; left|]. right. rewrite <- Hs. apply Hfree. by rewrite Hs.
    + destruct Hc as [Hm _]. by split.
  - eapply counted_insert; [done|done|done| |by eapply write_counted|done].
    intros [Hm|[]]. left. unfold written in Hm. cbn [mine_of] in Hm. destruct (decide (stmt_id s = id)); [by right|].
    left. cbn [mine_of]. destruct (t' !! stmt_id s); [by rewrite lookup_insert_ne in Hm|done].
  - eapply counted_insert; [done|done|done| |done|done]. by intros [[? ?]|?].
  - destruct Hc as [Hm _]. cbn [mine_of done_of] in Hm. destruct (mine !! id) as [r|] eqn:Hr.
    + eapply counted_insert; [done|done| | |by split|].
      * unfold counter_of. by rewrite (lookup_union_Some_l _ _ _ _ Hr).
      * by intros [[? ?]|?].
      * intros j x Hj Hjx [Hmx Hsx]. assert (¬ on_id id x) as Hno.
        { intros Hx. apply Hj. eapply Hone; [exact Hjx|exact Hi|exact Hx|]. left. cbn. by rewrite Hr. }
        split.
        -- destruct (mine_of x !! id) eqn:Hx; [|done]. destruct Hno. left. by rewrite Hx.
        -- destruct x; try done. intros Hid. destruct Hno. by right.
    + assert (counter_of id (mine ∪ t) = counter_of id t) as Hu by (unfold counter_of; by rewrite lookup_union_r).
      eapply counted_insert; [done|done| | |by split|].
      * by rewrite Hu, total_app.
      * by intros [[? ?]|?].
      * intros j x Hj Hjx [Hmx Hsx]. split.
        -- destruct (mine_of x !! id); [|done]. rewrite Hmx. unfold total. rewrite !bind_app, Hm. by rewrite app_nil_r.
        -- destruct x; try done. by rewrite Hu.
  - eapply counted_insert; [done|done|done| |done|done]. by intros [[? ?]|?].
Qed.
End Exclusive.
End Concurrent.

(** ** What concurrent increments add up to *)

(** [C20] Increments of one counter in transactions of any number of connections, however their statements overlap and
    whichever transactions are rolled back: starting with a row that holds [v0], the committed counter is at
    every moment [v0] plus the sum of a part of the committed increments, each counted at most once; so
    increments can be lost but never invented.  If a statement on that row never begins while another
    connection is on it, the counter is [v0] plus all of them. *)
Theorem concurrent_counter {E : Type} `{Postgres E} (exclusive : string → Prop) (id : string) (v0 : Z) (cs : list connection)
    (t : table) (es : list event) (p : pool_state)
    (Hcs : all_idle cs) (Hv : counter_of id t = Some v0) (Hrun : pool_run exclusive (mkPool cs t) es p) :
  (∃ l, l `sublist_of` (committed es ≫= stored id) ∧ counter_of id (tab p) = Some (v0 + sum l)) ∧
  (exclusive id → counter_of id (tab p) = Some (v0 + sum (committed es ≫= stored id))).
Proof.
  split.
  - by eapply some_increments.
  - intros Hex. assert (all_counted v0 id (committed es) p) as (Hsum & _); [|exact Hsum].
    pose proof (idle_counted v0 id cs t Hcs Hv) as H0.
    induction Hrun as [|es e p p' Hrun IH Hstep]; [done|]. rewrite committed_snoc. by eapply step_counted.
Qed.

(** Two connections, one statement on the same row each, both begun before either is committed. *)
Definition two_statements (s1 s2 : stmt) : list connection := [CIdle [[s1]]; CIdle [[s2]]].

Definition overlapping (s1 s2 : stmt) : list event :=
  [EBegin 0; EStart 0; EBegin 1; EStart 1; EWrite 0; ECommit 0 [s1]; EWrite 1; ECommit 1 [s2]].

Lemma overlapping_run {E : Type} `{Postgres E} s1 s2 t r1 r2 :
  stmt_id s1 = stmt_id s2 →
  finish t s1 t = inr (<[stmt_id s1 := r1]> t) → finish t s2 (<[stmt_id s1 := r1]> t) = inr (<[stmt_id s1 := r2]> t) →
  pool_run (λ _, False) (mkPool (two_statements s1 s2) t) (take 6 (overlapping s1 s2))
    (mkPool [CIdle []; CRunning t ∅ [] s2 [] []] (<[stmt_id s1 := r1]> t)) ∧
  pool_run (λ _, False) (mkPool (two_statements s1 s2) t) (overlapping s1 s2) (mkPool [CIdle []; CIdle []] (<[stmt_id s1 := r2]> t)).
Proof.
  intros Hid H1 H2.
  assert (∀ r, written (stmt_id s1) (<[stmt_id s1 := r]> t) ∅ = {[stmt_id s1 := r]}) as Hw
    by (intros r; unfold written; by rewrite lookup_insert_eq).
  pose proof (pool_nil (λ _, False) (mkPool (two_statements s1 s2) t)) as Hr.
  eapply pool_snoc in Hr; [|by apply (step_begin _ 0)]. eapply pool_snoc in Hr; [|by apply (step_start _ 0)].
  eapply pool_snoc in Hr; [|by apply (step_begin _ 1)]. eapply pool_snoc in Hr; [|by apply (step_start _ 1)].
  eapply pool_snoc in Hr; [|eapply (step_write _ 0); [done| |rewrite !map_empty_union; exact H1]].
  2: { intros [|[|j]] c Hj Hc; [done|by injection Hc as <-|done]. }
  eapply pool_snoc in Hr; [|by apply (step_commit _ 0)]. rewrite Hw, <- insert_union_singleton_l in Hr.
  split; [exact Hr|].
  eapply pool_snoc in Hr; [|eapply (step_write _ 1); [done| |rewrite !map_empty_union; exact H2]].
  2: { intros [|[|j]] c Hj Hc; [by injection Hc as <-|done|done]. }
  eapply pool_snoc in Hr; [|by apply (step_commit _ 1)].
  rewrite <- Hid, Hw, <- insert_union_singleton_l, insert_insert_eq in Hr. exact Hr.
Qed.

(** One increment each. *)
Definition two_increments (id : string) (d1 d2 : Z) : list connection :=
  two_statements (SCounter id "counter" d1) (SCounter id "counter" d2).

Definition overlap (id : string) (d1 d2 : Z) : list event :=
  overlapping (SCounter id "counter" d1) (SCounter id "counter" d2).

Lemma overlap_run {E : Type} `{Postgres E} id d1 d2 t r1 r2 :
  insertCounter_at t id "counter" d1 t = inr (<[id := r1]> t) →
  insertCounter_at t id "counter" d2 (<[id := r1]> t) = inr (<[id := r2]> t) →
  pool_run (λ _, False) (mkPool (two_increments id d1 d2) t) (overlap id d1 d2) (mkPool [CIdle []; CIdle []] (<[id := r2]> t)).
Proof. intros H1 H2. by eapply (overlapping_run (SCounter id "counter" d1) (SCounter id "counter" d2)). Qed.

(** A reader can see a counter go down: with 5 and 1 added to 10, 15 and then 11. *)
Lemma counter_goes_down {E : Type} `{Postgres E} (id : string) (t : table) :
  columns_ok id "counter" = true → counter_of id t = Some 10 →
  ∃ p1 p2, pool_run (λ _, False) (mkPool (two_increments id 5 1) t) (take 6 (overlap id 5 1)) p1 ∧
    pool_run (λ _, False) (mkPool (two_increments id 5 1) t) (overlap id 5 1) p2 ∧
    counter_of id (tab p1) = Some 15 ∧ counter_of id (tab p2) = Some 11.
Proof.
  unfold counter_of. intros Hok Hv. destruct (t !! id) as [r|] eqn:Hr; [|done]. cbn in Hv.
  set (r1 := mkRow (mtype r) (Some 15) (value r)). set (r2 := mkRow (mtype r) (Some 11) (value r)).
  destruct (overlapping_run (SCounter id "counter" 5) (SCounter id "counter" 1) t r1 r2 eq_refl) as [H1 H2].
  - cbn [finish stmt_id]. unfold insertCounter_at. rewrite Hok, Hr. cbn. by rewrite Hv.
  - cbn [finish stmt_id]. unfold insertCounter_at. rewrite Hok, lookup_insert_eq, Hr. cbn. rewrite Hv.
    rewrite decide_True by (unfold is_int64, min_int64, max_int64; lia). by rewrite insert_insert_eq.
  - do 2 eexists. split; [exact H1|]. split; [exact H2|]. cbn [tab stmt_id]. by rewrite !lookup_insert_eq.
Qed.

Lemma concurrent_counter_witness :
  let t : table := {[ "c1" := mkRow "counter" (Some 10) None ]} in
  let t' : table := {[ "c1" := mkRow "counter" (Some 17) None ]} in
  pool_run (H := toy_Postgres) (λ _, False) (mkPool (two_increments "c1" 5 7) t) (overlap "c1" 5 7) (mkPool [CIdle []; CIdle []] t') ∧
  ∃ l, l `sublist_of` [5; 7] ∧ counter_of "c1" t' = Some (10 + sum l).
Proof.
  cbv zeta.
  assert (pool_run (H := toy_Postgres) (λ _, False) (mkPool (two_increments "c1" 5 7) {[ "c1" := mkRow "counter" (Some 10) None ]})
    (overlap "c1" 5 7) (mkPool [CIdle []; CIdle []] {[ "c1" := mkRow "counter" (Some 17) None ]})) as Hrun.
  { pose proof (overlap_run (H := toy_Postgres) "c1" 5 7 {[ "c1" := mkRow "counter" (Some 10) None ]}
      (mkRow "counter" (Some 15) None) (mkRow "counter" (Some 17) None)) as Ho.
    rewrite (insert_singleton_eq "c1" (mkRow "counter" (Some 17) None)) in Ho. apply Ho; vm_compute; reflexivity. }
  split; [exact Hrun|].
  refine (proj1 (concurrent_counter (H := toy_Postgres) (λ _, False) "c1" 10 (two_increments "c1" 5 7)
    {[ "c1" := mkRow "counter" (Some 10) None ]} _ _ _ eq_refl Hrun)).
  intros [|[|i]] c Hc; [| |discriminate Hc]; injection Hc as <-; eexists; reflexivity.
Defined.

(** [C23] The first two increments of a counter, when they overlap, are both committed and reported as stored, and leave
    the counter NULL.  From then on, whatever the program sends, over any number of connections and in any
    order, the counter stays NULL and reading it fails: the metric is lost until somebody repairs the
    table. *)
Theorem first_increments_race {E : Type} `{Postgres E} (id : string) (d1 d2 : Z) (t : table)
    (Hok : columns_ok id "counter" = true) (Hnew : t !! id = None) :
  ∃ t', pool_run (λ _, False) (mkPool (two_increments id d1 d2) t) (overlap id d1 d2) (mkPool [CIdle []; CIdle []] t') ∧
    ∀ exclusive cs es p, all_idle cs → pool_run exclusive (mkPool cs t') es p →
      counter_of id (tab p) = None ∧
      ∀ (ctx : context) (w : world (PgState E)), monitoring (store w) = tab p →
        ∃ err, (pg_GetMetric ctx CounterType id w).1 = (INil, Some err).
Proof.
  eexists. split.
  { apply (overlap_run _ _ _ _ (mkRow "counter" (Some d1) None) (mkRow "counter" None None)); unfold insertCounter_at.
    - by rewrite Hok, Hnew.
    - by rewrite Hok, lookup_insert_eq, Hnew, insert_insert_eq. }
  intros exclusive cs es p Hcs Hrun.
  apply (run_everywhere id null_row) in Hrun as [(r & Hr & Hnull) _].
  - unfold counter_of. rewrite Hr. split; [exact Hnull|]. intros ctx w Hw. unfold pg_GetMetric. rewrite decide_False, decide_True by done.
    unfold query, trip_of. destruct (roundtrip ctx _) as [[|err a] w']; [|by eexists].
    rewrite Hw. unfold getCounter. rewrite Hr. cbn. rewrite Hnull. by eexists.
  - done.
  - intros ls snap s t1 t2. apply null_row_write.
  - apply idle_everywhere; [done|]. rewrite lookup_insert_eq. by eexists.
Qed.

Lemma first_increments_race_witness :
  ∃ t', pool_run (H := toy_Postgres) (λ _, False) (mkPool (two_increments "c1" 3 4) ∅) (overlap "c1" 3 4) (mkPool [CIdle []; CIdle []] t') ∧
    ∀ cs es p, all_idle cs → pool_run (H := toy_Postgres) (λ _, False) (mkPool cs t') es p → counter_of "c1" (tab p) = None.
Proof.
  destruct (first_increments_race (H := toy_Postgres) "c1" 3 4 ∅ eq_refl (lookup_empty _)) as (t' & Hrun & Hlater).
  exists t'. split; [exact Hrun|]. intros cs es p Hcs Hp. exact (proj1 (Hlater _ cs es p Hcs Hp)).
Defined.
