(* ===== verification/PgReaders.v ===== *)
(** * What readers of the database see

    The methods of [internal/storage/pgdb.go] that read, among the transactions of [PgConcurrent.v].  [GetMetric] is one
    statement; [GetAllMetricsTxt] is two, each on what was committed when it began, and transactions can
    end in between. *)

From S2P Require Import Prelude Strconv Float64 GoErrors Metrics MemStorage GoRetry Retrier StoreSpec PgDB PgConcurrent.

Open Scope Z_scope.

(** ** The gauges of concurrent transactions *)

(** The value of a gauge, [None] for NULL or no row. *)
Definition gauge_of (id : string) (t : table) : option float64 := t !! id ≫= value.

Definition set_by (id : string) (v : option float64) (s : stmt) : option float64 :=
  match s with SGauge i _ x => if decide (i = id) then Some x else v | SCounter _ _ _ => v end.

(** The last value among statements. *)
Definition last_gauge (id : string) (v0 : option float64) (ls : list stmt) : option float64 := foldl (set_by id) v0 ls.

Lemma set_by_other id v s : stmt_id s ≠ id → set_by id v s = v.
Proof. destruct s; cbn; [|done]. intros. by rewrite decide_False. Qed.

Lemma last_gauge_other id v0 ls l : Forall (λ s, stmt_id s ≠ id) l → last_gauge id v0 (ls ++ l) = last_gauge id v0 ls.
Proof.
  unfold last_gauge. rewrite foldl_app. generalize (foldl (set_by id) v0 ls). induction l as [|s l IH]; intros v; [done|].
  intros [Hs Hl]%Forall_cons. cbn [foldl]. rewrite set_by_other by done. by apply IH.
Qed.

Section Gauges.
Context {E : Type} `{Postgres E}.

(** A statement of any kind: a counter keeps the gauge that its row may have. *)
Lemma finish_gauge snap s t t' :
  finish snap s t = inr t' → gauge_of (stmt_id s) t' = set_by (stmt_id s) (gauge_of (stmt_id s) t) s.
Proof.
  unfold gauge_of. destruct s as [i mt v|i mt d]; cbn [finish stmt_id set_by].
  - unfold insertGauge. destruct (columns_ok _ _); [|done]. intros [= <-]. rewrite lookup_insert_eq, decide_True by done.
    by destruct (t !! i).
  - unfold insertCounter_at. destruct (columns_ok _ _); [|done]. destruct (t !! i) as [r|].
    + destruct (snap !! i ≫= delta); [case_decide; [|done]|]; intros [= <-]; by rewrite lookup_insert_eq.
    + intros [= <-]. by rewrite lookup_insert_eq.
Qed.

Context (id : string) (v0 : option float64).

(** What a connection has written to the row. *)
Definition gauge_held (ls : list stmt) (c : connection) : Prop :=
  match mine_of c !! id with
  | Some r => value r = last_gauge id v0 (ls ++ done_of c)
  | None => Forall (λ s, stmt_id s ≠ id) (done_of c)
  end.

(** One connection at most has the row's lock; the table has the last value committed. *)
Definition gauges_ok (ls : list stmt) (p : pool_state) : Prop :=
  gauge_of id (tab p) = last_gauge id v0 ls ∧
  (∀ i j c c', conns p !! i = Some c → conns p !! j = Some c' → is_Some (mine_of c !! id) → is_Some (mine_of c' !! id) → i = j) ∧
  ∀ i c, conns p !! i = Some c → gauge_held ls c.

Lemma gauges_insert ls ls' t t' cs (i : nat) c c' :
  gauges_ok ls (mkPool cs t) → cs !! i = Some c → gauge_of id t' = last_gauge id v0 ls' →
  (is_Some (mine_of c' !! id) → is_Some (mine_of c !! id) ∨ row_free i id cs) →
  gauge_held ls' c' → (∀ j x, j ≠ i → cs !! j = Some x → gauge_held ls x → gauge_held ls' x) →
  gauges_ok ls' (mkPool (<[i := c']> cs) t').
Proof.
  intros (Hv & Hone & Hall) Hi Hv' Hon Hc' Hothers. cbn [tab conns] in *. split_and!; [done| |]; cbn [tab conns].
  - assert (∀ (j : nat) x, j ≠ i → cs !! j = Some x → is_Some (mine_of c' !! id) → is_Some (mine_of x !! id) → False) as Hx.
    { intros j x Hj Hjx Hc Hxc. destruct (Hon Hc) as [Hc0|Hno]; [apply Hj; by eapply Hone|].
      rewrite (Hno j x Hj Hjx) in Hxc. by destruct Hxc. }
    intros j k x y Hj Hk Hxj Hyk.
    apply list_lookup_insert_Some in Hj as [(<- & <- & _)|[Hj1 Hj]]; apply list_lookup_insert_Some in Hk as [(<- & <- & _)|[Hk1 Hk]].
    + done.
    + by destruct (Hx k y).
    + by destruct (Hx j x).
    + by eapply Hone.
  - intros j x [(<- & <- & _)|[Hj Hjx]]%list_lookup_insert_Some; [done|]. eapply Hothers; [by apply not_eq_sym|done|]. by eapply Hall.
Qed.

Lemma write_held ls snap mine l s rest todo t t' :
  gauge_held ls (CRunning snap mine l s rest todo) → gauge_of id t = last_gauge id v0 ls → finish (mine ∪ snap) s (mine ∪ t) = inr t' →
  gauge_held ls (COpen (written (stmt_id s) t' mine) (l ++ [s]) rest todo).
Proof.
  intros Hm Hv Hf. unfold gauge_held in *. cbn [mine_of done_of] in *. unfold written.
  destruct (finish_lookup _ _ _ _ Hf) as (r & Ht' & _). rewrite Ht', lookup_insert_eq. destruct (decide (stmt_id s = id)) as [Hid|Hid].
  - rewrite Hid, lookup_insert_eq. pose proof (finish_gauge _ _ _ _ Hf) as Hg. unfold gauge_of at 1 in Hg.
    rewrite Ht', lookup_insert_eq, Hid in Hg. cbn in Hg. rewrite Hg, app_assoc. unfold last_gauge. rewrite foldl_snoc. f_equal.
    change (foldl (set_by id) v0 (ls ++ l)) with (last_gauge id v0 (ls ++ l)). unfold gauge_of in *.
    destruct (mine !! id) as [r0|] eqn:Hr0; [by rewrite (lookup_union_Some_l _ _ _ _ Hr0)|].
    rewrite lookup_union_r by done. by rewrite last_gauge_other.
  - rewrite lookup_insert_ne by done. destruct (mine !! id).
    + rewrite app_assoc, last_gauge_other by by repeat constructor. done.
    + apply Forall_app. split; [done|]. by repeat constructor.
Qed.

(** A commit by another connection. *)
Lemma held_after_other ls mine l todo x :
  gauge_held ls (COpen mine l [] todo) → gauge_held ls x → (is_Some (mine !! id) → mine_of x !! id = None) → gauge_held (ls ++ l) x.
Proof.
  unfold gauge_held. cbn [mine_of done_of]. intros Hc Hx Hno. destruct (mine !! id) as [r|].
  - by rewrite Hno in Hx |- * by done.
  - destruct (mine_of x !! id); [|done]. rewrite Hx. unfold last_gauge. rewrite !foldl_app. f_equal.
    rewrite <- foldl_app. symmetry. exact (last_gauge_other id v0 ls l Hc).
Qed.

Lemma step_gauges exclusive ls e p p' : pool_step exclusive e p p' → gauges_ok ls p → gauges_ok (ls ++ committed_by e) p'.
Proof.
  intros Hstep Hall. pose proof Hall as (Hv & Hone & Htx).
  destruct Hstep as [i b todo cs t Hi|i mine l s rest todo cs t Hi Hfree|i snap mine l s rest todo cs t t' Hi Hfree Hf
    |i snap mine l s rest todo cs t err Hi _ _|i mine l todo cs t Hi|i c cs t Hi _];
    cbn [committed_by tab conns] in *; rewrite ?app_nil_r; pose proof (Htx _ _ Hi) as Hc.
  - eapply gauges_insert; [done|done|done| |by constructor|done]. by intros [? ?].
  - eapply gauges_insert; [done|done|done| |done|done]. by left.
  - eapply gauges_insert; [done|done|done| |by eapply write_held|done].
    intros Hm. unfold written in Hm. cbn [mine_of] in Hm. destruct (decide (stmt_id s = id)) as [<-|]; [by right|].
    left. cbn [mine_of]. destruct (t' !! stmt_id s); [by rewrite lookup_insert_ne in Hm|done].
  - eapply gauges_insert; [done|done|done| |by constructor|done]. by intros [? ?].
  - eapply gauges_insert; [done|done| | |by constructor|].
    + unfold gauge_held in Hc. cbn [mine_of done_of] in Hc. unfold gauge_of in *. destruct (mine !! id) as [r|] eqn:Hr.
      * by rewrite (lookup_union_Some_l _ _ _ _ Hr).
      * rewrite lookup_union_r by done. by rewrite last_gauge_other.
    + by intros [? ?].
    + intros j x Hj Hjx Hx. eapply held_after_other; [exact Hc|exact Hx|]. intros Hm. apply eq_None_not_Some. intros Hmx.
      apply Hj. by eapply Hone.
  - eapply gauges_insert; [done|done|done| |by constructor|done]. by intros [? ?].
Qed.

Lemma run_gauges exclusive cs t es p :
  all_idle cs → gauge_of id t = v0 → pool_run exclusive (mkPool cs t) es p → gauge_of id (tab p) = last_gauge id v0 (committed es).
Proof.
  intros Hcs Hv Hrun. cut (gauges_ok (committed es) p); [by intros []|].
  induction Hrun as [|es e p p' Hrun IH Hstep]; [|rewrite committed_snoc; by eapply step_gauges].
  split_and!; [done| |].
  - intros i j c c' Hi _ [r Hr]. by destruct (Hcs _ _ Hi) as [? ->].
  - intros i c Hi. destruct (Hcs _ _ Hi) as [? ->]. constructor.
Qed.
End Gauges.

(** ** A page while transactions end *)

(** [GetAllMetricsTxt] so far: nothing read, the counters read, or done. *)
Inductive reading : Type :=
| RIdle
| RHalf (c : string)
| RDone (page : string * option goerror).

(** The loops over the rows of the two statements. *)
Definition after_counters (rows : list (string * option Z)) : reading :=
  match scan_rows show_int "int64" rows with inl err => RDone ("", Some err) | inr c => RHalf c end.

Definition after_gauges (c : string) (rows : list (string * option float64)) : string * option goerror :=
  match scan_rows show_float "float64" rows with
  | inl err => ("", Some err)
  | inr g => ("---Counters---" +:+ nl_str +:+ c +:+ "---Gauge---" +:+ nl_str +:+ g, None)
  end.

(** The page of a reader that found the counters of one table and the gauges of another. *)
Definition page_of (counters : list (string * option Z)) (gauges : list (string * option float64)) : string * option goerror :=
  match after_counters counters with RHalf c => after_gauges c gauges | RDone page => page | RIdle => ("", None) end.

Section Readers.
Context {E : Type} `{Postgres E}.

(** Alone with the database it is the method of [PgDB.v]. *)
Lemma page_alone ctx (w : world (PgState E)) :
  (∀ w : world E, (roundtrip ctx w).1 = TripOk) →
  (pg_GetAllMetricsTxt ctx w).1 = page_of (getAllCounter (monitoring (store w))) (getAllGauge (monitoring (store w))).
Proof.
  intros Hok. assert (∀ A (q : table → A) w, ∃ w', query ctx q w = (inr (q (monitoring (store w))), w') ∧
    monitoring (store w') = monitoring (store w)) as Hq.
  { intros A q w0. unfold query, trip_of. specialize (Hok (World (now w0) (conn (store w0)))).
    destruct (roundtrip ctx _) as [r w1]. cbn [fst] in Hok. subst r. by eexists. }
  assert (∀ A (q : table → list (string * option A)) show ty w, ∃ w',
    list_rows ctx q show ty w = (scan_rows show ty (q (monitoring (store w))), w') ∧ monitoring (store w') = monitoring (store w)) as Hl.
  { intros A q show ty w0. unfold list_rows. destruct (Hq _ q w0) as (w1 & -> & Hm).
    destruct (scan_rows show ty _); [by eexists|]. destruct (Hq _ (λ _, tt) w1) as (w2 & -> & Hm2). exists w2. split; [done|congruence]. }
  unfold pg_GetAllMetricsTxt, page_of, after_counters, after_gauges. destruct (Hl _ getAllCounter show_int "int64" w) as (w1 & -> & Hm1).
  destruct (scan_rows show_int "int64" _) as [|c]; [done|]. destruct (Hl _ getAllGauge show_float "float64" w1) as (w2 & -> & _).
  rewrite Hm1. by destruct (scan_rows show_float "float64" _).
Qed.

(** One reader among the transactions: a statement reads what is committed, and may fail. *)
Inductive reader_run (exclusive : string → Prop) (p0 : pool_state) : list event → pool_state → reading → Prop :=
| rr_start : reader_run exclusive p0 [] p0 RIdle
| rr_pool es e p p' r : reader_run exclusive p0 es p r → pool_step exclusive e p p' → reader_run exclusive p0 (es ++ [e]) p' r
| rr_counters es p : reader_run exclusive p0 es p RIdle → reader_run exclusive p0 es p (after_counters (getAllCounter (tab p)))
| rr_gauges es p c :
    reader_run exclusive p0 es p (RHalf c) → reader_run exclusive p0 es p (RDone (after_gauges c (getAllGauge (tab p))))
| rr_fails es p r err :
    reader_run exclusive p0 es p r → (∀ page, r ≠ RDone page) → reader_run exclusive p0 es p (RDone ("", Some err)).

(** When the counters were read, and when the gauges. *)
Definition read_at (exclusive : string → Prop) (p0 : pool_state) (es : list event) (p : pool_state) (r : reading) : Prop :=
  match r with
  | RIdle | RDone (_, Some _) => pool_run exclusive p0 es p
  | RHalf c =>
      ∃ es1 es2 p1, es = es1 ++ es2 ∧ pool_run exclusive p0 es1 p1 ∧ pool_run exclusive p1 es2 p ∧
        after_counters (getAllCounter (tab p1)) = RHalf c
  | RDone (page, None) =>
      ∃ es1 es2 es3 p1 p2, es = es1 ++ es2 ++ es3 ∧ pool_run exclusive p0 es1 p1 ∧ pool_run exclusive p1 es2 p2 ∧
        pool_run exclusive p2 es3 p ∧ page_of (getAllCounter (tab p1)) (getAllGauge (tab p2)) = (page, None)
  end.

Lemma reader_run_at exclusive p0 es p r : reader_run exclusive p0 es p r → read_at exclusive p0 es p r.
Proof.
  assert (∀ es p r, read_at exclusive p0 es p r → pool_run exclusive p0 es p) as Hrun.
  { intros es0 p1 [|c|[page [err|]]]; cbn [read_at]; [done| |done|].
    - intros (es1 & es2 & q & -> & H1 & H2 & _). by eapply pool_run_trans.
    - intros (es1 & es2 & es3 & q1 & q2 & -> & H1 & H2 & H3 & _). eapply pool_run_trans; [exact H1|]. by eapply pool_run_trans. }
  induction 1 as [|es e p p' r Hr IH Hs|es p Hr IH|es p c Hr IH|es p r err Hr IH Hd].
  - constructor.
  - destruct r as [|c|[page [err|]]]; cbn [read_at] in *.
    + by eapply pool_snoc.
    + destruct IH as (es1 & es2 & q & -> & H1 & H2 & Hc). exists es1, (es2 ++ [e]), q. rewrite app_assoc. split_and!; try done.
      by eapply pool_snoc.
    + by eapply pool_snoc.
    + destruct IH as (es1 & es2 & es3 & q1 & q2 & -> & H1 & H2 & H3 & Hp). exists es1, es2, (es3 ++ [e]), q1, q2.
      rewrite !app_assoc. split_and!; try done. by eapply pool_snoc.
  - destruct (after_counters (getAllCounter (tab p))) as [|c|[page [err|]]] eqn:Hc; cbn [read_at] in *.
    + done.
    + exists es, [], p. rewrite app_nil_r. split_and!; try done. constructor.
    + done.
    + unfold after_counters in Hc. by destruct (scan_rows _ _ _).
  - destruct (after_gauges c (getAllGauge (tab p))) as [page [err|]] eqn:Hg; [by apply Hrun in IH|]. cbn [read_at].
    destruct IH as (es1 & es2 & q & -> & H1 & H2 & Hc). exists es1, es2, [], q, p. rewrite app_nil_r. split_and!; try done; [constructor|].
    unfold page_of. by rewrite Hc.
  - cbn [read_at]. by apply Hrun in IH.
Qed.
End Readers.

(** ** What readers get *)

(** Gauges are not disturbed by concurrency: with transactions on any number of connections, however their
    statements overlap and whichever are rolled back, the table has at every moment, for every id, the last
    value that a committed transaction wrote, in the order of the commits (where it started, if there is none), and
    [GetMetric] answers with it. *)
Theorem concurrent_gauge {E : Type} `{Postgres E} (exclusive : string → Prop) (cs : list connection) (t : table)
    (es : list event) (p : pool_state) (id : string) (Hcs : all_idle cs) (Hrun : pool_run exclusive (mkPool cs t) es p) :
  gauge_of id (tab p) = last_gauge id (gauge_of id t) (committed es) ∧
  ∀ (ctx : context) (w : world (PgState E)) (v : float64),
    monitoring (store w) = tab p → (∀ w : world E, (roundtrip ctx w).1 = TripOk) →
    last_gauge id (gauge_of id t) (committed es) = Some v → (pg_GetMetric ctx GaugeType id w).1 = (IGauge v, None).
Proof.
  pose proof (run_gauges id _ exclusive cs t es p Hcs eq_refl Hrun) as Hg. split; [exact Hg|]. intros ctx w v Hw Hok Hv.
  unfold pg_GetMetric. rewrite decide_True by done. unfold query, trip_of. specialize (Hok (World (now w) (conn (store w)))).
  destruct (roundtrip ctx _) as [r w1]. cbn [fst] in Hok. subst r. rewrite Hw. rewrite Hv in Hg. unfold gauge_of in Hg. unfold getGauge.
  destruct (tab p !! id) as [r|]; [|done]. cbn in Hg |- *. by rewrite Hg.
Qed.

(** [C21] A page while transactions end: what [GetAllMetricsTxt] answers, if without an error, has the counters of one
    moment and the gauges of a later one.  The counters are what they were at the first: a start and a part
    of the increments committed by then; the gauges are the last ones committed by the second, so a batch that
    was committed in between is in the page by half.  Without transactions it is what the method answers on
    the table ([page_alone]). *)
Theorem concurrent_page {E : Type} `{Postgres E} (exclusive : string → Prop) (cs : list connection) (t : table)
    (es : list event) (p : pool_state) (page : string) (Hcs : all_idle cs)
    (Hrun : reader_run exclusive (mkPool cs t) es p (RDone (page, None))) :
  ∃ es1 es2 es3 p1 p2, es = es1 ++ es2 ++ es3 ∧ pool_run exclusive (mkPool cs t) es1 p1 ∧ pool_run exclusive p1 es2 p2 ∧
    page_of (getAllCounter (tab p1)) (getAllGauge (tab p2)) = (page, None) ∧
    (∀ id v0, counter_of id t = Some v0 →
       ∃ l, l `sublist_of` (committed es1 ≫= stored id) ∧ counter_of id (tab p1) = Some (v0 + sum l)) ∧
    getAllGauge (tab p2) =
      (λ id, (id, last_gauge id (gauge_of id t) (committed es1 ++ committed es2))) <$> ids_of "gauge" (tab p2).
Proof.
  apply reader_run_at in Hrun as (es1 & es2 & es3 & p1 & p2 & -> & H1 & H2 & H3 & Hp).
  exists es1, es2, es3, p1, p2. split_and!; [done..| |].
  - intros id v0 Hv. by eapply some_increments.
  - unfold getAllGauge. apply list_fmap_ext. intros i id _. f_equal. rewrite <- committed_app.
    exact (run_gauges id _ exclusive cs t (es1 ++ es2) p2 Hcs eq_refl (pool_run_trans _ _ _ _ _ _ H1 H2)).
Qed.

(** *** Examples *)

(** A server that always answers. *)
Definition steady_Postgres : Postgres unit := {|
  roundtrip := λ (ctx : context) (w : world unit), (TripOk, World (now w + 1) tt);
  varchar_ok := λ n s, bool_decide (String.length s ≤ n)%nat;
  order_by_id := sort_strings
|}.

Definition two : float64 := float_of_Z 2.
Definition three : float64 := float_of_Z 3.

Definition gauge_row (v : float64) : row := mkRow "gauge" None (Some v).
Definition counter_row (d : Z) : row := mkRow "counter" (Some d) None.

(** Two overlapping gauges: the one committed last stays. *)
Lemma concurrent_gauge_witness :
  (pg_GetMetric (H := steady_Postgres) Background GaugeType "g1" (World 0 (mkPg {[ "g1" := gauge_row three ]} tt))).1 = (IGauge three, None).
Proof.
  refine (proj2 (concurrent_gauge (H := steady_Postgres) (λ _, False)
    (two_statements (SGauge "g1" "gauge" two) (SGauge "g1" "gauge" three)) ∅
    (overlapping (SGauge "g1" "gauge" two) (SGauge "g1" "gauge" three)) (mkPool [CIdle []; CIdle []] {[ "g1" := gauge_row three ]}) "g1" _ _)
    Background (World 0 (mkPg {[ "g1" := gauge_row three ]} tt)) three eq_refl (λ _, eq_refl) eq_refl).
  - intros [|[|i]] c Hc; [| |discriminate Hc]; injection Hc as <-; eexists; reflexivity.
  - exact (proj2 (overlapping_run (H := steady_Postgres) (SGauge "g1" "gauge" two) (SGauge "g1" "gauge" three) ∅
      (gauge_row two) (gauge_row three) eq_refl eq_refl eq_refl)).
Defined.

(** A batch with a counter and a gauge is committed while a page is made. *)
Definition half_batch : list stmt := [SCounter "c1" "counter" 5; SGauge "g1" "gauge" three].
Definition before_batch : table := {[ "c1" := counter_row 10; "g1" := gauge_row two ]}.
Definition after_batch : table := {[ "c1" := counter_row 15; "g1" := gauge_row three ]}.

Definition half_page : string :=
  "---Counters---" +:+ nl_str +:+ "c1: 10" +:+ nl_str +:+ "---Gauge---" +:+ nl_str +:+ "g1: 3" +:+ nl_str.

Lemma reader_waits {E : Type} `{Postgres E} exclusive p0 es p r es' p' :
  reader_run exclusive p0 es p r → pool_run exclusive p es' p' → reader_run exclusive p0 (es ++ es') p' r.
Proof. intros Hr. induction 1; [by rewrite app_nil_r|]. rewrite app_assoc. by eapply rr_pool. Qed.

Lemma half_page_run :
  ∃ es, reader_run (H := steady_Postgres) (λ _, False) (mkPool [CIdle [half_batch]] before_batch) es (mkPool [CIdle []] after_batch)
          (RDone (half_page, None)) ∧ committed es = half_batch.
Proof.
  destruct (lone_transaction (H := steady_Postgres) (λ _, False) half_batch before_batch after_batch) as (es & Hrun & Hc); [reflexivity|].
  exists es. split; [|exact Hc].
  assert (after_counters (getAllCounter (H := steady_Postgres) before_batch) = RHalf ("c1: 10" +:+ nl_str)) as Hhalf by (vm_compute; reflexivity).
  assert (after_gauges ("c1: 10" +:+ nl_str) (getAllGauge (H := steady_Postgres) after_batch) = (half_page, None)) as Hpage by (vm_compute; reflexivity).
  rewrite <- Hpage. apply (rr_gauges (λ _, False) _ es (mkPool [CIdle []] after_batch) ("c1: 10" +:+ nl_str)).
  rewrite <- Hhalf. apply (reader_waits (λ _, False) _ [] (mkPool [CIdle [half_batch]] before_batch)); [|exact Hrun].
  apply (rr_counters (λ _, False) _ [] (mkPool [CIdle [half_batch]] before_batch)). constructor.
Qed.

Lemma concurrent_page_witness :
  ∃ (es1 es2 : list event) (p1 p2 : pool_state), page_of (getAllCounter (H := steady_Postgres) (tab p1)) (getAllGauge (H := steady_Postgres) (tab p2)) = (half_page, None) ∧
    ∃ l, l `sublist_of` (committed es1 ≫= stored "c1") ∧ counter_of "c1" (tab p1) = Some (10 + sum l).
Proof.
  destruct half_page_run as (es & Hrun & _).
  destruct (concurrent_page (H := steady_Postgres) (λ _, False) [CIdle [half_batch]] before_batch es (mkPool [CIdle []] after_batch) half_page
    ltac:(intros [|i] c Hc; [injection Hc as <-; eexists; reflexivity|discriminate Hc]) Hrun)
    as (es1 & es2 & es3 & p1 & p2 & _ & _ & _ & Hp & Hc & _).
  exists es1, es2, p1, p2. split; [exact Hp|exact (Hc "c1" 10 eq_refl)].
Defined.
