(* ===== verification/PgProgress.v ===== *)
(** * Transactions that wait for each other

    A transaction keeps the rows it has written locked until it ends ([PgConcurrent.v]), so transactions of
    several connections can wait for each other in a circle.  They do when they write rows in
    different orders; the reports of agents are all in one order, and do not. *)

From S2P Require Import Prelude Strconv Float64 GoErrors Metrics MemStorage Json GoRetry Retrier Http.
From S2P Require Import StoreSpec Agent PgDB PgConcurrent.

(** ** The order of rows *)

(** The position of a row in an order. *)
Fixpoint pos (order : list string) (x : string) : nat :=
  match order with [] => 0 | y :: order => if decide (y = x) then 0 else S (pos order x) end.

Lemma pos_lt order (l k : list string) a b : NoDup order → (l ++ k) `sublist_of` order → a ∈ l → b ∈ k → (pos order a < pos order b)%nat.
Proof.
  intros Hnd. revert l k. induction Hnd as [|x order Hx Hnd IH]; intros l k Hs Ha Hb.
  { apply sublist_nil_r, app_eq_nil in Hs as [-> ->]. by apply elem_of_nil in Ha. }
  apply sublist_cons_r in Hs as [Hs|(m & Hm & Hs)].
  - pose proof (IH l k Hs Ha Hb) as Hlt.
    assert (a ∈ order) by (eapply elem_of_sublist; [|exact Hs]; apply elem_of_app; by left).
    assert (b ∈ order) by (eapply elem_of_sublist; [|exact Hs]; apply elem_of_app; by right).
    cbn [pos]. rewrite !decide_False by (intros ->; done). lia.
  - destruct l as [|y l]; [by apply elem_of_nil in Ha|]. injection Hm as -> <-.
    assert (b ∈ order) by (eapply elem_of_sublist; [|exact Hs]; apply elem_of_app; by right).
    cbn [pos]. rewrite (decide_False (P := x = b)) by (intros ->; done). case_decide; [lia|].
    apply elem_of_cons in Ha as [->|Ha]; [done|]. pose proof (IH l k Hs Ha Hb). lia.
Qed.

Lemma pos_le order x : (pos order x ≤ length order)%nat.
Proof. induction order as [|y order IH]; [done|]. cbn [pos length]. case_decide; lia. Qed.

(** An element where a partial function into numbers is largest. *)
Lemma largest {A} (f : A → option nat) (l : list A) :
  (∀ j x, l !! j = Some x → f x = None) ∨
  ∃ i x n, l !! i = Some x ∧ f x = Some n ∧ ∀ j y m, l !! j = Some y → f y = Some m → (m ≤ n)%nat.
Proof.
  induction l as [|x l IH]; [by left|]. destruct IH as [Hnone|(i & y & n & Hi & Hy & Hmax)].
  - destruct (f x) as [n|] eqn:Hx; [right; exists 0%nat, x, n|left]; [split_and!; [done|done|]|]; intros [|j] y.
    + intros m [= <-]. rewrite Hx. intros [= ->]. done.
    + intros m Hj Hm. rewrite (Hnone _ _ Hj) in Hm. done.
    + by intros [= <-].
    + apply Hnone.
  - right. destruct (f x) as [k|] eqn:Hx; [destruct (decide (n ≤ k)%nat) as [Hk|Hk]|].
    + exists 0%nat, x, k. split_and!; [done|done|]. intros [|j] z m Hj Hz; [injection Hj as <-; rewrite Hx in Hz; by injection Hz as ->|].
      specialize (Hmax _ _ _ Hj Hz). lia.
    + exists (S i), y, n. split_and!; [done|done|]. intros [|j] z m Hj Hz; [injection Hj as <-; rewrite Hx in Hz; injection Hz as ->; lia|by eapply Hmax].
    + exists (S i), y, n. split_and!; [done|done|]. intros [|j] z m Hj Hz; [injection Hj as <-; by rewrite Hx in Hz|by eapply Hmax].
Qed.

Section Progress.
Context {E : Type} `{Postgres E}.

(** What a connection has left of its transaction, with the statement that is running. *)
Definition ahead (c : connection) : list stmt :=
  match c with CIdle _ => [] | COpen _ _ rest _ => rest | CRunning _ _ _ s rest _ => s :: rest end.

(** The connection writes rows in the order, and the rows it has locked are those of the statements it has executed. *)
Definition ordered (order : list string) (c : connection) : Prop :=
  (stmt_id <$> (done_of c ++ ahead c)) `sublist_of` order ∧
  (∀ id, is_Some (mine_of c !! id) → id ∈ stmt_id <$> done_of c) ∧
  Forall (λ b, (stmt_id <$> b) `sublist_of` order) (todo_of c).

Definition all_ordered (order : list string) (p : pool_state) : Prop := ∀ i c, conns p !! i = Some c → ordered order c.

Lemma idle_ordered order todo : Forall (λ b, (stmt_id <$> b) `sublist_of` order) todo → ordered order (CIdle todo).
Proof. intros Ht. split_and!; [apply sublist_nil_l|intros id Hid; cbn in Hid; by rewrite lookup_empty in Hid; destruct Hid|done]. Qed.

Lemma step_ordered order exclusive e p p' : pool_step exclusive e p p' → all_ordered order p → all_ordered order p'.
Proof.
  intros Hstep Hall.
  assert (∀ i c c' cs, all_ordered order (mkPool cs (tab p)) → cs !! i = Some c → (ordered order c → ordered order c') →
    ∀ t, all_ordered order (mkPool (<[i := c']> cs) t)) as Hins.
  { intros i c c' cs Hcs Hi Hc t j x [(_ & <- & _)|[_ Hj]]%list_lookup_insert_Some; [apply Hc; by eapply Hcs|by eapply Hcs]. }
  destruct Hstep as [i b todo cs t Hi|i mine l s rest todo cs t Hi _|i snap mine l s rest todo cs t t' Hi _ Hf
    |i snap mine l s rest todo cs t err Hi _ _|i mine l todo cs t Hi|i c cs t Hi _];
    (eapply Hins; [exact Hall|exact Hi|]); intros (Ho & Hm & Ht).
  - apply Forall_cons in Ht as [Hb Ht]. split_and!; [done| |done]. intros id Hid. cbn in Hid. rewrite lookup_empty in Hid. by destruct Hid.
  - by split_and!.
  - split_and!; [|cbn [mine_of done_of]|done].
    + cbn [done_of ahead] in *. by rewrite <- app_assoc.
    + intros id. rewrite fmap_app, elem_of_app. unfold written. cbn [mine_of done_of] in Hm.
      destruct (t' !! stmt_id s) as [r|]; [|by left; apply Hm]. destruct (decide (stmt_id s = id)) as [<-|Hne].
      * right. by left.
      * rewrite lookup_insert_ne by done. left. by apply Hm.
  - by apply idle_ordered.
  - by apply idle_ordered.
  - by apply idle_ordered.
Qed.

Definition finished (p : pool_state) : Prop := ∀ i c, conns p !! i = Some c → c = CIdle [].

(** Anything but a failure of the connection. *)
Definition proper (e : event) : Prop := match e with EAbort _ => False | _ => True end.

(** With one order of rows there is always a connection that can go on. *)
Lemma progress order p :
  NoDup order → all_ordered order p → finished p ∨ ∃ e p', proper e ∧ pool_step (λ _, False) e p p'.
Proof.
  intros Hnd Hall. destruct p as [cs t].
  set (f := λ c, match c with CRunning _ _ _ s _ _ => Some (pos order (stmt_id s)) | CIdle [] => None | _ => Some (S (length order)) end).
  destruct (largest f cs) as [Hnone|(i & c & n & Hi & Hn & Hmax)].
  - left. intros i c Hi. specialize (Hnone _ _ Hi). by destruct c as [[]| |].
  - right. destruct c as [[|b todo]|mine l [|s rest] todo|snap mine l s rest todo]; [done| | | |].
    + eexists _, _. split; [|by eapply step_begin]. done.
    + eexists _, _. split; [|by eapply step_commit]. done.
    + eexists _, _. split; [|by eapply step_start]. done.
    + assert (row_free i (stmt_id s) cs) as Hfree.
      { intros j c Hj Hc. destruct (mine_of c !! stmt_id s) as [r|] eqn:Hr; [exfalso|done].
        destruct (Hall _ _ Hc) as (Ho & Hm & _). cbn [f] in Hn. injection Hn as <-.
        destruct c as [todo'|mine' l' rest' todo'|snap' mine' l' s' rest' todo']; [done| |].
        - specialize (Hmax _ _ _ Hc eq_refl). pose proof (pos_le order (stmt_id s)). lia.
        - specialize (Hmax _ _ _ Hc eq_refl). rewrite fmap_app in Ho.
          pose proof (pos_lt order _ _ (stmt_id s) (stmt_id s') Hnd Ho (Hm _ (mk_is_Some _ _ Hr))) as Hlt.
          cbn [ahead] in Hlt. rewrite fmap_cons in Hlt. specialize (Hlt ltac:(by left)). lia. }
      destruct (finish (mine ∪ snap) s (mine ∪ t)) as [err|t'] eqn:Hf.
      * exists (EError i err). eexists. split; [done|]. by eapply step_error.
      * exists (EWrite i). eexists. split; [done|]. by eapply step_write.
Qed.

(** ** How many steps there are *)

Definition batch_work (b : list stmt) : nat := 2 * length b + 2.

(** The steps a connection has left at most. *)
Definition work (c : connection) : nat :=
  match c with
  | CIdle todo => sum_list_with batch_work todo
  | COpen _ _ rest todo => 2 * length rest + 1 + sum_list_with batch_work todo
  | CRunning _ _ _ _ rest todo => 2 * length rest + 2 + sum_list_with batch_work todo
  end.

Definition pool_work (p : pool_state) : nat := sum_list_with work (conns p).

Lemma work_insert cs (i : nat) c c' :
  cs !! i = Some c → (work c' < work c)%nat → (sum_list_with work (<[i := c']> cs) < sum_list_with work cs)%nat.
Proof.
  revert i. induction cs as [|x cs IH]; intros [|i] Hi Hw; [done|done| |].
  - injection Hi as ->. cbn. lia.
  - specialize (IH i Hi Hw). change (<[S i := c']> (x :: cs)) with (x :: <[i := c']> cs). cbn [sum_list_with]. lia.
Qed.

Lemma step_work exclusive e p p' : pool_step exclusive e p p' → (pool_work p' < pool_work p)%nat.
Proof.
  unfold pool_work. destruct 1; cbn [conns]; (eapply work_insert; [done|]); cbn [work length]; try (cbn; unfold batch_work; lia).
  destruct c as [todo| |]; [by destruct (H1 todo)|cbn; lia..].
Qed.

Lemma run_work exclusive p es p' : pool_run exclusive p es p' → (length es + pool_work p' ≤ pool_work p)%nat.
Proof.
  induction 1 as [|es e p1 p2 Hrun IH Hstep]; [done|]. apply step_work in Hstep. rewrite length_app. cbn. lia.
Qed.

Lemma run_ordered order exclusive p es p' : pool_run exclusive p es p' → all_ordered order p → all_ordered order p'.
Proof. induction 1; [done|]. intros Ho. eapply step_ordered; [done|by auto]. Qed.
End Progress.

(** ** The reports of agents *)

(** What one agent has measured for a report. *)
Abbreviation measured := (MemStats * sysMon * kernelMetrics)%type.

Definition report_batch (m : measured) : list stmt := let '(rtm, y, km) := m in stmts_of (report rtm y km).

(** The rows of the reports of machines with at most [n] processors. *)
Definition report_order (n : nat) : list string := fixed_names ++ (cpu_name <$> seq 0 n).

Definition measured_ok (n : nat) (m : measured) : Prop :=
  let '(rtm, y, km) := m in all_sensors rtm ∧ (length (CPUutilization km) ≤ n)%nat.

Lemma stmts_of_ids ms : (stmt_id <$> stmts_of ms) `sublist_of` (ID <$> ms).
Proof.
  induction ms as [|v ms IH]; [done|]. unfold stmts_of. cbn [omap list_omap]. rewrite fmap_cons.
  destruct (stmt_of v) as [s|] eqn:Hs; [|by apply sublist_cons]. rewrite fmap_cons.
  replace (stmt_id s) with (ID v); [by apply sublist_skip|].
  unfold stmt_of in Hs. by repeat (case_decide || case_match); simplify_eq/=.
Qed.

Lemma report_in_order n m : measured_ok n m → (stmt_id <$> report_batch m) `sublist_of` report_order n.
Proof.
  destruct m as [[rtm y] km]. intros [Hs Hn]. etrans; [apply stmts_of_ids|]. rewrite report_names by done.
  apply sublist_app; [done|]. replace n with (length (CPUutilization km) + (n - length (CPUutilization km)))%nat by lia.
  rewrite seq_app, fmap_app. by apply sublist_inserts_r.
Qed.

(** Connections that write reports, the [i]-th those of the [i]-th list. *)
Definition reporting (agents : list (list measured)) : list connection :=
  (λ ms, CIdle (report_batch <$> ms)) <$> agents.

(** ** Other clients *)

(** Two batches that write two rows in opposite orders, as a client of [/updates/] may send them. *)
Definition crossed (a b : string) (x : float64) : list connection :=
  [CIdle [[SGauge a "gauge" x; SGauge b "gauge" x]]; CIdle [[SGauge b "gauge" x; SGauge a "gauge" x]]].

(** They can come to a point where only a failure lets one of them go on: Postgres then ends one of the two
    transactions with an error, which the retrier takes for one of the connection. *)
Lemma crossed_deadlock {E : Type} `{Postgres E} (a b : string) (x : float64) (t : table) :
  a ≠ b → columns_ok a "gauge" = true → columns_ok b "gauge" = true →
  ∃ es p, pool_run (λ _, False) (mkPool (crossed a b x) t) es p ∧ ¬ finished p ∧
    ∀ e p', proper e → ¬ pool_step (λ _, False) e p p'.
Proof.
  intros Hab Ha Hb.
  assert (∀ id, columns_ok id "gauge" = true → ∃ r, ∀ s : table, finish s (SGauge id "gauge" x) (∅ ∪ t) = inr (<[id := r]> t)) as Hw.
  { intros id Hid. eexists. intros s. cbn [finish]. unfold insertGauge. by rewrite Hid, map_empty_union. }
  destruct (Hw a Ha) as [ra Hra], (Hw b Hb) as [rb Hrb].
  assert (∀ id r, written id (<[id := r]> t) ∅ = {[id := r]}) as Hwr by (intros; unfold written; by rewrite lookup_insert_eq).
  pose proof (pool_nil (λ _, False) (mkPool (crossed a b x) t)) as Hr.
  eapply pool_snoc in Hr; [|by apply (step_begin _ 0)]. eapply pool_snoc in Hr; [|by apply (step_start _ 0)].
  eapply pool_snoc in Hr; [|by apply (step_begin _ 1)]. eapply pool_snoc in Hr; [|by apply (step_start _ 1)].
  eapply pool_snoc in Hr; [|eapply (step_write _ 0); [done| |apply Hra]].
  2: { intros [|[|j]] c Hj Hc; [done|by injection Hc as <-|done]. }
  eapply pool_snoc in Hr; [|eapply (step_write _ 1); [done| |apply Hrb]].
  2: { intros [|[|j]] c Hj Hc; [|done|done]. injection Hc as <-. cbn [mine_of stmt_id]. rewrite Hwr. by apply lookup_singleton_ne. }
  eapply pool_snoc in Hr; [|by apply (step_start _ 0)]. eapply pool_snoc in Hr; [|by apply (step_start _ 1)].
  cbn [stmt_id] in Hr. rewrite !Hwr in Hr. eexists _, _. split; [exact Hr|]. split; [intros Hf; by specialize (Hf 0%nat _ eq_refl)|].
  intros e p' He Hstep. inversion Hstep as [i ? ? ? ? Hi|i ? ? ? ? ? ? ? Hi|i ? ? ? ? ? ? ? ? ? Hi Hfree|i ? ? ? ? ? ? ? ? ? Hi Hfree|i ? ? ? ? ? Hi|];
    subst; try done; destruct i as [|[|i]]; try discriminate Hi; injection Hi as; subst; cbn [stmt_id] in Hfree.
  - specialize (Hfree 1%nat _ ltac:(done) eq_refl). cbn [mine_of] in Hfree. by rewrite lookup_singleton_eq in Hfree.
  - specialize (Hfree 0%nat _ ltac:(done) eq_refl). cbn [mine_of] in Hfree. by rewrite lookup_singleton_eq in Hfree.
  - specialize (Hfree 1%nat _ ltac:(done) eq_refl). cbn [mine_of] in Hfree. by rewrite lookup_singleton_eq in Hfree.
  - specialize (Hfree 0%nat _ ltac:(done) eq_refl). cbn [mine_of] in Hfree. by rewrite lookup_singleton_eq in Hfree.
Qed.

(** ** Agents *)

(** [C24] Reports of any number of agents, over any number of connections, never deadlock in the database: in every
    execution, whichever connections fail on the way, as long as not all reports are through some connection
    can go on without a failure, since no circle of transactions waits for each other's rows; and every
    execution ends, after at most two steps for each statement and two for each report. *)
Theorem reports_never_deadlock {E : Type} `{Postgres E} (n : nat) (agents : list (list measured)) (t : table)
    (es : list event) (p : pool_state)
    (Hok : Forall (Forall (measured_ok n)) agents) (Hrun : pool_run (λ _, False) (mkPool (reporting agents) t) es p) :
  (finished p ∨ ∃ e p', proper e ∧ pool_step (λ _, False) e p p') ∧
  (length es + pool_work p ≤ sum_list_with (λ ms, sum_list_with batch_work (report_batch <$> ms)) agents)%nat.
Proof.
  split.
  - apply (progress (report_order n)); [apply names_NoDup|]. eapply run_ordered; [exact Hrun|].
    intros i c Hi. unfold reporting in Hi. cbn [conns] in Hi. apply list_lookup_fmap_Some in Hi as (ms & -> & Hms).
    apply idle_ordered, Forall_fmap. eapply Forall_impl; [by eapply Forall_lookup_1|]. intros m. apply report_in_order.
  - pose proof (run_work _ _ _ _ Hrun) as Hw. etrans; [exact Hw|]. unfold pool_work, reporting. cbn [conns].
    clear. induction agents as [|ms agents IH]; [done|]. cbn. lia.
Qed.

(** Two agents, one with one processor and one with two, in the middle of their reports. *)
Definition toy_agents : list (list measured) :=
  [[(toy_MemStats, mkSysMon 7 fzero, mkKern [fzero] fzero fzero)]; [(toy_MemStats, mkSysMon 2 fzero, mkKern [fzero; fzero] fzero fzero)]].

Lemma reports_never_deadlock_witness :
  ∃ es p, pool_run (H := toy_Postgres) (λ _, False) (mkPool (reporting toy_agents) ∅) es p ∧
    (finished p ∨ ∃ e p', proper e ∧ pool_step (H := toy_Postgres) (λ _, False) e p p') ∧
    (length es + pool_work p ≤ 134)%nat.
Proof.
  assert (Forall (Forall (measured_ok 2)) toy_agents) as Hok.
  { repeat constructor; try (apply (bool_decide_unpack _); vm_compute; exact I). }
  pose proof (pool_nil (H := toy_Postgres) (λ _, False) (mkPool (reporting toy_agents) ∅)) as Hr.
  eapply pool_snoc in Hr; [|eapply (step_begin _ 0); reflexivity].
  eapply pool_snoc in Hr; [|eapply (step_begin _ 1); reflexivity].
  eexists _, _. split; [exact Hr|].
  exact (reports_never_deadlock (H := toy_Postgres) 2 toy_agents ∅ _ _ Hok Hr).
Defined.
