(* ===== verification/Config.v ===== *)
(** * Configuration

    [cmd/server/flags.go], [cmd/agent/flags.go], [internal/server/config.go] and [internal/agent/config.go], with the part of package
    [flag] they use and [version.go]: flags, then environment variables, then the JSON file.  The
    command line, the environment and the files are arguments. *)

From S2P Require Import Prelude Strconv Float64 Metrics Json.

Open Scope Z_scope.

(** ** Package flag *)

(** The digits of [strconv.ParseUint] in a base; underscores are skipped. *)
Fixpoint base_digits (base acc : Z) (s : string) : option Z :=
  match s with
  | "" => Some acc
  | String c s =>
      if decide (c = "_"%char) then base_digits base acc s
      else match hex_val c with
           | Some d => if decide (d < base) then base_digits base (acc * base + d) s else None
           | None => None
           end
  end.

(** The prefix of a number in base 0: the base and the digits that are left. *)
Definition base_prefix (s : string) : Z * string :=
  match s with
  | String "0" (String b (String c s')) =>
      if decide (lower b = "b"%char) then (2, String c s')
      else if decide (lower b = "o"%char) then (8, String c s')
      else if decide (lower b = "x"%char) then (16, String c s')
      else (8, String b (String c s'))
  | String "0" s' => (8, s')
  | _ => (10, s)
  end.

(** [underscoreOK]: an underscore stands between two digits or after the prefix.  [last] is the kind
    of the last character: ["0"] a digit, ["_"] an underscore, ["!"] something else, ["^"] none. *)
Fixpoint underscores (hex : bool) (last : ascii) (s : string) : bool :=
  match s with
  | "" => bool_decide (last ≠ "_"%char)
  | String c s =>
      if is_digit c || (hex && bool_decide (is_Some (hex_val c))) then underscores hex "0" s
      else if decide (c = "_"%char) then bool_decide (last = "0"%char) && underscores hex "_" s
      else bool_decide (last ≠ "_"%char) && underscores hex "!" s
  end.

Definition underscoreOK (s : string) : bool :=
  match s with
  | String "0" (String b s') =>
      if decide (lower b ∈ ["b"; "o"; "x"]%char) then underscores (bool_decide (lower b = "x"%char)) "0" s'
      else underscores false "^" s
  | _ => underscores false "^" s
  end.

(** [strconv.ParseInt(s, 0, 64)]. *)
Definition ParseInt0 (s : string) : option Z :=
  let '(neg, body) :=
    match s with
    | String c s' =>
        if decide (c = "-"%char) then (true, s')
        else if decide (c = "+"%char) then (false, s') else (false, s)
    | "" => (false, "")
    end in
  if decide (body = "") then None
  else if underscoreOK body then
    let '(base, digits) := base_prefix body in
    n ← base_digits base 0 digits;
    let z := if (neg : bool) then - n else n in
    if decide (is_int64 z) then Some z else None
  else None.

(** A defined flag: how its value is set in the configuration. *)
Inductive flag (C : Type) : Type :=
| FString (set : string → C → C)
| FInt (set : Z → C → C)
| FBool (set : bool → C → C).
Arguments FString {C} set.
Arguments FInt {C} set.
Arguments FBool {C} set.

Definition flag_Set {C} (f : flag C) (value : string) (c : C) : option C :=
  match f with
  | FString set => Some (set value c)
  | FInt set => (λ n, set n c) <$> ParseInt0 value
  | FBool set => (λ b, set b c) <$> ParseBool value
  end.

Definition is_bool_flag {C} (f : flag C) : bool := match f with FBool _ => true | _ => false end.

(** The part of the name before the first equals sign after its first character, and what follows. *)
Fixpoint cut_equals (s : string) : string * option string :=
  match s with
  | "" => ("", None)
  | String c s =>
      if decide (c = "="%char) then ("", Some s) else let '(a, v) := cut_equals s in (String c a, v)
  end.

(** The name and the value of an argument that is a flag; the outer [None]: not a flag, the parsing stops;
    the inner [None]: bad syntax. *)
Definition flag_arg (s : string) : option (option (string * option string)) :=
  match s with
  | String "-" (String c s') =>
      let name := if decide (c = "-"%char) then s' else String c s' in
      if decide (s = "--") then None
      else match name with
           | "" => Some None
           | String d _ =>
               if decide (d = "-"%char ∨ d = "="%char) then Some None else Some (Some (cut_equals name))
           end
  | _ => None
  end.

(** A name that is not defined: [-h] and [-help] then print the usage and end the process with status 0; any error
    ends it with status 2. *)
Definition flag_unknown {C} (name : string) : outcome C :=
  if decide (name = "h" ∨ name = "help") then Exited 0 "flag: help requested"
  else Exited 2 "flag provided but not defined".

(** [flag.Parse] with [ExitOnError]. *)
Fixpoint flag_Parse {C} (formal : list (string * flag C)) (args : list string) (c : C) : outcome C :=
  match args with
  | [] => Ret c
  | s :: rest =>
      match flag_arg s with
      | None => Ret c
      | Some None => Exited 2 "bad flag syntax"
      | Some (Some (name, v)) =>
          match list_find (λ f, f.1 = name) formal with
          | None => flag_unknown name
          | Some (_, (_, f)) =>
              let set value rest :=
                match flag_Set f value c with Some c => flag_Parse formal rest c | None => Exited 2 "invalid value" end in
              match v with
              | Some value => set value rest
              | None =>
                  if is_bool_flag f then set "true" rest
                  else match rest with
                       | value :: rest =>
                           match flag_Set f value c with Some c => flag_Parse formal rest c | None => Exited 2 "invalid value" end
                       | [] => Exited 2 "flag needs an argument"
                       end
              end
          end
      end
  end.

(** ** The environment and the file *)

(** [os.Getenv]. *)
Abbreviation environment := (string → string).

(** A value from the environment: unset leaves the configuration alone, and text that does not parse
    is fatal. *)
Definition env_string {C} (s : string) (set : string → C → C) (c : C) : outcome C :=
  Ret (if decide (s ≠ "") then set s c else c).
Definition env_address {C} (s : string) (set : string → C → C) (c : C) : outcome C :=
  Ret (if decide (s ≠ "") then if decide (length (Split s ":"%char) = 2%nat) then set s c else c else c).
Definition env_int {C} (s : string) (set : Z → C → C) (c : C) : outcome C :=
  if decide (s ≠ "") then match Atoi s with Some i => Ret (set i c) | None => Fatal "Atoi" end else Ret c.
Definition env_bool {C} (s : string) (set : bool → C → C) (c : C) : outcome C :=
  if decide (s ≠ "") then match ParseBool s with Some b => Ret (set b c) | None => Fatal "ParseBool" end else Ret c.

(** The name of a member as [encoding/json] compares it: upper case, the long s and the Kelvin sign
    are folded. *)
Fixpoint fold_name (s : string) : string :=
  match s with
  | "" => ""
  | String a s1 =>
      match s1 with
      | String b s2 =>
          if decide (byte a = 197 ∧ byte b = 191) then String "s" (fold_name s2)
          else match s2 with
               | String c s3 =>
                   if decide (byte a = 226 ∧ byte b = 132 ∧ byte c = 170) then String "k" (fold_name s3)
                   else String (lower a) (fold_name s1)
               | "" => String (lower a) (fold_name s1)
               end
      | "" => String (lower a) ""
      end
  end.

(** A member decoded into the field of that name: null changes nothing, another kind of value is an error. *)
Definition set_member {C} (fields : list (string * flag C)) (c : C) (kv : string * json) : option C :=
  match list_find (λ f, f.1 = fold_name kv.1) fields with
  | None => Some c
  | Some (_, (_, f)) =>
      match f, kv.2 with
      | _, JNull => Some c
      | FString set, JStr s => Some (set s c)
      | FInt set, JNum n => (λ n, set n c) <$> ParseInt n
      | FBool set, JBool b => Some (set b c)
      | _, _ => None
      end
  end.

Fixpoint set_members {C} (fields : list (string * flag C)) (c : C) (l : list (string * json)) : option C :=
  match l with
  | [] => Some c
  | kv :: l => c ← set_member fields c kv; set_members fields c l
  end.

(** [json.Unmarshal(jf, &config)]: null sets the local pointer only. *)
Definition Unmarshal_config {C} (fields : list (string * flag C)) (text : string) (c : C) : option C :=
  match parse_text text with
  | Some (JObj l) => set_members fields c l
  | Some JNull => Some c
  | _ => None
  end.

(** [parseJSONconfigFile]; reading a file that cannot be opened or read is fatal. *)
Definition parse_config_file {C} (fields : list (string * flag C)) (files : string → option string)
    (cfgJSON : string) (c : C) : outcome C :=
  if decide (cfgJSON = "") then Ret c
  else match files cfgJSON with
       | None => Fatal "open"
       | Some text => match Unmarshal_config fields text c with Some c => Ret c | None => Fatal "Unmarshal" end
       end.

(** [checkBuildFlags] of [version.go]. *)
Definition checkBuildFlags (s : string) : string := if decide (s ≠ "") then s else "N/A".

Definition printBuildFlags (buildVersion buildDate buildCommit : string) : string :=
  "Build version: " +:+ checkBuildFlags buildVersion +:+ nl_str +:+
  "Build date: " +:+ checkBuildFlags buildDate +:+ nl_str +:+
  "Build commit: " +:+ checkBuildFlags buildCommit +:+ nl_str.

(** ** The server *)

Module ServerConfig.
(** [ConfigArgs]. *)
Record ConfigArgs : Type := mkConfigArgs {
  DatabaseDsn : string;
  PprofAddr : string;
  KeyEnc : string;
  ServerAddr : string;
  Loglevel : string;
  FileStoragePath : string;
  PrivKeyFile : string;
  StoreInterval : Z;
  Restore : bool;
  TrustedSubnets : string;
  GrpcServer : string
}.

Definition set_DatabaseDsn (v : string) (c : ConfigArgs) : ConfigArgs :=
  mkConfigArgs v (PprofAddr c) (KeyEnc c) (ServerAddr c) (Loglevel c) (FileStoragePath c) (PrivKeyFile c) (StoreInterval c) (Restore c) (TrustedSubnets c) (GrpcServer c).
Definition set_PprofAddr (v : string) (c : ConfigArgs) : ConfigArgs :=
  mkConfigArgs (DatabaseDsn c) v (KeyEnc c) (ServerAddr c) (Loglevel c) (FileStoragePath c) (PrivKeyFile c) (StoreInterval c) (Restore c) (TrustedSubnets c) (GrpcServer c).
Definition set_KeyEnc (v : string) (c : ConfigArgs) : ConfigArgs :=
  mkConfigArgs (DatabaseDsn c) (PprofAddr c) v (ServerAddr c) (Loglevel c) (FileStoragePath c) (PrivKeyFile c) (StoreInterval c) (Restore c) (TrustedSubnets c) (GrpcServer c).
Definition set_ServerAddr (v : string) (c : ConfigArgs) : ConfigArgs :=
  mkConfigArgs (DatabaseDsn c) (PprofAddr c) (KeyEnc c) v (Loglevel c) (FileStoragePath c) (PrivKeyFile c) (StoreInterval c) (Restore c) (TrustedSubnets c) (GrpcServer c).
Definition set_Loglevel (v : string) (c : ConfigArgs) : ConfigArgs :=
  mkConfigArgs (DatabaseDsn c) (PprofAddr c) (KeyEnc c) (ServerAddr c) v (FileStoragePath c) (PrivKeyFile c) (StoreInterval c) (Restore c) (TrustedSubnets c) (GrpcServer c).
Definition set_FileStoragePath (v : string) (c : ConfigArgs) : ConfigArgs :=
  mkConfigArgs (DatabaseDsn c) (PprofAddr c) (KeyEnc c) (ServerAddr c) (Loglevel c) v (PrivKeyFile c) (StoreInterval c) (Restore c) (TrustedSubnets c) (GrpcServer c).
Definition set_PrivKeyFile (v : string) (c : ConfigArgs) : ConfigArgs :=
  mkConfigArgs (DatabaseDsn c) (PprofAddr c) (KeyEnc c) (ServerAddr c) (Loglevel c) (FileStoragePath c) v (StoreInterval c) (Restore c) (TrustedSubnets c) (GrpcServer c).
Definition set_StoreInterval (v : Z) (c : ConfigArgs) : ConfigArgs :=
  mkConfigArgs (DatabaseDsn c) (PprofAddr c) (KeyEnc c) (ServerAddr c) (Loglevel c) (FileStoragePath c) (PrivKeyFile c) v (Restore c) (TrustedSubnets c) (GrpcServer c).
Definition set_Restore (v : bool) (c : ConfigArgs) : ConfigArgs :=
  mkConfigArgs (DatabaseDsn c) (PprofAddr c) (KeyEnc c) (ServerAddr c) (Loglevel c) (FileStoragePath c) (PrivKeyFile c) (StoreInterval c) v (TrustedSubnets c) (GrpcServer c).
Definition set_TrustedSubnets (v : string) (c : ConfigArgs) : ConfigArgs :=
  mkConfigArgs (DatabaseDsn c) (PprofAddr c) (KeyEnc c) (ServerAddr c) (Loglevel c) (FileStoragePath c) (PrivKeyFile c) (StoreInterval c) (Restore c) v (GrpcServer c).
Definition set_GrpcServer (v : string) (c : ConfigArgs) : ConfigArgs :=
  mkConfigArgs (DatabaseDsn c) (PprofAddr c) (KeyEnc c) (ServerAddr c) (Loglevel c) (FileStoragePath c) (PrivKeyFile c) (StoreInterval c) (Restore c) (TrustedSubnets c) v.

(** The JSON names of the fields. *)
Definition json_fields : list (string * flag ConfigArgs) :=
  [("database_dsn", FString set_DatabaseDsn);
   ("pprof_address", FString set_PprofAddr);
   ("key_enc_sign", FString set_KeyEnc);
   ("address", FString set_ServerAddr);
   ("log_level", FString set_Loglevel);
   ("store_file", FString set_FileStoragePath);
   ("crypto_key", FString set_PrivKeyFile);
   ("store_interval", FInt set_StoreInterval);
   ("restore", FBool set_Restore);
   ("trusted_subnet", FString set_TrustedSubnets);
   ("grpc_server", FString set_GrpcServer)].

(** The configuration and the path of the JSON file. *)
Abbreviation state := (ConfigArgs * string)%type.

Definition on_config {A} (set : A → ConfigArgs → ConfigArgs) (v : A) (c : state) : state := (set v c.1, c.2).
Definition set_cfgJSON (v : string) (c : state) : state := (c.1, v).

Definition formal : list (string * flag state) :=
  [("a", FString (on_config set_ServerAddr));
   ("l", FString (on_config set_Loglevel));
   ("i", FInt (on_config set_StoreInterval));
   ("f", FString (on_config set_FileStoragePath));
   ("r", FBool (on_config set_Restore));
   ("d", FString (on_config set_DatabaseDsn));
   ("k", FString (on_config set_KeyEnc));
   ("p", FString (on_config set_PprofAddr));
   ("crypto-key", FString (on_config set_PrivKeyFile));
   ("config", FString set_cfgJSON);
   ("t", FString (on_config set_TrustedSubnets));
   ("grpc-server", FString (on_config set_GrpcServer))].

Definition defaults : state := (mkConfigArgs "" "" "" "localhost:8080" "info" "/tmp/metrics-db.json" "" 300 true "" "", "").

Definition servFlags (args : list string) : outcome state := flag_Parse formal args defaults.

Definition servEnv (getenv : environment) (c : state) : outcome state :=
  c ← env_address (getenv "ADDRESS") (on_config set_ServerAddr) c;
  c ← env_address (getenv "PPROF_SERVER_ADDRESS") (on_config set_PprofAddr) c;
  c ← env_string (getenv "LOG_LEVEL") (on_config set_Loglevel) c;
  c ← env_int (getenv "STORE_INTERVAL") (on_config set_StoreInterval) c;
  c ← env_string (getenv "FILE_STORAGE_PATH") (on_config set_FileStoragePath) c;
  c ← env_bool (getenv "RESTORE") (on_config set_Restore) c;
  c ← env_string (getenv "DATABASE_DSN") (on_config set_DatabaseDsn) c;
  c ← env_string (getenv "KEY") (on_config set_KeyEnc) c;
  c ← env_string (getenv "CRYPTO_KEY") (on_config set_PrivKeyFile) c;
  c ← env_string (getenv "CONFIG") set_cfgJSON c;
  c ← env_string (getenv "TRUSTED_SUBNET") (on_config set_TrustedSubnets) c;
  c ← env_string (getenv "GRPC_SERVER") (on_config set_GrpcServer) c;
  Ret c.

Definition parseJSONconfigFile (files : string → option string) (c : state) : outcome ConfigArgs :=
  parse_config_file json_fields files c.2 c.1.

(** The start of [main]: flags, environment, file. *)
Definition load (args : list string) (getenv : environment) (files : string → option string) : outcome ConfigArgs :=
  c ← servFlags args; c ← servEnv getenv c; parseJSONconfigFile files c.
End ServerConfig.

(** ** The agent *)

Module AgentConfig.
(** [ConfigArgs]. *)
Record ConfigArgs : Type := mkConfigArgs {
  ServerAddr : string;
  KeyEnc : string;
  PprofAddr : string;
  PubKeyFile : string;
  ReportInterval : Z;
  PollInterval : Z;
  RateLimit : Z;
  Grpc : bool
}.

Definition set_ServerAddr (v : string) (c : ConfigArgs) : ConfigArgs :=
  mkConfigArgs v (KeyEnc c) (PprofAddr c) (PubKeyFile c) (ReportInterval c) (PollInterval c) (RateLimit c) (Grpc c).
Definition set_KeyEnc (v : string) (c : ConfigArgs) : ConfigArgs :=
  mkConfigArgs (ServerAddr c) v (PprofAddr c) (PubKeyFile c) (ReportInterval c) (PollInterval c) (RateLimit c) (Grpc c).
Definition set_PprofAddr (v : string) (c : ConfigArgs) : ConfigArgs :=
  mkConfigArgs (ServerAddr c) (KeyEnc c) v (PubKeyFile c) (ReportInterval c) (PollInterval c) (RateLimit c) (Grpc c).
Definition set_PubKeyFile (v : string) (c : ConfigArgs) : ConfigArgs :=
  mkConfigArgs (ServerAddr c) (KeyEnc c) (PprofAddr c) v (ReportInterval c) (PollInterval c) (RateLimit c) (Grpc c).
Definition set_ReportInterval (v : Z) (c : ConfigArgs) : ConfigArgs :=
  mkConfigArgs (ServerAddr c) (KeyEnc c) (PprofAddr c) (PubKeyFile c) v (PollInterval c) (RateLimit c) (Grpc c).
Definition set_PollInterval (v : Z) (c : ConfigArgs) : ConfigArgs :=
  mkConfigArgs (ServerAddr c) (KeyEnc c) (PprofAddr c) (PubKeyFile c) (ReportInterval c) v (RateLimit c) (Grpc c).
Definition set_RateLimit (v : Z) (c : ConfigArgs) : ConfigArgs :=
  mkConfigArgs (ServerAddr c) (KeyEnc c) (PprofAddr c) (PubKeyFile c) (ReportInterval c) (PollInterval c) v (Grpc c).
Definition set_Grpc (v : bool) (c : ConfigArgs) : ConfigArgs :=
  mkConfigArgs (ServerAddr c) (KeyEnc c) (PprofAddr c) (PubKeyFile c) (ReportInterval c) (PollInterval c) (RateLimit c) v.

(** The JSON names of the fields. *)
Definition json_fields : list (string * flag ConfigArgs) :=
  [("address", FString set_ServerAddr);
   ("key_enc_sign", FString set_KeyEnc);
   ("pprof_address", FString set_PprofAddr);
   ("crypto_key", FString set_PubKeyFile);
   ("report_interval", FInt set_ReportInterval);
   ("poll_interval", FInt set_PollInterval);
   ("rate_limit", FInt set_RateLimit);
   ("grpc", FBool set_Grpc)].

(** The configuration and the path of the JSON file. *)
Abbreviation state := (ConfigArgs * string)%type.

Definition on_config {A} (set : A → ConfigArgs → ConfigArgs) (v : A) (c : state) : state := (set v c.1, c.2).
Definition set_cfgJSON (v : string) (c : state) : state := (c.1, v).

Definition formal : list (string * flag state) :=
  [("a", FString (on_config set_ServerAddr));
   ("r", FInt (on_config set_ReportInterval));
   ("p", FInt (on_config set_PollInterval));
   ("k", FString (on_config set_KeyEnc));
   ("l", FInt (on_config set_RateLimit));
   ("d", FString (on_config set_PprofAddr));
   ("crypto-key", FString (on_config set_PubKeyFile));
   ("config", FString set_cfgJSON);
   ("grpc", FBool (on_config set_Grpc))].

Definition defaults : state := (mkConfigArgs "localhost:8080" "" "" "" 10 2 1 false, "").

Definition servFlags (args : list string) : outcome state := flag_Parse formal args defaults.

Definition servEnv (getenv : environment) (c : state) : outcome state :=
  c ← env_address (getenv "ADDRESS") (on_config set_ServerAddr) c;
  c ← env_address (getenv "PPROF_AGENT_ADDRESS") (on_config set_PprofAddr) c;
  c ← env_int (getenv "REPORT_INTERVAL") (on_config set_ReportInterval) c;
  c ← env_int (getenv "POLL_INTERVAL") (on_config set_PollInterval) c;
  c ← env_string (getenv "KEY") (on_config set_KeyEnc) c;
  c ← env_int (getenv "RATE_LIMIT") (on_config set_RateLimit) c;
  c ← env_string (getenv "CRYPTO_KEY") (on_config set_PubKeyFile) c;
  c ← env_string (getenv "CONFIG") set_cfgJSON c;
  c ← Ret (if decide (getenv "GRPC" = "true") then on_config set_Grpc true c else c);
  Ret c.

Definition parseJSONconfigFile (files : string → option string) (c : state) : outcome ConfigArgs :=
  parse_config_file json_fields files c.2 c.1.

(** The start of [main]: flags, environment, file. *)
Definition load (args : list string) (getenv : environment) (files : string → option string) : outcome ConfigArgs :=
  c ← servFlags args; c ← servEnv getenv c; parseJSONconfigFile files c.
End AgentConfig.

Example flag_ex :
  ServerConfig.servFlags ["-a"; "h:1"; "--i=0x10"; "-r=false"; "-k"; "-x"; "tail"; "-zz"] =
    Ret (ServerConfig.mkConfigArgs "" "" "-x" "h:1" "info" "/tmp/metrics-db.json" "" 16 false "" "", "") ∧
  ServerConfig.servFlags ["-r"; "false"; "-zz"] = Ret ServerConfig.defaults ∧
  ServerConfig.servFlags ["-zz"] = Exited 2 "flag provided but not defined" ∧
  ServerConfig.servFlags ["-r"; "--help"; "-zz"] = Exited 0 "flag: help requested" ∧
  ServerConfig.servFlags ["-i"] = Exited 2 "flag needs an argument" ∧
  ServerConfig.servFlags ["-i"; "1__0"] = Exited 2 "invalid value" ∧
  AgentConfig.servFlags ["-grpc"; "-r=1_000"] =
    Ret (AgentConfig.mkConfigArgs "localhost:8080" "" "" "" 1000 2 1 true, "").
Proof. vm_compute. done. Qed.
