(* ===== verification/Sources.v ===== *)
(** * Which source decides a setting

    The settings of both programs ([cmd/server/flags.go], [cmd/agent/flags.go]) come from flags, the
    environment and a JSON file ([Config.v]): for each setting, which of the three wins. *)

From S2P Require Import Prelude Strconv Float64 GoErrors Json Config.

Open Scope Z_scope.

(** ** Values and where they come from *)

Inductive cfg_value : Type := VStr (s : string) | VInt (n : Z) | VBool (b : bool).

(** How a program reads a variable of the environment. *)
Inductive env_kind : Type := EnvString | EnvAddress | EnvInt | EnvBool | EnvTrue.

(** What a variable gives; [None] when the configuration keeps what it has. *)
Definition env_value (k : env_kind) (s : string) : option cfg_value :=
  match k with
  | EnvString => if decide (s ≠ "") then Some (VStr s) else None
  | EnvAddress => if decide (s ≠ "" ∧ length (Split s ":"%char) = 2%nat) then Some (VStr s) else None
  | EnvInt => if decide (s ≠ "") then VInt <$> Atoi s else None
  | EnvBool => if decide (s ≠ "") then VBool <$> ParseBool s else None
  | EnvTrue => if decide (s = "true") then Some (VBool true) else None
  end.

(** What a member of the file gives for a field. *)
Definition json_value {C} (f : flag C) (v : json) : option cfg_value :=
  match f, v with
  | FString _, JStr s => Some (VStr s)
  | FInt _, JNum n => VInt <$> ParseInt n
  | FBool _, JBool b => Some (VBool b)
  | _, _ => None
  end.

(** What a member gives for the name [k], and the last member of that name that is not null. *)
Definition member_value (k : string) (kv : string * json) : option json :=
  match kv.2 with JNull => None | v => if decide (fold_name kv.1 = k) then Some v else None end.
Definition last_member (k : string) (l : list (string * json)) : option json := last (omap (member_value k) l).

(** The members of the JSON file, when one is named. *)
Definition file_members (files : string → option string) (path : string) : list (string * json) :=
  if decide (path = "") then [] else match files path ≫= parse_text with Some (JObj l) => l | _ => [] end.

(** A setting of a program: its name in the file, its variable, the field of the configuration. *)
Record setting (C : Type) : Type := mkSetting {
  in_file : string;
  in_env : string;
  env_as : env_kind;
  read : C → cfg_value;
  field : flag C
}.
Arguments mkSetting {C} in_file in_env env_as read field.
Arguments in_file {C} _.
Arguments in_env {C} _.
Arguments env_as {C} _.
Arguments read {C} _ _.
Arguments field {C} _.

(** The value of a setting: the file, else the environment, else the flags. *)
Definition decided {C} (st : setting C) (getenv : environment) (members : list (string * json)) (flags : C) : cfg_value :=
  let below := default (read st flags) (env_value (env_as st) (getenv (in_env st))) in
  match last_member (in_file st) members with
  | Some v => default below (json_value (field st) v)
  | None => below
  end.

(** ** The file *)

Section Layers.
Context {C A : Type} (get : C → A).

(** Setting this field leaves [get] alone. *)
Definition keeps (f : flag C) : Prop :=
  match f with
  | FString set => ∀ v c, get (set v c) = get c
  | FInt set => ∀ v c, get (set v c) = get c
  | FBool set => ∀ v c, get (set v c) = get c
  end.

Lemma set_member_keeps fields c kv c' :
  Forall (λ f, f.1 = fold_name kv.1 → keeps f.2) fields → set_member fields c kv = Some c' → get c' = get c.
Proof.
  intros Hk. unfold set_member. destruct (list_find _ fields) as [[i [k f]]|] eqn:Hf; [|by intros [= <-]].
  apply list_find_Some in Hf as (Hi & Hn & _). pose proof (Forall_lookup_1 _ _ _ _ Hk Hi Hn) as Hset. clear Hk Hi. simpl in *.
  destruct f, kv.2; intros H; simplify_eq/=; try done;
    apply fmap_Some in H as (? & _ & ->); by rewrite Hset.
Qed.
End Layers.

(** Setting the field is what [get] reads. *)
Definition sets {C} (get : C → cfg_value) (f : flag C) : Prop :=
  match f with
  | FString set => ∀ v c, get (set v c) = VStr v
  | FInt set => ∀ v c, get (set v c) = VInt v
  | FBool set => ∀ v c, get (set v c) = VBool v
  end.

(** The last member of the field's name that is not null decides. *)
Lemma set_members_field {C} (get : C → cfg_value) (f : flag C) (k : string) (fields : list (string * flag C)) c l c' :
  (∃ i, list_find (λ f, f.1 = k) fields = Some (i, (k, f))) → sets get f →
  Forall (λ f, f.1 ≠ k → keeps get f.2) fields →
  set_members fields c l = Some c' →
  match last_member k l with Some v => json_value f v = Some (get c') | None => get c' = get c end.
Proof.
  intros [i Hfind] Hget Hkeep. unfold last_member. revert c. induction l as [|kv l IH]; intros c; [by intros [= <-]|].
  cbn [set_members]. intros (c1 & H1 & Hl)%bind_Some. specialize (IH _ Hl). clear Hl.
  change (omap (member_value k) (kv :: l)) with
    (match member_value k kv with Some y => y :: omap (member_value k) l | None => omap (member_value k) l end).
  assert (match member_value k kv with Some v => json_value f v = Some (get c1) | None => get c1 = get c end) as Hc1.
  { destruct (decide (fold_name kv.1 = k)) as [Hk|Hk].
    - unfold set_member in H1. unfold member_value. rewrite Hk, Hfind in H1.
      destruct kv as [k' v]; cbn [fst snd] in *.
      destruct f, v; cbn [json_value sets] in *; rewrite ?(decide_True _ _ Hk); simplify_eq/=; try done; try (by rewrite Hget).
      apply fmap_Some in H1 as (n' & -> & ->). by rewrite Hget.
    - unfold member_value.
      assert (get c1 = get c) by (eapply set_member_keeps; [|exact H1]; eapply Forall_impl; [exact Hkeep|];
        intros f' Hf Hfk; apply Hf; congruence).
      destruct (kv.2); by rewrite ?decide_False. }
  destruct (member_value k kv) as [v|].
  - revert IH. destruct (omap (member_value k) l) as [|x xs]; [simpl; by intros ->|].
    rewrite last_cons_cons. destruct (last (x :: xs)) eqn:Hx; [done|]. by apply last_None in Hx.
  - revert IH. destruct (last (omap (member_value k) l)); [done|]. by intros ->.
Qed.

(** The names, reading and writing of a setting fit the fields that the file may have. *)
Definition setting_ok {C} (fields : list (string * flag C)) (st : setting C) : Prop :=
  (∃ i, list_find (λ f, f.1 = in_file st) fields = Some (i, (in_file st, field st))) ∧
  sets (read st) (field st) ∧
  Forall (λ f, f.1 ≠ in_file st → keeps (read st) f.2) fields.

(** What the file gives a setting, over what it was. *)
Lemma parse_config_file_setting {C} (fields : list (string * flag C)) files path c0 c (st : setting C) :
  setting_ok fields st → parse_config_file fields files path c0 = Ret c →
  read st c = match last_member (in_file st) (file_members files path) with
              | Some v => default (read st c0) (json_value (field st) v)
              | None => read st c0
              end.
Proof.
  intros (Hname & Hset & Hkeep). unfold parse_config_file, file_members. case_decide; [by intros [= <-]|].
  destruct (files path) as [text|]; [|done]. cbn [mbind option_bind]. unfold Unmarshal_config.
  destruct (parse_text text) as [[| | | | |l]|]; try done; [by intros [= <-]|].
  destruct (set_members fields c0 l) as [c'|] eqn:Hm; [|done]. intros [= ->].
  pose proof (set_members_field (read st) (field st) (in_file st) fields c0 l c Hname Hset Hkeep Hm) as Hl.
  destruct (last_member (in_file st) l); [by rewrite Hl|done].
Qed.

(** ** The environment *)

Section Environment.
Context {C A : Type}.

Lemma env_string_keeps (g : C → A) s set c c' : env_string s set c = Ret c' → (∀ v c, g (set v c) = g c) → g c' = g c.
Proof. unfold env_string. case_decide; intros [= <-] Hs; [apply Hs|done]. Qed.

Lemma env_address_keeps (g : C → A) s set c c' : env_address s set c = Ret c' → (∀ v c, g (set v c) = g c) → g c' = g c.
Proof. unfold env_address. repeat case_decide; intros [= <-] Hs; done || apply Hs. Qed.

Lemma env_int_keeps (g : C → A) s set c c' : env_int s set c = Ret c' → (∀ v c, g (set v c) = g c) → g c' = g c.
Proof. unfold env_int. case_decide; [destruct (Atoi s)|]; intros He Hs; simplify_eq/=; [apply Hs|done]. Qed.

Lemma env_bool_keeps (g : C → A) s set c c' : env_bool s set c = Ret c' → (∀ v c, g (set v c) = g c) → g c' = g c.
Proof. unfold env_bool. case_decide; [destruct (ParseBool s)|]; intros He Hs; simplify_eq/=; [apply Hs|done]. Qed.

Lemma env_true_keeps (g : C → A) s (set : bool → C → C) c c' :
  Ret (if decide (s = "true") then set true c else c) = Ret c' → (∀ v c, g (set v c) = g c) → g c' = g c.
Proof. case_decide; intros [= <-] Hs; [apply Hs|done]. Qed.

Lemma env_string_sets (g : C → cfg_value) s set c c' :
  env_string s set c = Ret c' → (∀ v c, g (set v c) = VStr v) → g c' = default (g c) (env_value EnvString s).
Proof. unfold env_string, env_value. case_decide; intros [= <-] Hs; [apply Hs|done]. Qed.

Lemma env_address_sets (g : C → cfg_value) s set c c' :
  env_address s set c = Ret c' → (∀ v c, g (set v c) = VStr v) → g c' = default (g c) (env_value EnvAddress s).
Proof.
  unfold env_address, env_value. intros H Hs.
  destruct (decide (s ≠ "")) as [|Hn]; [|injection H as <-; by rewrite decide_False by tauto].
  destruct (decide (length _ = _)) as [|Hn]; injection H as <-; [rewrite decide_True by done; apply Hs|by rewrite decide_False by tauto].
Qed.

Lemma env_int_sets (g : C → cfg_value) s set c c' :
  env_int s set c = Ret c' → (∀ v c, g (set v c) = VInt v) → g c' = default (g c) (env_value EnvInt s).
Proof. unfold env_int, env_value. case_decide; [destruct (Atoi s)|]; intros He Hs; simplify_eq/=; [apply Hs|done]. Qed.

Lemma env_bool_sets (g : C → cfg_value) s set c c' :
  env_bool s set c = Ret c' → (∀ v c, g (set v c) = VBool v) → g c' = default (g c) (env_value EnvBool s).
Proof. unfold env_bool, env_value. case_decide; [destruct (ParseBool s)|]; intros He Hs; simplify_eq/=; [apply Hs|done]. Qed.

Lemma env_true_sets (g : C → cfg_value) s (set : bool → C → C) c c' :
  Ret (if decide (s = "true") then set true c else c) = Ret c' → (∀ v c, g (set v c) = VBool v) →
  g c' = default (g c) (env_value EnvTrue s).
Proof. unfold env_value. case_decide; intros [= <-] Hs; [apply Hs|done]. Qed.
End Environment.

(** The path of the file: CONFIG, if it is not empty, else the flag's. *)
Definition config_path (getenv : environment) (from_flag : string) : string :=
  if decide (getenv "CONFIG" ≠ "") then getenv "CONFIG" else from_flag.

Lemma config_path_value getenv path path' :
  VStr path' = default (VStr path) (env_value EnvString (getenv "CONFIG")) → path' = config_path getenv path.
Proof. unfold config_path, env_value. case_decide; by intros [= ->]. Qed.

(** The variables one after the other, from the last: each keeps what [g] reads, or is the one that sets it. *)
Ltac env_chain g :=
  repeat match goal with
  | He : env_string _ _ ?c = Ret ?c' |- context [g ?c'] =>
      first [rewrite (env_string_keeps g _ _ _ _ He) by reflexivity | rewrite (env_string_sets g _ _ _ _ He) by reflexivity]; clear He
  | He : env_address _ _ ?c = Ret ?c' |- context [g ?c'] =>
      first [rewrite (env_address_keeps g _ _ _ _ He) by reflexivity | rewrite (env_address_sets g _ _ _ _ He) by reflexivity]; clear He
  | He : env_int _ _ ?c = Ret ?c' |- context [g ?c'] =>
      first [rewrite (env_int_keeps g _ _ _ _ He) by reflexivity | rewrite (env_int_sets g _ _ _ _ He) by reflexivity]; clear He
  | He : env_bool _ _ ?c = Ret ?c' |- context [g ?c'] =>
      first [rewrite (env_bool_keeps g _ _ _ _ He) by reflexivity | rewrite (env_bool_sets g _ _ _ _ He) by reflexivity]; clear He
  | He : Ret _ = Ret ?c' |- context [g ?c'] =>
      first [rewrite (env_true_keeps g _ _ _ _ He) by reflexivity | rewrite (env_true_sets g _ _ _ _ He) by reflexivity]; clear He
  end; reflexivity.

(** The run of [servEnv] taken apart into its variables. *)
Ltac env_steps H :=
  repeat (let x := fresh "c" in let E := fresh "E" in apply outcome_bind_Ret in H as (x & E & H));
  injection H as <-.

(** Case by case over the settings of a list. *)
Ltac each_setting Hst tac :=
  repeat (apply elem_of_cons in Hst as [->|Hst]; [tac|]); by apply elem_of_nil in Hst.

(** ** A program with settings *)

(** What a program has to promise about its settings: they fit the fields of the file, and its function for the
    environment gives each setting the value of its variable, and CONFIG the path of the file. *)
Class Configured (C : Type) (servEnv : environment → C * string → outcome (C * string))
    (json_fields : list (string * flag C)) (settings : list (setting C)) : Prop := {
  settings_fit st : st ∈ settings → setting_ok json_fields st;
  servEnv_reads st getenv c0 c1 : st ∈ settings → servEnv getenv c0 = Ret c1 →
    read st c1.1 = default (read st c0.1) (env_value (env_as st) (getenv (in_env st)));
  servEnv_path getenv c0 c1 : servEnv getenv c0 = Ret c1 → c1.2 = config_path getenv c0.2
}.

(** Then the file, the environment and the flags decide, in this order. *)
Lemma loaded_setting {C} servEnv json_fields settings `{!Configured C servEnv json_fields settings} (st : setting C)
    getenv files c0 c :
  st ∈ settings → (c1 ← servEnv getenv c0; parse_config_file json_fields files c1.2 c1.1) = Ret c →
  read st c = decided st getenv (file_members files (config_path getenv c0.2)) c0.1.
Proof.
  intros Hst (c1 & Henv & Hfile)%outcome_bind_Ret.
  rewrite (parse_config_file_setting _ _ _ _ _ st (settings_fit st Hst) Hfile), (servEnv_path _ _ _ Henv).
  unfold decided. by rewrite (servEnv_reads st _ _ _ Hst Henv).
Qed.

(** ** The server's settings *)

Module ServerSources.
Import ServerConfig.

Definition settings : list (setting ConfigArgs) :=
  [mkSetting "address" "ADDRESS" EnvAddress (VStr ∘ ServerAddr) (FString set_ServerAddr);
   mkSetting "pprof_address" "PPROF_SERVER_ADDRESS" EnvAddress (VStr ∘ PprofAddr) (FString set_PprofAddr);
   mkSetting "log_level" "LOG_LEVEL" EnvString (VStr ∘ Loglevel) (FString set_Loglevel);
   mkSetting "store_interval" "STORE_INTERVAL" EnvInt (VInt ∘ StoreInterval) (FInt set_StoreInterval);
   mkSetting "store_file" "FILE_STORAGE_PATH" EnvString (VStr ∘ FileStoragePath) (FString set_FileStoragePath);
   mkSetting "restore" "RESTORE" EnvBool (VBool ∘ Restore) (FBool set_Restore);
   mkSetting "database_dsn" "DATABASE_DSN" EnvString (VStr ∘ DatabaseDsn) (FString set_DatabaseDsn);
   mkSetting "key_enc_sign" "KEY" EnvString (VStr ∘ KeyEnc) (FString set_KeyEnc);
   mkSetting "crypto_key" "CRYPTO_KEY" EnvString (VStr ∘ PrivKeyFile) (FString set_PrivKeyFile);
   mkSetting "trusted_subnet" "TRUSTED_SUBNET" EnvString (VStr ∘ TrustedSubnets) (FString set_TrustedSubnets);
   mkSetting "grpc_server" "GRPC_SERVER" EnvString (VStr ∘ GrpcServer) (FString set_GrpcServer)].

Definition path_of (c : state) : cfg_value := VStr c.2.
Definition current (st : setting ConfigArgs) (c : state) : cfg_value := read st c.1.

#[export] Instance server_configured : Configured ConfigArgs servEnv json_fields settings.
Proof.
  split.
  - intros st Hst. unfold settings in Hst.
    each_setting Hst ltac:(idtac; split_and!; [by eexists|done|repeat constructor; done]).
  - intros st getenv c0 c1 Hst H. unfold servEnv in H. env_steps H. unfold settings in Hst.
    each_setting Hst ltac:(idtac; match goal with |- read ?s (fst ?c) = _ =>
      change (read s c.1) with (current s c); change (read s c0.1) with (current s c0); cbn [env_as in_env]; env_chain (current s) end).
  - intros getenv c0 c1 H. unfold servEnv in H. env_steps H. apply config_path_value.
    match goal with |- VStr (snd ?c) = _ => change (VStr c.2) with (path_of c) end. change (VStr c0.2) with (path_of c0). env_chain path_of.
Qed.

Lemma server_setting_source args getenv files c c0 (st : setting ConfigArgs) :
  load args getenv files = Ret c → servFlags args = Ret c0 → st ∈ settings →
  read st c = decided st getenv (file_members files (config_path getenv c0.2)) c0.1.
Proof. intros Hload Hflags Hst. unfold load in Hload. rewrite Hflags in Hload. exact (loaded_setting servEnv json_fields settings st getenv files c0 c Hst Hload). Qed.

Definition example_env (v : string) : string :=
  if decide (v = "KEY") then "from-env" else if decide (v = "CONFIG") then "c.json"
  else if decide (v = "STORE_INTERVAL") then "20" else "".
Definition example_files (f : string) : option string :=
  if decide (f = "c.json") then Some (jq "{'key_enc_sign': 'from-file', 'Restore': false}") else None.
Definition example_config : ConfigArgs :=
  mkConfigArgs "" "" "from-file" "localhost:8080" "debug" "/tmp/metrics-db.json" "" 20 false "" "".
Definition example_flags : state :=
  (mkConfigArgs "" "" "from-flag" "localhost:8080" "debug" "/tmp/metrics-db.json" "" 300 true "" "", "").
End ServerSources.

(** ** The agent's settings *)

Module AgentSources.
Import AgentConfig.

Definition settings : list (setting ConfigArgs) :=
  [mkSetting "address" "ADDRESS" EnvAddress (VStr ∘ ServerAddr) (FString set_ServerAddr);
   mkSetting "pprof_address" "PPROF_AGENT_ADDRESS" EnvAddress (VStr ∘ PprofAddr) (FString set_PprofAddr);
   mkSetting "report_interval" "REPORT_INTERVAL" EnvInt (VInt ∘ ReportInterval) (FInt set_ReportInterval);
   mkSetting "poll_interval" "POLL_INTERVAL" EnvInt (VInt ∘ PollInterval) (FInt set_PollInterval);
   mkSetting "key_enc_sign" "KEY" EnvString (VStr ∘ KeyEnc) (FString set_KeyEnc);
   mkSetting "rate_limit" "RATE_LIMIT" EnvInt (VInt ∘ RateLimit) (FInt set_RateLimit);
   mkSetting "crypto_key" "CRYPTO_KEY" EnvString (VStr ∘ PubKeyFile) (FString set_PubKeyFile);
   mkSetting "grpc" "GRPC" EnvTrue (VBool ∘ Grpc) (FBool set_Grpc)].

Definition path_of (c : state) : cfg_value := VStr c.2.
Definition current (st : setting ConfigArgs) (c : state) : cfg_value := read st c.1.

#[export] Instance agent_configured : Configured ConfigArgs servEnv json_fields settings.
Proof.
  split.
  - intros st Hst. unfold settings in Hst.
    each_setting Hst ltac:(idtac; split_and!; [by eexists|done|repeat constructor; done]).
  - intros st getenv c0 c1 Hst H. unfold servEnv in H. env_steps H. unfold settings in Hst.
    each_setting Hst ltac:(idtac; match goal with |- read ?s (fst ?c) = _ =>
      change (read s c.1) with (current s c); change (read s c0.1) with (current s c0); cbn [env_as in_env]; env_chain (current s) end).
  - intros getenv c0 c1 H. unfold servEnv in H. env_steps H. apply config_path_value.
    match goal with |- VStr (snd ?c) = _ => change (VStr c.2) with (path_of c) end. change (VStr c0.2) with (path_of c0). env_chain path_of.
Qed.

Lemma agent_setting_source args getenv files c c0 (st : setting ConfigArgs) :
  load args getenv files = Ret c → servFlags args = Ret c0 → st ∈ settings →
  read st c = decided st getenv (file_members files (config_path getenv c0.2)) c0.1.
Proof. intros Hload Hflags Hst. unfold load in Hload. rewrite Hflags in Hload. exact (loaded_setting servEnv json_fields settings st getenv files c0 c Hst Hload). Qed.

Definition agent_env (v : string) : string :=
  if decide (v = "GRPC") then "false" else if decide (v = "POLL_INTERVAL") then "7"
  else if decide (v = "ADDRESS") then "nocolon" else "".
Definition agent_files (f : string) : option string :=
  if decide (f = "a.json") then Some (jq "{'poll_interval': 3, 'poll_interval': null}") else None.
Definition agent_config : ConfigArgs := mkConfigArgs "h:1" "" "" "" 10 3 1 true.
End AgentSources.

(** ** Both programs *)

(** [C37] Where every setting of the two programs comes from: when the configuration loads, a setting has the
    value of the last member of its name in the JSON file, if a file is named (by CONFIG, else by the flag) and
    has one that is not null; else the value of its environment variable, if that is not empty and, for an
    address, has exactly one colon; else what the flags gave.  So the file overrides variables and flags.
    The agent's GRPC alone is read differently: the text true switches gRPC on, and nothing in the
    environment switches off what a flag has switched on. *)
Theorem setting_source (args : list string) (getenv : environment) (files : string → option string) :
  (∀ c c0 st, ServerConfig.load args getenv files = Ret c → ServerConfig.servFlags args = Ret c0 →
     st ∈ ServerSources.settings →
     read st c = decided st getenv (file_members files (config_path getenv c0.2)) c0.1) ∧
  (∀ c c0 st, AgentConfig.load args getenv files = Ret c → AgentConfig.servFlags args = Ret c0 →
     st ∈ AgentSources.settings →
     read st c = decided st getenv (file_members files (config_path getenv c0.2)) c0.1).
Proof.
  split; intros c c0 st Hload Hflags Hst;
    [by eapply ServerSources.server_setting_source|by eapply AgentSources.agent_setting_source].
Qed.

(** In the server's the file gives the key, the environment the interval, the flags the level; in the agent's
    an address without a colon and GRPC=false change nothing, and the file overrides POLL_INTERVAL. *)
Lemma setting_source_witness :
  Forall (λ st, read st ServerSources.example_config =
      decided st ServerSources.example_env (file_members ServerSources.example_files "c.json")
        ServerSources.example_flags.1) ServerSources.settings ∧
  Forall (λ st, read st AgentSources.agent_config =
      decided st AgentSources.agent_env (file_members AgentSources.agent_files "a.json")
        (AgentConfig.mkConfigArgs "h:1" "" "" "" 10 2 1 true)) AgentSources.settings.
Proof.
  split; apply Forall_forall; intros st Hst.
  - apply (proj1 (setting_source ["-k"; "from-flag"; "-l=debug"] ServerSources.example_env ServerSources.example_files)
      ServerSources.example_config ServerSources.example_flags st); [vm_compute; reflexivity|vm_compute; reflexivity|exact Hst].
  - apply (proj2 (setting_source ["-grpc"; "-a=h:1"; "-config"; "a.json"] AgentSources.agent_env AgentSources.agent_files)
      AgentSources.agent_config (AgentConfig.mkConfigArgs "h:1" "" "" "" 10 2 1 true, "a.json") st);
      [vm_compute; reflexivity|vm_compute; reflexivity|exact Hst].
Defined.
