(* ===== verification/ServerRun.v ===== *)
(** * The life of a server

    [Run] and [saveToFile] of [internal/server/server.go], with [SaveToFile] and [ReadFromFile] taken apart.  A process
    serves requests while two goroutines may save the store (the periodic one and the one that waits for the end
    of the context), the HTTP and the gRPC server run, and one goroutine shuts the HTTP server down; the errors of the
    group's goroutines are collected as [errgroup] does.  A save truncates the file, takes the read lock, and
    writes one line after the other, each at the offset of its own descriptor.  The process ends when [Run] returns,
    or dies between any two steps, and is started again.  Writing to an open file is taken to succeed. *)

From S2P Require Import Prelude Strconv Float64 GoErrors Metrics MemStorage Json MemFile GoRetry Retrier.
From S2P Require Import StoreSpec Http Handlers Codec SignWriter CryptAndSign Middleware Netip Server PgDB Config.

Import ServerConfig.
Open Scope Z_scope.

(** ** The loop of [saveToFile] *)

(** It sleeps, saves (an error is logged), and goes on unless the interval is zero. *)
Fixpoint saveToFile {S} (SaveToFile : op S (option goerror)) (fuel : nat) (duration : Z) (w : world S) :
    outcome (world S) :=
  match fuel with
  | O => NoFuel
  | Datatypes.S fuel =>
      let w := World (now w + Z.max 0 (Second * duration)) (store w) in
      let '(_, w) := SaveToFile w in
      if decide (duration = 0) then Ret w else saveToFile SaveToFile fuel duration w
  end.

(** With the interval zero, as in the final save, there is exactly one save, at once. *)
Lemma saveToFile_zero {S} (SaveToFile : op S (option goerror)) fuel w :
  (1 ≤ fuel)%nat → saveToFile SaveToFile fuel 0 w = Ret (SaveToFile w).2.
Proof.
  intros Hf. destruct fuel as [|fuel]; [lia|]. cbn [saveToFile]. rewrite Z.mul_0_r, Z.max_id, Z.add_0_r.
  replace (World (now w) (store w)) with w by by destruct w. by destruct (SaveToFile w).
Qed.

(** Otherwise it never returns. *)
Lemma saveToFile_forever {S} (SaveToFile : op S (option goerror)) fuel duration w :
  duration ≠ 0 → saveToFile SaveToFile fuel duration w = NoFuel.
Proof.
  intros Hd. revert w. induction fuel as [|fuel IH]; intros w; [done|]. cbn [saveToFile].
  destruct (SaveToFile _) as [e w']. by rewrite decide_False.
Qed.

(** ** State *)

(** Where a saving goroutine is; from the lock to the end it holds the read lock. *)
Inductive saver : Type :=
| VIdle                                        (* asleep, or waiting for the end of the context *)
| VCreated
| VWriting (off : nat) (lines : list string)   (* the offset of its descriptor, what is left to write *)
| VOver.

Inductive who : Type := Periodic | Final.
#[export] Instance who_eq_dec : EqDecision who.
Proof. solve_decision. Defined.

Inductive transport : Type := OverHTTP | OverGRPC.
#[export] Instance transport_eq_dec : EqDecision transport.
Proof. solve_decision. Defined.

(** A goroutine of the group: its error when it has returned. *)
Inductive goroutine : Type := GRunning | GReturned (err : option goerror).

(** The goroutine that waits for the end of the context and calls [srv.Shutdown]. *)
Inductive shutting : Type := ShWaiting | ShDraining | ShReturned.

Record process : Type := mkProc {
  memory : MemStorage;                 (* not used with a database *)
  periodic : saver;
  final : saver;
  entered : list (transport * store_request);   (* past the retrier's look at the context, not yet at the lock *)
  ctx_done : bool;
  group_err : option goerror;
  http : goroutine;
  grpc : goroutine;
  shut : shutting
}.

(** The file at [FileStoragePath] and the process, if there is one. *)
Record server : Type := mkServer { disk : option string; proc : option process }.
Definition first_start : server := mkServer None None.

Definition saver_of (w : who) (p : process) : saver := match w with Periodic => periodic p | Final => final p end.

Definition set_saver (w : who) (v : saver) (p : process) : process :=
  match w with
  | Periodic => mkProc (memory p) v (final p) (entered p) (ctx_done p) (group_err p) (http p) (grpc p) (shut p)
  | Final => mkProc (memory p) (periodic p) v (entered p) (ctx_done p) (group_err p) (http p) (grpc p) (shut p)
  end.
Definition set_memory (m : MemStorage) (rs : list (transport * store_request)) (p : process) : process :=
  mkProc m (periodic p) (final p) rs (ctx_done p) (group_err p) (http p) (grpc p) (shut p).
Definition cancel (p : process) : process :=
  mkProc (memory p) (periodic p) (final p) (entered p) true (group_err p) (http p) (grpc p) (shut p).
Definition set_http (g : goroutine) (p : process) : process :=
  mkProc (memory p) (periodic p) (final p) (entered p) (ctx_done p) (group_err p) g (grpc p) (shut p).
Definition set_grpc (g : goroutine) (p : process) : process :=
  mkProc (memory p) (periodic p) (final p) (entered p) (ctx_done p) (group_err p) (http p) g (shut p).
Definition set_shut (h : shutting) (p : process) : process :=
  mkProc (memory p) (periodic p) (final p) (entered p) (ctx_done p) (group_err p) (http p) (grpc p) h.

(** [errgroup]: the first error is kept and ends the group's context. *)
Definition report (err : option goerror) (p : process) : process :=
  match err with
  | None => p
  | Some e =>
      mkProc (memory p) (periodic p) (final p) (entered p) true (Some (default e (group_err p))) (http p) (grpc p) (shut p)
  end.

(** [Wait] returns when every goroutine of the group has. *)
Definition all_returned (p : process) : bool :=
  match final p, http p, grpc p, shut p with
  | VOver, GReturned _, GReturned _, ShReturned => true
  | _, _, _, _ => false
  end.

(** The end of [Run]: it returns, or ends the process with [Log.Fatal]. *)
Definition run_result (p : process) : outcome () :=
  match group_err p with
  | None => Ret ()
  | Some err => if errors_Is (Some err) (Some ErrServerClosed) then Ret () else Fatal "Failed: "
  end.

(** [ListenGrpc]: the error of [net.Listen], or what [Serve] returns; after [GracefulStop] that is nil. *)
Definition ListenGrpc (listen serve : option goerror) : option goerror :=
  match listen with Some err => Some err | None => serve end.

(** A write at an offset; a gap is filled with zero bytes. *)
Fixpoint zero_bytes (n : nat) : string := match n with O => "" | S n => String zero (zero_bytes n) end.
Definition write_at (off : nat) (s text : string) : string :=
  str_take off text +:+ zero_bytes (off - String.length text) +:+ s +:+ str_drop (off + String.length s) text.

(** ** Starting *)

(** What [Run] does with the file when it starts: an error is only logged. *)
Definition start_store (je ne : string → goerror) (restore : bool) (f : option string) : outcome MemStorage :=
  if restore then
    '(_, m) ← mem_ReadFromFile je ne "f" (match f with Some text => {[ "f" := text ]} | None => ∅ end) NewMemStorage;
    Ret m
  else Ret NewMemStorage.

(** The process when all its goroutines have been started. *)
Definition new_process (conf : ConfigArgs) (m : MemStorage) (v : saver) : process :=
  mkProc m v v [] false None GRunning (if decide (GrpcServer conf ≠ "") then GRunning else GReturned None) ShWaiting.

Section Start.
Context {E : Type} `{Postgres E} (je ne : string → goerror) (conf : ConfigArgs).

(** [sql_open] opens a database; [t] is the time. *)
Definition Run_start (ctx : context) (sql_open : string → goerror + RawDB E) (t : Z) (f : option string) :
    outcome process :=
  match Setup (Loglevel conf) with
  | None => Fatal "unrecognized level"
  | Some _ =>
      let reqRetrier := SetParams Second (30 * Second) 3 NewRetrier in
      if decide (DatabaseDsn conf ≠ "") then
        match NewPgDB sql_open (DatabaseDsn conf) None with
        | inl err => Fatal (error_text err)
        | inr db =>
            '(b, closure) ← UseRetrierPopDB reqRetrier PopulateDB;
            '(err, _, _) ← closure b ctx (World t db);
            match err with
            | Some err => Fatal (error_text err)
            | None => Ret (new_process conf NewMemStorage VOver)
            end
        end
      else m ← start_store je ne (Restore conf) f; Ret (new_process conf m VIdle)
  end.
End Start.

(** What a save writes, line by line, for one order of the maps. *)
Definition save_lines (cks gks : list string) (m : MemStorage) : list string :=
  save_line <$> ((counter_metric m <$> cks) ++ (gauge_metric m <$> gks)).

(** ** Steps *)

Inductive save_event : Type :=
| ACreate
| ACreateFails
| ALock (m : MemStorage)
| AWrite
| ADone.

Inductive event : Type :=
| EStart
| EEnter (t : transport) (r : store_request)
| EApply (i : nat) (r : store_request)
| ESave (w : who) (a : save_event)
| ESignal
| EHttp (err : goerror)
| EGrpc (err : option goerror)
| EShutdown
| EDrained
| EShutdownTimeout
| EExit (r : outcome ())
| EFatal
| ECrash.

(** What can happen while [Run] is still starting: the savers run already, and a signal may come. *)
Definition starting (e : event) : bool := match e with ESave _ _ | ESignal => true | _ => false end.

(** A saver after a save: the final one returns, the periodic one goes on unless its interval is zero. *)
Definition after_save (conf : ConfigArgs) (w : who) : saver :=
  match w with
  | Final => VOver
  | Periodic => if decide (StoreInterval conf = 0) then VOver else VIdle
  end.

Definition is_writing (v : saver) : bool := match v with VWriting _ _ => true | _ => false end.

(** The requests of one transport on their way; graceful shutdown waits for them. *)
Definition served_by (t : transport) (p : process) : list (transport * store_request) :=
  filter (λ x, x.1 = t) (entered p).

(** May a saver begin?  The final one waits for the end of the context. *)
Definition may_save (w : who) (p : process) : bool := match w with Periodic => true | Final => ctx_done p end.

Section Steps.
Context {E : Type} `{Postgres E} (je ne : string → goerror) (conf : ConfigArgs).

(** The steps of the process, with the file before and after. *)
Inductive pstep : event → option string * process → option string * process → Prop :=
(* requests: the retrier refuses them when the context has ended *)
| step_enter f p t r :
    ctx_done p = false → (t = OverGRPC → grpc p = GRunning) →
    pstep (EEnter t r) (f, p) (f, set_memory (memory p) (entered p ++ [(t, r)]) p)
| step_apply f p i t r :
    entered p !! i = Some (t, r) → is_writing (periodic p) = false → is_writing (final p) = false →
    pstep (EApply i r) (f, p) (f, set_memory (serve (memory p) r) (delete i (entered p)) p)
(* saving *)
| step_create f p w :
    saver_of w p = VIdle → may_save w p = true →
    pstep (ESave w ACreate) (f, p) (Some "", set_saver w VCreated p)
| step_create_fails f p w :
    saver_of w p = VIdle → may_save w p = true →
    pstep (ESave w ACreateFails) (f, p) (f, set_saver w (after_save conf w) p)
| step_lock f p w cks gks :
    saver_of w p = VCreated → cks ≡ₚ keys (counter (memory p)) → gks ≡ₚ keys (gauge (memory p)) →
    pstep (ESave w (ALock (memory p))) (f, p) (f, set_saver w (VWriting 0 (save_lines cks gks (memory p))) p)
| step_write text p w off line lines :
    saver_of w p = VWriting off (line :: lines) →
    pstep (ESave w AWrite) (Some text, p)
      (Some (write_at off line text), set_saver w (VWriting (off + String.length line) lines) p)
| step_done f p w off :
    saver_of w p = VWriting off [] → pstep (ESave w ADone) (f, p) (f, set_saver w (after_save conf w) p)
(* the context, the servers and the group *)
| step_signal f p : pstep ESignal (f, p) (f, cancel p)
| step_http f p err :
    http p = GRunning → (err = ErrServerClosed → shut p ≠ ShWaiting) →
    pstep (EHttp err) (f, p) (f, report (Some err) (set_http (GReturned (Some err)) p))
| step_grpc f p listen serve err :
    grpc p = GRunning → err = ListenGrpc listen serve → (err = None → ctx_done p = true ∧ served_by OverGRPC p = []) →
    pstep (EGrpc err) (f, p) (f, report err (set_grpc (GReturned err) p))
| step_shutdown f p :
    shut p = ShWaiting → ctx_done p = true → pstep EShutdown (f, p) (f, set_shut ShDraining p)
| step_drained f p :
    shut p = ShDraining → served_by OverHTTP p = [] → pstep EDrained (f, p) (f, set_shut ShReturned p)
| step_timeout f p :
    shut p = ShDraining → pstep EShutdownTimeout (f, p) (f, report (Some DeadlineExceeded) (set_shut ShReturned p)).

(** The machine: a process is started, makes its steps, and ends.  If the subnets of its settings do not parse, [Run]
    ends it with [log.Fatal], but only after it has started the savers. *)
Inductive step : event → server → server → Prop :=
| step_start ctx sql_open t f p :
    Run_start je ne conf ctx sql_open t f = Ret p → step EStart (mkServer f None) (mkServer f (Some p))
| step_process e f p f' p' :
    is_Some (parseSubnetPrefixes (TrustedSubnets conf)) ∨ starting e = true →
    pstep e (f, p) (f', p') → step e (mkServer f (Some p)) (mkServer f' (Some p'))
| step_exit f p :
    all_returned p = true → step (EExit (run_result p)) (mkServer f (Some p)) (mkServer f None)
| step_fatal f p :
    parseSubnetPrefixes (TrustedSubnets conf) = None → step EFatal (mkServer f (Some p)) (mkServer f None)
| step_crash f p : step ECrash (mkServer f (Some p)) (mkServer f None).

Inductive run : list event → server → Prop :=
| run_first : run [] first_start
| run_next es e s s' : run es s → step e s s' → run (es ++ [e]) s'.
End Steps.

(** ** What a sequence of events says about the file *)

(** The store as it was when the last save took the lock, and whether that save is complete and no other has
    begun. *)
Definition save_step (o : option (MemStorage * bool)) (e : event) : option (MemStorage * bool) :=
  match e, o with
  | ESave _ (ALock m), _ => Some (m, false)
  | ESave _ ADone, Some (m, _) => Some (m, true)
  | ESave _ ACreate, Some (m, _) => Some (m, false)
  | _, _ => o
  end.
Definition last_save (es : list event) : option (MemStorage * bool) := foldl save_step None es.

(** Which saver is in the middle of a save; nothing when two were at some moment. *)
Definition busy_step (o : option (option who)) (e : event) : option (option who) :=
  b ← o;
  match e with
  | ESave w ACreate => match b with None => Some (Some w) | Some _ => None end
  | ESave _ ADone | EStart | EExit _ | EFatal | ECrash => Some None
  | _ => Some b
  end.
Definition busy (es : list event) : option (option who) := foldl busy_step (Some None) es.

(** No two saves overlap. *)
Definition exclusive (es : list event) : Prop := is_Some (busy es).
#[export] Instance exclusive_dec es : Decision (exclusive es).
Proof. unfold exclusive. apply _. Defined.

Definition in_save (v : saver) : bool := match v with VCreated | VWriting _ _ => true | _ => false end.

(** The savers are where [busy] says. *)
Definition savers_ok (b : option who) (o : option process) : Prop :=
  match o with
  | None => b = None
  | Some p => ∀ w, in_save (saver_of w p) = bool_decide (b = Some w)
  end.

(** The file holds a beginning of the lines of the last save, all of them when it is complete. *)
Definition file_ok (f : option string) (v : option saver) (o : option (MemStorage * bool)) : Prop :=
  (v = Some VCreated → f = Some "") ∧
  match o with
  | None => (f = None ∨ f = Some "") ∧ match v with Some (VWriting _ _) => False | _ => True end
  | Some (m, complete) =>
      ∃ cks gks n, cks ≡ₚ keys (counter m) ∧ gks ≡ₚ keys (gauge m) ∧
        f = Some (concat_str (take n (save_lines cks gks m))) ∧
        (complete = true → (length (save_lines cks gks m) ≤ n)%nat) ∧
        match v with
        | Some (VWriting off lines) =>
            complete = false ∧ lines = drop n (save_lines cks gks m) ∧
            off = String.length (concat_str (take n (save_lines cks gks m)))
        | _ => True
        end
  end.

(** The saver that is in the middle of a save. *)
Definition current (b : option who) (o : option process) : option saver :=
  w ← b; p ← o; Some (saver_of w p).

Definition disk_ok (s : server) (b : option who) (o : option (MemStorage * bool)) : Prop :=
  savers_ok b (proc s) ∧ file_ok (disk s) (current b (proc s)) o.

Lemma save_lines_text cks gks m : concat_str (save_lines cks gks m) = saved_text cks gks m.
Proof. unfold save_lines, saved_text. by rewrite fmap_app, concat_str_app. Qed.

Lemma concat_str_snoc l s : concat_str (l ++ [s]) = concat_str l +:+ s.
Proof. rewrite concat_str_app. simpl. by rewrite str_app_nil_r. Qed.

(** A write at the end of the file appends. *)
Lemma write_at_end s text : write_at (String.length text) s text = text +:+ s.
Proof.
  unfold write_at. rewrite Nat.sub_diag. cbn [zero_bytes]. rewrite str_app_nil_l.
  rewrite str_take_all by lia.
  assert (str_drop (String.length text + String.length s) text = "") as ->.
  { apply length_0_iff. rewrite length_str_drop. lia. }
  by rewrite str_app_nil_r.
Qed.

Lemma saver_of_report w err p : saver_of w (report err p) = saver_of w p.
Proof. by destruct err, w. Qed.

Lemma saver_of_set w v p w' :
  saver_of w' (set_saver w v p) = if decide (w' = w) then v else saver_of w' p.
Proof. by destruct w, w'. Qed.

Lemma after_save_idle conf w : in_save (after_save conf w) = false.
Proof. destruct w; simpl; [|done]. by case_decide. Qed.

Section File.
Context {E : Type} `{Postgres E} (je ne : string → goerror) (conf : ConfigArgs).

(** A step of one saver, once it is known to be the only one. *)
Lemma savers_ok_set b w v p b' :
  savers_ok b (Some p) → (b = None ∨ b = Some w) → b' = (if in_save v then Some w else None) →
  savers_ok b' (Some (set_saver w v p)).
Proof.
  intros Hs Hb -> w'. rewrite saver_of_set. specialize (Hs w'). destruct (decide (w' = w)) as [->|Hw].
  - destruct (in_save v); [by rewrite bool_decide_eq_true_2|by rewrite bool_decide_eq_false_2].
  - rewrite Hs. destruct Hb as [->| ->]; destruct (in_save v); rewrite !bool_decide_eq_false_2; congruence.
Qed.

Lemma current_set w v p : current (Some w) (Some (set_saver w v p)) = Some v.
Proof. cbn. rewrite saver_of_set. by rewrite decide_True. Qed.

Lemma busy_is b w p : savers_ok b (Some p) → in_save (saver_of w p) = true → b = Some w.
Proof. intros Hs Hw. specialize (Hs w). rewrite Hw in Hs. symmetry in Hs. by apply bool_decide_eq_true in Hs. Qed.

Lemma write_file f off line lines m complete text :
  file_ok (Some text) (Some (VWriting off (line :: lines))) (Some (m, complete)) →
  f = Some (write_at off line text) →
  file_ok f (Some (VWriting (off + String.length line) lines)) (Some (m, complete)).
Proof.
  intros [_ (cks & gks & n & Hc & Hg & Hf & Hn & -> & Hl & ->)] ->. split; [done|].
  simplify_eq. symmetry in Hl.
  assert (save_lines cks gks m !! n = Some line) as Hx by (by rewrite <- (Nat.add_0_r n), <- lookup_drop, Hl).
  exists cks, gks, (S n). rewrite (take_S_r _ _ _ Hx), concat_str_snoc, write_at_end, length_str_app.
  rewrite (drop_S _ _ _ Hx) in Hl. simplify_eq. done.
Qed.

(** A step that moves no saver. *)
Lemma disk_ok_same f p p' b o :
  (∀ w, saver_of w p' = saver_of w p) → savers_ok b (Some p) ∧ file_ok f (current b (Some p)) o →
  savers_ok b (Some p') ∧ file_ok f (current b (Some p')) o.
Proof.
  intros Hw [Hs Hf]. split; [intros w; rewrite Hw; apply Hs|]. destruct b as [w|]; [|exact Hf]. cbn. by rewrite Hw.
Qed.

Lemma pstep_disk e f p f' p' b b' o :
  pstep conf e (f, p) (f', p') → busy_step (Some b) e = Some b' →
  disk_ok (mkServer f (Some p)) b o → disk_ok (mkServer f' (Some p')) b' (save_step o e).
Proof.
  unfold disk_ok. cbn [disk proc]. intros Hstep Hb [Hs Hf].
  remember (f, p) as x eqn:Hx. remember (f', p') as y eqn:Hy.
  destruct Hstep as [f0 p0 t r Hd Hg|f0 p0 i t r He Hp Hq|f0 p0 w Hv Hm|f0 p0 w Hv Hm|f0 p0 w cks gks Hv Hc Hg
    |text p0 w off line lines Hv|f0 p0 w off Hv|f0 p0|f0 p0 err Hr Hc|f0 p0 listen sv err Hr Herr Hc|f0 p0 Hh Hd|f0 p0 Hh Hn|f0 p0 Hh];
    injection Hx as <- <-; injection Hy as <- <-; cbn [busy_step mbind option_bind] in Hb;
    try (injection Hb as <-; apply (disk_ok_same _ p0); [by intros w; rewrite ?saver_of_report; destruct w|by split]).
  - destruct b; [done|]. injection Hb as <-. split; [by eapply savers_ok_set; [|by left|]|].
    rewrite current_set. split; [done|]. destruct Hf as [_ Hf]. destruct o as [[m c]|]; cbn [save_step]; [|by split; [right|]].
    destruct Hf as (cks & gks & n & ? & ? & _). by exists cks, gks, 0%nat.
  - injection Hb as <-. assert (b ≠ Some w) as Hbw.
    { intros ->. specialize (Hs w). rewrite Hv, bool_decide_eq_true_2 in Hs by done. done. }
    split.
    + intros w'. rewrite saver_of_set. destruct (decide (w' = w)) as [->|Hw]; [|apply Hs].
      rewrite after_save_idle. by rewrite bool_decide_eq_false_2.
    + destruct b as [w'|]; [|exact Hf]. cbn in *. rewrite saver_of_set, decide_False by congruence. exact Hf.
  - assert (b = Some w) as -> by (eapply busy_is; [done|by rewrite Hv]). injection Hb as <-.
    split; [by eapply savers_ok_set; [done|by right|]|]. rewrite current_set. split; [done|].
    destruct Hf as [Hf _]. cbn in Hf. rewrite Hv in Hf. exists cks, gks, 0%nat. by rewrite Hf.
  - assert (b = Some w) as -> by (eapply busy_is; [done|by rewrite Hv]). injection Hb as <-.
    split; [by eapply savers_ok_set; [done|by right|]|]. rewrite current_set. cbn in Hf. rewrite Hv in Hf.
    destruct o as [[m c]|]; cbn [save_step]; [by eapply write_file|]. by destruct Hf as [_ [_ []]].
  - assert (b = Some w) as -> by (eapply busy_is; [done|by rewrite Hv]). injection Hb as <-.
    split; [eapply savers_ok_set; [done|by right|by rewrite after_save_idle]|]. split; [done|].
    destruct Hf as [_ Hf]. cbn in Hf. rewrite Hv in Hf. destruct o as [[m c]|]; cbn [save_step]; [|by destruct Hf].
    destruct Hf as (cks & gks & n & ? & ? & ? & _ & _ & Hl & _). exists cks, gks, n. split_and!; try done.
    intros _. apply (f_equal length) in Hl. rewrite length_drop in Hl. simpl in Hl. lia.
Qed.
End File.

Section Runs.
Context {E : Type} `{Postgres E} (je ne : string → goerror) (conf : ConfigArgs).

Lemma Run_start_idle ctx sql_open t f p w :
  Run_start je ne conf ctx sql_open t f = Ret p → in_save (saver_of w p) = false.
Proof.
  unfold Run_start. destruct (Setup _); [|done]. case_decide.
  - destruct (NewPgDB sql_open (DatabaseDsn conf) None) as [|db]; [done|]. intros ([b closure] & _ & H1)%outcome_bind_Ret.
    apply outcome_bind_Ret in H1 as ([[err b'] w'] & _ & H1). destruct err; [done|]. injection H1 as <-. by destruct w.
  - intros (m & _ & [= <-])%outcome_bind_Ret. by destruct w.
Qed.

(** The end of a process leaves the file as it is. *)
Lemma disk_ok_end f v o :
  match o with
  | None => (f = None ∨ f = Some "") ∧ match v with Some (VWriting _ _) => False | _ => True end
  | Some (m, complete) =>
      ∃ cks gks n, cks ≡ₚ keys (counter m) ∧ gks ≡ₚ keys (gauge m) ∧
        f = Some (concat_str (take n (save_lines cks gks m))) ∧
        (complete = true → (length (save_lines cks gks m) ≤ n)%nat) ∧
        match v with
        | Some (VWriting off lines) =>
            complete = false ∧ lines = drop n (save_lines cks gks m) ∧
            off = String.length (concat_str (take n (save_lines cks gks m)))
        | _ => True
        end
  end → disk_ok (mkServer f None) None o.
Proof.
  intros Hf. split; [done|]. split; [done|]. cbn. destruct o as [[m c]|]; [|by destruct Hf].
  destruct Hf as (cks & gks & n & ? & ? & ? & ? & _). by exists cks, gks, n.
Qed.

Lemma step_disk e s s' b b' o :
  step je ne conf e s s' → busy_step (Some b) e = Some b' → disk_ok s b o → disk_ok s' b' (save_step o e).
Proof.
  destruct 1 as [ctx sql_open t f p Hp|e f p f' p' Hsub Hstep|f p Hr|f p Hr|f p]; [| |intros [= <-] [_ [_ Hf]]..].
  - intros [= <-] [_ Hf]. split; [|by destruct b; destruct Hf].
    intros w. by rewrite (Run_start_idle _ _ _ _ _ w Hp).
  - by eapply pstep_disk.
  - by apply disk_ok_end in Hf.
  - by apply disk_ok_end in Hf.
  - by apply disk_ok_end in Hf.
Qed.

Lemma busy_snoc es e : busy (es ++ [e]) = busy_step (busy es) e.
Proof. unfold busy. by rewrite foldl_app. Qed.

Lemma last_save_snoc es e : last_save (es ++ [e]) = save_step (last_save es) e.
Proof. unfold last_save. by rewrite foldl_app. Qed.

Lemma run_disk es s b : run je ne conf es s → busy es = Some b → disk_ok s b (last_save es).
Proof.
  intros Hrun. revert b. induction Hrun as [|es e s s' Hrun IH Hstep]; intros b.
  - intros [= <-]. split; [done|]. split; [done|]. split; [by left|done].
  - rewrite busy_snoc, last_save_snoc. destruct (busy es) as [b0|]; [|done].
    intros Hb. eapply step_disk; [exact Hstep|exact Hb|]. by apply IH.
Qed.

(** ** What the process holds *)

(** Every value of the store, of the requests on their way and of the last save has its Go type. *)
Definition values_ok (s : server) (o : option (MemStorage * bool)) : Prop :=
  (∀ p, proc s = Some p → mem_ok (memory p) ∧ Forall (λ x, request_ok x.2) (entered p)) ∧
  (∀ m c, o = Some (m, c) → mem_ok m).

Definition event_ok (e : event) : Prop := match e with EEnter _ r => request_ok r | _ => True end.

Lemma start_store_ok restore f m : start_store je ne restore f = Ret m → mem_ok m.
Proof.
  unfold start_store. destruct restore; [|by intros [= <-]]. intros ([err m'] & Hr & [= <-])%outcome_bind_Ret.
  unfold mem_ReadFromFile in Hr. destruct (_ !! _); [|by injection Hr as _ <-]. by eapply read_lines_ok in Hr.
Qed.

Lemma memory_report err p : memory (report err p) = memory p ∧ entered (report err p) = entered p.
Proof. by destruct err. Qed.

Lemma set_saver_memory w v p : memory (set_saver w v p) = memory p ∧ entered (set_saver w v p) = entered p.
Proof. by destruct w. Qed.

Lemma pstep_memory e f p f' p' :
  pstep conf e (f, p) (f', p') →
  match e with
  | EEnter t r => memory p' = memory p ∧ entered p' = entered p ++ [(t, r)]
  | EApply i r => memory p' = serve (memory p) r ∧ entered p' = delete i (entered p) ∧ ∃ t, entered p !! i = Some (t, r)
  | ESave _ (ALock m) => m = memory p ∧ memory p' = memory p ∧ entered p' = entered p
  | _ => memory p' = memory p ∧ entered p' = entered p
  end.
Proof.
  inversion 1; subst; rewrite ?(proj1 (memory_report _ _)), ?(proj2 (memory_report _ _)),
    ?(proj1 (set_saver_memory _ _ _)), ?(proj2 (set_saver_memory _ _ _)); try done. by eauto.
Qed.

Lemma step_values e s s' o :
  step je ne conf e s s' → event_ok e → values_ok s o → values_ok s' (save_step o e).
Proof.
  destruct 1 as [ctx sql_open t f p Hp|e f p f' p' Hsub Hstep|f p Hr|f p Hr|f p]; intros He [Hs Ho].
  - split; [|done]. intros p' [= <-]. cbn. unfold Run_start in Hp. destruct (Setup _); [|done]. case_decide.
    + destruct (NewPgDB sql_open (DatabaseDsn conf) None) as [|db]; [done|]. apply outcome_bind_Ret in Hp as ([b closure] & _ & H1).
      apply outcome_bind_Ret in H1 as ([[err b'] w'] & _ & H1). destruct err; [done|]. by injection H1 as <-.
    + apply outcome_bind_Ret in Hp as (m & Hm & [= <-]). split; [|done]. cbn. by eapply start_store_ok.
  - apply pstep_memory in Hstep. destruct (Hs p eq_refl) as [Hm Hl].
    assert (memory p' = memory p → entered p' = entered p → (∀ m c, save_step o e = Some (m, c) → mem_ok m) →
            values_ok (mkServer f' (Some p')) (save_step o e)) as Hsame.
    { intros Hm' He' Ho'. split; [|done]. intros q [= <-]. by rewrite Hm', He'. }
    destruct e as [|t r|i r|w a| | | | | | | | |]; try (destruct Hstep; by apply Hsame).
    + split; [|done]. intros q [= <-]. destruct Hstep as [-> ->]. split; [done|].
      apply Forall_app_2; [done|]. by rewrite Forall_singleton.
    + destruct Hstep as (Hm' & He' & t & Hi). split; [|done]. intros q [= <-]. rewrite Hm', He'.
      rewrite Forall_lookup in Hl. split; [by apply serve_ok; [apply (Hl _ _ Hi)|]|].
      rewrite <- Forall_lookup in Hl. by apply Forall_delete.
    + destruct a; destruct_and! Hstep; apply Hsame; try done; cbn [save_step].
      * intros m c. destruct o as [[m0 c0]|]; [|done]. intros [= <- _]. by eapply Ho.
      * by intros ? ? [= <- _]; subst.
      * intros m c. destruct o as [[m0 c0]|]; [|done]. intros [= <- _]. by eapply Ho.
  - split; [done|exact Ho].
  - split; [done|exact Ho].
  - split; [done|exact Ho].
Qed.

Lemma run_values es s :
  run je ne conf es s → Forall event_ok es → values_ok s (last_save es).
Proof.
  induction 1 as [|es e s s' Hrun IH Hstep]; [done|]. rewrite last_save_snoc.
  intros [Hes He]%Forall_app. rewrite Forall_singleton in He. exact (step_values _ _ _ _ Hstep He (IH Hes)).
Qed.
End Runs.

(** ** Reading it back *)

(** What a start may find after a save of [m]: in any case nothing but values of [m] under the names it had
    (names that are not valid UTF-8 come back altered); after a complete save, if no line was too long to be read,
    everything but the gauges that are NaN or infinite. *)
Definition part_of (m' m : MemStorage) : Prop :=
  counter m' ⊆ counter m ∧ gauge m' ⊆ finite_gauges m.

Definition found (m : MemStorage) (complete : bool) (m' : MemStorage) : Prop :=
  read_partly m NewMemStorage m' ∧ (valid_names m → part_of m' m) ∧
  (complete = true → lines_fit m →
     read_as m NewMemStorage m' ∧ (valid_names m → m' = mkMem (finite_gauges m) (counter m))).

Lemma file_lookup (text : string) : ({[ "f" := text ]} : filesystem) !! "f" = Some text.
Proof. apply lookup_singleton_eq. Qed.

(** Reading a file that holds the first [n] lines of a save. *)
Lemma start_from_part je ne m cks gks n complete :
  mem_ok m → cks ≡ₚ keys (counter m) → gks ≡ₚ keys (gauge m) →
  (complete = true → (length (save_lines cks gks m) ≤ n)%nat) →
  ∃ m', start_store je ne true (Some (concat_str (take n (save_lines cks gks m)))) = Ret m' ∧ found m complete m'.
Proof.
  intros Hok Hc Hg Hn. unfold start_store, mem_ReadFromFile. rewrite file_lookup.
  change (save_lines cks gks m) with (save_line <$> saved_metrics m cks gks) in *.
  pose proof (saved_metrics_ok m cks gks Hc Hg Hok) as Hms. pose proof (saved_written m cks gks Hc Hg) as Hw.
  rewrite <- fmap_take, read_saved by by apply Forall_take.
  assert (Forall (written_by m) (storable (take n (saved_metrics m cks gks)))) as Hwn.
  { rewrite <- (take_drop n (saved_metrics m cks gks)), storable_app in Hw. by apply Forall_app in Hw as [? _]. }
  destruct (load_all_partly m NewMemStorage _ NewMemStorage Hwn) as (e & m' & Hl & Hp & _).
  { split; intros k; by right. }
  exists m'. rewrite Hl. split; [done|]. split; [done|]. split.
  - intros Hv. split; [apply (some_entries_valid _ _ (proj1 Hv) (proj1 Hp))|].
    apply (some_entries_valid _ _ (finite_valid m Hv) (proj2 Hp)).
  - intros Hcomp Hfit. specialize (Hn Hcomp). rewrite length_fmap in Hn. rewrite take_ge in Hl by done.
    destruct (load_saved m cks gks Hc Hg NewMemStorage) as (e' & m2 & Hl' & _ & _ & Hall).
    rewrite Hl in Hl'. injection Hl' as _ <-. split; [by apply Hall|]. intros Hv.
    rewrite (read_as_valid m NewMemStorage m' Hv (Hall Hfit)). unfold restored. cbn [gauge counter NewMemStorage].
    by rewrite !(right_id_L ∅ (∪)).
Qed.

(** The settings of a server that keeps its metrics in memory and restores them. *)
Definition restoring (conf : ConfigArgs) : Prop :=
  DatabaseDsn conf = "" ∧ Restore conf = true ∧ is_Some (Setup (Loglevel conf)).
#[export] Instance restoring_dec conf : Decision (restoring conf).
Proof. unfold restoring. apply _. Defined.

Section Restart.
Context {E : Type} `{Postgres E} (je ne : string → goerror) (conf : ConfigArgs).

Lemma Run_start_restoring ctx sql_open t f m :
  restoring conf → start_store je ne true f = Ret m →
  Run_start je ne conf ctx sql_open t f = Ret (new_process conf m VIdle).
Proof.
  intros (Hd & Hr & [l Hl]) Hm. unfold Run_start. rewrite Hl, Hd, Hr. rewrite decide_False by (intros H1; by apply H1).
  by rewrite Hm.
Qed.

(** What a start makes of the file that a run has left. *)
Lemma restart_file es f b :
  run je ne conf es (mkServer f None) → busy es = Some b → Forall event_ok es →
  ∃ m', start_store je ne true f = Ret m' ∧
    match last_save es with None => m' = NewMemStorage | Some (m, complete) => found m complete m' end.
Proof.
  intros Hrun Hb He. destruct (run_values je ne conf _ _ Hrun He) as [_ Hok].
  destruct (run_disk je ne conf _ _ _ Hrun Hb) as [_ [_ Hf]]. cbn [disk] in Hf.
  destruct (last_save es) as [[m complete]|].
  - destruct Hf as (cks & gks & n & Hc & Hg & -> & Hn & _).
    by apply start_from_part; [apply (Hok _ _ eq_refl)|..].
  - destruct Hf as [[->| ->] _]; by exists NewMemStorage.
Qed.
End Restart.

(** [C28] However the process ends, in the middle of a save or not, it can be started again and reading the file
    never panics, provided that no two saves have overlapped ([exclusive]; without that it is false, see
    [clean_exit_can_lose_metrics]).  If there was no save the new store is empty.  Otherwise it holds nothing
    but values that the store had when the last save took the lock, under their names as JSON
    writes them.  If that save was complete and no other had begun, and no line of it is too long for the scanner
    ([lines_fit]), all of them are there, except for gauges that are NaN or infinite, which cannot be
    saved: the store is exactly the saved one without those when its names are valid UTF-8 ([valid_names]).
    But a save that is cut short may have lost everything: the file is truncated before it is written. *)
Theorem restart_after_crash {E : Type} `{Postgres E} (je ne : string → goerror) (conf : ConfigArgs)
    (es : list event) (f : option string)
    (Hrun : run je ne conf es (mkServer f None)) (Hone : exclusive es) (Hconf : restoring conf)
    (Hev : Forall event_ok es) (sql_open : string → goerror + RawDB E) :
  ∃ m', step je ne conf EStart (mkServer f None) (mkServer f (Some (new_process conf m' VIdle))) ∧
    match last_save es with
    | None => m' = NewMemStorage
    | Some (m, complete) =>
        read_partly m NewMemStorage m' ∧ (valid_names m → part_of m' m) ∧
        (complete = true → lines_fit m →
           read_as m NewMemStorage m' ∧ (valid_names m → m' = mkMem (finite_gauges m) (counter m)))
    end.
Proof.
  destruct Hone as [b Hb]. destruct (restart_file je ne conf es f b Hrun Hb Hev) as (m' & Hs & Hm).
  exists m'. split; [|done]. apply (step_start je ne conf Background sql_open 0). by apply Run_start_restoring.
Qed.

(** ** Examples *)

Definition example_conf : ConfigArgs :=
  mkConfigArgs "" "" "" "localhost:8080" "info" "/tmp/metrics-db.json" "" 300 true "" "".

(** Nothing to say about a database that is not used. *)
#[export] Instance no_database : Postgres () :=
  {| roundtrip := λ _ w, (TripOk, w); varchar_ok := λ _ _, true; order_by_id := λ l, l |}.
Definition no_db (dsn : string) : goerror + RawDB () := inl (ErrMsg dsn).

Definition write5 : store_request := ReqWrite CounterType "c" (ICounter 5).
Definition store5 : MemStorage := mkMem ∅ {[ "c" := 5 ]}.

(** A counter is written and saved; the next save is cut short after it truncated the file. *)
Definition saved_once : list event :=
  [EStart; EEnter OverHTTP write5; EApply 0 write5;
   ESave Periodic ACreate; ESave Periodic (ALock store5); ESave Periodic AWrite; ESave Periodic ADone].
Definition crash_events : list event := saved_once ++ [ESave Periodic ACreate; ECrash].

Lemma saved_once_ok : Forall event_ok saved_once.
Proof. repeat (apply Forall_cons_2; [by cbn; unfold is_int64, min_int64, max_int64|]). constructor. Qed.

Section Example.
Context (je ne : string → goerror).

(** A step of the process in a run. *)
Lemma run_process es e f p f' p' :
  run (E := ()) je ne example_conf es (mkServer f (Some p)) → pstep example_conf e (f, p) (f', p') →
  run (E := ()) je ne example_conf (es ++ [e]) (mkServer f' (Some p')).
Proof. intros Hr Hs. eapply run_next; [exact Hr|]. apply step_process; [|exact Hs]. left. by eexists. Qed.

Definition saved5 : option string := Some (concat_str (save_lines ["c"] [] store5)).

Lemma run_saved_once :
  run (E := ()) je ne example_conf saved_once (mkServer saved5 (Some (set_memory store5 [] (new_process example_conf NewMemStorage VIdle)))).
Proof.
  pose proof (run_first (E := ()) je ne example_conf) as H.
  eapply run_next in H; [|by apply (step_start je ne example_conf Background no_db 0 None)].
  eapply run_process in H; [|by apply (step_enter _ _ _ OverHTTP write5)].
  eapply run_process in H; [|by apply (step_apply _ _ _ 0 OverHTTP)].
  eapply run_process in H; [|by apply (step_create _ _ _ Periodic)].
  eapply run_process in H; [|by apply (step_lock _ _ _ Periodic ["c"] [])].
  eapply run_process in H; [|by eapply (step_write _ _ _ Periodic)].
  eapply run_process in H; [|by eapply (step_done _ _ _ Periodic)].
  exact H.
Qed.

Lemma crash_run : run (E := ()) je ne example_conf crash_events (mkServer (Some "") None).
Proof.
  pose proof run_saved_once as H.
  eapply run_process in H; [|by apply (step_create _ _ _ Periodic)].
  eapply run_next in H; [|apply step_crash]. exact H.
Qed.
End Example.

(** After the crash the file is empty; had the process died before the second save, everything would have been
    found. *)
Lemma restart_after_crash_witness :
  let je := λ s, ErrMsg s in
  (last_save crash_events = Some (store5, false) ∧
   ∃ m', step (E := ()) je je example_conf EStart (mkServer (Some "") None)
           (mkServer (Some "") (Some (new_process example_conf m' VIdle))) ∧ part_of m' store5) ∧
  (last_save (saved_once ++ [ECrash]) = Some (store5, true) ∧
   step (E := ()) je je example_conf EStart (mkServer saved5 None)
     (mkServer saved5 (Some (new_process example_conf (mkMem (finite_gauges store5) (counter store5)) VIdle)))).
Proof.
  cbv zeta.
  assert (valid_names store5) as Hv by (apply (bool_decide_unpack _); vm_compute; exact I).
  split; (split; [reflexivity|]).
  - destruct (restart_after_crash (E := ()) (λ s, ErrMsg s) (λ s, ErrMsg s) example_conf crash_events (Some "")) as (m' & Hs & Hp).
    + apply crash_run.
    + apply (bool_decide_unpack _). vm_compute. exact I.
    + apply (bool_decide_unpack _). vm_compute. exact I.
    + unfold crash_events. apply Forall_app_2; [exact saved_once_ok|by repeat constructor].
    + exact no_db.
    + exists m'. split; [exact Hs|]. apply (proj1 (proj2 Hp)), Hv.
  - destruct (restart_after_crash (E := ()) (λ s, ErrMsg s) (λ s, ErrMsg s) example_conf (saved_once ++ [ECrash]) saved5) as (m' & Hs & Hp).
    + eapply run_next; [apply run_saved_once|apply step_crash].
    + apply (bool_decide_unpack _). vm_compute. exact I.
    + apply (bool_decide_unpack _). vm_compute. exact I.
    + apply Forall_app_2; [exact saved_once_ok|by repeat constructor].
    + exact no_db.
    + destruct Hp as (_ & _ & Hall). destruct (Hall eq_refl) as [_ Heq].
      * apply (bool_decide_unpack _). vm_compute. exact I.
      * rewrite <- (Heq Hv). exact Hs.
Defined.
