(* ===== verification/ServerExit.v ===== *)
(** * The end of [Run]

    What [Run] of [internal/server/server.go] does from the moment its context ends, on the machine of
    [ServerRun.v]: that it returns, with which result, and what the file holds then.  [errgroup] keeps the
    first error; [http.ErrServerClosed], which every HTTP server returns in the end, counts as success. *)

From S2P Require Import Prelude Strconv Float64 GoErrors Metrics MemStorage Json MemFile GoRetry Retrier.
From S2P Require Import StoreSpec Http Handlers Codec SignWriter CryptAndSign Middleware Netip Server PgDB Config ServerRun.

Import ServerConfig.
Open Scope Z_scope.

(** ** What a sequence of events says about the process that runs *)

(** The first error a goroutine of the group returned. *)
Definition first_error_step (o : option goerror) (e : event) : option goerror :=
  match e with
  | EStart => None
  | EHttp err | EGrpc (Some err) => Some (default err o)
  | EShutdownTimeout => Some (default DeadlineExceeded o)
  | _ => o
  end.
Definition first_error (es : list event) : option goerror := foldl first_error_step None es.

(** The requests applied since a save last took the lock; nothing when none has since the start. *)
Definition since_step (o : option (list store_request)) (e : event) : option (list store_request) :=
  match e with
  | EStart => None
  | ESave _ (ALock _) => Some []
  | EApply _ r => (λ rs, rs ++ [r]) <$> o
  | _ => o
  end.
Definition since_lock (es : list event) : option (list store_request) := foldl since_step None es.

Lemma first_error_snoc es e : first_error (es ++ [e]) = first_error_step (first_error es) e.
Proof. unfold first_error. by rewrite foldl_app. Qed.

Lemma since_lock_snoc es e : since_lock (es ++ [e]) = since_step (since_lock es) e.
Proof. unfold since_lock. by rewrite foldl_app. Qed.

(** ** Invariants of a process *)

(** The group's error is the first one; an error of the group has ended the context; the HTTP server
    returns nothing but errors. *)
Definition group_ok (p : process) (o : option goerror) : Prop :=
  group_err p = o ∧ (is_Some o → ctx_done p = true) ∧ (∀ err, http p = GReturned err → is_Some o).

Section Invariants.
Context {E : Type} `{Postgres E} (je ne : string → goerror) (conf : ConfigArgs).

Lemma Run_start_new ctx sql_open t f p :
  Run_start je ne conf ctx sql_open t f = Ret p →
  ∃ m v, p = new_process conf m v ∧ (v = VIdle ∨ (v = VOver ∧ DatabaseDsn conf ≠ "")).
Proof.
  unfold Run_start. destruct (Setup _); [|done]. case_decide.
  - destruct (NewPgDB sql_open (DatabaseDsn conf) None) as [|db]; [done|]. intros ([b closure] & _ & H1)%outcome_bind_Ret.
    apply outcome_bind_Ret in H1 as ([[err b'] w'] & _ & H1). destruct err; [done|]. injection H1 as <-. eauto 10.
  - intros (m & _ & [= <-])%outcome_bind_Ret. eauto 10.
Qed.

Lemma set_saver_group w v p :
  group_err (set_saver w v p) = group_err p ∧ ctx_done (set_saver w v p) = ctx_done p ∧
  http (set_saver w v p) = http p ∧ grpc (set_saver w v p) = grpc p ∧ shut (set_saver w v p) = shut p.
Proof. by destruct w. Qed.

Lemma pstep_group e f p f' p' o :
  pstep conf e (f, p) (f', p') → group_ok p o → group_ok p' (first_error_step o e).
Proof.
  unfold group_ok. inversion 1; subst; intros (Hg & Hd & Hh); cbn [first_error_step];
    try match goal with |- context [set_saver ?w ?v ?p] =>
      destruct (set_saver_group w v p) as (-> & -> & -> & _ & _) end;
    try match goal with |- context [report ?e _] => lazymatch e with Some _ => idtac | _ => destruct e end end;
    cbn [report set_http set_grpc set_shut set_memory cancel group_err ctx_done http]; rewrite ?Hg; eauto 6.
Qed.

Lemma run_group es s :
  run je ne conf es s → ∀ p, proc s = Some p → group_ok p (first_error es).
Proof.
  induction 1 as [|es e s s' Hrun IH Hstep]; [done|]. intros p Hp. rewrite first_error_snoc.
  destruct Hstep as [ctx sql_open t f q Hq|e f q f' q' Hsub Hstep|f q Hr|f q Hr|f q]; simplify_eq/=.
  - apply Run_start_new in Hq as (m & v & -> & _). by split_and!; [|intros [??]|].
  - eapply pstep_group; [exact Hstep|]. by apply IH.
Qed.

(** ** What the end of the process means *)

Lemma all_returned_inv p :
  all_returned p = true →
  final p = VOver ∧ (∃ err, http p = GReturned err) ∧ (∃ err, grpc p = GReturned err) ∧ shut p = ShReturned.
Proof. unfold all_returned. repeat case_match; naive_solver. Qed.

(** The saver that waits for the end has taken the lock, unless it could not create the file. *)
Definition locked_ok (p : process) (o : option (list store_request)) : Prop :=
  final p = VIdle ∨ final p = VCreated ∨ is_Some o.

(** The store is the one that was saved last with what was applied since; a save of this process that has ended
    is complete. *)
Definition memory_ok (p : process) (l : option (MemStorage * bool)) (o : option (list store_request))
    (b : option who) : Prop :=
  ∀ rs, o = Some rs → ∃ m c, l = Some (m, c) ∧ memory p = foldl serve m rs ∧ (b = None → c = true).

Lemma pstep_locked e f p f' p' o :
  pstep conf e (f, p) (f', p') → e ≠ ESave Final ACreateFails → locked_ok p o → locked_ok p' (since_step o e).
Proof.
  unfold locked_ok. inversion 1; subst; intros He Hl; cbn [since_step];
    try match goal with |- context [report ?e _] => lazymatch e with Some _ => idtac | _ => destruct e end end; try exact Hl;
    try match goal with w : who |- _ => destruct w; cbn in * end; rewrite ?fmap_is_Some; try done; eauto;
    destruct Hl as [Hl|[Hl|Hl]]; eauto; congruence.
Qed.

Lemma pstep_since e f p f' p' l o b b' :
  pstep conf e (f, p) (f', p') → busy_step (Some b) e = Some b' → disk_ok (mkServer f (Some p)) b l →
  memory_ok p l o b → memory_ok p' (save_step l e) (since_step o e) b'.
Proof.
  intros Hstep Hb [Hs _] Hm rs. pose proof (pstep_memory _ _ _ _ _ _ Hstep) as Hmem.
  assert (∀ rs0, o = Some rs0 → memory p' = memory p → (b' = None → b = None) →
          ∃ m c, l = Some (m, c) ∧ memory p' = foldl serve m rs0 ∧ (b' = None → c = true)) as Hsame.
  { intros rs0 Ho Hp Hbb. destruct (Hm rs0 Ho) as (m & c & -> & Hx & Hc). exists m, c. rewrite Hp. eauto. }
  destruct e as [|t r|i r|w a| |err|err| | | |r| |]; cbn [since_step save_step busy_step mbind option_bind] in *;
    simplify_eq; try done; try (intros Ho; apply Hsame; tauto).
  - intros (rs0 & -> & ->)%fmap_Some. destruct Hmem as (Hx & _). destruct (Hm rs0 eq_refl) as (m & c & -> & Hy & Hc).
    exists m, c. rewrite Hx, Hy, foldl_app. done.
  - destruct a; simplify_eq.
    + intros Ho. destruct b; [done|]. injection Hb as <-. destruct (Hm rs Ho) as (m & c & -> & Hx & Hc).
      exists m, false. destruct Hmem as [-> _]. done.
    + intros Ho. apply Hsame; tauto.
    + intros [= <-]. destruct Hmem as (-> & -> & _). exists (memory p), false. split_and!; [done..|]. intros ->.
      inversion Hstep; subst. specialize (Hs w). rewrite bool_decide_eq_false_2 in Hs by done.
      by match goal with Hv : saver_of w p = VCreated |- _ => rewrite Hv in Hs end.
    + intros Ho. apply Hsame; tauto.
    + intros Ho. destruct (Hm rs Ho) as (m & c & -> & Hx & Hc). exists m, true. destruct Hmem as [-> _]. done.
  - inversion Hstep.
  - inversion Hstep.
  - inversion Hstep.
Qed.

Lemma run_since es s b p :
  run je ne conf es s → busy es = Some b → proc s = Some p → memory_ok p (last_save es) (since_lock es) b.
Proof.
  intros Hrun. revert b p. induction Hrun as [|es e s s' Hrun IH Hstep]; intros b p; [done|].
  rewrite busy_snoc, last_save_snoc, since_lock_snoc. destruct (busy es) as [b0|] eqn:Hb0; [|done]. intros Hb Hp.
  pose proof (run_disk _ _ _ _ _ _ Hrun Hb0) as Hd.
  destruct Hstep as [ctx sql_open t f q Hq|e f q f' q' Hsub Hstep|f q Hr|f q Hr|f q]; simplify_eq/=; [by intros rs|].
  eapply pstep_since; [exact Hstep|exact Hb|exact Hd|]. by apply IH.
Qed.

Lemma run_locked es s p :
  run je ne conf es s → DatabaseDsn conf = "" → ESave Final ACreateFails ∉ es → proc s = Some p →
  locked_ok p (since_lock es).
Proof.
  intros Hrun Hdsn. revert p. induction Hrun as [|es e s s' Hrun IH Hstep]; intros p; [done|].
  rewrite since_lock_snoc, elem_of_app, list_elem_of_singleton. intros Hn Hp.
  destruct Hstep as [ctx sql_open t f q Hq|e f q f' q' Hsub Hstep|f q Hr|f q Hr|f q]; simplify_eq/=.
  - apply Run_start_new in Hq as (m & v & -> & [->|[_ Hv]]); [by left|done].
  - eapply pstep_locked; [exact Hstep|naive_solver|]. apply IH; [tauto|done].
Qed.
End Invariants.

(** [C14] A clean end keeps the metrics: let [Run] of a server with the in-memory store return, let the final
    save have been able to create the file ([Hcreate]), let no two saves have overlapped ([Hone]) and the periodic
    saver not be in the middle of one ([Hidle]); without the last two it is false ([clean_exit_can_lose_metrics]).
    Then the last save to take the lock, be it the final one or a periodic one after it, is complete, the
    store in memory is the one it saw with the requests [late] applied since, and the next start reads the file
    without a panic and finds nothing but what that save saw.  If no line of it is too long for the scanner
    it finds all of it (except for gauges that are NaN or infinite), and exactly that when the names are
    valid UTF-8. *)
Theorem clean_exit_keeps_metrics {E : Type} `{Postgres E} (je ne : string → goerror) (conf : ConfigArgs)
    (es : list event) (f : option string) (p : process)
    (Hrun : run je ne conf es (mkServer f (Some p))) (Hend : all_returned p = true) (Hconf : restoring conf)
    (Hcreate : ESave Final ACreateFails ∉ es) (Hone : exclusive es) (Hidle : in_save (periodic p) = false)
    (Hev : Forall event_ok es) :
  ∃ m late, last_save es = Some (m, true) ∧ since_lock es = Some late ∧
    memory p = foldl serve m late ∧
    ∃ m', start_store je ne true f = Ret m' ∧
      read_partly m NewMemStorage m' ∧ (valid_names m → part_of m' m) ∧
      (lines_fit m → read_as m NewMemStorage m' ∧ (valid_names m → m' = mkMem (finite_gauges m) (counter m))).
Proof.
  destruct Hone as [b Hb]. apply all_returned_inv in Hend as (Hfinal & _).
  destruct (run_disk _ _ _ _ _ _ Hrun Hb) as [Hs _].
  assert (b = None) as ->.
  { destruct b as [w|]; [|done]. specialize (Hs w). rewrite bool_decide_eq_true_2 in Hs by done.
    destruct w; cbn in Hs; [congruence|by rewrite Hfinal in Hs]. }
  destruct Hconf as (Hdsn & _). pose proof (run_locked _ _ _ _ _ _ Hrun Hdsn Hcreate eq_refl) as [Hl|[Hl|[late Hl]]];
    [congruence..|].
  destruct (run_since _ _ _ _ _ _ _ Hrun Hb eq_refl late Hl) as (m & c & Hls & Hm & Hc). rewrite Hc in Hls by done.
  exists m, late. split_and!; [done..|].
  assert (run je ne conf (es ++ [ECrash]) (mkServer f None)) as Hrun' by by eapply run_next; [|apply step_crash].
  destruct (restart_file je ne conf (es ++ [ECrash]) f None Hrun') as (m' & Hs' & Hm').
  - by rewrite busy_snoc, Hb.
  - apply Forall_app_2; [done|]. by rewrite Forall_singleton.
  - rewrite last_save_snoc, Hls in Hm'. cbn in Hm'. destruct Hm' as (Hp & Hv & Hall). exists m'. split_and!; [done..|].
    by apply Hall.
Qed.

(** The result of [Run]: when it returns or ends the process, some goroutine of the group has returned
    an error, and the first such error decides: [http.ErrServerClosed] is success, any other error is fatal.
    So after a signal the server succeeds unless a server failed or the shutdown of the HTTP server timed
    out before the HTTP server's goroutine returned. *)
Theorem run_exit_code {E : Type} `{Postgres E} (je ne : string → goerror) (conf : ConfigArgs)
    (es : list event) (s s' : server) (r : outcome ())
    (Hrun : run je ne conf es s) (Hexit : step je ne conf (EExit r) s s') :
  ∃ err, first_error es = Some err ∧
    r = (if errors_Is (Some err) (Some ErrServerClosed) then Ret () else Fatal "Failed: ").
Proof.
  inversion Hexit as [| |f p Hall Hr Hs Hs'| |]; subst; [match goal with Hp : pstep _ _ _ _ |- _ => inversion Hp end|].
  destruct (run_group _ _ _ _ _ Hrun p eq_refl) as (Hg & _ & Hh).
  apply all_returned_inv in Hall as (_ & [err Herr] & _). destruct (Hh err Herr) as [e He].
  exists e. split; [done|]. unfold run_result. by rewrite Hg, He.
Qed.

(** ** The end comes *)

(** Steps of one process. *)
Inductive psteps (conf : ConfigArgs) : option string * process → list event → option string * process → Prop :=
| psteps_nil x : psteps conf x [] x
| psteps_snoc x es y e z : psteps conf x es y → pstep conf e y z → psteps conf x (es ++ [e]) z.

(** The steps that bring the end nearer: all but those of the periodic saver, new requests and the signal. *)
Definition closing (e : event) : bool :=
  match e with
  | ESave Final _ | EApply _ _ | EHttp _ | EGrpc _ | EShutdown | EDrained | EShutdownTimeout => true
  | _ => false
  end.

(** Those among the steps that no failure is needed for. *)
Definition graceful (e : event) : bool :=
  match e with
  | ESave _ ACreateFails | EEnter _ _ | ESignal | EFatal | ECrash | EGrpc (Some _) | EShutdownTimeout => false
  | EHttp err => bool_decide (err = ErrServerClosed)
  | _ => true
  end.

Definition saver_rank (v : saver) : nat :=
  match v with VIdle => 3 | VCreated => 2 | VWriting _ lines => 1 + length lines | VOver => 0 end.
Definition goroutine_rank (g : goroutine) : nat := match g with GRunning => 1 | GReturned _ => 0 end.
Definition shutting_rank (h : shutting) : nat := match h with ShWaiting => 2 | ShDraining => 1 | ShReturned => 0 end.

Definition process_rank (p : process) : nat :=
  saver_rank (final p) + length (entered p) + goroutine_rank (http p) + goroutine_rank (grpc p) + shutting_rank (shut p).

(** The entries the final saver finds when it takes the lock. *)
Definition final_entries (e : event) : nat :=
  match e with ESave Final (ALock m) => size (counter m) + size (gauge m) | _ => 0 end.
Definition lines_to_write (es : list event) : nat := sum_list (final_entries <$> es).

Definition count_closing (es : list event) : nat := length (filter (λ e, closing e = true) es).

Lemma length_keys {A} (m : gmap string A) ks : ks ≡ₚ keys m → length ks = size m.
Proof. intros ->. unfold keys. by rewrite length_fmap, length_map_to_list. Qed.

Lemma length_save_lines cks gks m :
  cks ≡ₚ keys (counter m) → gks ≡ₚ keys (gauge m) →
  length (save_lines cks gks m) = (size (counter m) + size (gauge m))%nat.
Proof.
  intros Hc Hg. unfold save_lines.
  by rewrite length_fmap, length_app, !length_fmap, (length_keys _ _ Hc), (length_keys _ _ Hg).
Qed.

Section Ending.
Context (conf : ConfigArgs).

Lemma process_rank_report err p : process_rank (report err p) = process_rank p.
Proof. by destruct err. Qed.

Lemma pstep_rank e f p f' p' :
  pstep conf e (f, p) (f', p') → ctx_done p = true →
  ctx_done p' = true ∧
  (process_rank p' + (if closing e then 1 else 0) ≤ process_rank p + final_entries e)%nat.
Proof.
  unfold process_rank. inversion 1; subst; intros Hd;
    try match goal with |- context [report ?e _] => lazymatch e with Some _ => idtac | _ => destruct e end end;
    cbn [report set_memory set_http set_grpc set_shut cancel final entered http grpc shut ctx_done memory closing final_entries];
    try congruence; repeat match goal with
    | Hx : http _ = _ |- _ => rewrite Hx in *; clear Hx
    | Hx : grpc _ = _ |- _ => rewrite Hx in *; clear Hx
    | Hx : shut _ = _ |- _ => rewrite Hx in *; clear Hx
    end; cbn [goroutine_rank shutting_rank]; try (split; [done|lia]).
  - match goal with He : entered _ !! _ = Some _ |- _ =>
      pose proof (length_delete _ _ (mk_is_Some _ _ He)); apply lookup_lt_Some in He end.
    split; [done|lia].
  - destruct w; cbn in *; simplify_eq; [split; [done|lia]|].
    match goal with Hf : final p = _ |- _ => rewrite Hf end. cbn. split; [done|lia].
  - destruct w; cbn in *; simplify_eq; [split; [done|lia]|].
    match goal with Hf : final p = _ |- _ => rewrite Hf end. cbn. split; [done|lia].
  - destruct w; cbn in *; simplify_eq; [split; [done|lia]|].
    match goal with Hf : final p = _ |- _ => rewrite Hf end. rewrite length_save_lines by done. cbn. split; [done|lia].
  - destruct w; cbn in *; simplify_eq; [split; [done|lia]|].
    match goal with Hf : final p = _ |- _ => rewrite Hf end. cbn. split; [done|lia].
  - destruct w; cbn in *; simplify_eq; [split; [done|lia]|].
    match goal with Hf : final p = _ |- _ => rewrite Hf end. cbn. split; [done|lia].
Qed.

Lemma count_closing_snoc es e : count_closing (es ++ [e]) = (count_closing es + if closing e then 1 else 0)%nat.
Proof.
  unfold count_closing. rewrite filter_app, length_app, filter_cons, filter_nil. by destruct (closing e).
Qed.

Lemma lines_to_write_snoc es e : lines_to_write (es ++ [e]) = (lines_to_write es + final_entries e)%nat.
Proof. unfold lines_to_write. rewrite fmap_app, sum_list_with_app. cbn. lia. Qed.

Lemma psteps_rank x es y :
  psteps conf x es y → ctx_done x.2 = true →
  ctx_done y.2 = true ∧ (process_rank y.2 + count_closing es ≤ process_rank x.2 + lines_to_write es)%nat.
Proof.
  induction 1 as [|x es [f p] e [f' p'] Hs IH Hstep]; intros Hd; [split; [done|cbn; lia]|].
  destruct (IH Hd) as [Hd1 Hr1]. destruct (pstep_rank _ _ _ _ _ Hstep Hd1) as [Hd2 Hr2]. split; [done|].
  rewrite count_closing_snoc, lines_to_write_snoc. cbn [snd] in *. lia.
Qed.

(** While a save is under way the file exists. *)
Definition disk_there (f : option string) (p : process) : Prop :=
  ∀ w, in_save (saver_of w p) = true → is_Some f.

Lemma pstep_disk_there e f p f' p' :
  pstep conf e (f, p) (f', p') → disk_there f p → disk_there f' p'.
Proof.
  unfold disk_there. inversion 1; subst; intros Hd w'; rewrite ?saver_of_report, ?saver_of_set; try case_decide;
    subst; rewrite ?after_save_idle; try done; try (by eauto);
    try (intros Hw; apply (Hd w'); by destruct w');
    intros _; match goal with Hv : saver_of _ _ = _ |- _ => eapply Hd; by rewrite Hv end.
Qed.

(** Nothing waits forever: as long as some goroutine has not returned, a step is possible that needs no failure. *)
Lemma graceful_step f p :
  ctx_done p = true → disk_there f p → all_returned p = false →
  ∃ e f' p', graceful e = true ∧ pstep conf e (f, p) (f', p').
Proof.
  intros Hd Hf Hn.
  assert (∀ w, in_save (saver_of w p) = true → ∃ e f' p', graceful e = true ∧ pstep conf e (f, p) (f', p')) as Hsave.
  { intros w Hw. destruct (saver_of w p) as [| |off [|line lines]|] eqn:Hv; try done.
    - eexists (ESave w (ALock (memory p))), _, _. split; [done|]. by apply step_lock.
    - eexists (ESave w ADone), _, _. split; [done|]. by eapply step_done.
    - destruct (Hf w) as [text ->]; [by rewrite Hv|]. eexists (ESave w AWrite), _, _. split; [done|]. by eapply step_write. }
  assert (entered p ≠ [] → ∃ e f' p', graceful e = true ∧ pstep conf e (f, p) (f', p')) as Happly.
  { intros He. destruct (entered p) as [|[t r] l] eqn:Hent; [done|].
    destruct (is_writing (periodic p)) eqn:Hp; [apply (Hsave Periodic); by destruct (periodic p) eqn:Hx; cbn; rewrite Hx|].
    destruct (is_writing (final p)) eqn:Hq; [apply (Hsave Final); by destruct (final p) eqn:Hx; cbn; rewrite Hx|].
    eexists (EApply 0 r), _, _. split; [done|]. eapply step_apply; [by rewrite Hent|done..]. }
  assert (∀ t, served_by t p ≠ [] → entered p ≠ []) as Hserved.
  { intros t Ht He. apply Ht. unfold served_by. by rewrite He. }
  unfold all_returned in Hn. destruct (final p) eqn:Hfin.
  - eexists (ESave Final ACreate), _, _. split; [done|]. by apply step_create.
  - apply (Hsave Final). cbn. by rewrite Hfin.
  - apply (Hsave Final). cbn. by rewrite Hfin.
  - destruct (shut p) eqn:Hsh.
    + eexists EShutdown, _, _. split; [done|]. by apply step_shutdown.
    + destruct (decide (served_by OverHTTP p = [])) as [He|He]; [|by eapply Happly, Hserved].
      eexists EDrained, _, _. split; [done|]. by apply step_drained.
    + destruct (http p) eqn:Hh.
      * eexists (EHttp ErrServerClosed), _, _. split; [done|]. apply step_http; [done|congruence].
      * destruct (grpc p) eqn:Hg; [|done].
        destruct (decide (served_by OverGRPC p = [])) as [He|He]; [|by eapply Happly, Hserved].
        eexists (EGrpc None), _, _. split; [done|]. by apply (step_grpc _ _ _ None None).
Qed.
End Ending.

Lemma psteps_disk_there conf x es y : psteps conf x es y → disk_there x.1 x.2 → disk_there y.1 y.2.
Proof.
  induction 1 as [|x es [f p] e [f' p'] Hs IH Hstep]; [done|]. intros Hx. eapply pstep_disk_there; [exact Hstep|by apply IH].
Qed.

Lemma run_disk_there {E} `{Postgres E} je ne conf es s :
  run je ne conf es s → ∀ p, proc s = Some p → disk_there (disk s) p.
Proof.
  induction 1 as [|es e s s' Hrun IH Hstep]; [done|]. intros p Hp.
  destruct Hstep as [ctx sql_open t f q Hq|e f q f' q' Hsub Hstep|f q Hr|f q Hr|f q]; simplify_eq/=.
  - intros w. by rewrite (Run_start_idle _ _ _ _ _ _ _ _ w Hq).
  - eapply pstep_disk_there; [exact Hstep|by apply IH].
Qed.

(** [C26] Shutdown: once the context of the group has ended, whatever the clients, the periodic saver
    and the network do, the server makes at most as many closing steps as [process_rank] says, plus one for
    each line of the final save; and until every goroutine of the group has returned it is never stuck: some
    step is possible that is no failure, no crash and no timeout.  So [Run] reaches its end.  (With subnets that
    do not parse, [log.Fatal] ends the process anyway.) *)
Theorem server_shutdown {E : Type} `{Postgres E} (je ne : string → goerror) (conf : ConfigArgs)
    (es es' : list event) (f f' : option string) (p p' : process)
    (Hrun : run je ne conf es (mkServer f (Some p))) (Hdone : ctx_done p = true)
    (Hafter : psteps conf (f, p) es' (f', p')) :
  (count_closing es' ≤ process_rank p + lines_to_write es')%nat ∧
  (all_returned p' = false → ∃ e f'' p'', graceful e = true ∧ pstep conf e (f', p') (f'', p'')).
Proof.
  destruct (psteps_rank _ _ _ _ Hafter Hdone) as [Hd Hr]. cbn [snd] in *. split; [lia|].
  intros Hn. apply graceful_step; [done| |done].
  apply (psteps_disk_there _ _ _ _ Hafter). exact (run_disk_there _ _ _ _ _ Hrun p eq_refl).
Qed.

(** ** Executions *)

Section Executions.
Context (je ne : string → goerror).

(** A signal after the counter was saved; the final save and the shutdown. *)
Definition closing_events : list event :=
  [ESave Final ACreate; ESave Final (ALock store5); ESave Final AWrite; ESave Final ADone;
   EShutdown; EHttp ErrServerClosed; EDrained].
Definition signalled : list event := saved_once ++ [ESignal].
Definition clean_events : list event := signalled ++ closing_events.

Definition started5 : process := set_memory store5 [] (new_process example_conf NewMemStorage VIdle).
Definition ended5 : process :=
  mkProc store5 VIdle VOver [] true (Some ErrServerClosed) (GReturned (Some ErrServerClosed)) (GReturned None) ShReturned.

Lemma run_signalled : run (E := ()) je ne example_conf signalled (mkServer saved5 (Some (cancel started5))).
Proof. eapply run_process; [apply run_saved_once|]. apply step_signal. Qed.

Lemma closing_steps : psteps example_conf (saved5, cancel started5) closing_events (saved5, ended5).
Proof.
  pose proof (psteps_nil example_conf (saved5, cancel started5)) as H.
  eapply psteps_snoc in H; [|by apply (step_create _ _ _ Final)].
  eapply psteps_snoc in H; [|by apply (step_lock _ _ _ Final ["c"] [])].
  eapply psteps_snoc in H; [|by eapply (step_write _ _ _ Final)].
  eapply psteps_snoc in H; [|by eapply (step_done _ _ _ Final)].
  eapply psteps_snoc in H; [|by apply step_shutdown].
  eapply psteps_snoc in H; [|by apply (step_http _ _ _ ErrServerClosed)].
  eapply psteps_snoc in H; [|by apply step_drained].
  exact H.
Qed.

Lemma run_psteps es f p es' f' p' :
  run (E := ()) je ne example_conf es (mkServer f (Some p)) → psteps example_conf (f, p) es' (f', p') →
  run (E := ()) je ne example_conf (es ++ es') (mkServer f' (Some p')).
Proof.
  intros Hr Hs. remember (f, p) as x eqn:Hx. remember (f', p') as y eqn:Hy. revert f' p' Hy.
  induction Hs as [x|x es' [f1 p1] e z Hs IH Hstep]; intros f' p' Hy; simplify_eq.
  - by rewrite app_nil_r.
  - rewrite app_assoc. eapply run_process; [by apply IH|exact Hstep].
Qed.

Lemma run_clean : run (E := ()) je ne example_conf clean_events (mkServer saved5 (Some ended5)).
Proof. eapply run_psteps; [apply run_signalled|apply closing_steps]. Qed.
End Executions.

Lemma signalled_ok : Forall event_ok signalled.
Proof. apply Forall_app_2; [exact saved_once_ok|by repeat constructor]. Qed.

Lemma server_shutdown_witness :
  (count_closing closing_events ≤ process_rank (cancel started5) + lines_to_write closing_events)%nat ∧
  (all_returned ended5 = false → ∃ e f'' p'', graceful e = true ∧ pstep example_conf e (saved5, ended5) (f'', p'')).
Proof.
  apply (server_shutdown (E := ()) (λ s, ErrMsg s) (λ s, ErrMsg s) example_conf signalled closing_events saved5 saved5
    (cancel started5) ended5).
  - apply run_signalled.
  - reflexivity.
  - apply closing_steps.
Defined.

Lemma clean_exit_keeps_metrics_witness :
  let je := λ s, ErrMsg s in
  ∃ m late, last_save clean_events = Some (m, true) ∧ since_lock clean_events = Some late ∧
    store5 = foldl serve m late ∧ start_store je je true saved5 = Ret (mkMem (finite_gauges m) (counter m)).
Proof.
  cbv zeta.
  destruct (clean_exit_keeps_metrics (E := ()) (λ s, ErrMsg s) (λ s, ErrMsg s) example_conf clean_events saved5 ended5)
    as (m & late & Hl & Hs & Hm & m' & Hr & _ & _ & Hall).
  - apply run_clean.
  - reflexivity.
  - apply (bool_decide_unpack _). vm_compute. exact I.
  - intros H. repeat (apply elem_of_cons in H as [H|H]; [discriminate H|]). by apply elem_of_nil in H.
  - apply (bool_decide_unpack _). vm_compute. exact I.
  - reflexivity.
  - apply Forall_app_2; [exact signalled_ok|by repeat constructor].
  - exists m, late. split; [exact Hl|]. split; [exact Hs|]. split; [exact Hm|]. rewrite Hr. f_equal.
    assert (m = store5) as -> by (assert (last_save clean_events = Some (store5, true)) as Hx by reflexivity; congruence).
    apply Hall; apply (bool_decide_unpack _); vm_compute; exact I.
Defined.

Lemma run_exit_code_witness :
  ∃ err, first_error clean_events = Some err ∧
    Ret () = (if errors_Is (Some err) (Some ErrServerClosed) then Ret () else Fatal "Failed: ").
Proof.
  apply (run_exit_code (E := ()) (λ s, ErrMsg s) (λ s, ErrMsg s) example_conf clean_events (mkServer saved5 (Some ended5))
    (mkServer saved5 None)).
  - apply run_clean.
  - apply (step_exit (E := ()) _ _ example_conf saved5 ended5). reflexivity.
Defined.

(** ** What a clean end can lose *)

(** The periodic saver wakes up after the final save and is cut off by the end of the process. *)
Definition cut_events : list event := clean_events ++ [ESave Periodic ACreate; EExit (Ret ())].

Lemma run_cut je ne : run (E := ()) je ne example_conf cut_events (mkServer (Some "") None).
Proof.
  unfold cut_events. change [ESave Periodic ACreate; EExit (Ret ())] with ([ESave Periodic ACreate] ++ [EExit (Ret ())]).
  rewrite app_assoc. eapply run_next.
  - eapply run_process; [apply run_clean|]. by apply (step_create _ _ _ Periodic).
  - by apply (step_exit (E := ()) _ _ example_conf (Some "") (set_saver Periodic VCreated ended5)).
Qed.

(** Two counters, and two saves that write them in different orders. *)
Definition write2 : store_request :=
  ReqBatch [mkMetrics (Some 1) None "a" CounterType; mkMetrics (Some 10) None "bb" CounterType].
Definition store2 : MemStorage := mkMem ∅ {[ "a" := 1; "bb" := 10 ]}.
Definition line_a : string := save_line (counter_metric store2 "a").
Definition line_bb : string := save_line (counter_metric store2 "bb").

Definition overlap_events : list event :=
  [EStart; EEnter OverHTTP write2; EApply 0 write2;
   ESave Periodic ACreate; ESave Periodic (ALock store2); ESave Periodic AWrite; ESignal;
   ESave Final ACreate; ESave Final (ALock store2); ESave Final AWrite; ESave Final AWrite;
   ESave Periodic AWrite; ESave Periodic ADone; ESave Final ADone;
   EShutdown; EHttp ErrServerClosed; EDrained; EExit (Ret ())].

(** The file in the end: the second line of the periodic save written over the lines of the final one. *)
Definition overlapped : string := write_at (String.length line_a) line_bb (line_bb +:+ line_a).

Lemma run_overlap je ne : run (E := ()) je ne example_conf overlap_events (mkServer (Some overlapped) None).
Proof.
  pose proof (run_first (E := ()) je ne example_conf) as H.
  eapply run_next in H; [|by apply (step_start je ne example_conf Background no_db 0 None)].
  eapply run_process in H; [|by apply (step_enter _ _ _ OverHTTP write2)].
  eapply run_process in H; [|by apply (step_apply _ _ _ 0 OverHTTP)].
  eapply run_process in H; [|by apply (step_create _ _ _ Periodic)].
  eapply run_process in H; [|by apply (step_lock _ _ _ Periodic ["a"; "bb"] []); vm_compute; first [reflexivity|apply Permutation_swap]].
  eapply run_process in H; [|by eapply (step_write _ _ _ Periodic)].
  eapply run_process in H; [|apply step_signal].
  eapply run_process in H; [|by apply (step_create _ _ _ Final)].
  eapply run_process in H; [|by apply (step_lock _ _ _ Final ["bb"; "a"] []); vm_compute; first [reflexivity|apply Permutation_swap]].
  eapply run_process in H; [|by eapply (step_write _ _ _ Final)].
  eapply run_process in H; [|by eapply (step_write _ _ _ Final)].
  eapply run_process in H; [|by eapply (step_write _ _ _ Periodic)].
  eapply run_process in H; [|by eapply (step_done _ _ _ Periodic)].
  eapply run_process in H; [|by eapply (step_done _ _ _ Final)].
  eapply run_process in H; [|by apply step_shutdown].
  eapply run_process in H; [|by apply (step_http _ _ _ ErrServerClosed)].
  eapply run_process in H; [|by apply step_drained].
  eapply run_next in H; [|by apply (step_exit (E := ()) je ne example_conf)].
  exact H.
Qed.

(** [C29] A clean end can lose metrics: without any crash, with the final save complete and [Run] returning
    normally, the next start may find nothing of what was stored: when the periodic saver, which nothing waits
    for, had just truncated the file; and when the periodic and the final save overlapped, for
    they write the entries in different orders at their own offsets. *)
Theorem clean_exit_can_lose_metrics (je ne : string → goerror) :
  (∃ es f, run (E := ()) je ne example_conf (es ++ [EExit (Ret ())]) (mkServer f None) ∧ ¬ (ECrash ∈ es) ∧
     last_save es = Some (store5, false) ∧ ESave Final ADone ∈ es ∧ exclusive es ∧
     start_store je ne true f = Ret NewMemStorage) ∧
  (∃ es f, run (E := ()) je ne example_conf (es ++ [EExit (Ret ())]) (mkServer f None) ∧ ¬ (ECrash ∈ es) ∧
     last_save es = Some (store2, true) ∧ ESave Final ADone ∈ es ∧ ESave Periodic ADone ∈ es ∧
     start_store je ne true f = Ret NewMemStorage).
Proof.
  split.
  - exists (clean_events ++ [ESave Periodic ACreate]), (Some "").
    split; [rewrite <- app_assoc; apply run_cut|]. split; [|split; [reflexivity|split; [|split]]].
    + intros H. repeat (apply elem_of_cons in H as [H|H]; [discriminate H|]). by apply elem_of_nil in H.
    + vm_compute. repeat (apply elem_of_cons; (by left) || right).
    + apply (bool_decide_unpack _). vm_compute. exact I.
    + reflexivity.
  - exists (take 17 overlap_events), (Some overlapped).
    split; [apply run_overlap|]. split; [|split; [reflexivity|split; [|split]]].
    + intros H. repeat (apply elem_of_cons in H as [H|H]; [discriminate H|]). by apply elem_of_nil in H.
    + cbn. repeat (apply elem_of_cons; (by left) || right).
    + cbn. repeat (apply elem_of_cons; (by left) || right).
    + vm_compute. reflexivity.
Qed.
