(* ===== verification/Mains.v ===== *)
(** * The main programs

    [cmd/server/main.go] and [cmd/agent/main.go]: the same frame around [server.Run] and [agent.Run].  They print
    the build information, listen for SIGTERM, SIGINT and SIGQUIT, read flags, environment and file,
    start the profiling server if its address is set, and run the program, which a watchdog ends 30 seconds
    after the signal.  What [Run] does with the settings is in [ServerRun.v] and [AgentRun.v]. *)

From S2P Require Import Prelude Strconv Float64 Metrics Json GoRetry Retrier Config.

Open Scope Z_scope.

Definition interruptAfter : Z := 30.

(** The end of a process: its time and how its main goroutine, or the one that ended it, ended. *)
Abbreviation ending := (Z * outcome ())%type.

(** What the program printed, the address of the profiling server, and the end, if there is one. *)
Record execution : Type := mkExecution { printed : string; pprof : option string; ended : option ending }.

(** [context.AfterFunc]: [signal] is the time of the first signal. *)
Definition watchdog (signal : option Z) : option ending :=
  (λ t, (t + interruptAfter * Second, Fatal "Interrupted by shutdown time exeeded!!!")) <$> signal.

(** Of two ends the one that comes first; [a] when they come together. *)
Definition first_end (a b : option ending) : option ending :=
  match a, b with
  | Some (t, r), Some (t', r') => if decide (t ≤ t') then Some (t, r) else Some (t', r')
  | Some e, None | None, Some e => Some e
  | None, None => None
  end.

(** The frame: [load] reads the settings at the time [t0], [Run] is given the time and the signal. *)
Definition main {C} (load : outcome C) (PprofAddr : C → string) (Run : C → option Z → Z → option ending)
    (buildVersion buildDate buildCommit : string) (signal : option Z) (t0 : Z) : execution :=
  let text := printBuildFlags buildVersion buildDate buildCommit in
  match load with
  | Ret config =>
      mkExecution text (if decide (PprofAddr config ≠ "") then Some (PprofAddr config) else None)
        (first_end (Run config signal t0) (watchdog signal))
  | other => mkExecution text None (first_end (Some (t0, (λ _, ()) <$> other)) (watchdog signal))
  end.

Section Mains.
Context (args : list string) (getenv : environment) (files : string → option string).

Definition server_main := main (ServerConfig.load args getenv files) ServerConfig.PprofAddr.
Definition agent_main := main (AgentConfig.load args getenv files) AgentConfig.PprofAddr.
End Mains.

(** The exit status the operating system sees. *)
Definition exit_status (r : outcome ()) : option Z :=
  match r with Ret _ => Some 0 | Fatal _ => Some 1 | Panic _ => Some 2 | Exited code _ => Some code | Blocked _ | NoFuel => None end.

(** ** What the frame promises *)

Section Frame.
Context {C : Type} (load : outcome C) (PprofAddr : C → string) (Run : C → option Z → Z → option ending).
Context (buildVersion buildDate buildCommit : string) (t0 : Z).

(** After a signal the process ends within 30 seconds, whatever [Run] does; it ends as [Run] does when
    that comes in time, and with status 1 otherwise. *)
Lemma main_ends_after_signal (t : Z) :
  ∃ t' r, ended (main load PprofAddr Run buildVersion buildDate buildCommit (Some t) t0) = Some (t', r) ∧
    t' ≤ t + 30 * Second ∧
    (exit_status r ≠ Some 1 → ∀ config, load = Ret config → Run config (Some t) t0 = Some (t', r)).
Proof.
  unfold main, first_end, watchdog, interruptAfter. destruct load as [config|why|why|code why|why|]; cbn.
  1: destruct (Run config (Some t) t0) as [[u r]|] eqn:HR; [case_decide as Hle|]; cbn;
       eexists _, _; (split; [done|split; [lia|]]); try done; intros _ c [= <-]; done.
  all: case_decide; eexists _, _; (split; [done|split; [lia|done]]).
Qed.

(** Without a signal the watchdog does nothing. *)
Lemma main_runs config :
  load = Ret config →
  ended (main load PprofAddr Run buildVersion buildDate buildCommit None t0) = Run config None t0.
Proof. unfold main. intros ->. cbn. by destruct (Run config None t0) as [[]|]. Qed.
End Frame.
