(* ===== verification/StaticLint.v ===== *)
(** * The linter

    [cmd/staticlint/main.go]: the analyzer that looks for a direct call of os.Exit in the main function, and
    the choice of the analyzers of other packages, which are known here by their names. *)

From S2P Require Import Prelude.

(** ** Syntax trees *)

(** What the analyzer tells apart; [sel] of a selector is the name after the dot, [on] the identifier
    before it, with its position, when it is one. *)
#[warnings="-register-all"]
Inductive node : Type :=
| FuncDecl (name : string) (children : list node)
| SelectorExpr (sel : string) (on : option (string * nat)) (children : list node)
| OtherNode (children : list node).

(** [ast.File]: the package name and the tree. *)
Record ast_file : Type := mkFile { package : string; tree : node }.

(** The captured variable and the reports so far. *)
Record pass_state : Type := mkPass { mainFound : bool; reports : list nat }.

(** The body of the function given to [ast.Inspect]. *)
Definition visit (n : node) (s : pass_state) : pass_state :=
  match n with
  | FuncDecl name _ => if decide (name = "main") then mkPass true (reports s) else s
  | SelectorExpr sel on _ =>
      if mainFound s && bool_decide (sel = "Exit") then
        match on with
        | Some (name, pos) => if decide (name = "os") then mkPass false (reports s ++ [pos]) else s
        | None => s
        end
      else s
  | OtherNode _ => s
  end.

(** [ast.Inspect]: a node before its children, these in order. *)
Fixpoint Inspect (n : node) (s : pass_state) : pass_state :=
  let s := visit n s in
  let all := fix all (l : list node) (s : pass_state) : pass_state :=
    match l with [] => s | n :: l => all l (Inspect n s) end in
  match n with FuncDecl _ l | SelectorExpr _ _ l | OtherNode l => all l s end.

(** [osExitChecker]: the positions reported; only the first file of package main is looked at. *)
Fixpoint osExitChecker (files : list ast_file) : list nat :=
  match files with
  | [] => []
  | v :: files =>
      if decide (package v = "main") then reports (Inspect (tree v) (mkPass false []))
      else osExitChecker files
  end.

(** ** Choosing analyzers *)

Definition getStaticCheckAnalyzers (prefix : string) (analyzers : list string) : list string :=
  filter (λ v, HasPrefix v prefix = true) analyzers.

Definition getCustomHonnefAnalyzers (analyzers : list string) (names : gset string) : list string :=
  filter (λ v, v ∈ names) analyzers.

Definition customNamesHonnefAnalyzers : gset string :=
  list_to_set ["S1000"; "S1001"; "S1005"; "S1011"; "S1012"; "ST1000"; "ST1003"; "ST1005";
               "QF1002"; "QF1003"; "QF1004"; "QF1012"].

Definition staticCheckAnalyzerPrefix : string := "SA".

(** The analyzers of go vet, by the name of the package each comes from. *)
Definition basicAnalyzers : list string :=
  ["appends"; "asmdecl"; "assign"; "atomic"; "atomicalign";
   "bools"; "buildssa"; "buildtag"; "cgocall"; "composite"; "copylock"; "ctrlflow";
   "deepequalerrors"; "defers"; "directive"; "errorsas"; "fieldalignment"; "findcall";
   "framepointer"; "httpmux"; "httpresponse"; "ifaceassert"; "inspect"; "loopclosure";
   "lostcancel"; "nilfunc"; "nilness"; "pkgfact"; "printf"; "reflectvaluecompare";
   "shadow"; "shift"; "sigchanyzer"; "slog"; "sortslice"; "stdmethods"; "stdversion";
   "stringintconv"; "structtag"; "testinggoroutine"; "tests"; "timeformat"; "unmarshal";
   "unreachable"; "unsafeptr"; "unusedresult"; "unusedwrite"; "usesgenerics"].

(** [combineAllAnalyzers], given the analyzers of the packages of honnef.co. *)
Definition combineAllAnalyzers (staticcheck simple stylecheck quickfix : list string) : list string :=
  let customStaticCheckAnalyzers := getStaticCheckAnalyzers staticCheckAnalyzerPrefix staticcheck in
  let honnefAnalyzers := simple ++ stylecheck ++ quickfix in
  let customAnalyzers := getCustomHonnefAnalyzers honnefAnalyzers customNamesHonnefAnalyzers ++
                         ["errcheck"; "ineffassign"] ++ ["osexitcheck"] in
  basicAnalyzers ++ customStaticCheckAnalyzers ++ customAnalyzers.

(** Which analyzers run. *)
Lemma combineAllAnalyzers_spec (staticcheck simple stylecheck quickfix : list string) (a : string) :
  a ∈ combineAllAnalyzers staticcheck simple stylecheck quickfix ↔
  a ∈ basicAnalyzers ∨
  (a ∈ staticcheck ∧ HasPrefix a "SA" = true) ∨
  ((a ∈ simple ∨ a ∈ stylecheck ∨ a ∈ quickfix) ∧ a ∈ customNamesHonnefAnalyzers) ∨
  a ∈ ["errcheck"; "ineffassign"; "osexitcheck"].
Proof.
  unfold combineAllAnalyzers, getStaticCheckAnalyzers, getCustomHonnefAnalyzers. cbv zeta.
  rewrite !elem_of_app, !list_elem_of_filter, !elem_of_app, !elem_of_cons, elem_of_nil.
  change staticCheckAnalyzerPrefix with "SA". tauto.
Qed.

(** ** The walk as a sequence of events *)

(** What matters of a tree, in the order of the walk: declarations of main, and os.Exit with its position. *)
Inductive seen : Type := SeenMain | SeenExit (pos : nat).

Definition seen_at (n : node) : list seen :=
  match n with
  | FuncDecl name _ => if decide (name = "main") then [SeenMain] else []
  | SelectorExpr sel (Some (name, pos)) _ => if decide (sel = "Exit" ∧ name = "os") then [SeenExit pos] else []
  | _ => []
  end.

Fixpoint seen_in (n : node) : list seen :=
  let all := fix all (l : list node) : list seen := match l with [] => [] | n :: l => seen_in n ++ all l end in
  seen_at n ++ match n with FuncDecl _ l | SelectorExpr _ _ l | OtherNode l => all l end.

Definition seen_all (l : list node) : list seen := concat (seen_in <$> l).

Definition see (s : pass_state) (e : seen) : pass_state :=
  match e with
  | SeenMain => mkPass true (reports s)
  | SeenExit pos => if mainFound s then mkPass false (reports s ++ [pos]) else s
  end.

Lemma visit_see n s : visit n s = foldl see s (seen_at n).
Proof.
  destruct n as [name l|sel [[name pos]|] l|l]; simpl; [by case_decide| | |done].
  - destruct (decide (sel = "Exit")) as [->|Hs].
    + rewrite bool_decide_eq_true_2, andb_true_r by done. destruct (decide (name = "os")) as [->|Hn].
      * rewrite decide_True by done. simpl. by destruct (mainFound s).
      * rewrite (decide_False (P := _ ∧ _)) by naive_solver. simpl. by destruct (mainFound s).
    + rewrite bool_decide_eq_false_2, andb_false_r by done. by rewrite decide_False by naive_solver.
  - by destruct (_ && _).
Qed.

(** Induction on trees. *)
Lemma node_ind' (P : node → Prop) :
  (∀ name l, Forall P l → P (FuncDecl name l)) →
  (∀ sel on l, Forall P l → P (SelectorExpr sel on l)) →
  (∀ l, Forall P l → P (OtherNode l)) → ∀ n, P n.
Proof.
  intros H1 H2 H3. fix IH 1.
  intros [name l|sel on l|l]; [apply H1|apply H2|apply H3]; induction l as [|n l IHl]; constructor; [apply IH|exact IHl|..];
    first [apply IH|exact IHl].
Qed.

Lemma Inspect_see n s : Inspect n s = foldl see s (seen_in n).
Proof.
  revert s. induction n as [name l IH|sel on l IH|l IH] using node_ind'; intros s; cbn [Inspect seen_in];
    rewrite foldl_app, <- visit_see; generalize (visit (FuncDecl name l) s) || generalize (visit (SelectorExpr sel on l) s)
      || generalize (visit (OtherNode l) s); clear s;
    induction IH as [|n l Hn IH IHl]; intros s; try done; rewrite foldl_app, <- Hn; apply IHl.
Qed.

(** The positions of os.Exit, in order. *)
Definition exits (l : list seen) : list nat := omap (λ e, match e with SeenExit pos => Some pos | SeenMain => None end) l.

Lemma see_off l r : SeenMain ∉ l → foldl see (mkPass false r) l = mkPass false r.
Proof.
  induction l as [|[|pos] l IH]; [done| |]; rewrite not_elem_of_cons; intros [Hn Hl]; [done|]. by apply IH.
Qed.

Lemma see_on l r :
  SeenMain ∉ l → reports (foldl see (mkPass true r) l) = r ++ take 1 (exits l).
Proof.
  induction l as [|[|pos] l IH]; [by rewrite app_nil_r| |]; rewrite not_elem_of_cons; intros [Hn Hl]; [done|].
  simpl. by rewrite see_off.
Qed.

Lemma seen_in_OtherNode l : seen_in (OtherNode l) = seen_all l.
Proof. cbn [seen_in seen_at app]. induction l as [|n l IH]; [done|]. unfold seen_all in *. rewrite fmap_cons. simpl. by rewrite IH. Qed.

Lemma seen_in_main body : seen_in (FuncDecl "main" body) = SeenMain :: seen_all body.
Proof.
  cbn [seen_in seen_at]. rewrite decide_True by done. simpl. f_equal.
  induction body as [|n l IH]; [done|]. unfold seen_all in *. rewrite fmap_cons. simpl. by rewrite IH.
Qed.

Lemma seen_all_app l k : seen_all (l ++ k) = seen_all l ++ seen_all k.
Proof. unfold seen_all. by rewrite fmap_app, concat_app. Qed.

(** The os.Exit analyzer, on a package whose first file of package main declares main once, after the
    declarations [pre] and before [post]: it reports exactly one position, or none.  If main
    itself uses os.Exit, that is the first use in main.  If not, the first use in a declaration
    that follows main is reported all the same; uses before main, later uses, and the other files are
    never looked at. *)
Theorem osexit_reports (others rest : list ast_file) (pre body post : list node)
    (Hothers : Forall (λ f, package f ≠ "main") others)
    (Hpre : SeenMain ∉ seen_all pre) (Hbody : SeenMain ∉ seen_all body) (Hpost : SeenMain ∉ seen_all post) :
  osExitChecker (others ++ mkFile "main" (OtherNode (pre ++ FuncDecl "main" body :: post)) :: rest) =
  match exits (seen_all body) with
  | pos :: _ => [pos]
  | [] => take 1 (exits (seen_all post))
  end.
Proof.
  induction Hothers as [|f others Hf Hothers IH]; [|simpl; by rewrite decide_False].
  cbn [app osExitChecker package tree]. rewrite decide_True by done.
  rewrite Inspect_see, seen_in_OtherNode, seen_all_app. unfold seen_all at 2. rewrite fmap_cons. cbn [concat].
  fold (seen_all post). rewrite seen_in_main, foldl_app, see_off by done. cbn [app foldl see].
  cbn [reports]. rewrite see_on by (rewrite elem_of_app; tauto). unfold exits. rewrite omap_app. fold (exits (seen_all body)).
  cbn [app]. destruct (exits (seen_all body)) as [|pos l]; [done|]. simpl. by rewrite take_0.
Qed.

(** A call of os.Exit at a position. *)
Definition os_exit (pos : nat) : node := OtherNode [SelectorExpr "Exit" (Some ("os", pos)) []].

Lemma osexit_reports_witness :
  osExitChecker [mkFile "main" (OtherNode [FuncDecl "first" [os_exit 1]; FuncDecl "main" []; FuncDecl "last" [os_exit 2; os_exit 3]])] = [2%nat].
Proof.
  apply (osexit_reports [] [] [FuncDecl "first" [os_exit 1]] [] [FuncDecl "last" [os_exit 2; os_exit 3]]).
  - constructor.
  - intros H. vm_compute in H. apply list_elem_of_singleton in H. discriminate H.
  - intros H. by apply elem_of_nil in H.
  - intros H. vm_compute in H. apply elem_of_cons in H as [H|H]; [discriminate H|].
    apply list_elem_of_singleton in H. discriminate H.
Defined.
